(* ===== verification/_CoqProject ===== *)
-Q . S2P
Prelude.v
Util.v
Logger.v
Config.v
Resp.v
RespFacts.v
Fuzz.v
Storage.v
StorageFacts.v
StorageSpec.v
StorageSweep.v
StorageRefine.v
StorageProps.v
Restore.v
Fs.v
FsFacts.v
Aof.v
Snapshot.v
ConfigLoader.v
ConfigFacts.v
Metrics.v
Commands.v
ConfigProps.v
Recovery.v
PersistFacts.v
ManifestFacts.v
WriterFacts.v
CommandFacts.v
RecoveryFacts.v
RecoveryProps.v
Frames.v
KvSpec.v
KvFacts.v
KvRefine.v
Durability.v
Net.v
NetFacts.v
NetInv.v
NetProps.v
Clients.v
EndToEnd.v
Server.v
ServerFacts.v
ServerProps.v
CommandProps.v
LogProps.v
Wakeup.v
Threads.v
ThreadFacts.v
ThreadProps.v
Undated.v
KvLocal.v
Follow.v
Rewriting.v
Linear.v
Findings.v
