(* ===== verification/Prelude.v ===== *)
(** * A verification of VeloxDB

    VeloxDB is an in-memory key-value server that speaks the Redis protocol,
    with a sharded store, expiry, an append-only log, snapshots, and a
    multi-threaded TCP front end.  This library models the server as executable
    definitions and proves what it promises.  Paths below are relative to
    [src/].

    ** The program and its model

    Bytes.  A [std::string] or a file's content is a list of characters
    ([Prelude]).  Machine integers are [Z]; operations that can wrap are
    written with [u64] and [i64] ([i64] also stands for signed overflow, which
    C++ leaves undefined).  Stateful code is in a state monad ([St]); the
    notation is stdpp's.

    Utilities, configuration records ([Util], [Config]): [src/util/string.cpp],
    [status.cpp], the levels of [logger.cpp], [include/veloxdb/config/config.h].
    [Logger]: the object of [logger.cpp] and the lines it writes, with the
    calendar that their timestamps need.

    Protocol ([Resp]): [src/protocol/resp.cpp].  [Parser] is the class with its
    buffer; every branch of [parse_at] and [parse_inline] is there.  Reading
    outside the buffer is the result [VFault] or [CFault].  [RespFacts] has the
    parser's theory; [Fuzz] models [fuzz/resp_parser_fuzzer.cpp].

    Storage ([Storage]): [src/storage/storage_engine.cpp].  A [StorageEngine] is
    a list of shards, each a finite map with its memory and expiry cursor; an
    operation is the body of its critical section, with the clock reading it
    takes as an argument.  [Platform] has what the language leaves open: the
    hash, the order in which a map is traversed, and when allocation fails.
    [StorageSpec] is the abstract map with deadlines; [StorageFacts],
    [StorageSweep] and [StorageRefine] relate the two; [StorageProps] has the
    theorems; [Restore] the effect of loading entries back.

    Files ([Fs]): a directory of descriptors and their contents, and a list of
    outcomes that the coming system calls take (success, short write,
    interruption, error), so that a theorem about all [Sys] is about all
    failures.  [FsFacts] has the rules for its operations.

    Persistence ([Aof], [Snapshot]): [src/persistence/aof.cpp] and
    [snapshot.cpp], with [PersistFacts], [ManifestFacts] and [WriterFacts].

    Configuration loader ([ConfigLoader]): [src/config/config.cpp], with
    [ConfigFacts] and [ConfigProps]; [getenv] is a parameter.

    Commands ([Metrics], [Commands]): [src/metrics/metrics.cpp],
    [src/commands/commands.cpp] and [command_registry.cpp].  [World] holds every
    object a command context refers to; a handler is a computation in [CmdM].
    [CommandFacts] and [Frames] say what handlers leave alone.

    Startup ([Recovery]): [src/main.cpp] from the configuration to the start of
    the server, with [RecoveryFacts] and [RecoveryProps].

    TCP server ([Net]): [src/net/tcp_server.cpp].  A [Connection], a [Worker]
    with its connections and its [epoll] interest, one turn of either event
    loop, and [accept_ready].  What [read], [write], [accept] and [epoll_ctl]
    return are arguments.  [NetFacts], [NetInv] and [NetProps] have its theory;
    in [NetProps] the server is a transition system whose steps are turns.

    Process ([Server]): the listener, the worker threads' descriptors, the
    accept loop, [src/server/server.cpp], and all of [main].  Workers and the
    accept loop record the clients' sockets they were given and closed, as
    multisets, so that the account can be balanced when the server ends.
    [ServerFacts] and [ServerProps] have its theory.

    Handover ([Wakeup]): the pending list, the flag and the wake-up pipe by
    which the accept thread of [tcp_server.cpp] passes connections to a worker
    and stops it, one system call or critical section at a time.

    Threads ([Threads]): the handlers again, at the grain at which workers
    interleave.  A handler is a program ([Prog]) whose actions are critical
    sections of one shard, atomic loads and stores and system calls, with the
    points at which it takes and drops the log's [shared_mutex] (the guards of
    [include/veloxdb/persistence/aof.h]); a [Machine] is a pool of threads (workers with requests, the
    expiration thread, the log's own thread) that a schedule moves one action
    at a time.  [ThreadFacts] and [ThreadProps] relate a program run alone to
    the handler of [Commands] and treat the lock; [Undated], [KvLocal] and
    [Follow] follow one command through the actions of the others, and
    [Rewriting] a rewrite of the log; [Linear] puts all threads together.

    ** What the theorems show

    The theorems on durability and concurrency are for a server with the log on
    and without a memory limit ([durable_config]; the shipped default limits
    memory to 1 GiB), for commands without deadlines, while no system call or
    allocation fails and the log stays within [max_request_bytes].

    - The whole server: for any number of clients with their traffic cut and
      interleaved in any way, a delivery at a time, there is one order of
      execution in which every client is sent exactly the replies that a
      specification of one plain map gives, and after a crash the next server
      shows that map ([EndToEnd.end_to_end], over [Clients] and [Durability]).
    - Durability: over any number of servers run one after the other on one
      directory and killed at any point, the acknowledged commands are exactly
      what the next server shows ([Durability.durable]).  It rests on
      [Durability.commands_refine]: the handlers implement the specification
      [KvSpec] of the key-value commands over any journal (the class [Journal]
      of [KvRefine]; the server's log and a replay are its two instances).
    - Concurrency: threads on a database without deadlines are linearizable for
      commands on at most one key, whatever the interleaving of their actions,
      with rewrites of the log and background rounds among them
      ([Linear.linearizable]); when they write different keys, a crash at any
      moment, also in the middle of a rewrite, loses nothing that was answered
      ([Linear.concurrent_durable]); the
      lock never blocks threads for ever and excludes mutation guards during
      checkpoints ([ThreadProps.schedules_end]); and a command that runs alone
      is exactly the one step of [Commands] that the other theorems are about
      ([ThreadProps.job_alone]).  Accepted connections reach their worker
      without a lost wake-up ([Wakeup.handover]).
    - The storage engine refines one plain map with deadlines, accounts memory
      exactly, and each operation does what it should on every branch
      ([StorageProps]).
    - A rewritten log restores the database, whatever manifest was there before;
      so does a saved snapshot with what was logged after it; a rewrite is
      atomic; a torn log tail is ignored; appends keep what was there; startup
      always ends ([RecoveryProps]).
    - Under failures of the disk, commands only append to the log, and a torn
      record is always reported to the client ([LogProps]).
    - Parsing does not depend on how the input is cut, encodings are read back,
      limits hold, and the parser stays inside its buffer ([RespFacts], [Fuzz]).
    - A client receives exactly the replies of its commands in order; clients
      are counted; buffers are bounded; turns end; replies are delivered
      ([NetProps]).
    - Malformed requests change nothing ([CommandProps]).
    - The loader's precedence, the well-formedness of what it accepts, and
      [CONFIG GET] ([ConfigFacts], [ConfigProps]).
    - The process heeds requests to stop and exits with the right code; its own
      descriptors and the log's are closed then, and every client's socket was
      closed exactly once, except for those still waiting in a worker's queue
      ([ServerProps]).
    - A log call writes one line if its level is enabled, with the timestamp of
      the clock's millisecond ([Logger.log_correct]).

    [Findings] has concrete runs of behaviours that look unintended.

    ** Bounds and fuel

    Loops that are not structural carry fuel, and running out is a distinct
    result ([None], [OutOfFuel], [Stuck] or [NoFuel]) that the termination
    theorems exclude.  The search for the year of a date gets one step more
    than there are periods of 365 days, and its lemma shows that it ends inside
    a year.  The parser's depth is [kMaxDepth] of the source.  A
    command loop gets one step more than there are buffered bytes, since every
    command takes at least one.  The parser theorems ask that
    [max_request_bytes] be at most [SIZE_MAX - 2] ([limits_fit]), without which
    the source's size computations wrap.  The client count asks for at most
    [2^32] workers, so that it fits [size_t]; descriptors are non-negative
    [int]s.

    ** Not modelled

    - Interleavings finer than those of [Threads], and weak memory: a critical
      section of a shard, an append to the log under its mutex, a loop of
      [write] calls on a private file and the reading of the counters of [INFO]
      are one action each.  The theorems about the network and the process
      ([Net], [Server], [EndToEnd]) take a worker's turn as one step;
      linearizability is for commands on one key, since those on several ([DEL]
      of many, [MSET], [FLUSHDB], [DBSIZE]) lock one shard after the other.
      That two writes of one key may be logged in the other order is shown in
      [Findings], and is why [Linear.concurrent_durable] asks for different
      keys.  [SAVE] among other threads is covered by the theorems on the lock
      and on jobs that run alone, not by those on linearizability.
    - The calls to the logger in the other components: nothing reads the lines
      back.
    - The variant of the accept loop for systems without [epoll]; that of the
      worker's loop is in [Net].
    - Time spent waiting (sleeps, timeouts): a wait returns whatever it returns.
    - Exceptions other than those of allocation in the store: the parser's, the
      commands' and the network's allocations succeed; [std::thread] and the
      standard library's own failures.
    - Contention on the memory counter: the compare-and-exchange loops of
      [reserve_memory] and [release_memory] are uncontended updates.
    - The order of a map is a function of its contents ([map_order]), of which
      the theorems use only that it is a permutation.
    - A machine that stops: a crash is the death of the process, and what it
      wrote is in the files; whether [fsync] was called makes no difference.
      Files are found by the text of their path, so two names of one file are
      two files.
    - Endless input: the deliveries to a socket in one turn are a finite list.
    - The specification of commands in [KvSpec] is for databases without
      deadlines; expiry is covered by the storage engine's theorems.
    - Tests, benchmarks, scripts and packaging, which are not part of the
      server. *)
From Stdlib Require Export ZArith Ascii Lia.
From stdpp Require Export base gmap strings list numbers option.

(** * Bytes

    A [std::string], a [std::string_view] and a file's content are all byte
    sequences: a list of characters. *)

Abbreviation bytes := (list ascii).

Declare Scope velox_scope.
Delimit Scope velox_scope with velox.
Global Open Scope Z_scope.

(** A string literal of the source. *)
Definition lit (s : string) : bytes := String.list_ascii_of_string s.

(** Carriage return, line feed and the two-byte line terminator of RESP. *)
Definition CR : ascii := Ascii.ascii_of_nat 13.
Definition LF : ascii := Ascii.ascii_of_nat 10.
Definition crlf : bytes := [CR; LF].

(** [size()] of a byte sequence, as a [size_t]. *)
Definition bsize (b : bytes) : Z := Z.of_nat (length b).

(** Character code, 0..255: the value of [static_cast<unsigned char>]. *)
Definition code (c : ascii) : Z := Z.of_N (Ascii.N_of_ascii c).

(** * Machine integers *)

(** Reduction of an unsigned 64-bit result ([size_t], [uint64_t]). *)
Definition u64 (z : Z) : Z := z mod 2 ^ 64.

(** Two's-complement reduction of a signed 64-bit result.  Signed overflow is
    undefined behaviour in C++; where the model has to give such an operation
    a value it is this one. *)
Definition i64 (z : Z) : Z := (z + 2 ^ 63) mod 2 ^ 64 - 2 ^ 63.

Definition u64_max : Z := 2 ^ 64 - 1.
Definition i64_max : Z := 2 ^ 63 - 1.
Definition i64_min : Z := - 2 ^ 63.

Definition is_i64 (z : Z) : Prop := i64_min <= z <= i64_max.
Definition is_u64 (z : Z) : Prop := 0 <= z <= u64_max.

Lemma u64_small z : 0 <= z < 2 ^ 64 -> u64 z = z.
Proof. apply Z.mod_small. Qed.

Lemma u64_range z : is_u64 (u64 z).
Proof.
  unfold is_u64, u64, u64_max.
  pose proof (Z.mod_pos_bound z (2 ^ 64)). lia.
Qed.

Lemma i64_small z : is_i64 z -> i64 z = z.
Proof.
  unfold is_i64, i64_min, i64_max, i64. intros. rewrite Z.mod_small; lia.
Qed.

Lemma i64_range z : is_i64 (i64 z).
Proof.
  unfold is_i64, i64, i64_min, i64_max.
  pose proof (Z.mod_pos_bound (z + 2 ^ 63) (2 ^ 64)). lia.
Qed.

Lemma u64_add_l a b : u64 (u64 a + b) = u64 (a + b).
Proof. unfold u64. apply Zplus_mod_idemp_l. Qed.

Lemma u64_sub_l a b : u64 (u64 a - b) = u64 (a - b).
Proof. unfold u64. apply Zminus_mod_idemp_l. Qed.

Lemma u64_add_r a b : u64 (a + u64 b) = u64 (a + b).
Proof. unfold u64. apply Zplus_mod_idemp_r. Qed.

Lemma u64_sub_r a b : u64 (a - u64 b) = u64 (a - b).
Proof. unfold u64. apply Zminus_mod_idemp_r. Qed.

Lemma u64_idemp a : u64 (u64 a) = u64 a.
Proof. unfold u64. apply Zmod_mod. Qed.

Create HintDb velox.
Create Rewrite HintDb u64.
Create Rewrite HintDb bsize.
#[export] Hint Resolve u64_range i64_range : velox.
#[export] Hint Rewrite u64_add_l u64_add_r u64_sub_l u64_sub_r u64_idemp : u64.

(** * A state monad

    Code that updates shared objects is a function from the state before to
    the result and the state after; stdpp's monad notation sequences it. *)

Definition St (S A : Type) : Type := S -> A * S.

#[export] Instance St_ret S : MRet (St S) := fun A a s => (a, s).
#[export] Instance St_bind S : MBind (St S) :=
  fun A B (f : A -> St S B) (m : St S A) s => let '(a, s') := m s in f a s'.
#[export] Instance St_fmap S : FMap (St S) :=
  fun A B (f : A -> B) (m : St S A) s => let '(a, s') := m s in (f a, s').

Definition st_get {S} : St S S := fun s => (s, s).
Definition st_put {S} (s : S) : St S unit := fun _ => (tt, s).
Definition st_modify {S} (f : S -> S) : St S unit := fun s => (tt, f s).

Lemma st_bind_eq {S A B} (m : St S A) (f : A -> St S B) s :
  (m ≫= f) s = f (m s).1 (m s).2.
Proof. unfold mbind, St_bind. by destruct (m s). Qed.

Lemma st_ret_bind {S A B} (a : A) (f : A -> St S B) s : (mret a ≫= f) s = f a s.
Proof. done. Qed.

(** Weakest preconditions: running [m] from [s] ends in a result and a state
    that satisfy [Q]. *)
Definition wp {S A} (m : St S A) (Q : A -> S -> Prop) (s : S) : Prop := Q (m s).1 (m s).2.

Lemma wp_ret {S A} (a : A) (Q : A -> S -> Prop) s : Q a s -> wp (mret a) Q s.
Proof. done. Qed.

Lemma wp_bind {S A B} (m : St S A) (f : A -> St S B) (Q : B -> S -> Prop) s :
  wp m (fun a => wp (f a) Q) s -> wp (m ≫= f) Q s.
Proof. unfold wp. by rewrite st_bind_eq. Qed.

Lemma wp_mono {S A} (m : St S A) (P Q : A -> S -> Prop) s :
  wp m P s -> (forall a s', P a s' -> Q a s') -> wp m Q s.
Proof. unfold wp. auto. Qed.

Lemma wp_and {S A} (m : St S A) (P Q : A -> S -> Prop) s : wp m P s -> wp m Q s -> wp m (fun a s' => P a s' /\ Q a s') s.
Proof. by split. Qed.

Lemma wp_any {S A} (m : St S A) (Q : A -> S -> Prop) s : (forall a s', Q a s') -> wp m Q s.
Proof. unfold wp. auto. Qed.

Lemma wp_run {S A} (m : St S A) (Q : A -> S -> Prop) s a s' :
  wp m Q s -> m s = (a, s') -> Q a s'.
Proof. unfold wp. intros HQ Hm. by rewrite Hm in HQ. Qed.

(** * Tactics *)

(** Turns the boolean tests of the model into propositions. *)
Ltac bool_to_prop :=
  repeat match goal with
  | H : (_ && _) = true |- _ => apply andb_true_iff in H as [? ?]
  | H : (_ || _) = false |- _ => apply orb_false_iff in H as [? ?]
  | H : negb _ = true |- _ => apply negb_true_iff in H
  | H : negb _ = false |- _ => apply negb_false_iff in H
  | H : (_ <? _)%Z = true |- _ => apply Z.ltb_lt in H
  | H : (_ <? _)%Z = false |- _ => apply Z.ltb_ge in H
  | H : (_ <=? _)%Z = true |- _ => apply Z.leb_le in H
  | H : (_ <=? _)%Z = false |- _ => apply Z.leb_gt in H
  | H : (_ =? _)%Z = true |- _ => apply Z.eqb_eq in H
  | H : (_ =? _)%Z = false |- _ => apply Z.eqb_neq in H
  | H : (_ >? _)%Z = true |- _ => rewrite Z.gtb_ltb in H; apply Z.ltb_lt in H
  | H : (_ >? _)%Z = false |- _ => rewrite Z.gtb_ltb in H; apply Z.ltb_ge in H
  | H : (_ >=? _)%Z = true |- _ => rewrite Z.geb_leb in H; apply Z.leb_le in H
  | H : (_ >=? _)%Z = false |- _ => rewrite Z.geb_leb in H; apply Z.leb_gt in H
  | H : bool_decide _ = true |- _ => apply bool_decide_eq_true_1 in H
  | H : bool_decide _ = false |- _ => apply bool_decide_eq_false_1 in H
  end.

(** Splits on the innermost test or match of the goal. *)
Ltac split_match :=
  match goal with
  | |- context [ if ?b then _ else _ ] => destruct b eqn:?
  | |- context [ match ?x with _ => _ end ] => destruct x eqn:?
  end.

(** * Lists *)

Lemma bsize_app a b : bsize (a ++ b) = bsize a + bsize b.
Proof. unfold bsize. rewrite length_app. lia. Qed.

Lemma bsize_nonneg b : 0 <= bsize b.
Proof. unfold bsize. lia. Qed.

Lemma bsize_cons c b : bsize (c :: b) = 1 + bsize b.
Proof. unfold bsize. simpl. lia. Qed.

#[export] Hint Resolve bsize_nonneg : velox.
#[export] Hint Rewrite bsize_app bsize_cons : bsize.

(** Induction that takes two elements at a time. *)
Lemma list_pair_ind {A} (P : list A -> Prop) :
  P [] -> (forall a, P [a]) -> (forall a b l, P l -> P (a :: b :: l)) -> forall l, P l.
Proof.
  intros H0 H1 H2 l. enough (P l /\ forall a, P (a :: l)) by tauto.
  induction l as [|b l [IH1 IH2]]; [by split|]. split; [apply IH2|]. intros a. by apply H2.
Qed.

Lemma NoDup_fst_filter {A B} (P : A * B -> Prop) `{forall x, Decision (P x)} (l : list (A * B)) :
  NoDup l.*1 -> NoDup (filter P l).*1.
Proof.
  induction l as [|[a b] l IH]; [done|]. cbn [fmap list_fmap fst].
  intros [Ha Hn]%list.NoDup_cons. rewrite filter_cons. case_decide; [|by apply IH].
  cbn [fmap list_fmap fst]. apply list.NoDup_cons. split; [|by apply IH].
  intros Hin. apply Ha. apply list_elem_of_fmap in Hin as ([a' b'] & -> & Hin).
  apply list_elem_of_filter in Hin as [_ Hin]. apply list_elem_of_fmap. by exists (a', b').
Qed.
