(* ===== verification/Util.v ===== *)
(** String utilities: [src/util/string.cpp], the status type of
    [include/veloxdb/util/status.h] and [src/util/status.cpp], and the level
    names of [src/util/logger.cpp].

    The file also fixes the part of the C++ standard library these use:
    [isspace]/[tolower]/[toupper] in the C locale, [std::from_chars] in base
    ten and [std::to_string]. *)
From S2P Require Import Prelude.

(** * Character classes (C locale) *)

Definition isspace (c : ascii) : bool :=
  (code c =? 32) || ((9 <=? code c) && (code c <=? 13)).

Definition isdigit (c : ascii) : bool := (48 <=? code c) && (code c <=? 57).

Definition of_code (z : Z) : ascii := Ascii.ascii_of_N (Z.to_N z).

Definition tolower (c : ascii) : ascii :=
  if (65 <=? code c) && (code c <=? 90) then of_code (code c + 32) else c.

Definition toupper (c : ascii) : ascii :=
  if (97 <=? code c) && (code c <=? 122) then of_code (code c - 32) else c.

(** * Decimal numbers *)

(** The longest prefix whose characters satisfy [p], and what follows it. *)
Fixpoint span (p : ascii -> bool) (s : bytes) : bytes * bytes :=
  match s with
  | [] => ([], [])
  | c :: r => if p c then let '(a, b) := span p r in (c :: a, b) else ([], s)
  end.

Definition digit_value (c : ascii) : Z := code c - 48.

Definition digits_value (ds : bytes) : Z :=
  fold_left (fun acc c => 10 * acc + digit_value c) ds 0.

Inductive errc := errc_ok | errc_invalid_argument | errc_result_out_of_range.

#[export] Instance errc_eq_dec : EqDecision errc.
Proof. solve_decision. Defined.

(** [std::from_chars(first, last, value, 10)]: an optional minus sign for a
    signed target, then the longest run of digits.  Returns the error code,
    the number of characters consumed ([ptr - first]) and the value. *)
Definition from_chars (signed : bool) (lo hi : Z) (s : bytes) : errc * nat * Z :=
  let '(neg, body) :=
    match s with
    | c :: r => if signed && bool_decide (c = "-"%char) then (true, r) else (false, s)
    | [] => (false, s)
    end in
  let '(ds, _) := span isdigit body in
  match ds with
  | [] => (errc_invalid_argument, 0%nat, 0)
  | _ =>
      let consumed := (length ds + (if neg : bool then 1 else 0))%nat in
      let v := if neg then - digits_value ds else digits_value ds in
      if (lo <=? v) && (v <=? hi) then (errc_ok, consumed, v)
      else (errc_result_out_of_range, consumed, 0)
  end.

(** The idiom shared by [parse_number_line], [parse_integer_value],
    [parse_i64] and [parse_u64]: the conversion succeeded and consumed the
    whole text. *)
Definition from_chars_all (signed : bool) (lo hi : Z) (s : bytes) : option Z :=
  let '(ec, ptr, v) := from_chars signed lo hi s in
  if negb (bool_decide (ec = errc_ok)) || negb (bool_decide (ptr = length s)) then None
  else Some v.

(** Decimal digits of a non-negative number, most significant first; [fuel]
    bounds the number of digits. *)
Fixpoint dec_digits (fuel : nat) (n : Z) (acc : bytes) : bytes :=
  match fuel with
  | O => acc
  | S f =>
      let acc' := of_code (48 + n mod 10) :: acc in
      if n <? 10 then acc' else dec_digits f (n / 10) acc'
  end.

(** [std::to_string] of a 64-bit integer: at most 20 digits. *)
Definition to_string (z : Z) : bytes :=
  if z <? 0 then "-"%char :: dec_digits 20 (- z) [] else dec_digits 20 z [].

(** * src/util/string.cpp *)

Definition lstrip (s : bytes) : bytes := (span isspace s).2.

Definition trim (input : bytes) : bytes := reverse (lstrip (reverse (lstrip input))).

Definition to_upper_ascii (input : bytes) : bytes := toupper <$> input.

Definition to_lower_ascii (input : bytes) : bytes := tolower <$> input.

Fixpoint iequals (lhs rhs : bytes) : bool :=
  match lhs, rhs with
  | [], [] => true
  | a :: l, b :: r => bool_decide (tolower a = tolower b) && iequals l r
  | _, _ => false
  end.

Fixpoint split_words_loop (fuel : nat) (line : bytes) : list bytes :=
  match fuel with
  | O => []
  | S f =>
      match line with
      | [] => []
      | _ =>
          let '(_, rest) := span isspace line in
          let '(word, rest') := span (fun c => negb (isspace c)) rest in
          match word with
          | [] => split_words_loop f rest'
          | _ => word :: split_words_loop f rest'
          end
      end
  end.

Definition split_words (line : bytes) : list bytes :=
  split_words_loop (S (length line)) line.

Definition parse_i64 (input : bytes) : option Z :=
  let trimmed := trim input in
  match trimmed with
  | [] => None
  | _ => from_chars_all true i64_min i64_max trimmed
  end.

Definition parse_u64 (input : bytes) : option Z :=
  let trimmed := trim input in
  match trimmed with
  | [] => None
  | c :: _ =>
      if bool_decide (c = "-"%char) then None
      else from_chars_all false 0 u64_max trimmed
  end.

Definition beq (a b : bytes) : bool := bool_decide (a = b).

Definition parse_bool (input : bytes) : option bool :=
  let value := to_lower_ascii (trim input) in
  if beq value (lit "1") || beq value (lit "true") || beq value (lit "yes") || beq value (lit "on")
  then Some true
  else if beq value (lit "0") || beq value (lit "false") || beq value (lit "no")
          || beq value (lit "off")
  then Some false
  else None.

(** The [strip_suffix] lambda: the shortened value when [suffix] ends it. *)
Definition strip_suffix (suffix value : bytes) : option bytes :=
  let n := (length value - length suffix)%nat in
  if (length suffix <=? length value)%nat && beq (drop n value) suffix
  then Some (take n value) else None.

(** The [||] chain over the suffixes: the first that matches wins. *)
Fixpoint first_suffix (table : list (bytes * Z)) (value : bytes) : bytes * Z :=
  match table with
  | [] => (value, 1)
  | (suffix, factor) :: rest =>
      match strip_suffix suffix value with
      | Some v => (v, factor)
      | None => first_suffix rest value
      end
  end.

Definition byte_suffixes : list (bytes * Z) :=
  [ (lit "kb", 1024); (lit "k", 1024);
    (lit "mb", 1024 * 1024); (lit "m", 1024 * 1024);
    (lit "gb", 1024 * 1024 * 1024); (lit "g", 1024 * 1024 * 1024) ].

Definition parse_byte_size (input : bytes) : option Z :=
  let value := to_lower_ascii (trim input) in
  match value with
  | [] => None
  | _ =>
      let '(stripped, multiplier) := first_suffix byte_suffixes value in
      match parse_u64 stripped with
      | None => None
      | Some parsed =>
          if u64_max / multiplier <? parsed then None
          else Some (u64 (parsed * multiplier))
      end
  end.

Definition shell_quote (input : bytes) : bytes :=
  lit "'" ++
  flat_map (fun ch => if bool_decide (ch = "'"%char) then lit "'\''" else [ch]) input ++
  lit "'".

(** * Status *)

Inductive StatusCode :=
  | Ok | InvalidArgument | NotFound | ResourceExhausted | IOError | ProtocolError | InternalError.

#[export] Instance StatusCode_eq_dec : EqDecision StatusCode.
Proof. solve_decision. Defined.

Record Status := MkStatus { st_code : StatusCode; message : bytes }.

Definition status_ok : Status := MkStatus Ok [].
Definition ok_status (s : Status) : bool := bool_decide (st_code s = Ok).

Definition code_name (c : StatusCode) : bytes :=
  match c with
  | Ok => lit "ok"
  | InvalidArgument => lit "invalid argument"
  | NotFound => lit "not found"
  | ResourceExhausted => lit "resource exhausted"
  | IOError => lit "io error"
  | ProtocolError => lit "protocol error"
  | InternalError => lit "internal error"
  end.

Definition status_to_string (s : Status) : bytes :=
  if ok_status s then lit "OK" else code_name (st_code s) ++ lit ": " ++ message s.

(** * Log levels *)

Inductive LogLevel := Trace | Debug | Info | Warn | LError | Off.

#[export] Instance LogLevel_eq_dec : EqDecision LogLevel.
Proof. solve_decision. Defined.

Definition level_int (l : LogLevel) : Z :=
  match l with Trace => 0 | Debug => 1 | Info => 2 | Warn => 3 | LError => 4 | Off => 5 end.

(** [Logger::enabled] for the configured level [cur]. *)
Definition log_enabled (cur level : LogLevel) : bool :=
  (level_int cur <=? level_int level) && negb (bool_decide (level = Off)).

Definition parse_log_level (value : bytes) : LogLevel :=
  let lower := to_lower_ascii value in
  if beq lower (lit "trace") then Trace
  else if beq lower (lit "debug") then Debug
  else if beq lower (lit "warn") || beq lower (lit "warning") then Warn
  else if beq lower (lit "error") then LError
  else if beq lower (lit "off") then Off
  else Info.

Definition log_level_name (level : LogLevel) : bytes :=
  match level with
  | Trace => lit "trace" | Debug => lit "debug" | Info => lit "info"
  | Warn => lit "warn" | LError => lit "error" | Off => lit "off"
  end.

(** * Lemmas: characters and spans *)

Lemma code_range c : 0 <= code c < 256.
Proof.
  unfold code. pose proof (Ascii.N_ascii_bounded c). lia.
Qed.

Lemma code_of_code z : 0 <= z < 256 -> code (of_code z) = z.
Proof.
  intros. unfold code, of_code. rewrite Ascii.N_ascii_embedding; lia.
Qed.

Lemma of_code_code c : of_code (code c) = c.
Proof.
  unfold code, of_code. rewrite N2Z.id. apply Ascii.ascii_N_embedding.
Qed.

Lemma code_inj a b : code a = code b -> a = b.
Proof. intros H. rewrite <- (of_code_code a), H. apply of_code_code. Qed.

Lemma code_tolower c :
  code (tolower c) = if (65 <=? code c) && (code c <=? 90) then code c + 32 else code c.
Proof.
  unfold tolower. destruct (_ && _) eqn:?; [|done]. bool_to_prop.
  apply code_of_code. lia.
Qed.

Lemma code_toupper c :
  code (toupper c) = if (97 <=? code c) && (code c <=? 122) then code c - 32 else code c.
Proof.
  unfold toupper. destruct (_ && _) eqn:?; [|done]. bool_to_prop.
  apply code_of_code. lia.
Qed.

(** A statement about one character, decided on all 256 of them. *)
Ltac char_cases := match goal with c : ascii |- _ => destruct c as [[][][][][][][][]]; reflexivity end.

Lemma toupper_idemp c : toupper (toupper c) = toupper c.
Proof. char_cases. Qed.

Lemma tolower_idemp c : tolower (tolower c) = tolower c.
Proof. char_cases. Qed.

Lemma toupper_tolower c : toupper (tolower c) = toupper c.
Proof. char_cases. Qed.

Lemma tolower_toupper c : tolower (toupper c) = tolower c.
Proof. char_cases. Qed.

Definition starts_not (p : ascii -> bool) (s : bytes) : Prop :=
  match s with [] => True | c :: _ => p c = false end.

Lemma span_spec p s a b :
  span p s = (a, b) -> s = a ++ b /\ Forall (fun c => p c = true) a /\ starts_not p b.
Proof.
  revert a b. induction s as [|c s IH]; simpl; intros a b H; simplify_eq; [done|].
  destruct (p c) eqn:Hp.
  - destruct (span p s) as [a' b'] eqn:Hs. simplify_eq.
    destruct (IH _ _ eq_refl) as (-> & ? & ?). auto.
  - simplify_eq. auto.
Qed.

Lemma span_app p a b :
  Forall (fun c => p c = true) a -> starts_not p b -> span p (a ++ b) = (a, b).
Proof.
  intros Ha Hb. induction Ha as [|c a Hc _ IH]; simpl.
  - destruct b as [|c b]; simpl in *; [done|]. by rewrite Hb.
  - by rewrite Hc, IH.
Qed.

Lemma span_all p a : Forall (fun c => p c = true) a -> span p a = (a, []).
Proof. intros. rewrite <- (app_nil_r a) at 1. by apply span_app. Qed.

Lemma span_none p b : starts_not p b -> span p b = ([], b).
Proof. apply (span_app p []). constructor. Qed.

(** * Lemmas: decimal conversion *)

Lemma isdigit_of_code d : 0 <= d <= 9 -> isdigit (of_code (48 + d)) = true.
Proof.
  intros. unfold isdigit. rewrite code_of_code by lia.
  apply andb_true_iff. split; apply Z.leb_le; lia.
Qed.

Lemma fold_digits ds acc :
  fold_left (fun a c => 10 * a + digit_value c) ds acc
  = acc * 10 ^ Z.of_nat (length ds) + digits_value ds.
Proof.
  unfold digits_value. revert acc. induction ds as [|d ds IH]; intros acc.
  - simpl. lia.
  - cbn [fold_left length]. rewrite IH, (IH (10 * 0 + _)).
    rewrite Nat2Z.inj_succ, Z.pow_succ_r by lia. ring.
Qed.

Lemma digits_value_cons d ds :
  digits_value (d :: ds) = digit_value d * 10 ^ Z.of_nat (length ds) + digits_value ds.
Proof.
  unfold digits_value at 1. cbn [fold_left]. rewrite fold_digits. ring.
Qed.

Lemma dec_digits_spec fuel n acc :
  (0 < fuel)%nat -> 0 <= n < 10 ^ Z.of_nat fuel ->
  exists ds, dec_digits fuel n acc = ds ++ acc /\ ds <> [] /\ (length ds <= fuel)%nat /\
    Forall (fun c => isdigit c = true) ds /\ digits_value ds = n.
Proof.
  revert n acc. induction fuel as [|f IH]; intros n acc Hf Hn; [lia|].
  rewrite Nat2Z.inj_succ, Z.pow_succ_r in Hn by lia. cbn [dec_digits].
  pose proof (Z.mod_pos_bound n 10 ltac:(lia)) as Hm.
  assert (Hd : digit_value (of_code (48 + n mod 10)) = n mod 10).
  { unfold digit_value. rewrite code_of_code; lia. }
  destruct (Z.ltb_spec n 10).
  - exists [of_code (48 + n mod 10)].
    repeat split; simpl; try lia; try done.
    + constructor; [apply isdigit_of_code; lia | constructor].
    + unfold digits_value. cbn [fold_left]. rewrite Hd, Z.mod_small; lia.
  - assert (0 < f)%nat. { destruct f; [simpl in Hn; lia | lia]. }
    destruct (IH (n / 10) (of_code (48 + n mod 10) :: acc)) as (ds & -> & Hne & Hl & Hall & Hv);
      [done | split; [apply Z.div_pos; lia | apply Z.div_lt_upper_bound; lia] |].
    exists (ds ++ [of_code (48 + n mod 10)]). repeat split.
    + by rewrite <- app_assoc.
    + by destruct ds.
    + rewrite length_app. simpl. lia.
    + apply Forall_app. split; [done|]. constructor; [apply isdigit_of_code; lia | constructor].
    + unfold digits_value. rewrite fold_left_app. fold (digits_value ds). simpl.
      rewrite Hv, Hd. rewrite (Z.div_mod n 10) at 3 by lia. lia.
Qed.

Lemma dec_digits_20 n :
  0 <= n <= u64_max ->
  exists ds, dec_digits 20 n [] = ds /\ ds <> [] /\ (length ds <= 20)%nat /\
    Forall (fun c => isdigit c = true) ds /\ digits_value ds = n.
Proof.
  intros Hn. destruct (dec_digits_spec 20 n []) as (ds & H & ?); [lia| |].
  - unfold u64_max in Hn. split; [lia|].
    apply Z.le_lt_trans with (2 ^ 64 - 1); [lia | reflexivity].
  - exists ds. rewrite H, app_nil_r. done.
Qed.

(** The shape of a rendered number: an optional minus sign before at least
    one and at most twenty digits. *)
Lemma to_string_shape z :
  - u64_max <= z <= u64_max ->
  exists ds, to_string z = (if z <? 0 then ["-"%char] else []) ++ ds /\ ds <> [] /\
    (length ds <= 20)%nat /\ Forall (fun c => isdigit c = true) ds /\
    digits_value ds = Z.abs z.
Proof.
  intros Hz. unfold to_string. destruct (Z.ltb_spec z 0).
  - destruct (dec_digits_20 (- z)) as (ds & -> & ? & ? & ? & ?); [lia|].
    exists ds. repeat split; try done. lia.
  - destruct (dec_digits_20 z) as (ds & -> & ? & ? & ? & ?); [lia|].
    exists ds. repeat split; try done. lia.
Qed.

Lemma isdigit_not_minus c : isdigit c = true -> c <> "-"%char.
Proof. intros H ->. vm_compute in H. done. Qed.

Lemma isdigit_not_space c : isdigit c = true -> isspace c = false.
Proof.
  unfold isdigit, isspace. intros. bool_to_prop.
  apply orb_false_iff. split; [apply Z.eqb_neq; lia|].
  apply andb_false_iff. right. apply Z.leb_gt. lia.
Qed.

Lemma from_chars_digits signed lo hi ds :
  ds <> [] -> Forall (fun c => isdigit c = true) ds -> lo <= digits_value ds <= hi ->
  from_chars signed lo hi ds = (errc_ok, length ds, digits_value ds).
Proof.
  intros Hne Hall Hr. unfold from_chars.
  destruct ds as [|d ds]; [done|].
  assert (Hd : isdigit d = true) by (by inversion Hall).
  rewrite (bool_decide_eq_false_2 (d = _)) by (by apply isdigit_not_minus).
  rewrite andb_false_r, span_all by done.
  rewrite Nat.add_0_r.
  rewrite (proj2 (Z.leb_le _ _)), (proj2 (Z.leb_le _ _)) by lia. done.
Qed.

Lemma from_chars_minus lo hi ds :
  ds <> [] -> Forall (fun c => isdigit c = true) ds -> lo <= - digits_value ds <= hi ->
  from_chars true lo hi ("-"%char :: ds) = (errc_ok, S (length ds), - digits_value ds).
Proof.
  intros Hne Hall Hr. unfold from_chars.
  rewrite bool_decide_eq_true_2 by done. cbn [andb].
  rewrite span_all by done. destruct ds as [|d ds]; [done|].
  rewrite (proj2 (Z.leb_le _ _)), (proj2 (Z.leb_le _ _)) by lia.
  cbn [andb]. rewrite Nat.add_1_r. done.
Qed.

(** [from_chars] inverts [to_string]. *)
Lemma from_chars_all_to_string signed lo hi z :
  - u64_max <= z <= u64_max -> lo <= z <= hi -> (z < 0 -> signed = true) ->
  from_chars_all signed lo hi (to_string z) = Some z.
Proof.
  intros Hz Hr Hs.
  destruct (to_string_shape z Hz) as (ds & -> & Hne & _ & Hall & Hv).
  unfold from_chars_all. destruct (Z.ltb_spec z 0); simpl.
  - rewrite Hs, from_chars_minus by (done || lia).
    rewrite !bool_decide_eq_true_2 by done. simpl. f_equal. lia.
  - rewrite from_chars_digits by (done || lia).
    rewrite !bool_decide_eq_true_2 by done. simpl. f_equal. lia.
Qed.

Lemma from_chars_all_range signed lo hi s z :
  from_chars_all signed lo hi s = Some z -> lo <= z <= hi.
Proof.
  unfold from_chars_all, from_chars. intros H.
  repeat (case_match; simplify_eq/=; try done); bool_to_prop; lia.
Qed.

(** * Lemmas: trimming *)

Definition ends_not (p : ascii -> bool) (s : bytes) : Prop := starts_not p (reverse s).

Lemma lstrip_id s : starts_not isspace s -> lstrip s = s.
Proof. intros. unfold lstrip. by rewrite span_none. Qed.

Lemma trim_id s : starts_not isspace s -> ends_not isspace s -> trim s = s.
Proof.
  intros H1 H2. unfold trim. rewrite (lstrip_id s), (lstrip_id (reverse s)) by done.
  apply reverse_involutive.
Qed.

Lemma nonspace_ends s :
  Forall (fun c => isspace c = false) s -> starts_not isspace s /\ ends_not isspace s.
Proof.
  intros H. split.
  - destruct H; simpl; auto.
  - unfold ends_not. apply Forall_reverse in H. destruct H; simpl; auto.
Qed.

Lemma trim_nonspace s : Forall (fun c => isspace c = false) s -> trim s = s.
Proof. intros [? ?]%nonspace_ends. by apply trim_id. Qed.

Lemma lstrip_starts s : starts_not isspace (lstrip s).
Proof.
  unfold lstrip. destruct (span isspace s) as [a b] eqn:H.
  by apply span_spec in H as (_ & _ & ?).
Qed.

Lemma lstrip_suffix s : exists a, s = a ++ lstrip s /\ Forall (fun c => isspace c = true) a.
Proof.
  unfold lstrip. destruct (span isspace s) as [a b] eqn:H.
  apply span_spec in H as (? & ? & ?). by exists a.
Qed.

Lemma to_string_nonspace z :
  - u64_max <= z <= u64_max -> Forall (fun c => isspace c = false) (to_string z).
Proof.
  intros Hz. destruct (to_string_shape z Hz) as (ds & -> & _ & _ & Hall & _).
  apply Forall_app. split.
  - destruct (z <? 0); constructor; [done | constructor].
  - eapply Forall_impl; [apply isdigit_not_space | exact Hall].
Qed.

Lemma to_string_nonempty z : - u64_max <= z <= u64_max -> to_string z <> [].
Proof.
  intros Hz. destruct (to_string_shape z Hz) as (ds & -> & ? & _).
  destruct (z <? 0); by destruct ds.
Qed.

Lemma to_string_length z : - u64_max <= z <= u64_max -> (length (to_string z) <= 21)%nat.
Proof.
  intros Hz. destruct (to_string_shape z Hz) as (ds & -> & _ & ? & _).
  rewrite length_app. destruct (z <? 0); simpl; lia.
Qed.

Lemma is_i64_mag z : is_i64 z -> - u64_max <= z <= u64_max.
Proof. unfold is_i64, i64_min, i64_max, u64_max. lia. Qed.

Lemma is_u64_mag z : is_u64 z -> - u64_max <= z <= u64_max.
Proof. unfold is_u64, u64_max. lia. Qed.

#[export] Hint Resolve is_i64_mag is_u64_mag : velox.

Lemma parse_i64_to_string_eq z : is_i64 z -> parse_i64 (to_string z) = Some z.
Proof.
  intros Hz. unfold parse_i64.
  rewrite trim_nonspace by auto using to_string_nonspace with velox.
  destruct (to_string z) eqn:E; [by apply to_string_nonempty in E; auto with velox|].
  rewrite <- E. apply from_chars_all_to_string; auto with velox.
Qed.

Lemma parse_u64_to_string_eq z : is_u64 z -> parse_u64 (to_string z) = Some z.
Proof.
  intros Hz. unfold parse_u64.
  rewrite trim_nonspace by auto using to_string_nonspace with velox.
  destruct (to_string_shape z) as (ds & Hs & Hne & _ & Hall & _); [auto with velox|].
  destruct (Z.ltb_spec z 0) as [Hlt|_]; [unfold is_u64 in Hz; lia|].
  simpl in Hs. destruct ds as [|d ds]; [done|]. inversion Hall; subst.
  rewrite Hs, bool_decide_eq_false_2 by (by apply isdigit_not_minus).
  rewrite <- Hs. apply from_chars_all_to_string; auto with velox.
  unfold is_u64 in Hz. lia.
Qed.

Lemma parse_i64_range input z : parse_i64 input = Some z -> is_i64 z.
Proof.
  unfold parse_i64. case_match; [done|]. apply from_chars_all_range.
Qed.

Lemma parse_u64_range input z : parse_u64 input = Some z -> is_u64 z.
Proof.
  unfold parse_u64. case_match; [done|]. case_match; [done|].
  apply from_chars_all_range.
Qed.
