(* ===== verification/Logger.v ===== *)
(** The logger: [src/util/logger.cpp] and [include/veloxdb/util/logger.h].

    The object is its level and what it has written to standard error.  The
    lines that the other components log are not part of their models: nothing
    reads them back. *)
From S2P Require Import Prelude Util.

(** * Calendar time

    [gmtime_r]: the Gregorian date and the time of day of a number of seconds
    since 1970, which may be negative. *)

Definition leap (y : Z) : bool := (y mod 4 =? 0) && (negb (y mod 100 =? 0) || (y mod 400 =? 0)).

Definition year_days (y : Z) : Z := if leap y then 366 else 365.

Definition month_days (y : Z) : list Z :=
  [31; if leap y then 29 else 28; 31; 30; 31; 30; 31; 31; 30; 31; 30; 31].

(** The year and the day of the year, [d] days after the first of the year
    [y]. *)
Fixpoint year_of (fuel : nat) (y d : Z) : Z * Z :=
  match fuel with
  | O => (y, d)
  | S fuel =>
      if d <? 0 then year_of fuel (y - 1) (d + year_days (y - 1))
      else if d <? year_days y then (y, d)
      else year_of fuel (y + 1) (d - year_days y)
  end.

(** The month, counted from [m], and the day of the month, both from 0. *)
Fixpoint month_of (months : list Z) (m d : Z) : Z * Z :=
  match months with
  | [] => (m, d)
  | n :: months => if d <? n then (m, d) else month_of months (m + 1) (d - n)
  end.

Record Tm := MkTm { tm_year : Z; tm_mon : Z; tm_mday : Z; tm_hour : Z; tm_min : Z; tm_sec : Z }.

(** A year has at least 365 days, which bounds the steps of the search. *)
Definition gmtime (time : Z) : Tm :=
  let days := time / 86400 in
  let secs := time mod 86400 in
  let '(y, yday) := year_of (S (Z.to_nat (Z.abs days / 365 + 1))) 1970 days in
  let '(mon, mday) := month_of (month_days y) 0 yday in
  MkTm y (mon + 1) (mday + 1) (secs / 3600) (secs mod 3600 / 60) (secs mod 60).

(** * Lines *)

(** [setw(width) << setfill('0')], and the two-digit fields of [put_time]. *)
Definition padded (width : nat) (n : Z) : bytes :=
  replicate (width - length (to_string n)) "0"%char ++ to_string n.

(** [put_time(&tm, "%Y-%m-%dT%H:%M:%S")]. *)
Definition put_time (tm : Tm) : bytes :=
  to_string (tm_year tm) ++ lit "-" ++ padded 2 (tm_mon tm) ++ lit "-" ++ padded 2 (tm_mday tm) ++ lit "T" ++
  padded 2 (tm_hour tm) ++ lit ":" ++ padded 2 (tm_min tm) ++ lit ":" ++ padded 2 (tm_sec tm).

(** Clock readings are nanoseconds since 1970. *)
Definition to_time_t (now : Z) : Z := Z.quot now 1000000000.
Definition sub_second_millis (now : Z) : Z := Z.quot (Z.rem now 1000000000) 1000000.

Definition timestamp (now : Z) : bytes :=
  put_time (gmtime (to_time_t now)) ++ lit "." ++ padded 3 (sub_second_millis now) ++ lit "Z".

Definition dquote : ascii := Ascii.ascii_of_nat 34.

Definition log_line (now : Z) (level : LogLevel) (component message : bytes) : bytes :=
  timestamp now ++ lit " level=" ++ log_level_name level ++ lit " component=" ++ component ++
  lit " msg=" ++ [dquote] ++ message ++ [dquote].

(** * The object *)

Record Logger := MkLogger { lg_level : LogLevel; lg_err : bytes }.

Definition new_logger : Logger := MkLogger Info [].

Definition set_level (level : LogLevel) (lg : Logger) : Logger := MkLogger level (lg_err lg).

Definition log (now : Z) (level : LogLevel) (component message : bytes) (lg : Logger) : Logger :=
  if negb (log_enabled (lg_level lg) level) then lg
  else MkLogger (lg_level lg) (lg_err lg ++ log_line now level component message ++ [LF]).

Definition log_trace (now : Z) (component message : bytes) : Logger -> Logger := log now Trace component message.
Definition log_debug (now : Z) (component message : bytes) : Logger -> Logger := log now Debug component message.
Definition log_info (now : Z) (component message : bytes) : Logger -> Logger := log now Info component message.
Definition log_warn (now : Z) (component message : bytes) : Logger -> Logger := log now Warn component message.
Definition log_error (now : Z) (component message : bytes) : Logger -> Logger := log now LError component message.

(** * The calendar is right *)

(** Leap years up to the year [n]. *)
Definition leaps (n : Z) : Z := n / 4 - n / 100 + n / 400.

(** Days from 1970 to the first of the year [y]. *)
Definition days_before_year (y : Z) : Z := 365 * (y - 1970) + leaps (y - 1) - leaps 1969.

Definition days_before_month (y : Z) (mon : Z) : Z :=
  foldr Z.add 0 (take (Z.to_nat mon) (month_days y)).

(** The number of a date; the month and the day count from 1. *)
Definition day_number (y mon mday : Z) : Z := days_before_year y + days_before_month y (mon - 1) + (mday - 1).

Lemma year_days_next y : days_before_year (y + 1) = days_before_year y + year_days y.
Proof.
  unfold days_before_year, year_days, leap, leaps. replace (y + 1 - 1) with y by lia.
  destruct (Z.eqb_spec (y mod 4) 0), (Z.eqb_spec (y mod 100) 0), (Z.eqb_spec (y mod 400) 0); cbn [negb andb orb];
    Z.to_euclidean_division_equations; lia.
Qed.

Lemma year_days_range y : 365 <= year_days y <= 366.
Proof. unfold year_days. destruct (leap y); lia. Qed.

Lemma year_of_spec fuel y d :
  Z.abs d / 365 + 1 < Z.of_nat fuel \/ (0 <= d < year_days y /\ 0 < Z.of_nat fuel) ->
  let '(y', d') := year_of fuel y d in
  0 <= d' < year_days y' /\ days_before_year y' + d' = days_before_year y + d.
Proof.
  revert y d. induction fuel as [|fuel IH]; intros y d Hf; [Z.to_euclidean_division_equations; lia|]. cbn [year_of].
  pose proof (year_days_range y). pose proof (year_days_range (y - 1)).
  pose proof (year_days_next y). pose proof (year_days_next (y - 1)) as Hp. replace (y - 1 + 1) with y in Hp by lia.
  destruct (Z.ltb_spec d 0); [|destruct (Z.ltb_spec d (year_days y)); [lia|]].
  - specialize (IH (y - 1) (d + year_days (y - 1))). destruct (year_of fuel _ _) as [y' d'].
    destruct IH as [? ?]; [|lia].
    destruct (Z.ltb_spec (d + year_days (y - 1)) 0); [left|right]; Z.to_euclidean_division_equations; lia.
  - specialize (IH (y + 1) (d - year_days y)). destruct (year_of fuel _ _) as [y' d'].
    destruct IH as [? ?]; [|lia]. left. Z.to_euclidean_division_equations; lia.
Qed.

Lemma month_of_spec months m d :
  0 <= d < foldr Z.add 0 months -> Forall (fun n => 0 < n) months ->
  let '(m', d') := month_of months m d in
  exists n, months !! Z.to_nat (m' - m) = Some n /\ 0 <= d' < n /\ m <= m' /\
    foldr Z.add 0 (take (Z.to_nat (m' - m)) months) + d' = d.
Proof.
  revert m d. induction months as [|n months IH]; intros m d Hd Hpos; cbn [month_of foldr] in *; [lia|].
  apply list.Forall_cons in Hpos as [Hn Hpos]. destruct (Z.ltb_spec d n).
  - exists n. rewrite Z.sub_diag. cbn. repeat split; lia.
  - specialize (IH (m + 1) (d - n)). destruct (month_of _ _ _) as [m' d'].
    destruct IH as (k & Hk & Hd' & Hm & Hs); [lia|done|]. exists k.
    replace (Z.to_nat (m' - m)) with (S (Z.to_nat (m' - (m + 1)))) by lia. cbn. repeat split; [done|lia..].
Qed.

Lemma month_days_sum y : foldr Z.add 0 (month_days y) = year_days y.
Proof. unfold month_days, year_days. by destruct (leap y). Qed.

Lemma month_days_pos y : Forall (fun n => 0 < n <= 31) (month_days y).
Proof. unfold month_days. repeat constructor; destruct (leap y); lia. Qed.

(** The date of a day in the years with four digits. *)
Definition four_digits (time : Z) : Prop := 0 <= time < 253402300800.

Lemma days_before_year_mono y y' : y <= y' -> days_before_year y <= days_before_year y'.
Proof. unfold days_before_year, leaps. intros. Z.to_euclidean_division_equations; lia. Qed.

Lemma gmtime_spec time :
  let tm := gmtime time in
  ((day_number (tm_year tm) (tm_mon tm) (tm_mday tm) * 24 + tm_hour tm) * 60 + tm_min tm) * 60 + tm_sec tm = time /\
  1 <= tm_mon tm <= 12 /\ 1 <= tm_mday tm <= 31 /\ 0 <= tm_hour tm < 24 /\ 0 <= tm_min tm < 60 /\ 0 <= tm_sec tm < 60 /\
  (four_digits time -> 1970 <= tm_year tm <= 9999).
Proof.
  unfold gmtime. pose proof (year_of_spec (S (Z.to_nat (Z.abs (time / 86400) / 365 + 1))) 1970 (time / 86400)) as Hy.
  destruct (year_of _ _ _) as [y yday]. destruct Hy as [Hy Hdays]; [left; Z.to_euclidean_division_equations; lia|].
  pose proof (month_of_spec (month_days y) 0 yday) as Hm. destruct (month_of _ _ _) as [mon mday].
  destruct Hm as (n & Hn & Hmday & Hmon & Hsum).
  { by rewrite month_days_sum. }
  { eapply list.Forall_impl; [apply month_days_pos|]. intros; simpl in *; lia. }
  rewrite Z.sub_0_r in *. cbn [tm_year tm_mon tm_mday tm_hour tm_min tm_sec].
  unfold day_number, days_before_month. replace (mon + 1 - 1) with mon by lia.
  change (days_before_year 1970) with 0 in Hdays.
  pose proof (lookup_lt_Some _ _ _ Hn) as Hlt. change (length (month_days y)) with 12%nat in Hlt.
  pose proof (proj1 (Forall_lookup _ _) (month_days_pos y) _ _ Hn) as Hn31. simpl in Hn31.
  split_and!; try (Z.to_euclidean_division_equations; lia).
  - intros Ht. assert (0 <= time / 86400 < days_before_year 10000).
    { change (days_before_year 10000) with 2932897. unfold four_digits in Ht. Z.to_euclidean_division_equations; lia. }
    change 0 with (days_before_year 1970) in H at 1.
    destruct (Z.le_gt_cases 10000 y) as [Hge|]; [apply days_before_year_mono in Hge; lia|].
    destruct (Z.le_gt_cases 1970 y) as [|Hlt']; [lia|].
    assert (Hle : y + 1 <= 1970) by lia. apply days_before_year_mono in Hle. rewrite year_days_next in Hle. lia.
Qed.

(** * Lines read back *)

Lemma dec_digits_length fuel w n acc :
  0 <= n < 10 ^ Z.of_nat w -> (0 < w)%nat -> (length (dec_digits fuel n acc) <= w + length acc)%nat.
Proof.
  revert fuel n acc. induction w as [|w IH]; intros fuel n acc Hn Hw; [lia|].
  destruct fuel as [|fuel]; cbn [dec_digits]; [lia|]. rewrite Nat2Z.inj_succ, Z.pow_succ_r in Hn by lia.
  destruct (Z.ltb_spec n 10); [cbn [length]; lia|]. destruct w as [|w]; [cbn in Hn; lia|].
  etrans; [apply IH; [split; [apply Z.div_pos | apply Z.div_lt_upper_bound]; lia|lia]|]. cbn [length]. lia.
Qed.

Lemma digits_value_zeros k ds : digits_value (replicate k "0"%char ++ ds) = digits_value ds.
Proof. induction k as [|k IH]; [done|]. cbn [replicate app]. rewrite digits_value_cons, IH. change (digit_value "0") with 0. lia. Qed.

Lemma digits_value_bound ds : Forall (fun c => isdigit c = true) ds -> 0 <= digits_value ds < 10 ^ Z.of_nat (length ds).
Proof.
  induction 1 as [|c ds Hc _ IH]; [done|]. rewrite digits_value_cons. cbn [length].
  rewrite Nat2Z.inj_succ, Z.pow_succ_r by lia. unfold isdigit in Hc. unfold digit_value. nia.
Qed.

(** A field is as wide as asked for and reads back. *)
Lemma padded_spec w n :
  0 <= n < 10 ^ Z.of_nat w -> (0 < w <= 19)%nat -> length (padded w n) = w /\ digits_value (padded w n) = n.
Proof.
  intros Hn Hw. assert (10 ^ Z.of_nat w <= 10 ^ 19) by (apply Z.pow_le_mono_r; lia).
  assert (Hl : (length (to_string n) <= w)%nat).
  { unfold to_string. destruct (Z.ltb_spec n 0); [lia|]. etrans; [by apply (dec_digits_length _ w); [|lia]|]. cbn. lia. }
  unfold padded. rewrite length_app, length_replicate, digits_value_zeros. split; [lia|].
  unfold to_string. destruct (Z.ltb_spec n 0); [lia|].
  destruct (dec_digits_20 n) as (ds & -> & _ & _ & _ & Hv); [unfold u64_max; lia|done].
Qed.

Lemma year_field y : 1000 <= y <= 9999 -> length (to_string y) = 4%nat /\ digits_value (to_string y) = y.
Proof.
  intros Hy. unfold to_string. destruct (Z.ltb_spec y 0); [lia|].
  pose proof (dec_digits_length 20 4 y [] ltac:(lia) ltac:(lia)) as Hle. cbn [length] in Hle.
  destruct (dec_digits_20 y) as (ds & E & _ & _ & Hd & Hval); [unfold u64_max; lia|]. rewrite E in *. split; [|done].
  pose proof (digits_value_bound _ Hd) as Hb. rewrite Hval in Hb.
  destruct (Nat.le_gt_cases 4 (length ds)); [lia|].
  assert (10 ^ Z.of_nat (length ds) <= 10 ^ 3) by (apply Z.pow_le_mono_r; lia). lia.
Qed.

(** The milliseconds since 1970 that a timestamp denotes. *)
Definition read_timestamp (b : bytes) : option Z :=
  match b with
  | [y3; y2; y1; y0; _; n1; n0; _; d1; d0; _; h1; h0; _; m1; m0; _; s1; s0; _; f2; f1; f0; _] =>
      let days := day_number (digits_value [y3; y2; y1; y0]) (digits_value [n1; n0]) (digits_value [d1; d0]) in
      Some ((((days * 24 + digits_value [h1; h0]) * 60 + digits_value [m1; m0]) * 60 + digits_value [s1; s0]) * 1000
            + digits_value [f2; f1; f0])
  | _ => None
  end.

(** A field of a timestamp, as its characters. *)
Ltac field_of H :=
  let Hl := fresh in let Hv := fresh in
  destruct H as [Hl Hv];
  match type of Hl with
  | length ?b = _ =>
      let b' := fresh "b" in remember b as b' eqn:Hb; clear Hb;
      do 5 (try (destruct b' as [|? b']; try discriminate Hl));
      rewrite <- Hv; clear Hl Hv
  end.

Lemma read_timestamp_spec now :
  four_digits (to_time_t now) -> 0 <= now -> read_timestamp (timestamp now) = Some (now / 1000000).
Proof.
  intros Ht Hnow. unfold timestamp, put_time.
  destruct (gmtime_spec (to_time_t now)) as (Htime & Hmon & Hday & Hh & Hm & Hs & Hy). specialize (Hy Ht).
  destruct (gmtime _) as [y mon day h mi s]. cbn [tm_year tm_mon tm_mday tm_hour tm_min tm_sec] in *.
  assert (Hf : 0 <= sub_second_millis now < 1000).
  { unfold sub_second_millis. Z.to_euclidean_division_equations; lia. }
  assert (Hsum : to_time_t now * 1000 + sub_second_millis now = now / 1000000).
  { unfold to_time_t, sub_second_millis. Z.to_euclidean_division_equations; lia. }
  rewrite <- Hsum, <- Htime. clear Hsum Htime Ht Hnow.
  remember (sub_second_millis now) as f eqn:E; clear E.
  pose proof (year_field y ltac:(lia)) as Fy.
  pose proof (padded_spec 2 mon ltac:(lia) ltac:(lia)) as Fmon.
  pose proof (padded_spec 2 day ltac:(lia) ltac:(lia)) as Fday.
  pose proof (padded_spec 2 h ltac:(lia) ltac:(lia)) as Fh.
  pose proof (padded_spec 2 mi ltac:(lia) ltac:(lia)) as Fmi.
  pose proof (padded_spec 2 s ltac:(lia) ltac:(lia)) as Fs.
  pose proof (padded_spec 3 f ltac:(lia) ltac:(lia)) as Ff.
  field_of Fy. field_of Fmon. field_of Fday. field_of Fh. field_of Fmi. field_of Fs. field_of Ff. done.
Qed.

(** C34. A log call writes one line to standard error exactly when its level is
    enabled by the level set last, and leaves the logger alone otherwise.  The
    line opens with a timestamp that reads back, by the calendar, as the
    millisecond of the clock reading, for every reading the 64-bit clock can
    take from 1970 on; the level, the component and the message follow it. *)
Theorem log_correct now threshold level component message lg :
  0 <= now <= i64_max ->
  let lg' := log now level component message (set_level threshold lg) in
  lg_level lg' = threshold /\
  if log_enabled threshold level
  then exists ts, read_timestamp ts = Some (now / 1000000) /\
         lg_err lg' = lg_err lg ++ ts ++ lit " level=" ++ log_level_name level ++ lit " component=" ++ component ++
                      lit " msg=" ++ [dquote] ++ message ++ [dquote; LF]
  else lg_err lg' = lg_err lg.
Proof.
  intros Hnow. cbv zeta. unfold log. cbn [lg_level set_level].
  destruct (log_enabled _ _); cbn [negb lg_level lg_err set_level]; split; try done. exists (timestamp now). split.
  - apply read_timestamp_spec; [|lia]. unfold four_digits, to_time_t, i64_max in *. Z.to_euclidean_division_equations; lia.
  - unfold log_line. by rewrite <- !(assoc_L (++)).
Qed.

(** The first of March 2024, in the last millisecond before noon. *)
Lemma log_correct_witness :
  read_timestamp (lit "2024-03-01T11:59:59.999Z") = Some 1709294399999 /\
  exists ts, read_timestamp ts = Some 1709294399999 /\
    lg_err (log_warn 1709294399999000000 (lit "aof") (lit "slow") (set_level Debug new_logger))
    = ts ++ lit " level=warn component=aof msg=" ++ [dquote] ++ lit "slow" ++ [dquote; LF].
Proof.
  split; [vm_compute; reflexivity|].
  destruct (log_correct 1709294399999000000 Debug Warn (lit "aof") (lit "slow") new_logger) as [_ H];
    [split; vm_compute; discriminate|].
  destruct H as (ts & Hts & H). exists ts. split; [exact Hts|exact H].
Defined.
