(* ===== verification/Config.v ===== *)
(** Configuration records: the structs of [include/veloxdb/config/config.h]
    with their default member initialisers. *)
From S2P Require Import Prelude Util.

Record ServerConfig := MkServerConfig {
  host : bytes;
  port : Z;
  workers : Z;
  max_clients : Z
}.

Record StorageConfig := MkStorageConfig {
  shards : Z;
  max_memory_bytes : Z
}.

Record PersistenceConfig := MkPersistenceConfig {
  aof_enabled : bool;
  aof_path : bytes;
  fsync_policy : bytes;
  snapshot_path : bytes;
  manifest_path : bytes
}.

Record ExpirationConfig := MkExpirationConfig {
  active_enabled : bool;
  interval_ms : Z;
  sample_per_shard : Z
}.

Record ProtocolConfig := MkProtocolConfig {
  max_request_bytes : Z;
  max_array_elements : Z;
  max_key_size : Z;
  max_value_size : Z;
  max_output_buffer_bytes : Z
}.

Record Config := MkConfig {
  server : ServerConfig;
  storage : StorageConfig;
  persistence : PersistenceConfig;
  expiration : ExpirationConfig;
  logging_level : bytes;
  metrics_enabled : bool;
  admin_shutdown_enabled : bool;
  protocol : ProtocolConfig
}.

Definition MiB : Z := 1024 * 1024.

Definition default_server : ServerConfig :=
  MkServerConfig (lit "0.0.0.0") 7379 4 10000.

Definition default_storage : StorageConfig := MkStorageConfig 64 (1024 * MiB).

Definition default_persistence : PersistenceConfig :=
  MkPersistenceConfig true (lit "./data/veloxdb.aof") (lit "everysec")
    (lit "./data/veloxdb.snapshot") (lit "./data/veloxdb.manifest").

Definition default_expiration : ExpirationConfig := MkExpirationConfig true 100 20.

Definition default_protocol : ProtocolConfig :=
  MkProtocolConfig (64 * MiB) 1024 (512 * 1024) (64 * MiB) (64 * MiB).

Definition default_config : Config :=
  MkConfig default_server default_storage default_persistence default_expiration
    (lit "info") true false default_protocol.
