(* ===== verification/Resp.v ===== *)
(** The RESP2 parser and encoder: [src/protocol/resp.cpp] and
    [include/veloxdb/protocol/resp.h].

    Positions are indices into the buffer; limits and lengths read from the
    wire are 64-bit integers.  [IFault] stands for a read outside the buffer,
    which would be undefined behaviour: [parse_at_no_fault] shows it never
    happens for limits that leave room for the final CRLF. *)
From S2P Require Import Prelude Util Config.

(** * Data *)

Inductive Type_ := SimpleString | TError | Integer | BulkString | Array.

#[export] Instance Type_eq_dec : EqDecision Type_.
Proof. solve_decision. Defined.

Inductive Value := MkValue {
  v_type : Type_;
  v_null : bool;
  v_text : bytes;
  v_integer : Z;
  v_array : list Value
}.

Definition v_simple (t : bytes) : Value := MkValue SimpleString false t 0 [].
Definition v_error (t : bytes) : Value := MkValue TError false t 0 [].
Definition v_int (z : Z) : Value := MkValue Integer false [] z [].
Definition v_bulk (t : bytes) : Value := MkValue BulkString false t 0 [].
Definition v_null_bulk : Value := MkValue BulkString true [] 0 [].
Definition v_list (l : list Value) : Value := MkValue Array false [] 0 l.
Definition v_null_list : Value := MkValue Array true [] 0 [].

Record ParserOptions := MkOptions {
  opt_max_request_bytes : Z;
  opt_max_array_elements : Z;
  opt_max_bulk_bytes : Z
}.

Definition parser_options_from_config (c : ProtocolConfig) : ParserOptions :=
  MkOptions (max_request_bytes c) (max_array_elements c) (max_value_size c).

Record Parser := MkParser { options_ : ParserOptions; buffer_ : bytes }.

Inductive InternalResult :=
  | IOk (value : Value) (consumed : nat)
  | INeedMore
  | IError (error : bytes)
  | IFault.

Inductive ValueParseResult :=
  | VOk (value : Value) (raw : bytes)
  | VNeedMore
  | VError (error : bytes)
  | VFault.

Inductive CommandParseResult :=
  | COk (args : list bytes) (raw : bytes)
  | CNeedMore
  | CError (error : bytes)
  | CFault.

(** * Parsing *)

Definition kMaxDepth : nat := 8.

Definition parse_number_line (line : bytes) : option Z :=
  match line with
  | [] => None
  | _ => from_chars_all true i64_min i64_max line
  end.

Definition is_resp_prefix (ch : ascii) : bool :=
  bool_decide (ch = "+"%char) || bool_decide (ch = "-"%char) || bool_decide (ch = ":"%char)
  || bool_decide (ch = "$"%char) || bool_decide (ch = "*"%char).

Definition slice (buf : bytes) (from len : nat) : bytes := take len (drop from buf).

(** [buffer_.find("\r\n", pos)]. *)
Fixpoint find_crlf_in (s : bytes) : option nat :=
  match s with
  | [] => None
  | a :: r =>
      match r with
      | [] => None
      | b :: _ =>
          if bool_decide (a = CR) && bool_decide (b = LF) then Some O
          else S <$> find_crlf_in r
      end
  end.

Definition find_crlf (buf : bytes) (pos : nat) : option nat :=
  Nat.add pos <$> find_crlf_in (drop pos buf).

(** The bulk string case of [parse_at]: [pos] is the start of the value and
    [after_line] the first byte after its length line. *)
Definition parse_bulk (o : ParserOptions) (buf : bytes) (pos after_line : nat) (line : bytes)
    : InternalResult :=
  match parse_number_line line with
  | None => IError (lit "invalid bulk string length")
  | Some len =>
      if len <? -1 then IError (lit "invalid bulk string length")
      else if len =? -1 then IOk v_null_bulk (after_line - pos)
      else if (opt_max_bulk_bytes o <? len) || (u64_max <? len)
      then IError (lit "bulk string exceeded maximum size")
      else if (opt_max_request_bytes o <? Z.of_nat after_line)
              || (opt_max_request_bytes o - Z.of_nat after_line <? len)
      then IError (lit "bulk string exceeded maximum request size")
      else
        let end_ := Z.of_nat after_line + len in
        if bsize buf <? u64 (end_ + 2) then INeedMore
        else
          let e := Z.to_nat end_ in
          match buf !! e, buf !! S e with
          | Some a, Some b =>
              if negb (bool_decide (a = CR)) || negb (bool_decide (b = LF))
              then IError (lit "malformed bulk string CRLF")
              else IOk (v_bulk (slice buf after_line (Z.to_nat len))) (e + 2 - pos)
          | _, _ => IFault
          end
  end.

(** The element loop of the array case; [child] parses one element. *)
Fixpoint parse_items (o : ParserOptions) (child : nat -> InternalResult) (pos n cursor : nat)
    (acc : list Value) : InternalResult :=
  match n with
  | O => IOk (v_list acc) (cursor - pos)
  | S n' =>
      match child cursor with
      | IOk v consumed =>
          let cursor' := (cursor + consumed)%nat in
          if opt_max_request_bytes o <? Z.of_nat (cursor' - pos)
          then IError (lit "request exceeded maximum size")
          else parse_items o child pos n' cursor' (acc ++ [v])
      | r => r
      end
  end.

Definition parse_array (o : ParserOptions) (child : nat -> InternalResult) (pos after_line : nat)
    (line : bytes) : InternalResult :=
  match parse_number_line line with
  | None => IError (lit "invalid array length")
  | Some count =>
      if count <? -1 then IError (lit "invalid array length")
      else if count =? -1 then IOk v_null_list (after_line - pos)
      else if (opt_max_array_elements o <? count) || (u64_max <? count)
      then IError (lit "array exceeded maximum element count")
      else parse_items o child pos (Z.to_nat count) after_line []
  end.

Definition parse_integer (pos after_line : nat) (line : bytes) : InternalResult :=
  match parse_number_line line with
  | None => IError (lit "invalid integer")
  | Some number => IOk (v_int number) (after_line - pos)
  end.

(** [parse_at(pos, depth)]; [levels] is [kMaxDepth + 1 - depth], so that the
    depth check [depth > kMaxDepth] is [levels = 0]. *)
Fixpoint parse_at (o : ParserOptions) (buf : bytes) (levels pos : nat) : InternalResult :=
  match levels with
  | O => IError (lit "RESP nesting depth exceeded")
  | S levels' =>
      match buf !! pos with
      | None => INeedMore
      | Some prefix =>
          let line_start := S pos in
          match find_crlf buf line_start with
          | None =>
              if opt_max_request_bytes o <? bsize buf - Z.of_nat pos
              then IError (lit "line exceeded maximum request size")
              else INeedMore
          | Some crlf_at =>
              let line := slice buf line_start (crlf_at - line_start) in
              let after_line := (crlf_at + 2)%nat in
              if bool_decide (prefix = "+"%char) then IOk (v_simple line) (after_line - pos)
              else if bool_decide (prefix = "-"%char) then IOk (v_error line) (after_line - pos)
              else if bool_decide (prefix = ":"%char) then parse_integer pos after_line line
              else if bool_decide (prefix = "$"%char) then parse_bulk o buf pos after_line line
              else if bool_decide (prefix = "*"%char)
              then parse_array o (parse_at o buf levels') pos after_line line
              else IError (lit "unknown RESP type")
          end
      end
  end.

(** The word loop of [parse_inline]. *)
Fixpoint inline_items (o : ParserOptions) (words : list bytes) : option (list Value) :=
  match words with
  | [] => Some []
  | w :: rest =>
      if opt_max_bulk_bytes o <? bsize w then None
      else cons (v_bulk w) <$> inline_items o rest
  end.

Definition parse_inline (o : ParserOptions) (buf : bytes) (pos : nat) : InternalResult :=
  match find_crlf buf pos with
  | None =>
      if opt_max_request_bytes o <? bsize buf - Z.of_nat pos
      then IError (lit "inline command exceeded maximum size")
      else INeedMore
  | Some crlf_at =>
      match inline_items o (split_words (slice buf pos (crlf_at - pos))) with
      | None => IError (lit "inline argument exceeded maximum size")
      | Some items => IOk (v_list items) (crlf_at + 2 - pos)
      end
  end.

(** * The Parser class *)

Definition append (p : Parser) (b : bytes) : Status * Parser :=
  let limit := opt_max_request_bytes (options_ p) in
  if (limit <? bsize b) || (limit - bsize b <? bsize (buffer_ p))
  then (MkStatus ResourceExhausted (lit "request buffer exceeded limit"), p)
  else (status_ok, MkParser (options_ p) (buffer_ p ++ b)).

Definition buffered_bytes (p : Parser) : Z := bsize (buffer_ p).

Definition reset (p : Parser) : Parser := MkParser (options_ p) [].

Definition discard (p : Parser) (n : nat) : Parser :=
  if (length (buffer_ p) <=? n)%nat then MkParser (options_ p) []
  else MkParser (options_ p) (drop n (buffer_ p)).

Definition next_value (p : Parser) : ValueParseResult * Parser :=
  match buffer_ p with
  | [] => (VNeedMore, p)
  | c :: _ =>
      let parsed :=
        if is_resp_prefix c then parse_at (options_ p) (buffer_ p) (S kMaxDepth) 0
        else parse_inline (options_ p) (buffer_ p) 0 in
      match parsed with
      | INeedMore => (VNeedMore, p)
      | IError e => (VError e, p)
      | IFault => (VFault, p)
      | IOk v consumed =>
          if opt_max_request_bytes (options_ p) <? Z.of_nat consumed
          then (VError (lit "request exceeded maximum size"), p)
          else (VOk v (take consumed (buffer_ p)), discard p consumed)
      end
  end.

(** The argument loop of [next_command]: one argument per array element, or
    the error of the first element that is null or an array. *)
Fixpoint command_args (items : list Value) : bytes + list bytes :=
  match items with
  | [] => inr []
  | item :: rest =>
      if v_null item then inl (lit "command arguments cannot be null")
      else
        match v_type item with
        | BulkString | SimpleString | TError =>
            match command_args rest with inl e => inl e | inr l => inr (v_text item :: l) end
        | Integer =>
            match command_args rest with
            | inl e => inl e | inr l => inr (to_string (v_integer item) :: l) end
        | Array => inl (lit "nested arrays are not valid command arguments")
        end
  end.

Definition next_command (p : Parser) : CommandParseResult * Parser :=
  let '(parsed, p') := next_value p in
  match parsed with
  | VNeedMore => (CNeedMore, p')
  | VError e => (CError e, p')
  | VFault => (CFault, p')
  | VOk v raw =>
      if negb (bool_decide (v_type v = Array)) || v_null v
      then (CError (lit "expected RESP array command"), p')
      else
        match command_args (v_array v) with
        | inl e => (CError e, p')
        | inr args => (COk args raw, p')
        end
  end.

(** * Encoding *)

Definition bulk_string_fragment (value : bytes) : bytes :=
  lit "$" ++ to_string (bsize value) ++ crlf ++ value ++ crlf.

Definition simple (value : bytes) : bytes := lit "+" ++ value ++ crlf.
Definition error (value : bytes) : bytes := lit "-ERR " ++ value ++ crlf.
Definition integer (value : Z) : bytes := lit ":" ++ to_string value ++ crlf.
Definition bulk (value : bytes) : bytes := bulk_string_fragment value.
Definition null_bulk : bytes := lit "$-1" ++ crlf.
Definition array_header (count : Z) : bytes := lit "*" ++ to_string count ++ crlf.

Definition array_of_bulk (values : list (option bytes)) : bytes :=
  array_header (Z.of_nat (length values)) ++
  flat_map (fun v => match v with Some b => bulk b | None => null_bulk end) values.

Definition encode_command (args : list bytes) : bytes :=
  array_header (Z.of_nat (length args)) ++ flat_map bulk_string_fragment args.
