(* ===== verification/RespFacts.v ===== *)
(** Correctness of the RESP parser and encoder of [Resp]: reads stay inside
    the buffer, results obey the configured limits, parsing is incremental,
    and decoding inverts encoding. *)
From S2P Require Import Prelude Util Config Resp.

(** * Slices and line ends *)

Lemma slice_app_l buf ext from len :
  (from + len <= length buf)%nat -> slice (buf ++ ext) from len = slice buf from len.
Proof.
  intros H. unfold slice. rewrite drop_app_le by lia.
  rewrite take_app_le; [done|]. rewrite length_drop. lia.
Qed.

Lemma slice_at pre mid post :
  slice (pre ++ mid ++ post) (length pre) (length mid) = mid.
Proof. unfold slice. by rewrite drop_app_length, take_app_length. Qed.

Lemma length_slice buf from len :
  (from + len <= length buf)%nat -> length (slice buf from len) = len.
Proof. intros. unfold slice. rewrite length_take, length_drop. lia. Qed.

#[local] Arguments find_crlf_in : simpl never.

Lemma find_crlf_in_cons a b s :
  find_crlf_in (a :: b :: s)
  = if bool_decide (a = CR) && bool_decide (b = LF) then Some O else S <$> find_crlf_in (b :: s).
Proof. done. Qed.

Lemma find_crlf_in_app s t i :
  find_crlf_in s = Some i -> find_crlf_in (s ++ t) = Some i.
Proof.
  revert i. induction s as [|a s IH]; intros i; [done|].
  destruct s as [|b s]; [done|]. cbn [app] in *.
  rewrite !find_crlf_in_cons. case_match; [done|].
  destruct (find_crlf_in (b :: s)) as [j|] eqn:E; simpl; [|done].
  intros [= <-]. by rewrite (IH j).
Qed.

Lemma find_crlf_in_bound s i : find_crlf_in s = Some i -> (i + 2 <= length s)%nat.
Proof.
  revert i. induction s as [|a s IH]; intros i; [done|].
  destruct s as [|b s]; [done|].
  rewrite find_crlf_in_cons. case_match; [intros [= <-]; simpl; lia|].
  destruct (find_crlf_in (b :: s)) as [j|] eqn:E; simpl; [|done].
  intros [= <-]. specialize (IH j eq_refl). simpl in IH. lia.
Qed.

Lemma find_crlf_in_first a t :
  Forall (fun c => c <> CR) a -> find_crlf_in (a ++ crlf ++ t) = Some (length a).
Proof.
  induction 1 as [|c a Hc Ha IH]; [done|]. cbn [app length].
  destruct (a ++ crlf ++ t) as [|d r] eqn:E; [by destruct a|].
  rewrite find_crlf_in_cons, bool_decide_eq_false_2 by done. cbn [andb]. by rewrite IH.
Qed.

Lemma find_crlf_bound buf pos i :
  find_crlf buf pos = Some i -> (pos <= i /\ i + 2 <= length buf)%nat.
Proof.
  unfold find_crlf. destruct (find_crlf_in _) as [j|] eqn:E; simpl; [|done].
  intros [= <-]. apply find_crlf_in_bound in E. rewrite length_drop in E. lia.
Qed.

Lemma find_crlf_app buf ext pos i :
  find_crlf buf pos = Some i -> find_crlf (buf ++ ext) pos = Some i.
Proof.
  intros H. pose proof (find_crlf_bound _ _ _ H) as [? ?]. revert H.
  unfold find_crlf. destruct (find_crlf_in _) as [j|] eqn:E; simpl; [|done].
  intros [= <-]. rewrite drop_app_le by lia. by rewrite (find_crlf_in_app _ _ _ E).
Qed.

Lemma find_crlf_line pre line post :
  Forall (fun c => c <> CR) line ->
  find_crlf (pre ++ line ++ crlf ++ post) (length pre) = Some (length pre + length line)%nat.
Proof.
  intros. unfold find_crlf. rewrite drop_app_length. by rewrite find_crlf_in_first.
Qed.

(** * Settled results

    A result is settled when more input cannot change it. *)

Definition settled (r : InternalResult) : bool :=
  match r with IOk _ _ | IError _ => true | _ => false end.

Lemma parse_bulk_extend o buf ext pos after line :
  (after <= length buf)%nat -> settled (parse_bulk o buf pos after line) = true ->
  parse_bulk o (buf ++ ext) pos after line = parse_bulk o buf pos after line.
Proof.
  intros Ha. unfold parse_bulk.
  destruct (parse_number_line line) as [len|]; [|done].
  destruct (Z.ltb_spec len (-1)); [done|]. destruct (Z.eqb_spec len (-1)); [done|].
  case_match; [done|]. case_match; [done|]. bool_to_prop.
  destruct (Z.ltb_spec (bsize buf) (u64 (Z.of_nat after + len + 2))); [done|].
  rewrite bsize_app. pose proof (bsize_nonneg ext).
  rewrite (proj2 (Z.ltb_ge _ _)) by lia.
  destruct (buf !! Z.to_nat _) as [a|] eqn:Ea; [|done].
  destruct (buf !! S _) as [b|] eqn:Eb; [|done].
  pose proof (lookup_lt_Some _ _ _ Eb).
  rewrite !lookup_app_l, Ea, Eb by lia.
  case_match; [done|]. intros _. by rewrite slice_app_l by lia.
Qed.

Lemma parse_items_extend o child child' pos n cursor acc :
  (forall c, settled (child c) = true -> child' c = child c) ->
  settled (parse_items o child pos n cursor acc) = true ->
  parse_items o child' pos n cursor acc = parse_items o child pos n cursor acc.
Proof.
  intros Hc. revert cursor acc. induction n as [|n IH]; intros cursor acc; [done|].
  cbn [parse_items]. specialize (Hc cursor).
  destruct (child cursor) as [v k| |e|] eqn:E; simpl; try done.
  - rewrite Hc by done. case_match; [done|]. apply IH.
  - intros _. by rewrite Hc.
Qed.

(** Once a value (or an error) has been recognised, bytes that arrive later do
    not change it. *)
Lemma parse_at_extend o buf ext levels pos :
  bsize buf <= opt_max_request_bytes o ->
  settled (parse_at o buf levels pos) = true ->
  parse_at o (buf ++ ext) levels pos = parse_at o buf levels pos.
Proof.
  intros Hb. revert pos. induction levels as [|lv IH]; intros pos; [done|].
  cbn [parse_at].
  destruct (buf !! pos) as [c|] eqn:Ec; [|done].
  rewrite (lookup_app_l_Some _ _ _ _ Ec).
  destruct (find_crlf buf (S pos)) as [i|] eqn:Ei.
  2:{ rewrite (proj2 (Z.ltb_ge _ _)) by lia. done. }
  rewrite (find_crlf_app _ _ _ _ Ei).
  apply find_crlf_bound in Ei as [? ?].
  rewrite slice_app_l by lia.
  repeat (case_match; [try done|]); try done.
  - apply parse_bulk_extend. lia.
  - unfold parse_array. repeat (case_match; try done).
    apply parse_items_extend. apply IH.
Qed.

Lemma parse_inline_extend o buf ext :
  bsize buf <= opt_max_request_bytes o ->
  settled (parse_inline o buf 0) = true ->
  parse_inline o (buf ++ ext) 0 = parse_inline o buf 0.
Proof.
  intros Hb. unfold parse_inline.
  destruct (find_crlf buf 0) as [i|] eqn:Ei.
  2:{ rewrite (proj2 (Z.ltb_ge _ _)) by lia. done. }
  rewrite (find_crlf_app _ _ _ _ Ei).
  apply find_crlf_bound in Ei as [? ?]. by rewrite slice_app_l by lia.
Qed.

(** * Bounds of a parse *)

Lemma parse_bulk_bound o buf pos after line v n :
  (pos < after <= length buf)%nat -> 0 <= opt_max_request_bytes o ->
  parse_bulk o buf pos after line = IOk v n ->
  (0 < n /\ pos + n <= length buf)%nat.
Proof.
  intros Hp Ho. unfold parse_bulk. intros H.
  repeat (case_match; try done); simplify_eq; bool_to_prop; [lia|].
  match goal with H : buf !! S _ = Some _ |- _ => apply lookup_lt_Some in H end. lia.
Qed.

Lemma parse_items_bound o child pos n cursor acc v k limit :
  (forall c v k, child c = IOk v k -> (c + k <= limit)%nat) ->
  (pos < cursor <= limit)%nat ->
  parse_items o child pos n cursor acc = IOk v k -> (0 < k /\ pos + k <= limit)%nat.
Proof.
  intros Hc. revert cursor acc. induction n as [|n IH]; intros cursor acc Hp; cbn [parse_items].
  - intros [= <- <-]. lia.
  - destruct (child cursor) as [v' k'| |e|] eqn:E; try done.
    case_match; [done|]. apply IH. apply Hc in E. lia.
Qed.

(** A parsed value consumes at least one byte and ends inside the buffer. *)
Lemma parse_at_bound o buf levels pos v n :
  0 <= opt_max_request_bytes o ->
  parse_at o buf levels pos = IOk v n -> (0 < n /\ pos + n <= length buf)%nat.
Proof.
  intros Ho. revert pos v n. induction levels as [|lv IH]; intros pos v n; [done|].
  cbn [parse_at].
  destruct (buf !! pos) as [c|] eqn:Ec; [|done].
  destruct (find_crlf buf (S pos)) as [i|] eqn:Ei; [|by case_match].
  apply find_crlf_bound in Ei as [? ?].
  repeat case_match; intros; simplify_eq; try lia.
  - unfold parse_integer in *. case_match; simplify_eq. lia.
  - eapply parse_bulk_bound; [|done|done]. lia.
  - unfold parse_array in *. repeat (case_match; simplify_eq; try lia).
    eapply parse_items_bound; [|..|eassumption]; [|lia].
    intros ??? Hk%IH. lia.
Qed.

Lemma parse_inline_bound o buf v n :
  parse_inline o buf 0 = IOk v n -> (0 < n <= length buf)%nat.
Proof.
  unfold parse_inline. destruct (find_crlf buf 0) as [i|] eqn:Ei; [|by case_match].
  apply find_crlf_bound in Ei as [? ?]. case_match; [|done]. intros [= _ <-]. lia.
Qed.

(** * Memory safety *)

(** Limits that leave room for the CRLF after the largest bulk string. *)
Definition limits_fit (o : ParserOptions) : Prop :=
  0 <= opt_max_request_bytes o <= u64_max - 2.

Lemma parse_bulk_no_fault o buf pos after line :
  limits_fit o -> parse_bulk o buf pos after line <> IFault.
Proof.
  unfold limits_fit, u64_max. intros Ho. unfold parse_bulk.
  destruct (parse_number_line line) as [len|]; [|done].
  destruct (Z.ltb_spec len (-1)); [done|]. destruct (Z.eqb_spec len (-1)); [done|].
  case_match; [done|]. case_match; [done|]. bool_to_prop.
  destruct (Z.ltb_spec (bsize buf) (u64 (Z.of_nat after + len + 2))) as [|Hs]; [done|].
  rewrite u64_small in Hs by lia. unfold bsize in Hs.
  destruct (lookup_lt_is_Some_2 buf (Z.to_nat (Z.of_nat after + len))) as [a ->]; [lia|].
  destruct (lookup_lt_is_Some_2 buf (S (Z.to_nat (Z.of_nat after + len)))) as [b ->]; [lia|].
  by case_match.
Qed.

Lemma parse_items_no_fault o child pos n cursor acc :
  (forall c, child c <> IFault) -> parse_items o child pos n cursor acc <> IFault.
Proof.
  intros Hc. revert cursor acc. induction n as [|n IH]; intros cursor acc; [done|].
  cbn [parse_items]. specialize (Hc cursor).
  destruct (child cursor); try done. by case_match.
Qed.

Lemma parse_at_no_fault o buf levels pos :
  limits_fit o -> parse_at o buf levels pos <> IFault.
Proof.
  intros Ho. revert pos. induction levels as [|lv IH]; intros pos; [done|].
  cbn [parse_at]. repeat (case_match; try done).
  - unfold parse_integer. by case_match.
  - by apply parse_bulk_no_fault.
  - unfold parse_array. repeat (case_match; try done). by apply parse_items_no_fault.
Qed.

Lemma parse_inline_no_fault o buf pos : parse_inline o buf pos <> IFault.
Proof. unfold parse_inline. repeat (case_match; try done). Qed.

(** What [parse_at] and [parse_inline] have in common, at position 0. *)
Definition parse_first (o : ParserOptions) (buf : bytes) : InternalResult :=
  match buf with
  | [] => INeedMore
  | c :: _ => if is_resp_prefix c then parse_at o buf (S kMaxDepth) 0 else parse_inline o buf 0
  end.

Lemma parse_first_extend o buf ext :
  bsize buf <= opt_max_request_bytes o -> settled (parse_first o buf) = true ->
  parse_first o (buf ++ ext) = parse_first o buf.
Proof.
  destruct buf as [|c buf]; [done|]. unfold parse_first. cbn [app].
  rewrite app_comm_cons. case_match.
  - apply parse_at_extend.
  - apply parse_inline_extend.
Qed.

Lemma parse_first_bound o buf v n :
  0 <= opt_max_request_bytes o -> parse_first o buf = IOk v n -> (0 < n <= length buf)%nat.
Proof.
  intros Ho. destruct buf as [|c buf]; [done|]. unfold parse_first. case_match; intros Hp.
  - apply parse_at_bound in Hp; [lia|done].
  - by apply parse_inline_bound in Hp.
Qed.

Lemma parse_first_no_fault o buf : limits_fit o -> parse_first o buf <> IFault.
Proof.
  intros. destruct buf; [done|]. unfold parse_first.
  case_match; auto using parse_at_no_fault, parse_inline_no_fault.
Qed.

Lemma next_value_eq p :
  next_value p =
  match parse_first (options_ p) (buffer_ p) with
  | INeedMore => (VNeedMore, p)
  | IError e => (VError e, p)
  | IFault => (VFault, p)
  | IOk v n =>
      if opt_max_request_bytes (options_ p) <? Z.of_nat n
      then (VError (lit "request exceeded maximum size"), p)
      else (VOk v (take n (buffer_ p)), discard p n)
  end.
Proof. unfold next_value, parse_first. by destruct (buffer_ p). Qed.

Lemma discard_eq p n : discard p n = MkParser (options_ p) (drop n (buffer_ p)).
Proof.
  unfold discard. destruct (Nat.leb_spec (length (buffer_ p)) n); [|done].
  by rewrite drop_ge by lia.
Qed.

(** * Decoding inverts encoding *)

Lemma isdigit_not_cr c : isdigit c = true -> c <> CR.
Proof. intros H ->. vm_compute in H. done. Qed.

Lemma to_string_no_cr z :
  - u64_max <= z <= u64_max -> Forall (fun c => c <> CR) (to_string z).
Proof.
  intros Hz. destruct (to_string_shape z Hz) as (ds & -> & _ & _ & Hall & _).
  apply Forall_app. split.
  - destruct (z <? 0); repeat constructor; done.
  - eapply Forall_impl; [apply isdigit_not_cr | exact Hall].
Qed.

Lemma parse_number_line_to_string z : is_i64 z -> parse_number_line (to_string z) = Some z.
Proof.
  intros Hz. unfold parse_number_line.
  destruct (to_string z) eqn:E; [by apply to_string_nonempty in E; auto with velox|].
  rewrite <- E. apply from_chars_all_to_string; auto with velox.
Qed.

(** The buffer around one line [prefix line CRLF] that starts at [length pre]. *)
Lemma line_at (pre line post : bytes) (prefix : ascii) :
  Forall (fun c => c <> CR) line ->
  let buf := pre ++ [prefix] ++ line ++ crlf ++ post in
  let pos := length pre in
  buf !! pos = Some prefix /\
  find_crlf buf (S pos) = Some (S pos + length line)%nat /\
  slice buf (S pos) (length line) = line.
Proof.
  intros Hl buf pos. subst buf pos. split; [by apply list_lookup_middle|].
  replace (pre ++ [prefix] ++ line ++ crlf ++ post)
    with ((pre ++ [prefix]) ++ line ++ crlf ++ post) by (by rewrite <- app_assoc).
  replace (S (length pre)) with (length (pre ++ [prefix])) by (rewrite length_app; simpl; lia).
  split; [by apply find_crlf_line | apply slice_at].
Qed.

(** [parse_at] on a line whose text is known: the dispatch on the prefix. *)
Lemma parse_at_line o pre line post prefix lv :
  Forall (fun c => c <> CR) line ->
  let buf := pre ++ [prefix] ++ line ++ crlf ++ post in
  let pos := length pre in
  let after := (pos + 3 + length line)%nat in
  parse_at o buf (S lv) pos =
  if bool_decide (prefix = "+"%char) then IOk (v_simple line) (after - pos)
  else if bool_decide (prefix = "-"%char) then IOk (v_error line) (after - pos)
  else if bool_decide (prefix = ":"%char) then parse_integer pos after line
  else if bool_decide (prefix = "$"%char) then parse_bulk o buf pos after line
  else if bool_decide (prefix = "*"%char) then parse_array o (parse_at o buf lv) pos after line
  else IError (lit "unknown RESP type").
Proof.
  intros Hl buf pos after. destruct (line_at pre line post prefix Hl) as (H1 & H2 & H3).
  fold buf pos in H1, H2, H3. cbn [parse_at]. rewrite H1, H2.
  replace (S pos + length line - S pos)%nat with (length line) by lia. rewrite H3.
  replace (S pos + length line + 2)%nat with after by (subst after; lia). done.
Qed.

Lemma bulk_fragment_size b : is_u64 (bsize b) ->
  bsize (bulk_string_fragment b) = 5 + bsize (to_string (bsize b)) + bsize b.
Proof.
  intros. unfold bulk_string_fragment, crlf. autorewrite with bsize.
  change (bsize (lit "$")) with 1. change (bsize []) with 0. lia.
Qed.

Lemma parse_bulk_fragment o pre b post lv :
  is_i64 (bsize b) -> opt_max_request_bytes o <= u64_max ->
  bsize b <= opt_max_bulk_bytes o ->
  bsize (pre ++ bulk_string_fragment b) <= opt_max_request_bytes o ->
  parse_at o (pre ++ bulk_string_fragment b ++ post) (S lv) (length pre)
  = IOk (v_bulk b) (length (bulk_string_fragment b)).
Proof.
  intros Hb Ho Hm Hr.
  pose proof (is_i64_mag _ Hb) as Hmag.
  assert (Hu : is_u64 (bsize b)) by (unfold is_u64; pose proof (bsize_nonneg b); lia).
  rewrite bsize_app, bulk_fragment_size in Hr by done.
  set (n := to_string (bsize b)) in *.
  assert (Hbuf : pre ++ bulk_string_fragment b ++ post
                 = pre ++ ["$"%char] ++ n ++ crlf ++ (b ++ crlf ++ post)).
  { unfold bulk_string_fragment. change (lit "$") with ["$"%char]. by rewrite <- !app_assoc. }
  rewrite Hbuf, parse_at_line by (by apply to_string_no_cr).
  repeat (rewrite bool_decide_eq_false_2 by done). rewrite bool_decide_eq_true_2 by done.
  unfold parse_bulk. subst n. rewrite parse_number_line_to_string by done.
  set (n := to_string (bsize b)) in *.
  pose proof (bsize_nonneg b). pose proof (bsize_nonneg pre).
  set (after := (length pre + 3 + length n)%nat).
  assert (Hafter : Z.of_nat after = bsize pre + 3 + bsize n) by (unfold after, bsize; lia).
  rewrite (proj2 (Z.ltb_ge (bsize b) (-1))), (proj2 (Z.eqb_neq _ _)) by lia.
  unfold is_u64 in Hu.
  rewrite (proj2 (Z.ltb_ge _ (bsize b))), (proj2 (Z.ltb_ge _ (bsize b))) by lia. cbn [orb].
  rewrite (proj2 (Z.ltb_ge _ _)), (proj2 (Z.ltb_ge _ _)) by lia. cbn [orb].
  unfold u64_max in Ho. rewrite u64_small by lia.
  assert (Hsize : bsize (pre ++ ["$"%char] ++ n ++ crlf ++ b ++ crlf ++ post)
                  = bsize pre + 5 + bsize n + bsize b + bsize post).
  { unfold crlf. autorewrite with bsize. change (bsize []) with 0. lia. }
  pose proof (bsize_nonneg post).
  rewrite (proj2 (Z.ltb_ge _ _)) by lia.
  set (head := pre ++ ["$"%char] ++ n ++ crlf).
  assert (Hhead : length head = after)
    by (unfold head, after, crlf; rewrite !length_app; simpl; lia).
  replace (pre ++ ["$"%char] ++ n ++ crlf ++ b ++ crlf ++ post) with (head ++ b ++ crlf ++ post)
    by (unfold head; by rewrite <- !app_assoc).
  replace (Z.to_nat (Z.of_nat after + bsize b)) with (length (head ++ b))
    by (rewrite length_app, Hhead; unfold bsize; lia).
  assert (Hcr : (head ++ b ++ crlf ++ post) !! length (head ++ b) = Some CR).
  { rewrite app_assoc. by apply list_lookup_middle. }
  assert (Hlf : (head ++ b ++ crlf ++ post) !! S (length (head ++ b)) = Some LF).
  { rewrite (app_assoc head b). rewrite lookup_app_r by lia.
    by replace (S _ - _)%nat with 1%nat by lia. }
  rewrite Hcr, Hlf. rewrite !bool_decide_eq_true_2 by done. cbn [negb orb].
  replace (Z.to_nat (bsize b)) with (length b) by (unfold bsize; lia).
  rewrite <- Hhead, slice_at. f_equal.
  unfold bulk_string_fragment, head, crlf. fold n. rewrite !length_app. simpl. lia.
Qed.

(** * Arrays of encoded elements

    [f] encodes an element and [g] is the value it decodes to. *)
Section Arrays.
Context {A : Type} (f : A -> bytes) (g : A -> Value) (o : ParserOptions).
Hypothesis limit_u64 : opt_max_request_bytes o <= u64_max.

Definition decodes (a : A) : Prop :=
  forall pre post lv, bsize (pre ++ f a) <= opt_max_request_bytes o ->
    parse_at o (pre ++ f a ++ post) (S lv) (length pre) = IOk (g a) (length (f a)).

Lemma parse_items_concat pos pre items post lv acc :
  Forall decodes items -> (pos <= length pre)%nat ->
  bsize (pre ++ flat_map f items) <= opt_max_request_bytes o ->
  parse_items o (parse_at o (pre ++ flat_map f items ++ post) (S lv))
    pos (length items) (length pre) acc
  = IOk (v_list (acc ++ map g items)) (length (pre ++ flat_map f items) - pos).
Proof using limit_u64.
  intros Ha. revert pre acc. induction Ha as [|b items Hb Ha IH]; intros pre acc Hp Hr.
  - simpl. by rewrite !app_nil_r.
  - cbn [length parse_items flat_map map] in *.
    rewrite <- app_assoc. rewrite !bsize_app in Hr.
    pose proof (bsize_nonneg (flat_map f items)).
    rewrite Hb by (rewrite bsize_app; lia).
    replace (length pre + length (f b))%nat with (length (pre ++ f b)) by (by rewrite length_app).
    rewrite (proj2 (Z.ltb_ge _ _)) by (unfold bsize in *; rewrite length_app; lia).
    rewrite !(app_assoc pre). rewrite IH.
    + by rewrite <- app_assoc.
    + rewrite length_app. lia.
    + rewrite !bsize_app. lia.
Qed.

(** An array whose header announces [length items] elements. *)
Lemma parse_first_array items rest :
  let k := Z.of_nat (length items) in
  let enc := array_header k ++ flat_map f items in
  k <= i64_max -> k <= opt_max_array_elements o ->
  Forall decodes items -> bsize enc <= opt_max_request_bytes o ->
  parse_first o (enc ++ rest) = IOk (v_list (map g items)) (length enc).
Proof using limit_u64.
  intros k enc Hi Hc Ha Hr.
  assert (Hk : is_i64 k) by (unfold is_i64, i64_min; lia).
  assert (Hl : length (array_header k) = (length (@nil ascii) + 3 + length (to_string k))%nat)
    by (unfold array_header, crlf; rewrite !length_app; simpl; lia).
  assert (Hbuf : enc ++ rest
                 = [] ++ ["*"%char] ++ to_string k ++ crlf ++ (flat_map f items ++ rest))
    by (unfold enc, array_header; by rewrite <- !app_assoc).
  unfold parse_first. rewrite Hbuf at 1. cbn [app].
  change (is_resp_prefix "*"%char) with true. cbv iota.
  rewrite Hbuf. change 0%nat with (length (@nil ascii)).
  rewrite parse_at_line by (apply to_string_no_cr; auto with velox).
  repeat (rewrite bool_decide_eq_false_2 by done). rewrite bool_decide_eq_true_2 by done.
  unfold parse_array. rewrite parse_number_line_to_string by done.
  rewrite (proj2 (Z.ltb_ge k (-1))), (proj2 (Z.eqb_neq _ _)) by lia.
  rewrite (proj2 (Z.ltb_ge _ k)), (proj2 (Z.ltb_ge _ k)) by (unfold i64_max, u64_max in *; lia).
  cbn [orb]. replace (Z.to_nat k) with (length items) by lia.
  rewrite <- Hbuf, <- Hl. unfold enc. rewrite <- app_assoc. change kMaxDepth with (S 7).
  rewrite parse_items_concat by (done || apply Nat.le_0_l).
  simpl length at 2. by rewrite Nat.sub_0_r.
Qed.
End Arrays.

(** The arguments of a command, one bulk string each. *)
Definition args_fit (o : ParserOptions) (args : list bytes) : Prop :=
  Forall (fun b => is_i64 (bsize b) /\ bsize b <= opt_max_bulk_bytes o) args.

(** Limits under which a command is accepted: the element count, each
    argument and the whole encoding are within the configured bounds. *)
Definition command_fits (o : ParserOptions) (args : list bytes) : Prop :=
  opt_max_request_bytes o <= u64_max /\
  Z.of_nat (length args) <= i64_max /\
  Z.of_nat (length args) <= opt_max_array_elements o /\
  args_fit o args /\
  bsize (encode_command args) <= opt_max_request_bytes o.

Lemma parse_first_command o args rest :
  command_fits o args ->
  parse_first o (encode_command args ++ rest)
  = IOk (v_list (map v_bulk args)) (length (encode_command args)).
Proof.
  intros (Ho & Hi & Hc & Ha & Hr). apply parse_first_array; try done.
  eapply Forall_impl; [|exact Ha]. intros b [? ?] pre post lv ?. by apply parse_bulk_fragment.
Qed.

Lemma command_args_bulk args : command_args (map v_bulk args) = inr args.
Proof. induction args as [|a args IH]; [done|]. simpl. by rewrite IH. Qed.

Lemma next_command_encode o args rest :
  command_fits o args ->
  next_command (MkParser o (encode_command args ++ rest))
  = (COk args (encode_command args), MkParser o rest).
Proof.
  intros H. unfold next_command. rewrite next_value_eq. cbn [options_ buffer_].
  rewrite parse_first_command by done. destruct H as (_ & _ & _ & _ & Hr).
  rewrite (proj2 (Z.ltb_ge _ _)) by (unfold bsize in Hr; lia).
  rewrite discard_eq. cbn [options_ buffer_]. rewrite take_app_length, drop_app_length.
  cbn. by rewrite command_args_bulk.
Qed.

(** * Incremental parsing *)

(** The loop every client of the parser runs: take commands until the parser
    needs more input or reports an error.  [None] is "out of fuel". *)
Fixpoint command_stream (fuel : nat) (p : Parser)
    : option (list (list bytes) * CommandParseResult * Parser) :=
  match fuel with
  | O => None
  | S f =>
      match next_command p with
      | (COk args _, p') =>
          match command_stream f p' with
          | Some (l, r, q) => Some (args :: l, r, q)
          | None => None
          end
      | (r, p') => Some ([], r, p')
      end
  end.

(** Bytes that arrive in chunks: append each, then take the commands. *)
Fixpoint feed_all (fuel : nat) (p : Parser) (chunks : list bytes)
    : option (list (list bytes) * CommandParseResult * Parser) :=
  match chunks with
  | [] => Some ([], CNeedMore, p)
  | c :: cs =>
      let '(st, p1) := append p c in
      if ok_status st then
        match command_stream fuel p1 with
        | Some (l, CNeedMore, p2) =>
            match feed_all fuel p2 cs with
            | Some (l', r, q) => Some (l ++ l', r, q)
            | None => None
            end
        | res => res
        end
      else Some ([], CError (message st), p1)
  end.

Definition settled_cmd (r : CommandParseResult) : bool :=
  match r with COk _ _ | CError _ => true | _ => false end.

(** The possible outcomes of [next_command], with the bytes they account for. *)
Lemma next_command_cases o buf :
  limits_fit o -> bsize buf <= opt_max_request_bytes o ->
  next_command (MkParser o buf) = (CNeedMore, MkParser o buf) \/
  (exists r k, next_command (MkParser o buf) = (r, MkParser o (drop k buf)) /\
     settled_cmd r = true /\ (k <= length buf)%nat /\
     (forall args raw, r = COk args raw -> (0 < k)%nat /\ raw = take k buf) /\
     forall ext, bsize (buf ++ ext) <= opt_max_request_bytes o ->
       next_command (MkParser o (buf ++ ext)) = (r, MkParser o (drop k buf ++ ext))).
Proof.
  intros Hl Hb. unfold next_command. rewrite next_value_eq. cbn [options_ buffer_].
  pose proof (parse_first_no_fault o buf Hl) as Hnf.
  pose proof (fun ext => parse_first_extend o buf ext Hb) as Hext.
  destruct (parse_first o buf) as [v n| |e|] eqn:E; [|by left| |done].
  - right. assert (Hn := E). apply parse_first_bound in Hn; [|destruct Hl; lia].
    assert (Hk : (opt_max_request_bytes o <? Z.of_nat n) = false)
      by (apply Z.ltb_ge; unfold bsize in Hb; lia).
    rewrite Hk, discard_eq. cbn [options_ buffer_].
    assert (Hx : forall ext, next_value (MkParser o (buf ++ ext))
                = (VOk v (take n buf), MkParser o (drop n buf ++ ext))).
    { intros ext. rewrite next_value_eq. cbn [options_ buffer_]. rewrite Hext by done.
      rewrite Hk, discard_eq. cbn [options_ buffer_].
      by rewrite take_app_le, drop_app_le by lia. }
    destruct (negb _ || _) eqn:Ha; [|destruct (command_args (v_array v)) as [e|args] eqn:Hc].
    all: eexists _, n; split; [done|]; split; [done|]; split; [lia|]; split;
      [intros; simplify_eq; auto with lia|];
      intros ext _; rewrite Hx; by rewrite Ha, ?Hc.
  - right. eexists _, 0%nat. split; [done|]. split; [done|]. split; [lia|]. split; [done|].
    intros ext _. rewrite next_value_eq. cbn [options_ buffer_]. by rewrite Hext.
Qed.

(** Every settled step is repeated when more input follows, and the loop ends
    within one step per buffered byte. *)
Lemma command_stream_total o buf fuel :
  limits_fit o -> bsize buf <= opt_max_request_bytes o -> (length buf < fuel)%nat ->
  exists l r p, command_stream fuel (MkParser o buf) = Some (l, r, p).
Proof.
  intros Hl. revert buf. induction fuel as [|f IH]; intros buf Hb Hf; [lia|].
  cbn [command_stream].
  destruct (next_command_cases o buf Hl Hb) as [->|(r & k & -> & Hs & Hk & Hpos & _)]; [by eauto|].
  destruct r as [args raw| |e|]; try done; [|by eauto].
  destruct (Hpos _ _ eq_refl) as [Hk0 _].
  destruct (IH (drop k buf)) as (l & r & q & ->).
  - unfold bsize in *. rewrite length_drop. lia.
  - rewrite length_drop. lia.
  - by eauto.
Qed.

(** More fuel than needed gives the same stream. *)
Lemma command_stream_fuel fuel fuel' p res :
  command_stream fuel p = Some res -> (fuel <= fuel')%nat -> command_stream fuel' p = Some res.
Proof.
  revert fuel' p res. induction fuel as [|f IH]; intros [|f'] p res H Hf; try done; [lia|].
  cbn [command_stream] in *. destruct (next_command p) as [[args raw| |e|] p']; try done.
  destruct (command_stream f p') as [[[l r] q]|] eqn:E; [|done].
  rewrite (IH f' _ _ E) by lia. done.
Qed.

Lemma command_stream_options o buf fuel l r p :
  limits_fit o -> bsize buf <= opt_max_request_bytes o ->
  command_stream fuel (MkParser o buf) = Some (l, r, p) ->
  options_ p = o /\ (length (buffer_ p) <= length buf)%nat /\
  (r = CNeedMore \/ exists e, r = CError e).
Proof.
  intros Hl. revert buf l r p. induction fuel as [|f IH]; intros buf l r p Hb; [done|].
  cbn [command_stream].
  destruct (next_command_cases o buf Hl Hb) as [->|(r' & k & -> & Hs & Hk & Hpos & _)].
  { intros [= <- <- <-]. auto. }
  destruct r' as [args raw| |e|]; try done.
  - destruct (command_stream f (MkParser o (drop k buf))) as [[[l' r'] q]|] eqn:E; [|done].
    intros [= <- <- <-]. apply IH in E as (? & ? & ?).
    + rewrite length_drop in *. repeat split; auto with lia.
    + unfold bsize in *. rewrite length_drop. lia.
  - intros [= <- <- <-]. cbn. rewrite length_drop. split; [done|]. split; [lia|]. eauto.
Qed.

(** The stream of [a ++ b] is that of [a] followed by that of what [a] left
    over and [b]. *)
Lemma command_stream_app o a b fuel fuel' l1 p1 l2 r p2 :
  limits_fit o -> bsize (a ++ b) <= opt_max_request_bytes o ->
  command_stream fuel (MkParser o a) = Some (l1, CNeedMore, p1) ->
  command_stream fuel' (MkParser o (buffer_ p1 ++ b)) = Some (l2, r, p2) ->
  command_stream (fuel + fuel') (MkParser o (a ++ b)) = Some (l1 ++ l2, r, p2).
Proof.
  intros Hl. revert a l1 p1. induction fuel as [|f IH]; intros a l1 p1 Hb; [done|].
  assert (Ha : bsize a <= opt_max_request_bytes o).
  { rewrite bsize_app in Hb. pose proof (bsize_nonneg b). lia. }
  cbn [command_stream].
  destruct (next_command_cases o a Hl Ha) as [->|(r' & k & -> & Hs & Hk & Hpos & Hx)].
  - intros [= <- <-] H. eapply command_stream_fuel; [exact H | lia].
  - destruct r' as [args raw| |e|]; try done.
    destruct (command_stream f (MkParser o (drop k a))) as [[[l r'] q]|] eqn:E; [|done].
    intros [= <- -> <-] H. cbn [command_stream Nat.add]. rewrite Hx by done.
    rewrite (IH (drop k a) l q); try done.
    rewrite bsize_app in *. unfold bsize in *. rewrite length_drop. lia.
Qed.

Lemma command_stream_error o a b fuel l e p1 :
  limits_fit o -> bsize (a ++ b) <= opt_max_request_bytes o ->
  command_stream fuel (MkParser o a) = Some (l, CError e, p1) ->
  command_stream fuel (MkParser o (a ++ b)) = Some (l, CError e, MkParser o (buffer_ p1 ++ b)).
Proof.
  intros Hl. revert a l p1. induction fuel as [|f IH]; intros a l p1 Hb; [done|].
  assert (Ha : bsize a <= opt_max_request_bytes o).
  { rewrite bsize_app in Hb. pose proof (bsize_nonneg b). lia. }
  cbn [command_stream].
  destruct (next_command_cases o a Hl Ha) as [->|(r' & k & -> & Hs & Hk & Hpos & Hx)]; [done|].
  rewrite Hx by done. destruct r' as [args raw| |e'|]; try done.
  - destruct (command_stream f (MkParser o (drop k a))) as [[[l' r'] q]|] eqn:E; [|done].
    intros [= <- -> <-]. rewrite (IH (drop k a) l' q); try done.
    rewrite bsize_app in *. unfold bsize in *. rewrite length_drop. lia.
  - by intros [= <- <- <-].
Qed.

(** A starved stream stays starved on what it left over. *)
Lemma command_stream_rest o buf fuel l p :
  limits_fit o -> bsize buf <= opt_max_request_bytes o ->
  command_stream fuel (MkParser o buf) = Some (l, CNeedMore, p) ->
  forall fuel', (0 < fuel')%nat -> command_stream fuel' p = Some ([], CNeedMore, p).
Proof.
  intros Hl. revert buf l p. induction fuel as [|f IH]; intros buf l p Hb; [done|].
  cbn [command_stream].
  destruct (next_command_cases o buf Hl Hb) as [Hn|(r' & k & -> & Hs & Hk & Hpos & _)].
  - rewrite Hn. intros [= <- <-] [|f'] ?; [lia|]. cbn [command_stream]. by rewrite Hn.
  - destruct r' as [args raw| |e|]; try done.
    destruct (command_stream f (MkParser o (drop k buf))) as [[[l' r'] q]|] eqn:E; [|done].
    intros [= <- -> <-]. eapply IH; [|exact E].
    unfold bsize in *. rewrite length_drop. lia.
Qed.

Lemma append_ok o buf c :
  bsize (buf ++ c) <= opt_max_request_bytes o ->
  append (MkParser o buf) c = (status_ok, MkParser o (buf ++ c)).
Proof.
  intros H. rewrite bsize_app in H. unfold append. cbn [options_ buffer_].
  pose proof (bsize_nonneg buf).
  by rewrite (proj2 (Z.ltb_ge _ _)), (proj2 (Z.ltb_ge _ _)) by lia.
Qed.

Lemma feed_all_stream o chunks buf fuel :
  limits_fit o -> bsize (buf ++ concat chunks) <= opt_max_request_bytes o ->
  (length (buf ++ concat chunks) < fuel)%nat ->
  command_stream fuel (MkParser o buf) = Some ([], CNeedMore, MkParser o buf) ->
  exists l r p unfed fuel',
    feed_all fuel (MkParser o buf) chunks = Some (l, r, p) /\
    command_stream fuel' (MkParser o (buf ++ concat chunks))
    = Some (l, r, MkParser (options_ p) (buffer_ p ++ concat unfed)) /\
    unfed `suffix_of` chunks /\ (r = CNeedMore -> unfed = []).
Proof.
  intros Hl. revert buf. induction chunks as [|c cs IH]; intros buf Hb Hf H0.
  { exists [], CNeedMore, (MkParser o buf), [], fuel.
    simpl. by rewrite app_nil_r. }
  cbn [feed_all concat] in *. rewrite app_assoc in *.
  assert (Hc : bsize (buf ++ c) <= opt_max_request_bytes o).
  { rewrite bsize_app in Hb. pose proof (bsize_nonneg (concat cs)). lia. }
  rewrite append_ok by done. cbn [ok_status status_ok st_code].
  rewrite length_app in Hf.
  destruct (command_stream_total o (buf ++ c) fuel) as (l & r & p & Hs); [done|done|lia|].
  destruct (command_stream_options _ _ _ _ _ _ Hl Hc Hs) as (<- & Hlen & [->|[e ->]]);
    rewrite Hs.
  - destruct p as [o rest]. cbn [options_ buffer_] in *.
    destruct (IH rest) as (l' & r & q & unfed & fuel' & -> & Hs2 & Hu & Hp).
    + rewrite bsize_app in *. unfold bsize in *. lia.
    + rewrite length_app. lia.
    + eapply command_stream_rest; [done|exact Hc|exact Hs|lia].
    + exists (l ++ l'), r, q, unfed, (fuel + fuel')%nat. split; [done|]. split; [by eapply command_stream_app|].
      split; [by apply suffix_cons_r|done].
  - exists l, (CError e), p, cs, fuel. split; [done|]. split; [by apply command_stream_error|].
    split; [by apply suffix_cons_r|done].
Qed.

(** * Limits on parsed values *)

(** A value within the configured limits: bulk strings at most
    [max_bulk_bytes] long, arrays at most [max_array_elements] long and nested
    at most [levels] deep, integers within 64 bits. *)
Fixpoint bounded (o : ParserOptions) (levels : nat) (v : Value) : Prop :=
  match levels with
  | O => False
  | S l =>
      match v_type v with
      | BulkString => v_null v = true \/ bsize (v_text v) <= opt_max_bulk_bytes o
      | Integer => is_i64 (v_integer v)
      | Array => v_null v = true \/
          (Z.of_nat (length (v_array v)) <= opt_max_array_elements o /\
           Forall (bounded o l) (v_array v))
      | SimpleString | TError => True
      end
  end.

Lemma parse_number_line_range line z : parse_number_line line = Some z -> is_i64 z.
Proof. unfold parse_number_line. case_match; [done|]. apply from_chars_all_range. Qed.

Lemma parse_bulk_bounded o buf pos after line v n lv :
  parse_bulk o buf pos after line = IOk v n -> bounded o (S lv) v.
Proof.
  unfold parse_bulk. intros H. repeat (case_match; simplify_eq; try done); [by left|].
  bool_to_prop. right. cbn. unfold bsize, slice. rewrite length_take. lia.
Qed.

Lemma parse_items_bounded o child pos n cursor acc v k P :
  (forall c v k, child c = IOk v k -> P v) -> Forall P acc ->
  parse_items o child pos n cursor acc = IOk v k ->
  exists l, v = v_list l /\ length l = (length acc + n)%nat /\ Forall P l.
Proof.
  intros Hc. revert cursor acc. induction n as [|n IH]; intros cursor acc Ha; cbn [parse_items].
  - intros [= <- <-]. exists acc. repeat split; [lia|done].
  - destruct (child cursor) as [v' k'| |e|] eqn:E; try done.
    case_match; [done|]. intros H'. apply IH in H' as (l & -> & Hl & ?).
    + exists l. rewrite Hl, length_app. simpl. repeat split; [lia|done].
    + apply Forall_app. split; [done|]. constructor; [by eapply Hc | constructor].
Qed.

Lemma parse_at_bounded o buf levels pos v n :
  parse_at o buf levels pos = IOk v n -> bounded o levels v.
Proof.
  revert pos v n. induction levels as [|lv IH]; intros pos v n; [done|].
  cbn [parse_at]. intros H.
  repeat (case_match; simplify_eq; try done).
  - unfold parse_integer in *. case_match; simplify_eq. by eapply parse_number_line_range.
  - by eapply parse_bulk_bounded.
  - unfold parse_array in *. repeat (case_match; simplify_eq; try done); [by left|].
    bool_to_prop. eapply parse_items_bounded in H as (l & -> & Hl & Hall);
      [| intros ??? Hk; by eapply IH in Hk | constructor].
    right. cbn in *. split; [lia|done].
Qed.

Lemma inline_items_bounded o words items lv :
  inline_items o words = Some items -> Forall (bounded o (S lv)) items.
Proof.
  revert items. induction words as [|w ws IH]; intros items; cbn [inline_items].
  - intros [= <-]. constructor.
  - case_match; [done|]. destruct (inline_items o ws) as [l|]; simpl; [|done].
    intros [= <-]. bool_to_prop. constructor; [by right | by apply IH].
Qed.

Lemma inline_items_length o words items : inline_items o words = Some items -> length items = length words.
Proof.
  revert items. induction words as [|w ws IH]; intros items; cbn [inline_items]; [by intros [= <-]|].
  case_match; [done|]. destruct (inline_items o ws) as [l|]; simpl; [|done]. intros [= <-]. cbn. f_equal. by apply IH.
Qed.

Lemma split_words_length line : (length (split_words line) <= length line)%nat.
Proof.
  unfold split_words. generalize (S (length line)). intros fuel. revert line.
  induction fuel as [|f IH]; intros line; cbn [split_words_loop]; [cbn; lia|]. destruct line as [|c line]; [done|].
  destruct (span isspace (c :: line)) as [blank rest] eqn:E1. destruct (span _ rest) as [word rest'] eqn:E2.
  apply span_spec in E1 as [E1 _]. apply span_spec in E2 as [E2 _]. apply (f_equal length) in E1, E2.
  rewrite length_app in *. specialize (IH rest'). destruct word as [|a word]; cbn in *; lia.
Qed.

(** * Replies *)

Lemma no_cr_ind (s : bytes) : forallb (fun c => negb (bool_decide (c = CR))) s = true ->
  Forall (fun c => c <> CR) s.
Proof.
  intros H. apply Forall_forall. intros c Hc.
  rewrite forallb_forall in H. apply H in Hc.
  by bool_to_prop.
Qed.

Lemma null_bulk_decodes o pre post lv :
  parse_at o (pre ++ null_bulk ++ post) (S lv) (length pre) = IOk v_null_bulk (length null_bulk).
Proof.
  change (null_bulk ++ post) with (["$"%char] ++ lit "-1" ++ crlf ++ post).
  rewrite parse_at_line by (by apply no_cr_ind).
  repeat (rewrite bool_decide_eq_false_2 by done). rewrite bool_decide_eq_true_2 by done.
  unfold parse_bulk. change (parse_number_line (lit "-1")) with (Some (-1)). cbn.
  f_equal. lia.
Qed.

Definition v_opt (v : option bytes) : Value :=
  match v with Some b => v_bulk b | None => v_null_bulk end.

(** Torn commands: a proper prefix of an encoded command (a half-received
    request, or the tail of a log cut by a crash) is reported as incomplete and
    left in the buffer untouched. *)
Lemma torn_command_needs_more o args pre suf :
  command_fits o args -> limits_fit o ->
  encode_command args = pre ++ suf -> suf <> [] ->
  next_command (MkParser o pre) = (CNeedMore, MkParser o pre).
Proof.
  intros Hfit Hl Henc Hs.
  assert (Hsize : bsize (pre ++ suf) <= opt_max_request_bytes o)
    by (rewrite <- Henc; apply Hfit).
  assert (Hpre : bsize pre <= opt_max_request_bytes o)
    by (rewrite bsize_app in Hsize; pose proof (bsize_nonneg suf); lia).
  destruct (next_command_cases o pre Hl Hpre) as [?|(r & k & _ & Hset & Hk & Hpos & Hx)]; [done|].
  specialize (Hx suf Hsize). pose proof (next_command_encode o args [] Hfit) as Hfull.
  rewrite app_nil_r, Henc, Hx in Hfull. injection Hfull as -> Hd.
  apply app_eq_nil in Hd as [_ ->]. done.
Qed.

Lemma parse_inline_bounded o buf v n :
  parse_inline o buf 0 = IOk v n -> (0 < n <= length buf)%nat ->
  exists l, v = v_list l /\ Forall (bounded o 1) l /\ Z.of_nat (length l) < bsize (take n buf).
Proof.
  unfold parse_inline. destruct (find_crlf buf 0) as [i|]; [|by case_match].
  destruct (inline_items o _) as [items|] eqn:Hi; [|done]. intros [= <- <-] Hn. exists items. split; [done|].
  split; [by eapply inline_items_bounded|]. apply inline_items_length in Hi.
  pose proof (split_words_length (slice buf 0 (i - 0))) as Hw. rewrite <- Hi in Hw. unfold slice in Hw.
  rewrite length_take in Hw. unfold bsize. rewrite length_take. lia.
Qed.

(** * Properties *)

(** C25. Decoding inverts encoding: a command written with [encode_command]
    (a client request, or a record of the append-only file) that obeys the
    configured limits is read back argument for argument, whatever bytes
    follow it, which stay in the buffer. *)
Theorem encode_command_roundtrip o args rest :
  command_fits o args ->
  next_command (MkParser o (encode_command args ++ rest))
  = (COk args (encode_command args), MkParser o rest).
Proof. apply next_command_encode. Qed.

Definition small_options : ParserOptions := MkOptions 1024 16 1024.

Lemma encode_command_roundtrip_witness :
  next_command (MkParser small_options
    (encode_command [lit "SET"; lit "name"; lit "dev"] ++ lit "*1"))
  = (COk [lit "SET"; lit "name"; lit "dev"] (encode_command [lit "SET"; lit "name"; lit "dev"]),
     MkParser small_options (lit "*1")).
Proof.
  apply (encode_command_roundtrip small_options [lit "SET"; lit "name"; lit "dev"] (lit "*1")).
  split; [by vm_compute|]. split; [by vm_compute|]. split; [by vm_compute|].
  split; [|by vm_compute]. repeat constructor; by vm_compute.
Defined.

(** C15. Incremental parsing: for a stream within [max_request_bytes], cutting it
    into chunks in any way and taking the complete commands after each chunk
    gives the same commands and the same outcome as parsing the whole stream at
    once; both loops finish.  When they end because more input is wanted, the
    two parsers are in the same state; when they end at a malformed command, the
    chunks not yet appended are all that the first one lacks. *)
Theorem chunked_parsing o chunks :
  limits_fit o -> bsize (concat chunks) <= opt_max_request_bytes o ->
  let fuel := S (length (concat chunks)) in
  exists l r p unfed,
    feed_all fuel (MkParser o []) chunks = Some (l, r, p) /\
    command_stream fuel (MkParser o (concat chunks))
    = Some (l, r, MkParser (options_ p) (buffer_ p ++ concat unfed)) /\
    unfed `suffix_of` chunks /\ (r = CNeedMore -> unfed = []).
Proof.
  intros Hl Hb fuel.
  destruct (feed_all_stream o chunks [] fuel) as (l & r & p & unfed & f' & H1 & H2 & H3);
    [done|done|simpl; lia|done|].
  exists l, r, p, unfed. split; [done|]. split; [|done]. simpl in H2.
  destruct (command_stream_total o (concat chunks) fuel) as (l' & r' & p' & H); [done|done|lia|].
  rewrite H. apply (command_stream_fuel _ (fuel + f')) in H; [|lia].
  apply (command_stream_fuel _ (fuel + f')) in H2; [|lia]. congruence.
Qed.

Lemma chunked_parsing_witness :
  exists l r p unfed,
    feed_all 15 (MkParser small_options []) [lit "*1"; crlf ++ lit "$4"; crlf; lit "PI"; lit "NG" ++ crlf]
    = Some (l, r, p) /\
    command_stream 15 (MkParser small_options (lit "*1" ++ crlf ++ lit "$4" ++ crlf ++ lit "PING" ++ crlf))
    = Some (l, r, MkParser (options_ p) (buffer_ p ++ concat unfed)) /\
    unfed `suffix_of` [lit "*1"; crlf ++ lit "$4"; crlf; lit "PI"; lit "NG" ++ crlf] /\ (r = CNeedMore -> unfed = []).
Proof.
  apply (chunked_parsing small_options
    [lit "*1"; crlf ++ lit "$4"; crlf; lit "PI"; lit "NG" ++ crlf]); [split|]; by vm_compute.
Defined.

(** C37. Memory safety: whatever bytes are buffered, the parser never reads
    outside its buffer as long as [max_request_bytes] leaves room for a CRLF
    below [SIZE_MAX]. *)
Theorem next_value_safe o buf :
  limits_fit o -> (next_value (MkParser o buf)).1 <> VFault.
Proof.
  intros Hl. rewrite next_value_eq. cbn [options_ buffer_].
  pose proof (parse_first_no_fault o buf Hl).
  destruct (parse_first o buf); try done. by case_match.
Qed.

Lemma next_value_safe_witness :
  (next_value (MkParser small_options (lit "$1000" ++ crlf))).1 <> VFault.
Proof. apply next_value_safe. split; by vm_compute. Defined.

(** C38. Resource limits: a value handed to the command layer consumed between
    one byte and [max_request_bytes], all of it from the front of the buffer.
    If its first byte is a RESP type byte, it has no bulk string or array beyond
    the configured limits and is nested at most [kMaxDepth + 1] levels deep.
    Any other first byte begins an inline command: a flat list of words, each
    within the limit of bulk strings, whose number [max_array_elements] does
    not limit; it is less than the number of bytes consumed. *)
Theorem next_value_bounded o buf v raw p' :
  limits_fit o -> next_value (MkParser o buf) = (VOk v raw, p') ->
  match buf with
  | [] => False
  | c :: _ =>
      if is_resp_prefix c then bounded o (S kMaxDepth) v
      else exists l, v = v_list l /\ Forall (bounded o 1) l /\ Z.of_nat (length l) < bsize raw
  end /\
  buf = raw ++ buffer_ p' /\ options_ p' = o /\
  0 < bsize raw <= opt_max_request_bytes o.
Proof.
  intros Hl. rewrite next_value_eq. cbn [options_ buffer_].
  destruct (parse_first o buf) as [v' n| |e|] eqn:E; try done.
  destruct (Z.ltb_spec (opt_max_request_bytes o) (Z.of_nat n)); [done|].
  rewrite discard_eq. intros [= -> <- <-]. cbn [options_ buffer_].
  assert (Hb := E). apply parse_first_bound in Hb; [|destruct Hl; lia].
  split; [|split; [by rewrite take_drop|split; [done|]]].
  - destruct buf as [|c buf]; [done|]. unfold parse_first in E. destruct (is_resp_prefix c); [by eapply parse_at_bounded|].
    by eapply parse_inline_bounded.
  - unfold bsize. rewrite length_take. lia.
Qed.

Lemma next_value_bounded_witness :
  let o := small_options in
  let raw := encode_command [lit "PING"; lit "hello"] in
  (bounded o (S kMaxDepth) (v_list [v_bulk (lit "PING"); v_bulk (lit "hello")]) /\
   raw ++ lit "+x" = raw ++ lit "+x" /\ o = o /\ 0 < bsize raw <= 1024) /\
  ((exists l, v_list [v_bulk (lit "PING")] = v_list l /\ Forall (bounded o 1) l /\ Z.of_nat (length l) < 6) /\
   lit "PING" ++ crlf = (lit "PING" ++ crlf) ++ [] /\ o = o /\ 0 < 6 <= 1024).
Proof.
  assert (Hl : limits_fit small_options) by (split; by vm_compute). split.
  - apply (next_value_bounded small_options (encode_command [lit "PING"; lit "hello"] ++ lit "+x")
      (v_list [v_bulk (lit "PING"); v_bulk (lit "hello")])
      (encode_command [lit "PING"; lit "hello"]) (MkParser small_options (lit "+x")) Hl). by vm_compute.
  - apply (next_value_bounded small_options (lit "PING" ++ crlf) (v_list [v_bulk (lit "PING")])
      (lit "PING" ++ crlf) (MkParser small_options []) Hl). by vm_compute.
Defined.

(** * Replies *)

Lemma integer_decodes o z rest :
  is_i64 z -> parse_first o (integer z ++ rest) = IOk (v_int z) (length (integer z)).
Proof.
  intros Hz. unfold parse_first, integer.
  rewrite <- !app_assoc. cbn [lit String.list_ascii_of_string app].
  change (is_resp_prefix ":"%char) with true. cbv iota.
  rewrite (parse_at_line o [] (to_string z) rest ":"%char)
    by (apply to_string_no_cr; auto with velox).
  repeat (rewrite bool_decide_eq_false_2 by done). rewrite bool_decide_eq_true_2 by done.
  unfold parse_integer. rewrite parse_number_line_to_string by done.
  f_equal. unfold crlf. simpl. rewrite length_app. simpl. lia.
Qed.

Lemma simple_decodes o s rest :
  Forall (fun c => c <> CR) s ->
  parse_first o (simple s ++ rest) = IOk (v_simple s) (length (simple s)).
Proof.
  intros Hs. pose proof (parse_at_line o [] s rest "+"%char kMaxDepth Hs) as H.
  unfold parse_first, simple. rewrite <- !app_assoc. cbn [lit String.list_ascii_of_string app] in *.
  change (is_resp_prefix "+"%char) with true. cbv iota. simpl length in H. rewrite H.
  rewrite bool_decide_eq_true_2 by done. f_equal.
  unfold crlf. simpl. rewrite length_app. simpl. lia.
Qed.

Lemma error_decodes o s rest :
  Forall (fun c => c <> CR) s ->
  parse_first o (error s ++ rest) = IOk (v_error (lit "ERR " ++ s)) (length (error s)).
Proof.
  intros Hs. assert (Hs' : Forall (fun c => c <> CR) (lit "ERR " ++ s)).
  { apply Forall_app. split; [by apply no_cr_ind | done]. }
  pose proof (parse_at_line o [] (lit "ERR " ++ s) rest "-"%char kMaxDepth Hs') as H.
  unfold parse_first, error. rewrite <- !app_assoc. cbn [lit String.list_ascii_of_string app] in *.
  change (is_resp_prefix "-"%char) with true. cbv iota. simpl length in H. rewrite H.
  rewrite bool_decide_eq_false_2, bool_decide_eq_true_2 by done. f_equal.
  unfold crlf. simpl. rewrite length_app. simpl. lia.
Qed.

(** The reply to [GET]: a bulk string, or null. *)
Definition bulk_reply (v : option bytes) : bytes :=
  match v with Some b => bulk b | None => null_bulk end.

Lemma bulk_reply_decodes o v rest :
  opt_max_request_bytes o <= u64_max ->
  (forall b, v = Some b -> is_i64 (bsize b) /\ bsize b <= opt_max_bulk_bytes o) ->
  bsize (bulk_reply v) <= opt_max_request_bytes o ->
  parse_first o (bulk_reply v ++ rest) = IOk (v_opt v) (length (bulk_reply v)).
Proof.
  intros Ho Hv Hr. destruct v as [b|]; cbn [bulk_reply v_opt] in *.
  - destruct (Hv b eq_refl). exact (parse_bulk_fragment o [] b rest kMaxDepth ltac:(done) Ho ltac:(done) Hr).
  - exact (null_bulk_decodes o [] rest kMaxDepth).
Qed.

(** C40. Replies are unambiguous: a client that parses the server's output reads
    back an integer, a status or error line, a bulk string or null ([GET]), and
    an array of them ([MGET], [CONFIG GET], [COMMAND]) exactly as the server
    produced it, whatever follows, provided the line holds no carriage return,
    the lengths fit the reader's limits, and the reply fits its
    [max_request_bytes]. *)
Theorem replies_roundtrip o rest :
  opt_max_request_bytes o <= u64_max ->
  (forall z, is_i64 z ->
     parse_first o (integer z ++ rest) = IOk (v_int z) (length (integer z))) /\
  (forall s, Forall (fun c => c <> CR) s ->
     parse_first o (simple s ++ rest) = IOk (v_simple s) (length (simple s)) /\
     parse_first o (error s ++ rest) = IOk (v_error (lit "ERR " ++ s)) (length (error s))) /\
  (forall v, (forall b, v = Some b -> is_i64 (bsize b) /\ bsize b <= opt_max_bulk_bytes o) ->
     bsize (bulk_reply v) <= opt_max_request_bytes o ->
     parse_first o (bulk_reply v ++ rest) = IOk (v_opt v) (length (bulk_reply v))) /\
  (forall values,
     Z.of_nat (length values) <= i64_max -> Z.of_nat (length values) <= opt_max_array_elements o ->
     Forall (fun v => forall b, v = Some b -> is_i64 (bsize b) /\ bsize b <= opt_max_bulk_bytes o) values ->
     bsize (array_of_bulk values) <= opt_max_request_bytes o ->
     parse_first o (array_of_bulk values ++ rest)
     = IOk (v_list (map v_opt values)) (length (array_of_bulk values))).
Proof.
  intros Ho. split; [|split; [|split]].
  - intros z Hz. by apply integer_decodes.
  - intros s Hs. split; [by apply simple_decodes | by apply error_decodes].
  - intros v Hv Hr. by apply bulk_reply_decodes.
  - intros values Hi Hc Hv Hr.
    apply (parse_first_array (fun v => match v with Some b => bulk b | None => null_bulk end));
      try done.
    eapply Forall_impl; [|exact Hv]. intros [b|] H pre post lv Hp; cbn.
    + destruct (H b eq_refl). by apply parse_bulk_fragment.
    + apply null_bulk_decodes.
Qed.

Lemma replies_roundtrip_witness :
  parse_first small_options (integer (-7) ++ lit "+x") = IOk (v_int (-7)) 5 /\
  parse_first small_options (bulk (lit "hello") ++ lit "+x") = IOk (v_bulk (lit "hello")) 11 /\
  parse_first small_options (array_of_bulk [Some (lit "v"); None] ++ lit "+x")
  = IOk (v_list [v_opt (Some (lit "v")); v_opt None]) 16.
Proof.
  assert (Ho : opt_max_request_bytes small_options <= u64_max) by (by vm_compute).
  destruct (replies_roundtrip small_options (lit "+x") Ho) as (Hint & _ & Hbulk & Harr). split; [|split].
  - apply (Hint (-7)). split; by vm_compute.
  - apply (Hbulk (Some (lit "hello"))); [|by vm_compute]. intros b [= <-]. split; [split|]; by vm_compute.
  - apply (Harr [Some (lit "v"); None]); [by vm_compute|by vm_compute| |by vm_compute].
    constructor; [|constructor; [|constructor]]; intros b Hb; simplify_eq.
    split; [split|]; by vm_compute.
Defined.
