(* ===== verification/Fuzz.v ===== *)
(** The parser's fuzz target, [fuzz/resp_parser_fuzzer.cpp]: what the fuzzer
    samples, for every input. *)
From S2P Require Import Prelude Util Resp RespFacts.

Definition kMaxDrainIterations : nat := 128.
Definition kMaxChunkBytes : Z := 32.

Definition fuzz_options : ParserOptions := MkOptions 4096 64 2048.

(** [None] stands for a read outside the parser's buffer. *)
Fixpoint drain_values_loop (n : nat) (p : Parser) : option Parser :=
  match n with
  | O => Some (reset p)
  | S n =>
      match next_value p with
      | (VNeedMore, p) => Some p
      | (VError _, p) => Some (reset p)
      | (VFault, _) => None
      | (VOk _ _, p) => drain_values_loop n p
      end
  end.

Definition drain_values (p : Parser) : option Parser := drain_values_loop kMaxDrainIterations p.

Fixpoint drain_commands_loop (n : nat) (p : Parser) : option Parser :=
  match n with
  | O => Some (reset p)
  | S n =>
      match next_command p with
      | (CNeedMore, p) => Some p
      | (CError _, p) => Some (reset p)
      | (CFault, _) => None
      | (COk args _, p) => let _ := encode_command args in drain_commands_loop n p
      end
  end.

Definition drain_commands (p : Parser) : option Parser := drain_commands_loop kMaxDrainIterations p.

(** The feeding loop, and the parser it leaves; a chunk has at least one byte, so
    the length of the data is enough fuel.  [None] stands for a fault or fuel
    that ran out. *)
Fixpoint feed_loop (drain : Parser -> option Parser) (fuel : nat) (data : bytes) (p : Parser) : option Parser :=
  match data with
  | [] => drain p
  | c :: _ =>
      match fuel with
      | O => None
      | S fuel =>
          let chunk := Z.to_nat (1 + code c mod kMaxChunkBytes) in
          let '(st, p) := Resp.append p (take chunk data) in
          if negb (ok_status st) then Some (reset p)
          else p ← drain p; feed_loop drain fuel (drop chunk data) p
      end
  end.

Definition feed_incrementally (data : bytes) (drain : Parser -> option Parser) : option Parser :=
  feed_loop drain (length data) data (MkParser fuzz_options []).

Definition LLVMFuzzerTestOneInput (data : bytes) : option Z :=
  match data with
  | [] => Some 0
  | _ =>
      _ ← feed_incrementally data drain_values;
      _ ← feed_incrementally data drain_commands;
      Some 0
  end.

(** * Facts *)

Definition fuzz_parser (p : Parser) : Prop := options_ p = fuzz_options.

Lemma fuzz_limits : limits_fit fuzz_options.
Proof. split; vm_compute; discriminate. Qed.

Lemma next_value_fuzz p : fuzz_parser p -> (next_value p).1 <> VFault /\ fuzz_parser (next_value p).2.
Proof.
  intros Hp. rewrite next_value_eq, Hp. pose proof (parse_first_no_fault fuzz_options (buffer_ p) fuzz_limits).
  destruct (parse_first _ _); try done. destruct (_ <? _); [done|]. split; [done|]. by rewrite discard_eq.
Qed.

Lemma next_command_fuzz p : fuzz_parser p -> (next_command p).1 <> CFault /\ fuzz_parser (next_command p).2.
Proof.
  intros Hp. destruct (next_value_fuzz p Hp) as [Hn Ho]. unfold next_command.
  destruct (next_value p) as [[v raw| |e|] p']; try done. destruct (_ || _); [done|]. by destruct (command_args _).
Qed.

Lemma drain_values_total n p : fuzz_parser p -> exists p', drain_values_loop n p = Some p' /\ fuzz_parser p'.
Proof.
  revert p. induction n as [|n IH]; intros p Hp; cbn [drain_values_loop]; [by eexists|].
  destruct (next_value_fuzz p Hp) as [Hn Ho]. destruct (next_value p) as [[v raw| |e|] p']; try done; [by apply IH|..];
    by eexists.
Qed.

Lemma drain_commands_total n p : fuzz_parser p -> exists p', drain_commands_loop n p = Some p' /\ fuzz_parser p'.
Proof.
  revert p. induction n as [|n IH]; intros p Hp; cbn [drain_commands_loop]; [by eexists|].
  destruct (next_command_fuzz p Hp) as [Hn Ho]. destruct (next_command p) as [[v raw| |e|] p']; try done; [by apply IH|..];
    by eexists.
Qed.

Lemma feed_total drain fuel data p :
  (forall p, fuzz_parser p -> exists p', drain p = Some p' /\ fuzz_parser p') ->
  fuzz_parser p -> (length data <= fuel)%nat -> is_Some (feed_loop drain fuel data p).
Proof.
  intros Hd. revert data p. induction fuel as [|fuel IH]; intros [|c data] p Hp Hl; cbn [feed_loop].
  1,3: by destruct (Hd p Hp) as (p' & -> & _); eexists.
  { cbn in Hl. lia. }
  unfold Resp.append. destruct (_ || _); [by eexists|]. change (negb (ok_status status_ok)) with false. cbv iota.
  destruct (Hd (MkParser (options_ p) (buffer_ p ++ take (Z.to_nat (1 + code c mod kMaxChunkBytes)) (c :: data))) Hp)
    as (p' & -> & Hp').
  cbn [mbind option_bind]. apply IH; [done|]. rewrite length_drop. cbn [length] in *.
  assert (0 <= code c mod kMaxChunkBytes) by (by apply Z.mod_pos_bound). lia.
Qed.

(** C39. The fuzz target finds nothing: for every input whatsoever, it runs to its
    end and returns 0, without the parser reading outside its buffer. *)
Theorem fuzz_target_safe data : LLVMFuzzerTestOneInput data = Some 0.
Proof.
  unfold LLVMFuzzerTestOneInput, feed_incrementally. destruct data as [|c data]; [done|].
  destruct (feed_total drain_values (length (c :: data)) (c :: data) (MkParser fuzz_options [])) as [p1 ->];
    [by apply drain_values_total|done|done|].
  destruct (feed_total drain_commands (length (c :: data)) (c :: data) (MkParser fuzz_options [])) as [p2 ->];
    [by apply drain_commands_total|done|done|]. done.
Qed.
