(* ===== verification/Storage.v ===== *)
(** The sharded storage engine: [src/storage/storage_engine.cpp] and
    [include/veloxdb/storage/storage_engine.h].

    Every operation that reads the clock once takes the reading as its [now]
    argument; operations that read it several times run in a state that also
    counts the readings taken so far.  A time point is a number of
    [system_clock] ticks, nanoseconds since the epoch (libstdc++ on Linux).

    The mutexes are not part of this file: a function below is the body of
    the critical section it names, and the compare-and-swap loops of
    [reserve_memory] and [release_memory] are their uncontended runs. *)
From S2P Require Import Prelude Util Config.

(** * Time *)

Abbreviation TimePoint := Z (only parsing).
Definition ns_per_ms : Z := 1000000.

(** [tp + milliseconds(ms)]: the milliseconds are converted to clock ticks. *)
Definition add_ms (tp : TimePoint) (ms : Z) : TimePoint := i64 (tp + i64 (ms * ns_per_ms)).

(** [duration_cast<milliseconds>]: rounds towards zero. *)
Definition to_ms (ticks : Z) : Z := Z.quot ticks ns_per_ms.

Definition unix_ms (tp : TimePoint) : Z := to_ms tp.
Definition timepoint_from_unix_ms (ms : Z) : TimePoint := i64 (ms * ns_per_ms).

(** * Data *)

Inductive SetCondition := Always | NX | XX.

#[export] Instance SetCondition_eq_dec : EqDecision SetCondition.
Proof. solve_decision. Defined.

Inductive WriteCode :=
  | WOk | NotSet | NoMemory | KeyTooLarge | ValueTooLarge | InvalidInteger | Overflow.

#[export] Instance WriteCode_eq_dec : EqDecision WriteCode.
Proof. solve_decision. Defined.

Record WriteResult := MkWrite { w_code : WriteCode; w_integer : Z }.

Inductive TtlState := Missing | NoExpiry | HasExpiry.

#[export] Instance TtlState_eq_dec : EqDecision TtlState.
Proof. solve_decision. Defined.

Record TtlResult := MkTtl { ttl_state : TtlState; ttl_milliseconds : Z }.

Record SnapshotEntry := MkSnapshotEntry {
  sn_key : bytes;
  sn_value : bytes;
  sn_expire_at_unix_ms : option Z
}.

Record Entry := MkEntry {
  e_value : bytes;
  e_expiry : option TimePoint;
  e_version : Z;
  e_last_access : TimePoint
}.

Record Shard := MkShard {
  sh_map : gmap bytes Entry;
  sh_memory_bytes : Z;
  sh_expire_cursor : Z
}.

Record StorageEngine := MkEngine {
  config_ : StorageConfig;
  limits_ : ProtocolConfig;
  shards_ : list Shard;
  used_memory_ : Z;
  expired_keys_ : Z
}.

(** What the engine takes from the C++ library without a fixed value: the hash
    of a key, the order in which an [unordered_map] is traversed, and whether
    allocating a node for a new key throws. *)
Class Platform := {
  hash : bytes -> Z;
  hash_nonneg : forall k, 0 <= hash k;
  map_order : gmap bytes Entry -> list (bytes * Entry);
  map_order_perm : forall m, map_order m ≡ₚ map_to_list m;
  emplace_throws : StorageEngine -> bytes -> Entry -> bool
}.

(** A concrete library: keys hash to their length, maps are traversed in key
    order of the model and allocation succeeds. *)
#[export, program] Instance simple_platform : Platform | 100 := {
  hash := bsize;
  map_order := map_to_list;
  emplace_throws := fun _ _ _ => false
}.
Next Obligation. apply bsize_nonneg. Qed.
Next Obligation. done. Qed.

Section Storage.
Context `{Platform}.

(** * Helpers *)

Definition kEntryOverhead : Z := 96.

Definition parse_integer_value (value : bytes) : option Z :=
  match value with
  | [] => None
  | _ => from_chars_all true i64_min i64_max value
  end.

Definition empty_shard : Shard := MkShard ∅ 0 0.

(** The constructor. *)
Definition new_engine (config : StorageConfig) (limits : ProtocolConfig) : StorageEngine :=
  let n := if shards config =? 0 then 1 else shards config in
  MkEngine (MkStorageConfig n (max_memory_bytes config)) limits
    (replicate (Z.to_nat n) empty_shard) 0 0.

Definition shard_count (e : StorageEngine) : Z := Z.of_nat (length (shards_ e)).

Definition shard_for_key (e : StorageEngine) (key : bytes) : nat :=
  Z.to_nat (hash key mod shard_count e).

(** [*shards_[i]]; the index is always in range. *)
Definition shard_at (e : StorageEngine) (i : nat) : Shard := default empty_shard (shards_ e !! i).

Definition put_shard (e : StorageEngine) (i : nat) (s : Shard) : StorageEngine :=
  MkEngine (config_ e) (limits_ e) (<[i := s]> (shards_ e)) (used_memory_ e) (expired_keys_ e).

Definition put_used (e : StorageEngine) (u : Z) : StorageEngine :=
  MkEngine (config_ e) (limits_ e) (shards_ e) u (expired_keys_ e).

(** [expired_keys_.fetch_add(n)]. *)
Definition add_expired (e : StorageEngine) (n : Z) : StorageEngine :=
  MkEngine (config_ e) (limits_ e) (shards_ e) (used_memory_ e) (u64 (expired_keys_ e + n)).

Definition expired (entry : Entry) (now : TimePoint) : bool :=
  match e_expiry entry with Some t => t <=? now | None => false end.

Definition entry_memory (key value : bytes) : Z := u64 (kEntryOverhead + bsize key + bsize value).

Definition key_valid (e : StorageEngine) (key : bytes) : bool :=
  bsize key <=? max_key_size (limits_ e).

Definition value_valid (e : StorageEngine) (value : bytes) : bool :=
  bsize value <=? max_value_size (limits_ e).

(** [reserve_memory]: the engine with the reservation made, or [None] when the
    limit would be exceeded. *)
Definition reserve_memory (e : StorageEngine) (n : Z) : option StorageEngine :=
  let max := max_memory_bytes (config_ e) in
  if (n =? 0) || (max =? 0) then Some e
  else
    let current := used_memory_ e in
    if (max <? current) || (max - current <? n) then None
    else Some (put_used e (u64 (current + n))).

Definition release_memory (e : StorageEngine) (n : Z) : StorageEngine :=
  if n =? 0 then e
  else
    let current := used_memory_ e in
    if current =? 0 then e
    else put_used e (if current <? n then 0 else current - n).

(** [erase_entry_locked] of the entry found under [key] in shard [i]. *)
Definition erase_entry_locked (e : StorageEngine) (i : nat) (key : bytes) (entry : Entry)
    : StorageEngine :=
  let memory := entry_memory key (e_value entry) in
  let e := release_memory e memory in
  let s := shard_at e i in
  put_shard e i (MkShard (delete key (sh_map s)) (u64 (sh_memory_bytes s - memory))
                         (sh_expire_cursor s)).

(** The three statements that drop an expired entry. *)
Definition expire_entry_locked (e : StorageEngine) (i : nat) (key : bytes) (entry : Entry)
    : StorageEngine :=
  add_expired (erase_entry_locked e i key entry) 1.

Definition find (e : StorageEngine) (i : nat) (key : bytes) : option Entry :=
  sh_map (shard_at e i) !! key.

Definition erase_if_expired_locked (e : StorageEngine) (i : nat) (key : bytes) (now : TimePoint)
    : bool * StorageEngine :=
  match find e i key with
  | None => (false, e)
  | Some entry =>
      if negb (expired entry now) then (false, e)
      else (true, expire_entry_locked e i key entry)
  end.

(** Looking a key up the way the single-key operations do: an entry that has
    expired is erased, counted, and treated as absent. *)
Definition find_live (e : StorageEngine) (i : nat) (key : bytes) (now : TimePoint)
    : option Entry * StorageEngine :=
  match find e i key with
  | None => (None, e)
  | Some entry =>
      if expired entry now then (None, expire_entry_locked e i key entry) else (Some entry, e)
  end.

(** [it->second = entry] for a key that is present. *)
Definition update_entry (e : StorageEngine) (i : nat) (key : bytes) (entry : Entry)
    : StorageEngine :=
  let s := shard_at e i in
  put_shard e i (MkShard (<[key := entry]> (sh_map s)) (sh_memory_bytes s) (sh_expire_cursor s)).

(** Storing an entry whose memory grows from [old_memory] to [new_memory],
    with the accounting and error handling shared by [set], [incr_by] and
    [append]: reserve the growth, write, give back what shrank; if allocating
    the node of a new key throws, give the reservation back. *)
Definition store_entry (e : StorageEngine) (i : nat) (key : bytes) (found : option Entry)
    (entry : Entry) (result : Z) : WriteResult * StorageEngine :=
  let old_memory := match found with Some f => entry_memory key (e_value f) | None => 0 end in
  let new_memory := entry_memory key (e_value entry) in
  let reserved :=
    if old_memory <? new_memory then reserve_memory e (new_memory - old_memory) else Some e in
  match reserved with
  | None => (MkWrite NoMemory 0, e)
  | Some e1 =>
      let s := shard_at e1 i in
      let store mb := put_shard e1 i (MkShard (<[key := entry]> (sh_map s)) mb (sh_expire_cursor s)) in
      let finish e2 :=
        (MkWrite WOk result,
         if new_memory <? old_memory then release_memory e2 (old_memory - new_memory) else e2) in
      match found with
      | Some _ => finish (store (u64 (sh_memory_bytes s - old_memory + new_memory)))
      | None =>
          if emplace_throws e1 key entry then
            (MkWrite NoMemory 0,
             if old_memory <? new_memory then release_memory e1 (new_memory - old_memory) else e1)
          else finish (store (u64 (sh_memory_bytes s + new_memory)))
      end
  end.

(** * Single-key operations *)

Definition set (now : TimePoint) (key value : bytes) (ttl : option Z) (condition : SetCondition)
    (e : StorageEngine) : WriteResult * StorageEngine :=
  if negb (key_valid e key) then (MkWrite KeyTooLarge 0, e)
  else if negb (value_valid e value) then (MkWrite ValueTooLarge 0, e)
  else
    let i := shard_for_key e key in
    let e := (erase_if_expired_locked e i key now).2 in
    let found := find e i key in
    let exists_ := bool_decide (is_Some found) in
    if (bool_decide (condition = NX) && exists_) || (bool_decide (condition = XX) && negb exists_)
    then (MkWrite NotSet 0, e)
    else
      let entry :=
        MkEntry value (add_ms now <$> ttl)
          (match found with Some f => u64 (e_version f + 1) | None => 1 end) now in
      store_entry e i key found entry 0.

Definition get (now : TimePoint) (key : bytes) (e : StorageEngine) : option bytes * StorageEngine :=
  let i := shard_for_key e key in
  match find_live e i key now with
  | (None, e) => (None, e)
  | (Some f, e) =>
      (Some (e_value f),
       update_entry e i key (MkEntry (e_value f) (e_expiry f) (e_version f) now))
  end.

(** [del(std::string_view)]. *)
Definition del_one (now : TimePoint) (key : bytes) (e : StorageEngine) : Z * StorageEngine :=
  let i := shard_for_key e key in
  match find_live e i key now with
  | (None, e) => (0, e)
  | (Some f, e) => (1, erase_entry_locked e i key f)
  end.

(** The entry [incr_by] and [append] store: a fresh one with version 1, or the
    old one with the new value, no expiry and the next version. *)
Definition rewritten_entry (found : option Entry) (value : bytes) (now : TimePoint) : Entry :=
  match found with
  | None => MkEntry value None 1 now
  | Some f => MkEntry value None (u64 (e_version f + 1)) now
  end.

Definition incr_by (now : TimePoint) (key : bytes) (delta : Z) (e : StorageEngine)
    : WriteResult * StorageEngine :=
  if negb (key_valid e key) then (MkWrite KeyTooLarge 0, e)
  else
    let i := shard_for_key e key in
    let '(found, e) := find_live e i key now in
    let current := match found with None => Some 0 | Some f => parse_integer_value (e_value f) end in
    match current with
    | None => (MkWrite InvalidInteger 0, e)
    | Some current =>
        if ((0 <? delta) && (i64_max - delta <? current))
           || ((delta <? 0) && (current <? i64_min - delta))
        then (MkWrite Overflow 0, e)
        else
          let next := i64 (current + delta) in
          let next_value := to_string next in
          if negb (value_valid e next_value) then (MkWrite ValueTooLarge 0, e)
          else store_entry e i key found (rewritten_entry found next_value now) next
    end.

Definition append (now : TimePoint) (key suffix : bytes) (e : StorageEngine)
    : WriteResult * StorageEngine :=
  if negb (key_valid e key) then (MkWrite KeyTooLarge 0, e)
  else
    let i := shard_for_key e key in
    let '(found, e) := find_live e i key now in
    let next_value := (match found with None => [] | Some f => e_value f end) ++ suffix in
    if negb (value_valid e next_value) then (MkWrite ValueTooLarge 0, e)
    else store_entry e i key found (rewritten_entry found next_value now) (i64 (bsize next_value)).

Definition strlen (now : TimePoint) (key : bytes) (e : StorageEngine) : Z * StorageEngine :=
  let '(value, e) := get now key e in
  (match value with Some v => bsize v | None => 0 end, e).

Definition expire_at (now : TimePoint) (key : bytes) (at_ : TimePoint) (e : StorageEngine)
    : bool * StorageEngine :=
  let i := shard_for_key e key in
  match find_live e i key now with
  | (None, e) => (false, e)
  | (Some f, e) =>
      if at_ <=? now then (true, expire_entry_locked e i key f)
      else
        (true, update_entry e i key
                 (MkEntry (e_value f) (Some at_) (u64 (e_version f + 1)) (e_last_access f)))
  end.

(** [expire]: the deadline is computed from a first clock reading, and
    [expire_at] (or [del]) takes its own. *)
Definition expire (now_ttl now : TimePoint) (key : bytes) (ttl : Z) (e : StorageEngine)
    : bool * StorageEngine :=
  if ttl <=? 0 then let '(n, e) := del_one now key e in (n =? 1, e)
  else expire_at now key (add_ms now_ttl ttl) e.

Definition ttl (now : TimePoint) (key : bytes) (e : StorageEngine) : TtlResult * StorageEngine :=
  let i := shard_for_key e key in
  match find_live e i key now with
  | (None, e) => (MkTtl Missing 0, e)
  | (Some f, e) =>
      match e_expiry f with
      | None => (MkTtl NoExpiry 0, e)
      | Some t => (MkTtl HasExpiry (Z.max 0 (to_ms (i64 (t - now)))), e)
      end
  end.

Definition persist (now : TimePoint) (key : bytes) (e : StorageEngine) : bool * StorageEngine :=
  let i := shard_for_key e key in
  match find_live e i key now with
  | (None, e) => (false, e)
  | (Some f, e) =>
      match e_expiry f with
      | None => (false, e)
      | Some _ =>
          (true, update_entry e i key
                   (MkEntry (e_value f) None (u64 (e_version f + 1)) (e_last_access f)))
      end
  end.

(** * Whole-database operations *)

(** One shard of the loops in [dbsize], [expires_count] and [snapshot]: expired
    entries are dropped, the others visited. *)
Fixpoint sweep_entries {A} (visit : A -> bytes -> Entry -> A) (now : TimePoint) (i : nat)
    (entries : list (bytes * Entry)) (acc : A) (e : StorageEngine) : A * StorageEngine :=
  match entries with
  | [] => (acc, e)
  | (k, entry) :: rest =>
      if expired entry now
      then sweep_entries visit now i rest acc (expire_entry_locked e i k entry)
      else sweep_entries visit now i rest (visit acc k entry) e
  end.

Fixpoint sweep_shards {A} (visit : A -> bytes -> Entry -> A) (now : TimePoint) (is_ : list nat)
    (acc : A) (e : StorageEngine) : A * StorageEngine :=
  match is_ with
  | [] => (acc, e)
  | i :: rest =>
      let '(acc, e) := sweep_entries visit now i (map_order (sh_map (shard_at e i))) acc e in
      sweep_shards visit now rest acc e
  end.

Definition shard_indices (e : StorageEngine) : list nat := seq 0 (length (shards_ e)).

Definition dbsize (now : TimePoint) (e : StorageEngine) : Z * StorageEngine :=
  sweep_shards (fun total _ _ => total + 1) now (shard_indices e) 0 e.

Definition expires_count (now : TimePoint) (e : StorageEngine) : Z * StorageEngine :=
  sweep_shards
    (fun total _ entry => match e_expiry entry with Some _ => total + 1 | None => total end)
    now (shard_indices e) 0 e.

Definition snapshot_entry (k : bytes) (entry : Entry) : SnapshotEntry :=
  MkSnapshotEntry k (e_value entry) (unix_ms <$> e_expiry entry).

Definition snapshot (now : TimePoint) (e : StorageEngine) : list SnapshotEntry * StorageEngine :=
  sweep_shards (fun entries k entry => entries ++ [snapshot_entry k entry])
    now (shard_indices e) [] e.

(** [flushdb]: the per-shard bodies run one after the other, and what they
    released is subtracted at the end. *)
Definition clear_shard (s : Shard) : Shard := MkShard ∅ 0 (sh_expire_cursor s).

Definition flushdb (e : StorageEngine) : StorageEngine :=
  let released := fold_left (fun acc s => u64 (acc + sh_memory_bytes s)) (shards_ e) 0 in
  release_memory
    (MkEngine (config_ e) (limits_ e) (clear_shard <$> shards_ e) (used_memory_ e) (expired_keys_ e))
    released.

(** The sampling loop of [active_expire] on one shard: [entries] is the map in
    traversal order and [idx] the iterator; [n] iterations are left. *)
Fixpoint expire_loop (n : nat) (now : TimePoint) (i : nat) (entries : list (bytes * Entry))
    (idx : nat) (sampled count : Z) (e : StorageEngine) : Z * Z * StorageEngine :=
  match n with
  | O => (sampled, count, e)
  | S n' =>
      match entries !! idx with
      | None => (sampled, count, e)
      | Some (k, entry) =>
          let '(entries', idx', count', e') :=
            if expired entry now
            then (delete idx entries, idx, count + 1, erase_entry_locked e i k entry)
            else (entries, S idx, count, e) in
          let idx'' := if (idx' =? length entries')%nat then O else idx' in
          expire_loop n' now i entries' idx'' (sampled + 1) count' e'
      end
  end.

Definition set_cursor (e : StorageEngine) (i : nat) (c : Z) : StorageEngine :=
  let s := shard_at e i in put_shard e i (MkShard (sh_map s) (sh_memory_bytes s) c).

Definition active_expire_shard (sample : Z) (now : TimePoint) (i : nat) (count : Z)
    (e : StorageEngine) : Z * StorageEngine :=
  let m := sh_map (shard_at e i) in
  let n := Z.of_nat (size m) in
  if n =? 0 then (count, set_cursor e i 0)
  else
    let cursor := sh_expire_cursor (shard_at e i) mod n in
    let target := Z.min sample n in
    let '(sampled, count, e) :=
      expire_loop (Z.to_nat target) now i (map_order m) (Z.to_nat cursor) 0 count e in
    let n' := Z.of_nat (size (sh_map (shard_at e i))) in
    (count, set_cursor e i (if n' =? 0 then 0 else u64 (cursor + sampled) mod n')).

Fixpoint active_expire_shards (sample : Z) (now : TimePoint) (is_ : list nat) (count : Z)
    (e : StorageEngine) : Z * StorageEngine :=
  match is_ with
  | [] => (count, e)
  | i :: rest =>
      let '(count, e) := active_expire_shard sample now i count e in
      active_expire_shards sample now rest count e
  end.

Definition active_expire (sample : Z) (now : TimePoint) (e : StorageEngine) : Z * StorageEngine :=
  let '(count, e) := active_expire_shards sample now (shard_indices e) 0 e in
  (count, if count =? 0 then e else add_expired e count).

(** * Multi-key operations

    Each key is looked up with its own clock reading: [clock] is the sequence
    of readings and the state counts those taken. *)
Section Clock.
Variable clock : nat -> TimePoint.

Abbreviation StorageM := (St (StorageEngine * nat)).

(** Runs an operation with the next clock reading. *)
Definition timed {A} (op : TimePoint -> StorageEngine -> A * StorageEngine) : StorageM A :=
  fun '(e, t) => let '(a, e') := op (clock t) e in (a, (e', S t)).

Fixpoint del (keys : list bytes) : StorageM Z :=
  match keys with
  | [] => mret 0
  | k :: rest =>
      n ← timed (fun now => del_one now k);
      m ← del rest;
      mret (n + m)
  end.

Fixpoint exists_ (keys : list bytes) : StorageM Z :=
  match keys with
  | [] => mret 0
  | k :: rest =>
      v ← timed (fun now => get now k);
      m ← exists_ rest;
      mret ((if bool_decide (is_Some v) then 1 else 0) + m)
  end.

Fixpoint mget (keys : list bytes) : StorageM (list (option bytes)) :=
  match keys with
  | [] => mret []
  | k :: rest =>
      v ← timed (fun now => get now k);
      vs ← mget rest;
      mret (v :: vs)
  end.
End Clock.
End Storage.

Definition storage_write_error (code : WriteCode) : bytes :=
  match code with
  | WOk => lit "OK"
  | NotSet => lit "condition not met"
  | NoMemory => lit "OOM command not allowed when used_memory exceeds maxmemory"
  | KeyTooLarge => lit "key exceeds configured maximum size"
  | ValueTooLarge => lit "value exceeds configured maximum size"
  | InvalidInteger => lit "value is not an integer or out of range"
  | Overflow => lit "increment or decrement would overflow"
  end.
