(* ===== verification/StorageFacts.v ===== *)
(** The storage engine's representation invariant and its abstract view.

    [wf] says that keys live in the shard they hash to, that stored keys and
    values obey the configured sizes, and that memory accounting is exact.
    [live e t] is what a client can observe at time [t]: a finite map from
    keys to values and deadlines.  Every operation is described by how it
    changes that map. *)
From S2P Require Import Prelude Util Config Storage.

(** A database as clients see it: each key's value and deadline. *)
Abbreviation db := (gmap bytes (bytes * option Z)).

Section Facts.
Context `{Platform}.

(** * Memory of a map *)

Definition map_mem (m : gmap bytes Entry) : Z :=
  map_fold (fun k entry acc => entry_memory k (e_value entry) + acc) 0 m.

Definition found_mem (k : bytes) (found : option Entry) : Z :=
  match found with Some f => entry_memory k (e_value f) | None => 0 end.

Lemma entry_memory_nonneg k v : 0 <= entry_memory k v.
Proof. unfold entry_memory. apply u64_range. Qed.

Lemma map_mem_empty : map_mem ∅ = 0.
Proof. apply map_fold_empty. Qed.

Lemma map_mem_insert_new m k x :
  m !! k = None -> map_mem (<[k := x]> m) = entry_memory k (e_value x) + map_mem m.
Proof.
  intros Hk. unfold map_mem. rewrite map_fold_insert_L; [done| |done].
  intros. lia.
Qed.

Lemma map_mem_delete m k : map_mem (delete k m) = map_mem m - found_mem k (m !! k).
Proof.
  destruct (m !! k) as [x|] eqn:Hk; simpl.
  - rewrite <- (insert_delete_id m k x) at 2 by done.
    rewrite map_mem_insert_new by apply lookup_delete_eq. lia.
  - rewrite delete_id by done. lia.
Qed.

Lemma map_mem_insert m k x :
  map_mem (<[k := x]> m) = map_mem m - found_mem k (m !! k) + entry_memory k (e_value x).
Proof.
  rewrite <- insert_delete_eq, map_mem_insert_new by apply lookup_delete_eq.
  rewrite map_mem_delete. lia.
Qed.

Lemma map_mem_nonneg m : 0 <= map_mem m.
Proof.
  induction m as [|k x m Hk IH] using map_ind; [by rewrite map_mem_empty|].
  rewrite map_mem_insert_new by done. pose proof (entry_memory_nonneg k (e_value x)). lia.
Qed.

Lemma found_mem_le m k : 0 <= found_mem k (m !! k) <= map_mem m.
Proof.
  pose proof (map_mem_delete m k). pose proof (map_mem_nonneg (delete k m)).
  split; [|lia]. destruct (m !! k); simpl; [apply entry_memory_nonneg | lia].
Qed.

(** * Memory of the engine *)

Definition shards_mem (l : list Shard) : Z := foldr (fun s acc => map_mem (sh_map s) + acc) 0 l.

Definition total_mem (e : StorageEngine) : Z := shards_mem (shards_ e).

Lemma shards_mem_nonneg l : 0 <= shards_mem l.
Proof. induction l as [|s l IH]; simpl; [done|]. pose proof (map_mem_nonneg (sh_map s)). lia. Qed.

Lemma shards_mem_insert l i s s' :
  l !! i = Some s -> shards_mem (<[i := s']> l) = shards_mem l - map_mem (sh_map s) + map_mem (sh_map s').
Proof.
  revert i. induction l as [|x l IH]; intros [|i]; simpl; intros; simplify_eq; [lia|].
  rewrite IH by done. lia.
Qed.

Lemma shards_mem_lookup l i s : l !! i = Some s -> map_mem (sh_map s) <= shards_mem l.
Proof.
  revert i. induction l as [|x l IH]; intros [|i]; simpl; intros Hi; simplify_eq.
  - pose proof (shards_mem_nonneg l). lia.
  - pose proof (map_mem_nonneg (sh_map x)). specialize (IH _ Hi). lia.
Qed.

(** * The invariant *)

Record wf (e : StorageEngine) : Prop := {
  wf_shards : (0 < length (shards_ e))%nat;
  wf_max : is_u64 (max_memory_bytes (config_ e));
  wf_entries : forall i s k entry,
    shards_ e !! i = Some s -> sh_map s !! k = Some entry ->
    shard_for_key e k = i /\ key_valid e k = true /\ value_valid e (e_value entry) = true;
  wf_bytes : forall i s, shards_ e !! i = Some s -> sh_memory_bytes s = u64 (map_mem (sh_map s));
  wf_used :
    if max_memory_bytes (config_ e) =? 0 then used_memory_ e = 0
    else used_memory_ e = total_mem e /\ total_mem e <= max_memory_bytes (config_ e)
}.

(** Engines with the same configuration and number of shards. *)
Definition same_shape (e e' : StorageEngine) : Prop :=
  config_ e' = config_ e /\ limits_ e' = limits_ e /\ length (shards_ e') = length (shards_ e).

#[global] Instance same_shape_preorder : PreOrder same_shape.
Proof.
  split; [done|]. intros a b c (? & ? & ?) (? & ? & ?). unfold same_shape. intuition congruence.
Qed.

Lemma same_shape_route e e' k : same_shape e e' -> shard_for_key e' k = shard_for_key e k.
Proof. intros (_ & _ & Hl). unfold shard_for_key, shard_count. by rewrite Hl. Qed.

Lemma shard_for_key_lt e k :
  (0 < length (shards_ e))%nat -> (shard_for_key e k < length (shards_ e))%nat.
Proof.
  intros Hl. unfold shard_for_key, shard_count.
  pose proof (Z.mod_pos_bound (hash k) (Z.of_nat (length (shards_ e)))). lia.
Qed.

Lemma shard_at_lookup e i :
  (i < length (shards_ e))%nat -> shards_ e !! i = Some (shard_at e i).
Proof.
  intros Hi. unfold shard_at. by destruct (lookup_lt_is_Some_2 _ _ Hi) as [s ->].
Qed.

Lemma find_lt e i k x : find e i k = Some x -> (i < length (shards_ e))%nat.
Proof.
  unfold find, shard_at. destruct (shards_ e !! i) eqn:E; simpl.
  - intros _. by eapply lookup_lt_Some.
  - by rewrite lookup_empty.
Qed.

(** * Changing one shard *)

(** [e'] is [e] with the entry of [k] replaced by [o] and nothing else
    observable changed. *)
Definition point_update (e e' : StorageEngine) (k : bytes) (o : option Entry) : Prop :=
  same_shape e e' /\
  forall k', find e' (shard_for_key e k') k' =
    if decide (k' = k) then o else find e (shard_for_key e k') k'.

Lemma point_update_refl e k : point_update e e k (find e (shard_for_key e k) k).
Proof. split; [done|]. intros k'. by case_decide; subst. Qed.

Lemma point_update_trans e1 e2 e3 k o o' :
  point_update e1 e2 k o -> point_update e2 e3 k o' -> point_update e1 e3 k o'.
Proof.
  intros [Hs1 H1] [Hs2 H2]. split; [by etrans|].
  intros k'. rewrite <- (same_shape_route _ _ _ Hs1), H2.
  rewrite (same_shape_route _ _ _ Hs1), H1. by case_decide.
Qed.

(** An engine whose shards are those of [e] except shard [i]. *)
Definition with_shard (e : StorageEngine) (i : nat) (s : Shard) (used expd : Z) : StorageEngine :=
  MkEngine (config_ e) (limits_ e) (<[i := s]> (shards_ e)) used expd.

Lemma with_shard_shape e i s u x : same_shape e (with_shard e i s u x).
Proof. unfold same_shape. simpl. by rewrite length_insert. Qed.

Lemma with_shard_find e i s u x j k :
  (i < length (shards_ e))%nat ->
  find (with_shard e i s u x) j k = if decide (j = i) then sh_map s !! k else find e j k.
Proof.
  intros Hi. unfold find, shard_at. simpl. case_decide as Hj.
  - subst. by rewrite list_lookup_insert_eq.
  - by rewrite list_lookup_insert_ne by done.
Qed.

Lemma with_shard_total e i s u x :
  (i < length (shards_ e))%nat ->
  total_mem (with_shard e i s u x) = total_mem e - map_mem (sh_map (shard_at e i)) + map_mem (sh_map s).
Proof.
  intros Hi. unfold total_mem. simpl. by rewrite (shards_mem_insert _ _ _ _ (shard_at_lookup _ _ Hi)).
Qed.

(** The update of one key in its shard, with the accounting it must do. *)
Lemma with_shard_wf e k o mb cur u x :
  wf e ->
  let i := shard_for_key e k in
  let m := sh_map (shard_at e i) in
  let m' := partial_alter (fun _ => o) k m in
  let e' := with_shard e i (MkShard m' mb cur) u x in
  (forall y, o = Some y -> key_valid e k = true /\ value_valid e (e_value y) = true) ->
  mb = u64 (map_mem m') ->
  (if max_memory_bytes (config_ e) =? 0 then u = 0
   else u = total_mem e - found_mem k (m !! k) + found_mem k o /\ u <= max_memory_bytes (config_ e)) ->
  wf e' /\ point_update e e' k o.
Proof.
  intros Hwf i m m' e' Ho Hmb Hu.
  assert (Hi : (i < length (shards_ e))%nat) by apply shard_for_key_lt, Hwf.
  assert (Hm' : map_mem m' = map_mem m - found_mem k (m !! k) + found_mem k o).
  { subst m'. destruct o as [y|].
    - change (partial_alter _ k m) with (<[k := y]> m). apply map_mem_insert.
    - change (partial_alter _ k m) with (delete k m). rewrite map_mem_delete. simpl. lia. }
  assert (Hsh : same_shape e e') by apply with_shard_shape.
  split; [split|split; [done|]].
  - simpl. rewrite length_insert. apply Hwf.
  - apply Hwf.
  - intros j s k' entry Hj Hk'. rewrite (same_shape_route _ _ _ Hsh). simpl in Hj.
    unfold key_valid, value_valid. cbn [limits_ e' with_shard].
    destruct (decide (j = i)) as [->|Hne].
    + rewrite list_lookup_insert_eq in Hj by done. simplify_eq. simpl in Hk'. subst m'.
      destruct (decide (k' = k)) as [->|Hkk].
      * rewrite lookup_partial_alter_eq in Hk'. by destruct (Ho _ Hk').
      * rewrite lookup_partial_alter_ne in Hk' by done.
        apply (wf_entries e Hwf i (shard_at e i) k' entry); [by apply shard_at_lookup | done].
    + rewrite list_lookup_insert_ne in Hj by done. by apply (wf_entries e Hwf j s).
  - intros j s Hj. simpl in Hj. destruct (decide (j = i)) as [->|Hne].
    + rewrite list_lookup_insert_eq in Hj by done. by simplify_eq.
    + rewrite list_lookup_insert_ne in Hj by done. by apply (wf_bytes e Hwf j).
  - cbn [config_ e' with_shard used_memory_].
    destruct (max_memory_bytes (config_ e) =? 0); [done|]. destruct Hu as [-> ?].
    unfold e'. rewrite with_shard_total by done. cbn [sh_map]. fold m. rewrite Hm'. split; lia.
  - intros k'. unfold e'. rewrite with_shard_find by done. cbn [sh_map].
    case_decide as Hr; case_decide as Hk; subst.
    + unfold m'. by rewrite lookup_partial_alter_eq.
    + unfold m'. rewrite lookup_partial_alter_ne by done. unfold m. by rewrite Hr.
    + done.
    + done.
Qed.

Lemma find_shard e i k : sh_map (shard_at e i) !! k = find e i k.
Proof. done. Qed.

Lemma wf_shard_bytes e k :
  wf e -> sh_memory_bytes (shard_at e (shard_for_key e k))
          = u64 (map_mem (sh_map (shard_at e (shard_for_key e k)))).
Proof.
  intros Hwf. apply (wf_bytes e Hwf (shard_for_key e k)), shard_at_lookup, shard_for_key_lt, Hwf.
Qed.

(** * Accounting *)

Lemma found_mem_total e k :
  wf e -> 0 <= found_mem k (find e (shard_for_key e k) k) <= total_mem e.
Proof.
  intros Hwf. pose proof (found_mem_le (sh_map (shard_at e (shard_for_key e k))) k).
  pose proof (shards_mem_lookup (shards_ e) (shard_for_key e k) _
                (shard_at_lookup _ _ (shard_for_key_lt _ k (wf_shards _ Hwf)))).
  unfold total_mem, find. lia.
Qed.

(** What [release_memory] does to a well-formed engine: no saturation. *)
Lemma release_used e n :
  wf e -> 0 <= n -> (max_memory_bytes (config_ e) <> 0 -> n <= total_mem e) ->
  used_memory_ (release_memory e n)
  = if max_memory_bytes (config_ e) =? 0 then 0 else total_mem e - n.
Proof.
  intros Hwf Hn Hle. pose proof (wf_used _ Hwf) as Hu. unfold release_memory.
  destruct (Z.eqb_spec (max_memory_bytes (config_ e)) 0) as [Hz|Hz].
  - rewrite Hu. by destruct (n =? 0).
  - destruct Hu as [Hu ?]. specialize (Hle Hz). rewrite Hu.
    destruct (Z.eqb_spec n 0); [lia|]. destruct (Z.eqb_spec (total_mem e) 0); simpl; [lia|].
    destruct (Z.ltb_spec (total_mem e) n); lia.
Qed.

Lemma release_eq e n :
  release_memory e n = put_used e (used_memory_ (release_memory e n)).
Proof.
  unfold release_memory. destruct (n =? 0), (used_memory_ e =? 0); destruct e; done.
Qed.

Lemma add_expired_wf e n : wf e -> wf (add_expired e n).
Proof. intros []. by split. Qed.

Lemma add_expired_update e e' k o n :
  point_update e e' k o -> point_update e (add_expired e' n) k o.
Proof. done. Qed.

Lemma erase_entry_wf e k x :
  wf e -> find e (shard_for_key e k) k = Some x ->
  let e' := erase_entry_locked e (shard_for_key e k) k x in
  wf e' /\ point_update e e' k None.
Proof.
  intros Hwf Hf. unfold erase_entry_locked.
  pose proof (found_mem_total e k Hwf) as Hle. rewrite Hf in Hle. simpl in Hle.
  pose proof (release_used e (entry_memory k (e_value x)) Hwf ltac:(lia) ltac:(lia)) as Hu.
  pose proof (release_eq e (entry_memory k (e_value x))) as He. rewrite Hu in He. rewrite He.
  change (shard_at (put_used e ?u)) with (shard_at e).
  apply (with_shard_wf e k None _ _ _ (expired_keys_ e) Hwf).
  - done.
  - rewrite (wf_shard_bytes e k Hwf). autorewrite with u64. f_equal.
    change (partial_alter _ k ?m) with (delete k m). rewrite map_mem_delete.
    rewrite find_shard. by rewrite Hf.
  - rewrite find_shard, Hf. simpl. pose proof (wf_used e Hwf) as Hused.
    destruct (_ =? 0); [done|]. lia.
Qed.

Lemma expire_entry_wf e k x :
  wf e -> find e (shard_for_key e k) k = Some x ->
  let e' := expire_entry_locked e (shard_for_key e k) k x in
  wf e' /\ point_update e e' k None.
Proof.
  intros Hwf Hf. destruct (erase_entry_wf e k x Hwf Hf) as [? ?].
  split; [by apply add_expired_wf | by apply add_expired_update].
Qed.

Lemma update_entry_wf e k x y :
  wf e -> find e (shard_for_key e k) k = Some x -> e_value y = e_value x ->
  let e' := update_entry e (shard_for_key e k) k y in
  wf e' /\ point_update e e' k (Some y).
Proof.
  intros Hwf Hf Hy. unfold update_entry.
  apply (with_shard_wf e k (Some y) _ _ (used_memory_ e) (expired_keys_ e) Hwf).
  - intros ? [= <-]. rewrite Hy.
    destruct (wf_entries e Hwf (shard_for_key e k) (shard_at e (shard_for_key e k)) k x)
      as (_ & ? & ?); [|done|done].
    by apply shard_at_lookup, shard_for_key_lt, Hwf.
  - rewrite (wf_shard_bytes e k Hwf).
    change (partial_alter _ k ?m) with (<[k := y]> m). rewrite map_mem_insert, find_shard.
    rewrite Hf. simpl. rewrite Hy. f_equal. lia.
  - pose proof (wf_used e Hwf) as Hu. destruct (_ =? 0); [done|].
    rewrite find_shard, Hf. simpl. rewrite Hy. lia.
Qed.

Lemma release_max e n :
  0 <= n -> 0 <= used_memory_ e ->
  release_memory e n = put_used e (Z.max 0 (used_memory_ e - n)).
Proof.
  intros Hn Hu. unfold release_memory.
  destruct (Z.eqb_spec n 0) as [->|]; [destruct e; unfold put_used; simpl in *; f_equal; lia|].
  destruct (Z.eqb_spec (used_memory_ e) 0) as [Hz|];
    [destruct e; unfold put_used; simpl in *; f_equal; lia|].
  f_equal. destruct (Z.ltb_spec (used_memory_ e) n); lia.
Qed.

(** The accounting value a well-formed engine has after the memory of one key
    went from [old] to [new]. *)
Definition accounted (e : StorageEngine) (old new : Z) : Z :=
  if max_memory_bytes (config_ e) =? 0 then 0 else total_mem e - old + new.

Lemma wf_accounted e n : wf e -> used_memory_ e = accounted e n n.
Proof.
  intros Hwf. pose proof (wf_used e Hwf) as Hu. unfold accounted.
  destruct (_ =? 0); [done|]. lia.
Qed.

(** [reserve_memory] for a growth succeeds exactly when the limit allows it. *)
Lemma reserve_memory_spec e old new :
  wf e -> 0 <= old <= total_mem e -> old < new ->
  reserve_memory e (new - old) =
  if (max_memory_bytes (config_ e) =? 0)
     || (total_mem e - old + new <=? max_memory_bytes (config_ e))
  then Some (put_used e (accounted e old new)) else None.
Proof.
  intros Hwf Hold Hlt. pose proof (wf_used e Hwf) as Hu. pose proof (wf_max e Hwf) as Hm.
  unfold reserve_memory, accounted. rewrite (proj2 (Z.eqb_neq (new - old) 0)) by lia. cbn [orb].
  destruct (Z.eqb_spec (max_memory_bytes (config_ e)) 0); cbn [orb].
  { destruct e; unfold put_used; simpl in *. by rewrite Hu. }
  destruct Hu as [-> Hle]. rewrite (proj2 (Z.ltb_ge _ (total_mem e))) by lia. cbn [orb].
  unfold is_u64, u64_max in Hm.
  destruct (Z.leb_spec (total_mem e - old + new) (max_memory_bytes (config_ e))).
  - rewrite (proj2 (Z.ltb_ge _ _)) by lia. rewrite u64_small by lia. do 2 f_equal. lia.
  - by rewrite (proj2 (Z.ltb_lt _ _)) by lia.
Qed.

Lemma put_used_id e n : n = used_memory_ e -> put_used e n = e.
Proof. intros ->. by destruct e. Qed.

(** Writing [entry] under [k]: what the shard holds afterwards. *)
Lemma store_shard_wf e k entry mb u :
  wf e -> key_valid e k = true -> value_valid e (e_value entry) = true ->
  let i := shard_for_key e k in
  let found := find e i k in
  let s := shard_at e i in
  mb = u64 (sh_memory_bytes s - found_mem k found + entry_memory k (e_value entry)) ->
  u = accounted e (found_mem k found) (entry_memory k (e_value entry)) ->
  (max_memory_bytes (config_ e) <> 0 -> u <= max_memory_bytes (config_ e)) ->
  let e' := with_shard e i (MkShard (<[k := entry]> (sh_map s)) mb (sh_expire_cursor s)) u (expired_keys_ e) in
  wf e' /\ point_update e e' k (Some entry).
Proof.
  intros Hwf Hk Hv i found s Hmb Hu Hle.
  apply (with_shard_wf e k (Some entry)); [done| | |].
  - intros y [= <-]. done.
  - rewrite Hmb. unfold s, i. rewrite (wf_shard_bytes e k Hwf).
    rewrite <- Z.sub_sub_distr, u64_sub_l. f_equal.
    change (partial_alter _ k ?m) with (<[k := entry]> m). rewrite map_mem_insert, find_shard.
    unfold found, i. lia.
  - unfold accounted in Hu. rewrite find_shard.
    destruct (Z.eqb_spec (max_memory_bytes (config_ e)) 0); [done|]. split; [done|auto].
Qed.

(** Whether the memory limit allows the memory of [k] to become [new]. *)
Definition fits (e : StorageEngine) (old new : Z) : bool :=
  (max_memory_bytes (config_ e) =? 0) || (total_mem e - old + new <=? max_memory_bytes (config_ e)).

Lemma fits_accounted e old new :
  fits e old new = true -> max_memory_bytes (config_ e) <> 0 ->
  accounted e old new <= max_memory_bytes (config_ e).
Proof.
  unfold fits, accounted. intros Hf Hz. rewrite (proj2 (Z.eqb_neq _ 0)) in * by done.
  by apply Z.leb_le.
Qed.

(** The engine after the reservation step of [store_entry]. *)
Definition reserved (e : StorageEngine) (old new : Z) : StorageEngine :=
  put_used e (accounted e old (Z.max old new)).

Lemma reserve_step e old new :
  wf e -> 0 <= old <= total_mem e -> 0 <= new ->
  (if old <? new then reserve_memory e (new - old) else Some e)
  = if fits e old new then Some (reserved e old new) else None.
Proof.
  intros Hwf Hold Hnew. unfold reserved. destruct (Z.ltb_spec old new).
  - rewrite Z.max_r by lia. by apply reserve_memory_spec.
  - rewrite Z.max_l, put_used_id by (lia || by rewrite (wf_accounted e old)).
    pose proof (wf_used e Hwf) as Hu. unfold fits.
    destruct (Z.eqb_spec (max_memory_bytes (config_ e)) 0); [done|].
    by rewrite (proj2 (Z.leb_le _ _)) by lia.
Qed.

Lemma accounted_nonneg e old new : 0 <= old <= total_mem e -> 0 <= new -> 0 <= accounted e old new.
Proof. intros. unfold accounted. destruct (_ =? 0); lia. Qed.

(** Giving back [n] of a reservation, from the value accounted for [a]. *)
Lemma release_accounted e e1 old a n :
  0 <= old <= total_mem e -> 0 <= n <= a -> used_memory_ e1 = accounted e old a ->
  release_memory e1 n = put_used e1 (accounted e old (a - n)).
Proof.
  intros Hold Hn Hu.
  rewrite release_max by (rewrite ?Hu; try apply accounted_nonneg; lia).
  f_equal. rewrite Hu. unfold accounted. destruct (_ =? 0); lia.
Qed.

(** [store_entry] in closed form. *)
Lemma store_entry_eq e k entry res :
  wf e ->
  let i := shard_for_key e k in
  let found := find e i k in
  let old := found_mem k found in
  let new := entry_memory k (e_value entry) in
  let s := shard_at e i in
  store_entry e i k found entry res =
  if fits e old new && negb (bool_decide (found = None) && emplace_throws (reserved e old new) k entry)
  then (MkWrite WOk res,
        with_shard e i (MkShard (<[k := entry]> (sh_map s))
          (u64 (sh_memory_bytes s - old + new)) (sh_expire_cursor s))
          (accounted e old new) (expired_keys_ e))
  else (MkWrite NoMemory 0, e).
Proof.
  intros Hwf i found old new s. unfold store_entry. fold (found_mem k found). fold old new.
  pose proof (found_mem_total e k Hwf) as Hold. fold i found old in Hold.
  pose proof (entry_memory_nonneg k (e_value entry)) as Hnew. fold new in Hnew.
  rewrite reserve_step by done. destruct (fits e old new); [|done].
  change (shard_at (reserved e old new) i) with s. cbn [andb].
  assert (Hrel : forall s', (if new <? old then release_memory (put_shard (reserved e old new) i s') (old - new)
                             else put_shard (reserved e old new) i s')
                 = with_shard e i s' (accounted e old new) (expired_keys_ e)).
  { intros s'. destruct (Z.ltb_spec new old).
    - rewrite (release_accounted e _ old old) by (try done; try lia; cbn; by rewrite Z.max_l by lia).
      by replace (old - (old - new)) with new by lia.
    - unfold reserved. by rewrite Z.max_r by lia. }
  destruct found as [f|] eqn:Hf; [by rewrite Hrel|].
  destruct (emplace_throws (reserved e old new) k entry); cbn [bool_decide negb andb]; [|rewrite Hrel].
  - f_equal. unfold reserved, old. simpl. destruct (Z.ltb_spec 0 new); rewrite ?Z.max_l by lia.
    + rewrite (release_accounted e _ 0 new) by (try done; try lia; cbn; by rewrite Z.max_r by lia).
      replace (new - (new - 0)) with 0 by lia.
      transitivity (put_used e (accounted e 0 0)); [done|].
      apply put_used_id. by rewrite (wf_accounted e 0).
    + apply put_used_id. by rewrite (wf_accounted e 0).
  - repeat f_equal. unfold old. simpl. lia.
Qed.

(** Whether the memory limit leaves room for value [v] under [k], in place of
    what [k] holds. *)
Definition room (e : StorageEngine) (k v : bytes) : bool :=
  fits e (found_mem k (find e (shard_for_key e k) k)) (entry_memory k v).

(** [store_entry] either stores the entry, or reports [NoMemory] and leaves the
    engine as it was, which happens only when the limit leaves no room or
    allocating the node of a new key throws; the accounting is exact either
    way. *)
Lemma store_entry_wf e k entry res :
  wf e -> key_valid e k = true -> value_valid e (e_value entry) = true ->
  let i := shard_for_key e k in
  let found := find e i k in
  let '(r, e') := store_entry e i k found entry res in
  wf e' /\
  ((r = MkWrite WOk res /\ room e k (e_value entry) = true /\ point_update e e' k (Some entry)) \/
   (r = MkWrite NoMemory 0 /\ e' = e /\
    (room e k (e_value entry) = true -> found = None /\ exists e1, emplace_throws e1 k entry = true))).
Proof.
  intros Hwf Hk Hv i found. unfold i, found. rewrite store_entry_eq by done. fold (room e k (e_value entry)).
  destruct (room e k (e_value entry)) eqn:Hr; cbn [andb];
    [|by split; [|right; split; [|split]]].
  destruct (negb _) eqn:Hn.
  - destruct (store_shard_wf e k entry _ _ Hwf Hk Hv eq_refl eq_refl) as [? ?];
      [by apply fits_accounted | by auto].
  - split; [done|]. right. split; [done|]. split; [done|]. intros _.
    apply negb_false_iff, andb_true_iff in Hn as [Hn ?]. apply bool_decide_eq_true in Hn. eauto.
Qed.

(** * The observable database *)

Definition alive (t : Z) (x : Entry) : option (bytes * option Z) :=
  if expired x t then None else Some (e_value x, e_expiry x).

Definition entries_of (l : list Shard) : gmap bytes Entry := foldr (fun s acc => sh_map s ∪ acc) ∅ l.

Definition live (e : StorageEngine) (t : Z) : db := omap (alive t) (entries_of (shards_ e)).

Lemma entries_of_none l k :
  (forall i s, l !! i = Some s -> sh_map s !! k = None) -> entries_of l !! k = None.
Proof.
  induction l as [|s l IH]; intros Hl; simpl; [apply lookup_empty|].
  apply lookup_union_None. split; [by apply (Hl 0%nat)|].
  apply IH. intros i s' Hi. by apply (Hl (S i)).
Qed.

Lemma entries_of_route l k r s :
  (forall i s x, l !! i = Some s -> sh_map s !! k = Some x -> i = r) ->
  l !! r = Some s -> entries_of l !! k = sh_map s !! k.
Proof.
  revert r. induction l as [|s' l IH]; intros [|r] Hl Hr; simpl in *; simplify_eq.
  - rewrite lookup_union_l; [done|]. apply entries_of_none. intros i s' Hi.
    destruct (sh_map s' !! k) eqn:E; [|done]. by specialize (Hl (S i) _ _ Hi E).
  - rewrite lookup_union_r.
    + apply (IH r); [|done]. intros i s'' x Hi Hx. by specialize (Hl (S i) _ _ Hi Hx) as [= ->].
    + destruct (sh_map s' !! k) eqn:E; [|done]. by specialize (Hl 0%nat _ _ eq_refl E).
Qed.

Lemma entries_of_find e k :
  wf e -> entries_of (shards_ e) !! k = find e (shard_for_key e k) k.
Proof.
  intros Hwf. rewrite (entries_of_route _ k (shard_for_key e k) (shard_at e (shard_for_key e k))).
  - done.
  - intros i s x Hi Hx. by destruct (wf_entries e Hwf i s k x Hi Hx).
  - apply shard_at_lookup, shard_for_key_lt, Hwf.
Qed.

Lemma live_lookup e t k :
  wf e -> live e t !! k = find e (shard_for_key e k) k ≫= alive t.
Proof. intros Hwf. unfold live. by rewrite lookup_omap, entries_of_find. Qed.

Lemma live_point e e' k o t :
  wf e -> wf e' -> point_update e e' k o ->
  live e' t = partial_alter (fun _ => o ≫= alive t) k (live e t).
Proof.
  intros Hwf Hwf' [Hs Hp]. apply map_eq. intros k'. rewrite live_lookup by done.
  rewrite (same_shape_route _ _ _ Hs), Hp. case_decide as Hk.
  - subst. by rewrite lookup_partial_alter_eq.
  - by rewrite lookup_partial_alter_ne, live_lookup by done.
Qed.

Lemma live_point_same e e' k o t :
  wf e -> wf e' -> point_update e e' k o ->
  (o ≫= alive t) = (find e (shard_for_key e k) k ≫= alive t) -> live e' t = live e t.
Proof.
  intros Hwf Hwf' Hp Ho. rewrite (live_point e e' k o) by done. rewrite Ho, <- live_lookup by done.
  apply map_eq. intros k'. destruct (decide (k' = k)) as [->|].
  - by rewrite lookup_partial_alter_eq.
  - by rewrite lookup_partial_alter_ne.
Qed.

Lemma expired_mono x t t' : t <= t' -> expired x t = true -> expired x t' = true.
Proof. unfold expired. destruct (e_expiry x); [|done]. intros. bool_to_prop. apply Z.leb_le. lia. Qed.

(** The database with [k] bound to value [v] and deadline [x], seen at [t]. *)
Definition put_at (t : Z) (k : bytes) (v : bytes) (x : option Z) (d : db) : db :=
  if (match x with Some w => w <=? t | None => false end) then delete k d else <[k := (v, x)]> d.

Lemma live_put e e' k y t :
  wf e -> wf e' -> point_update e e' k (Some y) ->
  live e' t = put_at t k (e_value y) (e_expiry y) (live e t).
Proof.
  intros Hwf Hwf' Hp. rewrite (live_point _ _ _ _ _ Hwf Hwf' Hp). simpl.
  unfold alive, put_at, expired. by destruct (e_expiry y) as [w|]; [destruct (w <=? t)|].
Qed.

Lemma live_delete e e' k t :
  wf e -> wf e' -> point_update e e' k None -> live e' t = delete k (live e t).
Proof. intros Hwf Hwf' Hp. by rewrite (live_point _ _ _ _ _ Hwf Hwf' Hp). Qed.

(** * Lookup with lazy expiry *)

(** The entry of [k] when it has not expired at [now]. *)
Definition fresh (e : StorageEngine) (now : Z) (k : bytes) : option Entry :=
  x ← find e (shard_for_key e k) k; if expired x now then None else Some x.

Lemma fresh_live e now k :
  wf e -> live e now !! k = (fun x => (e_value x, e_expiry x)) <$> fresh e now k.
Proof.
  intros Hwf. rewrite live_lookup by done. unfold fresh, alive.
  destruct (find _ _ k) as [x|]; simpl; [|done]. by destruct (expired x now).
Qed.

(** Lazy expiry is invisible: looking a key up drops it when it has expired,
    which no observation at or after [now] can tell. *)
Lemma find_live_spec e now k :
  wf e ->
  let '(o, e') := find_live e (shard_for_key e k) k now in
  wf e' /\ o = fresh e now k /\ point_update e e' k o /\
  (forall t, now <= t -> live e' t = live e t).
Proof.
  intros Hwf. unfold find_live, fresh.
  destruct (find e (shard_for_key e k) k) as [x|] eqn:Hf; simpl.
  2:{ split; [done|]. split; [done|]. split; [|done]. rewrite <- Hf. apply point_update_refl. }
  destruct (expired x now) eqn:Hx.
  - destruct (expire_entry_wf e k x Hwf Hf) as [Hwf' Hp]. split; [done|]. split; [done|].
    split; [done|]. intros t Ht. apply (live_point_same _ _ k None); try done.
    rewrite Hf. simpl. unfold alive. by rewrite (expired_mono x now).
  - split; [done|]. split; [done|]. split; [|done]. rewrite <- Hf. apply point_update_refl.
Qed.

Lemma fresh_find e e' now k :
  point_update e e' k (fresh e now k) -> find e' (shard_for_key e' k) k = fresh e now k.
Proof.
  intros [Hs Hp]. rewrite (same_shape_route _ _ _ Hs), Hp. by rewrite decide_True.
Qed.

(** Dropping an expired entry leaves as much room for its key. *)
Lemma find_live_room e now k v :
  wf e -> room (find_live e (shard_for_key e k) k now).2 k v = room e k v.
Proof.
  intros Hwf. unfold find_live. destruct (find e (shard_for_key e k) k) as [x|] eqn:Hf; [|done].
  destruct (expired x now); [|done]. cbn [snd]. set (e1 := expire_entry_locked _ _ _ _).
  destruct (expire_entry_wf e k x Hwf Hf) as [Hwf1 Hp]. fold e1 in Hwf1, Hp.
  assert (Hf1 : find e1 (shard_for_key e1 k) k = None).
  { rewrite (same_shape_route e) by apply Hp. rewrite (proj2 Hp). by rewrite decide_True. }
  assert (Hm : total_mem e1 = total_mem e - entry_memory k (e_value x)).
  { unfold e1, expire_entry_locked, erase_entry_locked. rewrite release_eq.
    unfold total_mem. simpl.
    rewrite (shards_mem_insert _ _ (shard_at e (shard_for_key e k)))
      by (apply shard_at_lookup, shard_for_key_lt, Hwf).
    cbn [sh_map]. change (shard_at (put_used e _)) with (shard_at e).
    rewrite map_mem_delete, find_shard, Hf. simpl. lia. }
  unfold room, fits. rewrite Hf, Hf1, Hm. cbn [found_mem].
  rewrite (proj1 (proj1 Hp)). do 2 f_equal. lia.
Qed.

Lemma erase_if_expired_eq e now k :
  (erase_if_expired_locked e (shard_for_key e k) k now).2
  = (find_live e (shard_for_key e k) k now).2.
Proof.
  unfold erase_if_expired_locked, find_live. destruct (find _ _ k) as [x|]; [|done].
  by destruct (expired x now).
Qed.
End Facts.
