(* ===== verification/StorageSpec.v ===== *)
(** Functional correctness of the storage engine: each operation's result and
    its effect on the observable database [live], on every branch. *)
From S2P Require Import Prelude Util Config Storage StorageFacts.

(** * Abstract operations on a database *)

Module Spec.

(** Redis-style conditions of [SET]. *)
Definition condition_holds (c : SetCondition) (present : bool) : bool :=
  match c with Always => true | NX => negb present | XX => present end.

Definition present (k : bytes) (d : db) : bool := bool_decide (is_Some (d !! k)).

Definition value_of (k : bytes) (d : db) : option bytes := fst <$> d !! k.

(** The integer a counter key holds; a missing key counts as zero. *)
Definition counter (k : bytes) (d : db) : option Z :=
  match d !! k with None => Some 0 | Some (v, _) => parse_integer_value v end.

(** The string a key holds; a missing key counts as empty. *)
Definition string_of (k : bytes) (d : db) : bytes :=
  match d !! k with None => [] | Some (v, _) => v end.

(** Remaining time to live at [now], in whole milliseconds. *)
Definition ttl_of (now : Z) (k : bytes) (d : db) : TtlResult :=
  match d !! k with
  | None => MkTtl Missing 0
  | Some (_, None) => MkTtl NoExpiry 0
  | Some (_, Some x) => MkTtl HasExpiry (Z.max 0 (to_ms (i64 (x - now))))
  end.

End Spec.

(** The effect of an operation that clients cannot observe. *)
Abbreviation unchanged := (fun (_ : Z) (d : db) => d).

Section Ops.
Context `{Platform}.

Implicit Types (e : StorageEngine) (k v : bytes) (now t : Z).

(** [e'] shows, from [now] on, the database of [e] changed by [f]; the
    invariant holds again. *)
Definition effect (now : Z) (e e' : StorageEngine) (f : Z -> db -> db) : Prop :=
  wf e' /\ same_shape e e' /\ forall t, now <= t -> live e' t = f t (live e t).

Lemma same_shape_valid e e' k v :
  same_shape e e' -> key_valid e' k = key_valid e k /\ value_valid e' v = value_valid e v.
Proof. intros (_ & Hl & _). unfold key_valid, value_valid. by rewrite Hl. Qed.

(** Looking up and then leaving the entry alone. *)
Lemma find_live_effect e now k o e1 :
  wf e -> find_live e (shard_for_key e k) k now = (o, e1) ->
  effect now e e1 unchanged /\ o = fresh e now k /\ point_update e e1 k o /\
  shard_for_key e1 k = shard_for_key e k /\ find e1 (shard_for_key e1 k) k = o.
Proof.
  intros Hwf He. pose proof (find_live_spec e now k Hwf) as Hs. rewrite He in Hs.
  destruct Hs as (Hwf1 & -> & Hp & Hlive). pose proof (proj1 Hp) as Hsh.
  split; [done|]. split; [done|]. split; [done|].
  split; [by apply same_shape_route | by apply fresh_find].
Qed.

(** The outcome of a write whose arguments are acceptable: the key is bound to
    the value and deadline, or the command is refused with [NoMemory] and
    nothing changes; the latter only when the memory limit leaves no room, or
    when allocating the node of a new key fails. *)
Definition stored (now : Z) (e e' : StorageEngine) (r : WriteResult) (k v : bytes) (x : option Z)
    (res : Z) : Prop :=
  (r = MkWrite WOk res /\ room e k v = true /\ effect now e e' (fun t => put_at t k v x)) \/
  (r = MkWrite NoMemory 0 /\ effect now e e' unchanged /\
   (room e k v = true ->
    live e now !! k = None /\ exists e1 y, emplace_throws e1 k y = true)).

(** Looking up and then storing: the common part of the write operations. *)
Lemma store_effect e now k o e1 entry res :
  wf e -> key_valid e k = true -> value_valid e (e_value entry) = true ->
  find_live e (shard_for_key e k) k now = (o, e1) ->
  let '(r, e') := store_entry e1 (shard_for_key e k) k o entry res in
  stored now e e' r k (e_value entry) (e_expiry entry) res.
Proof.
  intros Hwf Hk Hv He.
  destruct (find_live_effect e now k o e1 Hwf He) as ((Hwf1 & Hsh & Hlive) & Ho & _ & Hr & Hf).
  destruct (same_shape_valid e e1 k (e_value entry) Hsh) as [Hk1 Hv1].
  rewrite <- Hr, <- Hf.
  pose proof (store_entry_wf e1 k entry res Hwf1 ltac:(congruence) ltac:(congruence)) as Hs.
  cbv zeta in Hs. revert Hs. destruct (store_entry e1 _ k _ entry res) as [r e']. intros Hs.
  pose proof (find_live_room e now k (e_value entry) Hwf) as Hroom. rewrite He in Hroom.
  cbn [snd] in Hroom. rewrite Hroom in Hs.
  destruct Hs as (Hwf' & [(-> & Hrm & Hp)|(-> & -> & Hrm)]); [left|right]; (split; [done|]).
  - split; [done|]. split; [done|]. split; [etrans; [done|apply Hp]|].
    intros t Ht. rewrite (live_put e1 e' k entry) by done. by rewrite Hlive.
  - split; [done|]. intros Hfit. destruct (Hrm Hfit) as [Hnone [e2 Hthrow]].
    split; [|by eauto]. rewrite fresh_live by done. rewrite Hf in Hnone. by rewrite <- Ho, Hnone.
Qed.

(** Looking up and then rewriting the entry's metadata. *)
Lemma update_effect e now k x e1 y :
  wf e -> find_live e (shard_for_key e k) k now = (Some x, e1) -> e_value y = e_value x ->
  effect now e (update_entry e1 (shard_for_key e k) k y)
    (fun t => put_at t k (e_value y) (e_expiry y)).
Proof.
  intros Hwf He Hy.
  destruct (find_live_effect e now k _ e1 Hwf He) as ((Hwf1 & Hsh & Hlive) & _ & _ & Hr & Hf).
  rewrite <- Hr. destruct (update_entry_wf e1 k x y Hwf1 Hf Hy) as [Hwf' Hp].
  split; [done|]. split; [etrans; [done|apply Hp]|].
  intros t Ht. rewrite (live_put e1 _ k y) by done. by rewrite Hlive.
Qed.

(** Looking up and then erasing. *)
Lemma erase_effect e now k x e1 :
  wf e -> find_live e (shard_for_key e k) k now = (Some x, e1) ->
  effect now e (erase_entry_locked e1 (shard_for_key e k) k x) (fun _ => delete k) /\
  effect now e (expire_entry_locked e1 (shard_for_key e k) k x) (fun _ => delete k).
Proof.
  intros Hwf He.
  destruct (find_live_effect e now k _ e1 Hwf He) as ((Hwf1 & Hsh & Hlive) & _ & _ & Hr & Hf).
  rewrite <- Hr. destruct (erase_entry_wf e1 k x Hwf1 Hf) as [Hwf2 Hp2].
  destruct (expire_entry_wf e1 k x Hwf1 Hf) as [Hwf3 Hp3].
  split; (split; [done|]; split; [etrans; [done|apply Hp2 || apply Hp3]|]);
    intros t Ht; rewrite <- Hlive by done; by apply live_delete.
Qed.

(** Re-storing the value and deadline a key already has changes nothing a
    client can see. *)
Lemma put_at_same e now t k x :
  wf e -> fresh e now k = Some x -> now <= t ->
  put_at t k (e_value x) (e_expiry x) (live e t) = live e t.
Proof.
  intros Hwf Hx Ht. unfold put_at.
  assert (Hl : live e t !! k = alive t x).
  { rewrite live_lookup by done. unfold fresh in Hx.
    destruct (find _ _ k) as [y|]; simpl in *; [|done]. destruct (expired y now); by simplify_eq. }
  unfold alive, expired in Hl. case_match.
  - by apply delete_id.
  - by apply insert_id.
Qed.

Lemma fresh_present e now k : wf e -> Spec.present k (live e now) = bool_decide (is_Some (fresh e now k)).
Proof.
  intros Hwf. unfold Spec.present. rewrite fresh_live by done. by destruct (fresh e now k).
Qed.

(** * Properties *)

(** [GET] returns the value of a key that is present and not expired, and
    nothing otherwise; the lazy deletion it performs, and its bookkeeping of
    the access time, are invisible from then on. *)
Lemma get_spec e now k :
  wf e ->
  let '(r, e') := get now k e in
  r = Spec.value_of k (live e now) /\ effect now e e' unchanged.
Proof.
  intros Hwf. unfold get, Spec.value_of. rewrite fresh_live by done.
  destruct (find_live e (shard_for_key e k) k now) as [o e1] eqn:He.
  destruct (find_live_effect e now k o e1 Hwf He) as (Heff & -> & _).
  destruct (fresh e now k) as [x|] eqn:Hx; simpl; [|done].
  split; [done|].
  destruct (update_effect e now k x e1 (MkEntry (e_value x) (e_expiry x) (e_version x) now) Hwf He eq_refl)
    as (? & ? & Hlive).
  split; [done|]. split; [done|]. intros t Ht. rewrite Hlive by done. cbn.
  by apply (put_at_same e now).
Qed.

(** [SET] on every branch: oversized keys and values and unmet [NX]/[XX]
    conditions are refused with the database unchanged; otherwise the key is
    bound to the value and the deadline [now + ttl] (none without [ttl]), unless
    memory runs out, in which case nothing changes. *)
Lemma set_spec e now k v ttl c :
  wf e ->
  let '(r, e') := set now k v ttl c e in
  if negb (key_valid e k) then r = MkWrite KeyTooLarge 0 /\ effect now e e' unchanged
  else if negb (value_valid e v) then r = MkWrite ValueTooLarge 0 /\ effect now e e' unchanged
  else if negb (Spec.condition_holds c (Spec.present k (live e now)))
  then r = MkWrite NotSet 0 /\ effect now e e' unchanged
  else stored now e e' r k v (add_ms now <$> ttl) 0.
Proof.
  intros Hwf. unfold set.
  destruct (key_valid e k) eqn:Hk; simpl; [|done].
  destruct (value_valid e v) eqn:Hv; simpl; [|done].
  rewrite erase_if_expired_eq, fresh_present by done.
  destruct (find_live e (shard_for_key e k) k now) as [o e1] eqn:He.
  destruct (find_live_effect e now k o e1 Hwf He) as (Heff & Ho & _ & Hr & Hf).
  rewrite Hr in Hf. cbn [snd]. rewrite Hf, <- Ho.
  assert (Hc : (bool_decide (c = NX) && bool_decide (is_Some o)) ||
               (bool_decide (c = XX) && negb (bool_decide (is_Some o)))
               = negb (Spec.condition_holds c (bool_decide (is_Some o))))
    by (by destruct c, o).
  rewrite Hc. destruct (negb (Spec.condition_holds _ _)); [done|].
  by apply (store_effect e now k o e1).
Qed.

(** [DEL] of one key reports whether a live key was there and removes it. *)
Lemma del_one_spec e now k :
  wf e ->
  let '(n, e') := del_one now k e in
  n = (if Spec.present k (live e now) then 1 else 0) /\ effect now e e' (fun _ => delete k).
Proof.
  intros Hwf. unfold del_one. rewrite fresh_present by done.
  destruct (find_live e (shard_for_key e k) k now) as [o e1] eqn:He.
  destruct (find_live_effect e now k o e1 Hwf He) as ((? & ? & Hlive) & Ho & _).
  destruct o as [x|]; rewrite <- Ho; cbn.
  - split; [done|]. by eapply erase_effect.
  - split; [done|]. split; [done|]. split; [done|]. intros t Ht. rewrite Hlive by done.
    symmetry. apply delete_id. rewrite live_lookup by done.
    unfold fresh in Ho. destruct (find e _ k) as [x|]; simpl in *; [|done].
    destruct (expired x now) eqn:Hx; [|done]. unfold alive. by rewrite (expired_mono x now).
Qed.

(** [INCR]/[DECR]: a missing key counts as zero, a value that is not a
    64-bit integer is refused, a sum outside 64 bits is refused as an overflow,
    and otherwise the key holds the decimal text of the exact sum, without a
    deadline. *)
Lemma incr_by_spec e now k delta :
  wf e -> is_i64 delta ->
  let '(r, e') := incr_by now k delta e in
  if negb (key_valid e k) then r = MkWrite KeyTooLarge 0 /\ effect now e e' unchanged
  else
    match Spec.counter k (live e now) with
    | None => r = MkWrite InvalidInteger 0 /\ effect now e e' unchanged
    | Some c =>
        if bool_decide (is_i64 (c + delta)) then
          if negb (value_valid e (to_string (c + delta)))
          then r = MkWrite ValueTooLarge 0 /\ effect now e e' unchanged
          else stored now e e' r k (to_string (c + delta)) None (c + delta)
        else r = MkWrite Overflow 0 /\ effect now e e' unchanged
    end.
Proof.
  intros Hwf Hd. unfold incr_by, Spec.counter.
  destruct (key_valid e k) eqn:Hk; simpl; [|done].
  destruct (find_live e (shard_for_key e k) k now) as [o e1] eqn:He.
  destruct (find_live_effect e now k o e1 Hwf He) as (Heff & Ho & _).
  rewrite fresh_live, <- Ho by done.
  assert (Hcur : match (fun x => (e_value x, e_expiry x)) <$> o with
                 | Some (v, _) => parse_integer_value v | None => Some 0 end
                 = match o with None => Some 0 | Some f => parse_integer_value (e_value f) end)
    by (by destruct o).
  rewrite Hcur. destruct (match o with None => _ | Some _ => _ end) as [c|] eqn:Hc; [|done].
  assert (Hci : is_i64 c).
  { destruct o as [x|]; [|by simplify_eq]. unfold parse_integer_value in Hc.
    destruct (e_value x); [done|]. by apply from_chars_all_range in Hc. }
  assert (Hov : ((0 <? delta) && (i64_max - delta <? c)) || ((delta <? 0) && (c <? i64_min - delta))
                = negb (bool_decide (is_i64 (c + delta)))).
  { apply Bool.eq_iff_eq_true. rewrite orb_true_iff, !andb_true_iff, negb_true_iff, !Z.ltb_lt.
    rewrite bool_decide_eq_false. unfold is_i64 in *. lia. }
  rewrite Hov. destruct (bool_decide_reflect (is_i64 (c + delta))) as [Hi|Hi]; simpl; [|done].
  rewrite i64_small by done.
  destruct (same_shape_valid e e1 k (to_string (c + delta)) (proj1 (proj2 Heff))) as [_ Hv].
  rewrite Hv. destruct (value_valid e (to_string (c + delta))) eqn:Hval; simpl; [|done].
  assert (He' : forall z, e_value (rewritten_entry o z now) = z /\ e_expiry (rewritten_entry o z now) = None)
    by (by destruct o).
  destruct (He' (to_string (c + delta))) as [Hev Hex].
  pose proof (store_effect e now k o e1 (rewritten_entry o (to_string (c + delta)) now) (c + delta)
    Hwf Hk ltac:(by rewrite Hev) He) as Hs.
  by rewrite Hev, Hex in Hs.
Qed.

(** [APPEND]: the suffix is added to the current string (empty for a missing
    key), the result's length is returned, a result beyond the maximum value
    size is refused, and the key loses its deadline. *)
Lemma append_spec e now k suffix :
  wf e ->
  let '(r, e') := append now k suffix e in
  let v := Spec.string_of k (live e now) ++ suffix in
  if negb (key_valid e k) then r = MkWrite KeyTooLarge 0 /\ effect now e e' unchanged
  else if negb (value_valid e v) then r = MkWrite ValueTooLarge 0 /\ effect now e e' unchanged
  else stored now e e' r k v None (i64 (bsize v)).
Proof.
  intros Hwf. unfold append, Spec.string_of.
  destruct (key_valid e k) eqn:Hk; simpl; [|done].
  destruct (find_live e (shard_for_key e k) k now) as [o e1] eqn:He.
  destruct (find_live_effect e now k o e1 Hwf He) as (Heff & Ho & _).
  rewrite fresh_live, <- Ho by done.
  assert (Hcur : match (fun x => (e_value x, e_expiry x)) <$> o with
                 | Some (v, _) => v | None => [] end
                 = match o with None => [] | Some f => e_value f end) by (by destruct o).
  rewrite Hcur. set (v := _ ++ suffix).
  destruct (same_shape_valid e e1 k v (proj1 (proj2 Heff))) as [_ Hv].
  rewrite Hv. destruct (value_valid e v) eqn:Hval; simpl; [|done].
  assert (He' : e_value (rewritten_entry o v now) = v /\ e_expiry (rewritten_entry o v now) = None)
    by (by destruct o).
  destruct He' as [Hev Hex].
  pose proof (store_effect e now k o e1 (rewritten_entry o v now) (i64 (bsize v))
    Hwf Hk ltac:(by rewrite Hev) He) as Hs.
  by rewrite Hev, Hex in Hs.
Qed.

(** [EXPIREAT]-style deadlines: on a live key a future deadline replaces the
    old one and a past deadline deletes the key; a missing key is left alone. *)
Lemma expire_at_spec e now k x :
  wf e ->
  let '(r, e') := expire_at now k x e in
  r = Spec.present k (live e now) /\
  effect now e e' (fun t d =>
    match live e now !! k with
    | None => d
    | Some (v, _) => if x <=? now then delete k d else put_at t k v (Some x) d
    end).
Proof.
  intros Hwf. unfold expire_at. rewrite fresh_present, fresh_live by done.
  destruct (find_live e (shard_for_key e k) k now) as [o e1] eqn:He.
  destruct (find_live_effect e now k o e1 Hwf He) as (Heff & Ho & _). rewrite <- Ho.
  destruct o as [y|]; simpl; [|done]. destruct (x <=? now); (split; [done|]).
  - by eapply erase_effect.
  - apply (update_effect e now k y e1 (MkEntry (e_value y) (Some x) _ _)); done.
Qed.

(** [PERSIST] removes the deadline of a live key that has one, and reports
    whether it did. *)
Lemma persist_spec e now k :
  wf e ->
  let '(r, e') := persist now k e in
  match live e now !! k with
  | Some (v, Some _) => r = true /\ effect now e e' (fun t => put_at t k v None)
  | _ => r = false /\ effect now e e' unchanged
  end.
Proof.
  intros Hwf. unfold persist. rewrite fresh_live by done.
  destruct (find_live e (shard_for_key e k) k now) as [o e1] eqn:He.
  destruct (find_live_effect e now k o e1 Hwf He) as (Heff & Ho & _). rewrite <- Ho.
  destruct o as [y|]; simpl; [|done]. destruct (e_expiry y) eqn:Hy; [|done].
  split; [done|]. apply (update_effect e now k y e1 (MkEntry (e_value y) None _ _)); done.
Qed.

(** [TTL] reports a missing key, a key without deadline, or the remaining
    whole milliseconds, and changes nothing a client can see. *)
Lemma ttl_spec e now k :
  wf e ->
  let '(r, e') := ttl now k e in
  r = Spec.ttl_of now k (live e now) /\ effect now e e' unchanged.
Proof.
  intros Hwf. unfold ttl, Spec.ttl_of. rewrite fresh_live by done.
  destruct (find_live e (shard_for_key e k) k now) as [o e1] eqn:He.
  destruct (find_live_effect e now k o e1 Hwf He) as (Heff & Ho & _). rewrite <- Ho.
  destruct o as [y|]; cbn [fmap option_fmap option_map]; [|done]. by destruct (e_expiry y).
Qed.
End Ops.
