(* ===== verification/StorageSweep.v ===== *)
(** The operations that walk the whole engine: [dbsize], [expires_count],
    [snapshot], [flushdb] and the background [active_expire]. *)
From S2P Require Import Prelude Util Config Storage StorageFacts StorageSpec.

Section Sweep.
Context `{Platform}.

Lemma effect_trans now e1 e2 e3 :
  effect now e1 e2 unchanged -> effect now e2 e3 unchanged -> effect now e1 e3 unchanged.
Proof.
  intros (? & ? & Hl1) (? & ? & Hl2). split; [done|]. split; [by etrans|].
  intros t Ht. by rewrite Hl2, Hl1.
Qed.

Lemma wf_find_route e i k x : wf e -> find e i k = Some x -> shard_for_key e k = i.
Proof.
  intros Hwf Hf. assert (Hi := find_lt _ _ _ _ Hf).
  by destruct (wf_entries e Hwf i (shard_at e i) k x (shard_at_lookup _ _ Hi) Hf).
Qed.

(** * One shard *)

(** The entries of shard [i] are those listed in [l]. *)
Definition lists (e : StorageEngine) (i : nat) (l : list (bytes * Entry)) : Prop :=
  NoDup l.*1 /\ forall k x, (k, x) ∈ l -> find e i k = Some x.

Lemma lists_cons e i k x l :
  lists e i ((k, x) :: l) -> find e i k = Some x /\ (k ∉ l.*1) /\ lists e i l.
Proof.
  intros [Hn Hl]. cbn [fmap list_fmap fst] in Hn. apply list.NoDup_cons in Hn as [? ?].
  split; [apply Hl; constructor|]. split; [done|]. split; [done|].
  intros. apply Hl. by constructor.
Qed.

Lemma lists_order e i : lists e i (map_order (sh_map (shard_at e i))).
Proof.
  pose proof (map_order_perm (sh_map (shard_at e i))) as Hp. split.
  - rewrite Hp. apply NoDup_fst_map_to_list.
  - intros k x. rewrite Hp, elem_of_map_to_list. done.
Qed.

(** Dropping an expired entry of shard [i]: other entries stay. *)
Lemma expire_step e now i k x :
  wf e -> find e i k = Some x -> expired x now = true ->
  let e' := expire_entry_locked e i k x in
  effect now e e' unchanged /\
  forall j k', find e' j k' = if decide (k' = k) then None else find e j k'.
Proof.
  intros Hwf Hf Hx. assert (Hi := wf_find_route _ _ _ _ Hwf Hf). subst i.
  destruct (expire_entry_wf e k x Hwf Hf) as [Hwf' [Hs Hp]]. split.
  - split; [done|]. split; [done|]. intros t Ht. apply (live_point_same _ _ k None); try done.
    rewrite Hf. simpl. unfold alive. by rewrite (expired_mono x now).
  - intros j k'. destruct (decide (j = shard_for_key e k')) as [->|Hj]; [apply Hp|].
    assert (forall e0, wf e0 -> same_shape e e0 -> find e0 j k' = None) as Hnone.
    { intros e0 Hwf0 Hs0. destruct (find e0 j k') eqn:E; [|done].
      apply wf_find_route in E; [|done]. by rewrite (same_shape_route e e0) in E. }
    rewrite (Hnone _ Hwf' Hs), (Hnone e Hwf) by done. by case_decide.
Qed.

Definition unexpired (now : Z) (l : list (bytes * Entry)) : list (bytes * Entry) :=
  filter (fun kx => expired kx.2 now = false) l.

Lemma sweep_entries_spec {A} (visit : A -> bytes -> Entry -> A) now i l acc e :
  wf e -> lists e i l ->
  let '(a, e') := sweep_entries visit now i l acc e in
  effect now e e' unchanged /\
  a = fold_left (fun a kx => visit a kx.1 kx.2) (unexpired now l) acc /\
  forall j k, (k ∉ l.*1 \/ j <> i) -> find e' j k = find e j k.
Proof.
  intros Hwf Hl. revert acc e Hwf Hl. induction l as [|[k x] l IH]; intros acc e Hwf Hl; simpl.
  { done. }
  destruct (lists_cons _ _ _ _ _ Hl) as (Hf & Hk & Hl').
  destruct (expired x now) eqn:Hx.
  - destruct (expire_step e now i k x Hwf Hf Hx) as [Heff Hfind].
    assert (Hl1 : lists (expire_entry_locked e i k x) i l).
    { split; [apply Hl'|]. intros k' x' Hin. rewrite Hfind, decide_False; [by apply Hl'|].
      intros ->. apply Hk. apply list_elem_of_fmap. by exists (k, x'). }
    specialize (IH acc _ (proj1 Heff) Hl1).
    destruct (sweep_entries visit now i l acc _) as [a e'].
    destruct IH as (Heff' & -> & Hfind'). split; [by eapply effect_trans|]. split.
    + unfold unexpired. rewrite filter_cons_False; [done|]. simpl. congruence.
    + intros j k' Hj. rewrite Hfind' by set_solver. rewrite Hfind. case_decide as Hkk; [|done].
      subst. destruct Hj as [Hj|Hj]; [set_solver|].
      destruct (find e j k) eqn:E; [|done].
      apply wf_find_route in E; [|done]. apply wf_find_route in Hf; [|done]. congruence.
  - specialize (IH (visit acc k x) e Hwf Hl').
    destruct (sweep_entries visit now i l _ e) as [a e'].
    destruct IH as (Heff' & -> & Hfind'). split; [done|]. split.
    + unfold unexpired. by rewrite filter_cons_True.
    + intros j k' Hj. apply Hfind'. set_solver.
Qed.

(** * All shards *)

(** The entries that are visited, in visiting order. *)
Definition live_list (e : StorageEngine) (now : Z) (is_ : list nat) : list (bytes * Entry) :=
  flat_map (fun i => unexpired now (map_order (sh_map (shard_at e i)))) is_.

Lemma sh_map_eq e e' i :
  (forall k, find e' i k = find e i k) -> sh_map (shard_at e' i) = sh_map (shard_at e i).
Proof. intros Hf. apply map_eq, Hf. Qed.

Lemma live_list_eq e e' now is_ :
  (forall i k, i ∈ is_ -> find e' i k = find e i k) -> live_list e' now is_ = live_list e now is_.
Proof.
  induction is_ as [|i is_ IH]; intros Hf; [done|]. cbn [live_list flat_map].
  fold (live_list e' now is_) (live_list e now is_).
  rewrite IH by (intros; apply Hf; by constructor).
  rewrite (sh_map_eq e e' i); [done|]. intros. apply Hf. constructor.
Qed.

Lemma sweep_shards_spec {A} (visit : A -> bytes -> Entry -> A) now is_ acc e :
  wf e -> NoDup is_ ->
  let '(a, e') := sweep_shards visit now is_ acc e in
  effect now e e' unchanged /\
  a = fold_left (fun a kx => visit a kx.1 kx.2) (live_list e now is_) acc.
Proof.
  revert acc e. induction is_ as [|i is_ IH]; intros acc e Hwf Hn; simpl.
  { done. }
  apply list.NoDup_cons in Hn as [Hi Hn].
  pose proof (sweep_entries_spec visit now i _ acc e Hwf (lists_order e i)) as Hs.
  destruct (sweep_entries visit now i _ acc e) as [a1 e1].
  destruct Hs as (Heff & -> & Hfind).
  specialize (IH (fold_left (fun a kx => visit a kx.1 kx.2)
    (unexpired now (map_order (sh_map (shard_at e i)))) acc) e1 (proj1 Heff) Hn).
  destruct (sweep_shards visit now is_ _ e1) as [a e']. destruct IH as [Heff' ->].
  split; [by eapply effect_trans|]. rewrite fold_left_app. f_equal.
  apply live_list_eq. intros j k Hj. apply Hfind. right. intros ->. done.
Qed.

Lemma live_list_elem e now k x :
  wf e -> (k, x) ∈ live_list e now (shard_indices e) <-> fresh e now k = Some x.
Proof.
  intros Hwf. unfold live_list. rewrite list_elem_of_In, in_flat_map. split.
  - intros (i & _ & Hin). apply list_elem_of_In in Hin. unfold unexpired in Hin.
    apply list_elem_of_filter in Hin as [Hx Hin]. simpl in Hx.
    apply (lists_order e i) in Hin. assert (Hr := wf_find_route _ _ _ _ Hwf Hin). subst i.
    unfold fresh. rewrite Hin. simpl. by rewrite Hx.
  - unfold fresh. destruct (find e (shard_for_key e k) k) as [y|] eqn:Hf; simpl; [|done].
    destruct (expired y now) eqn:Hx; [done|]. intros [= ->].
    exists (shard_for_key e k). split.
    + apply in_seq. pose proof (shard_for_key_lt e k (wf_shards e Hwf)). lia.
    + apply list_elem_of_In, list_elem_of_filter. split; [done|].
      by rewrite map_order_perm, elem_of_map_to_list.
Qed.

Lemma live_list_nodup e now is_ :
  wf e -> NoDup is_ -> NoDup (live_list e now is_).*1.
Proof.
  intros Hwf. induction is_ as [|i is_ IH]; intros Hn; [constructor|].
  apply list.NoDup_cons in Hn as [Hi Hn]. cbn [live_list flat_map]. fold (live_list e now is_).
  rewrite fmap_app. apply list.NoDup_app. split; [|split; [|by apply IH]].
  - apply NoDup_fst_filter, lists_order.
  - intros k Hk Hk'. apply list_elem_of_fmap in Hk as ([k1 x1] & -> & H1).
    apply list_elem_of_fmap in Hk' as ([k2 x2] & ? & H2). simpl in *. subst.
    apply list_elem_of_filter in H1 as [_ H1]. apply (lists_order e i) in H1.
    apply list_elem_of_In, in_flat_map in H2 as (j & Hj & H2).
    apply list_elem_of_In, list_elem_of_filter in H2 as [_ H2]. apply (lists_order e j) in H2.
    apply wf_find_route in H1; [|done]. apply wf_find_route in H2; [|done].
    apply Hi. apply list_elem_of_In. congruence.
Qed.

(** * Active expiration *)

(** The circular order in which the sampling loop visits the entries. *)
Definition rotate {A} (idx : nat) (l : list A) : list A := drop idx l ++ take idx l.

Definition past_due (now : Z) (l : list (bytes * Entry)) : list (bytes * Entry) :=
  filter (fun kx => expired kx.2 now = true) l.

Definition erase_all (i : nat) (l : list (bytes * Entry)) (e : StorageEngine) : StorageEngine :=
  fold_left (fun e kx => erase_entry_locked e i kx.1 kx.2) l e.

Lemma rotate_head {A} (l : list A) idx x :
  l !! idx = Some x -> rotate idx l = x :: drop (S idx) l ++ take idx l.
Proof. intros Hx. unfold rotate. by rewrite (drop_S _ _ _ Hx). Qed.

Lemma rotate_wrap {A} (l : list A) idx :
  rotate (if (idx =? length l)%nat then 0%nat else idx) l = rotate idx l.
Proof.
  destruct (Nat.eqb_spec idx (length l)) as [->|]; [|done].
  unfold rotate. by rewrite drop_0, take_0, drop_all, firstn_all, app_nil_r.
Qed.

Lemma rotate_delete {A} (l : list A) idx x :
  l !! idx = Some x -> rotate idx (delete idx l) = drop (S idx) l ++ take idx l.
Proof.
  intros Hx. apply lookup_lt_Some in Hx. unfold rotate. rewrite delete_take_drop.
  rewrite drop_app_length', take_app_length' by (rewrite length_take; lia). done.
Qed.

Lemma rotate_next {A} (l : list A) idx x :
  l !! idx = Some x -> rotate (S idx) l = (drop (S idx) l ++ take idx l) ++ [x].
Proof. intros Hx. unfold rotate. by rewrite (take_S_r _ _ _ Hx), app_assoc. Qed.

Lemma past_due_cons now k x l :
  past_due now ((k, x) :: l) = if expired x now then (k, x) :: past_due now l else past_due now l.
Proof.
  unfold past_due. rewrite filter_cons. cbn [snd]. by destruct (expired x now).
Qed.

(** The sampling loop erases the expired entries among the next [n] of the
    circular order, and takes exactly [n] samples. *)
Lemma expire_loop_eq n now i l idx s c e :
  (n <= length l)%nat -> (idx < length l \/ l = [])%nat ->
  let due := past_due now (take n (rotate idx l)) in
  expire_loop n now i l idx s c e
  = (s + Z.of_nat n, c + Z.of_nat (length due), erase_all i due e).
Proof.
  revert l idx s c e. induction n as [|n IH]; intros l idx s c e Hn Hidx.
  { cbn. by rewrite !Z.add_0_r. }
  cbn [expire_loop]. destruct Hidx as [Hidx| ->]; [|simpl in Hn; lia].
  destruct (lookup_lt_is_Some_2 _ _ Hidx) as [[k x] Hx]. rewrite Hx.
  rewrite (rotate_head _ _ _ Hx). cbn [take]. rewrite past_due_cons.
  destruct (expired x now) eqn:Hex.
  - rewrite IH.
    + rewrite rotate_wrap, (rotate_delete _ _ _ Hx). cbn [length].
      f_equal. f_equal; lia.
    + rewrite length_delete by eauto. lia.
    + destruct (delete idx l) as [|y l'] eqn:Hd; [by right|]. left.
      assert (Hlen : length (delete idx l) = (length l - 1)%nat) by (rewrite length_delete; eauto; lia).
      rewrite Hd in *. destruct (Nat.eqb_spec idx (length (y :: l'))); simpl in *; lia.
  - rewrite IH.
    + rewrite rotate_wrap, (rotate_next _ _ _ Hx).
      rewrite (take_app_le (drop (S idx) l ++ take idx l))
        by (rewrite length_app, length_drop, length_take; lia).
      f_equal; f_equal; lia.
    + lia.
    + left. destruct (Nat.eqb_spec (S idx) (length l)); lia.
Qed.

Lemma erase_step e now i k x :
  wf e -> find e i k = Some x -> expired x now = true ->
  let e' := erase_entry_locked e i k x in
  effect now e e' unchanged /\
  forall j k', find e' j k' = if decide (k' = k) then None else find e j k'.
Proof.
  intros Hwf Hf Hx. destruct (expire_step e now i k x Hwf Hf Hx) as [(_ & Hs & Hl) Hfind].
  assert (Hi := wf_find_route _ _ _ _ Hwf Hf). subst i.
  destruct (erase_entry_wf e k x Hwf Hf) as [Hwf' _]. by split.
Qed.

(** The number of entries held, expired or not. *)
Definition keys_stored (e : StorageEngine) : nat := size (entries_of (shards_ e)).

Lemma keys_stored_erase e e' i k x :
  wf e -> wf e' -> same_shape e e' -> find e i k = Some x ->
  (forall j k', find e' j k' = if decide (k' = k) then None else find e j k') ->
  (S (keys_stored e') = keys_stored e)%nat.
Proof.
  intros Hwf Hwf' Hs Hf Hfind. unfold keys_stored.
  assert (Hr := wf_find_route _ _ _ _ Hwf Hf). subst i.
  assert (Hd : entries_of (shards_ e') = delete k (entries_of (shards_ e))).
  { apply map_eq. intros k'. rewrite entries_of_find, (same_shape_route e), Hfind by done.
    case_decide as Hk; [subst; by rewrite lookup_delete_eq|].
    by rewrite lookup_delete_ne, entries_of_find by done. }
  assert (Hk : entries_of (shards_ e) !! k = Some x) by (by rewrite entries_of_find).
  rewrite Hd. rewrite (map_size_delete_Some _ _ (ex_intro _ x Hk)).
  assert (size (entries_of (shards_ e)) <> 0)%nat; [|lia].
  intros Hz. apply map_size_empty_inv in Hz. by rewrite Hz, lookup_empty in Hk.
Qed.

Lemma erase_all_spec now i l e :
  wf e -> lists e i l -> Forall (fun kx => expired kx.2 now = true) l ->
  let e' := erase_all i l e in
  effect now e e' unchanged /\
  (forall j k, find e' j k = if decide (k ∈ l.*1) then None else find e j k) /\
  expired_keys_ e' = expired_keys_ e /\ (keys_stored e' + length l = keys_stored e)%nat.
Proof.
  revert e. induction l as [|[k x] l IH]; intros e Hwf Hl Hall.
  { split; [done|]. split; [|split; [done|simpl; lia]]. intros j k. by rewrite decide_False by set_solver. }
  destruct (lists_cons _ _ _ _ _ Hl) as (Hf & Hk & Hl').
  inversion Hall as [|? ? Hx Hall']; subst. cbn [snd] in Hx.
  destruct (erase_step e now i k x Hwf Hf Hx) as [Heff Hfind].
  assert (Hl1 : lists (erase_entry_locked e i k x) i l).
  { split; [apply Hl'|]. intros k' x' Hin. rewrite Hfind, decide_False; [by apply Hl'|].
    intros ->. apply Hk. apply list_elem_of_fmap. by exists (k, x'). }
  destruct (IH _ (proj1 Heff) Hl1 Hall') as (Heff' & Hfind' & Hexp & Hn). cbn [erase_all fold_left fst snd].
  split; [by eapply effect_trans|]. split.
  - intros j k'. unfold erase_all in Hfind'. rewrite Hfind', Hfind. cbn [fmap list_fmap fst].
    destruct (decide (k' ∈ l.*1)), (decide (k' = k)), (decide (k' ∈ k :: l.*1)); set_solver.
  - unfold erase_all in Hexp, Hn. rewrite Hexp. split.
    + unfold erase_entry_locked, release_memory. by repeat case_match.
    + pose proof (keys_stored_erase e _ i k x Hwf (proj1 Heff) (proj1 (proj2 Heff)) Hf Hfind).
      simpl. lia.
Qed.

Lemma set_cursor_effect now e i c :
  wf e -> (i < length (shards_ e))%nat -> effect now e (set_cursor e i c) unchanged /\
  (forall j k, find (set_cursor e i c) j k = find e j k) /\
  expired_keys_ (set_cursor e i c) = expired_keys_ e.
Proof.
  intros Hwf Hi. unfold set_cursor. set (s := MkShard _ _ c).
  change (put_shard e i s) with (with_shard e i s (used_memory_ e) (expired_keys_ e)).
  assert (Hfind : forall j k, find (with_shard e i s (used_memory_ e) (expired_keys_ e)) j k = find e j k).
  { intros j k. rewrite with_shard_find by done. case_decide; [subst|]; done. }
  assert (Hwf' : wf (with_shard e i s (used_memory_ e) (expired_keys_ e))).
  { assert (Hlk : forall j s', shards_ (with_shard e i s (used_memory_ e) (expired_keys_ e)) !! j = Some s' ->
        exists s0, shards_ e !! j = Some s0 /\ sh_map s' = sh_map s0 /\ sh_memory_bytes s' = sh_memory_bytes s0).
    { intros j s' Hj. simpl in Hj. destruct (decide (j = i)) as [->|].
      - rewrite list_lookup_insert_eq in Hj by done. simplify_eq.
        exists (shard_at e i). by rewrite shard_at_lookup.
      - rewrite list_lookup_insert_ne in Hj by done. eauto. }
    split.
    - simpl. rewrite length_insert. apply Hwf.
    - apply Hwf.
    - intros j s' k x Hj Hk. destruct (Hlk _ _ Hj) as (s0 & Hj0 & Hm & _). rewrite Hm in Hk.
      rewrite (same_shape_route e) by apply with_shard_shape. by apply (wf_entries e Hwf j s0).
    - intros j s' Hj. destruct (Hlk _ _ Hj) as (s0 & Hj0 & -> & ->). by apply (wf_bytes e Hwf j).
    - cbn [config_ with_shard used_memory_]. rewrite with_shard_total by done. simpl.
      rewrite Z.sub_add. apply Hwf. }
  split; [|done]. split; [done|]. split; [apply with_shard_shape|].
  intros t _. apply map_eq. intros k. rewrite !live_lookup by done.
  by rewrite (same_shape_route e), Hfind by apply with_shard_shape.
Qed.

Lemma keys_stored_eq e e' :
  wf e -> wf e' -> same_shape e e' -> (forall j k, find e' j k = find e j k) ->
  keys_stored e' = keys_stored e.
Proof.
  intros Hwf Hwf' Hs Hf. unfold keys_stored. f_equal. apply map_eq. intros k.
  by rewrite !entries_of_find, (same_shape_route e), Hf by done.
Qed.

(** What one shard's turn of [active_expire] did: it erased [due], a list of
    expired entries, of at most [sample] elements, and all of the shard's
    expired entries when the sample covers the shard. *)
Definition shard_turn (sample now : Z) (i : nat) (e e' : StorageEngine) (due : list (bytes * Entry)) : Prop :=
  effect now e e' unchanged /\ lists e i due /\
  (forall j k, find e' j k = if decide (k ∈ due.*1) then None else find e j k) /\
  expired_keys_ e' = expired_keys_ e /\ (keys_stored e' + length due = keys_stored e)%nat /\
  Z.of_nat (length due) <= sample /\
  (Z.of_nat (size (sh_map (shard_at e i))) <= sample ->
   forall k x, find e' i k = Some x -> expired x now = false).

Lemma past_due_lists now i e l :
  lists e i l -> lists e i (past_due now l) /\ Forall (fun kx => expired kx.2 now = true) (past_due now l).
Proof.
  intros [Hn Hl]. split; [split|].
  - by apply NoDup_fst_filter.
  - intros k x Hin. apply list_elem_of_filter in Hin as [_ Hin]. by apply Hl.
  - apply Forall_forall. intros kx Hin. apply list_elem_of_In, list_elem_of_filter in Hin. apply Hin.
Qed.

Lemma take_rotate_lists e i l n idx : lists e i l -> lists e i (take n (rotate idx l)).
Proof.
  intros [Hn Hl].
  assert (Hp : rotate idx l ≡ₚ l) by (unfold rotate; by rewrite Permutation_app_comm, take_drop).
  assert (Hn' : NoDup (rotate idx l).*1) by (by rewrite Hp).
  split.
  - rewrite <- (take_drop n (rotate idx l)), fmap_app in Hn'. by apply list.NoDup_app in Hn' as (? & _).
  - intros k x Hin. apply Hl. rewrite <- Hp. rewrite <- (take_drop n (rotate idx l)).
    apply elem_of_app. by left.
Qed.

Lemma active_expire_shard_spec sample now i c e :
  wf e -> (i < length (shards_ e))%nat -> 0 <= sample ->
  let '(c', e') := active_expire_shard sample now i c e in
  exists due, c' = c + Z.of_nat (length due) /\ shard_turn sample now i e e' due.
Proof.
  intros Hwf Hi Hsample. unfold active_expire_shard.
  set (m := sh_map (shard_at e i)).
  pose proof (map_order_perm m) as Hperm.
  assert (Hlen : length (map_order m) = size m)
    by (by rewrite Hperm, length_map_to_list).
  destruct (Z.eqb_spec (Z.of_nat (size m)) 0) as [Hz|Hz].
  - destruct (set_cursor_effect now e i 0 Hwf Hi) as (Heff & Hfind & Hexp).
    exists []. split; [simpl; lia|]. split; [done|]. split; [split; [constructor|set_solver]|].
    split; [intros; rewrite decide_False by set_solver; apply Hfind|].
    split; [done|]. split; [rewrite (keys_stored_eq e) by (done || apply Heff); simpl; lia|].
    split; [simpl; lia|]. intros _ k x Hk. rewrite Hfind in Hk.
    assert (m = ∅) as Hm by (apply map_size_empty_inv; lia).
    change (m !! k = Some x) in Hk. by rewrite Hm, lookup_empty in Hk.
  - set (cur := sh_expire_cursor (shard_at e i) mod Z.of_nat (size m)).
    assert (Hcur : 0 <= cur < Z.of_nat (size m)) by (apply Z.mod_pos_bound; lia).
    rewrite expire_loop_eq by lia.
    set (n := Z.to_nat (Z.min sample (Z.of_nat (size m)))).
    set (visited := take n (rotate (Z.to_nat cur) (map_order m))).
    destruct (past_due_lists now i e visited) as [Hl Hall].
    { apply take_rotate_lists, lists_order. }
    destruct (erase_all_spec now i (past_due now visited) e Hwf Hl Hall) as (Heff & Hfind & Hexp & Hn).
    set (e1 := erase_all i (past_due now visited) e) in *.
    set (cur' := if _ =? 0 then _ else _).
    destruct (set_cursor_effect now e1 i cur' (proj1 Heff)) as (Heff2 & Hfind2 & Hexp2).
    { by rewrite (proj2 (proj2 (proj1 (proj2 Heff)))). }
    exists (past_due now visited). split; [done|].
    split; [by eapply effect_trans|]. split; [done|]. split; [intros; by rewrite Hfind2|].
    split; [congruence|].
    split; [rewrite (keys_stored_eq e1) by (done || apply Heff || apply Heff2); done|].
    assert (Hvis : (length (past_due now visited) <= length visited)%nat) by apply length_filter.
    assert (Hv : (length visited <= n)%nat) by (unfold visited; rewrite length_take; lia).
    split; [lia|]. intros Hsize k x Hk. fold m in Hsize. rewrite Hfind2, Hfind in Hk. case_decide as Hin; [done|].
    destruct (expired x now) eqn:Hx; [|done]. exfalso. apply Hin.
    apply list_elem_of_fmap. exists (k, x). split; [done|]. apply list_elem_of_filter. split; [done|].
    unfold visited. rewrite take_ge.
    + unfold rotate. rewrite Permutation_app_comm, take_drop, Hperm. by apply elem_of_map_to_list.
    + unfold rotate. rewrite length_app, length_drop, length_take. unfold n. lia.
Qed.

Lemma active_expire_shards_spec sample now is_ c e :
  wf e -> NoDup is_ -> Forall (fun i => (i < length (shards_ e))%nat) is_ -> 0 <= sample ->
  let '(c', e') := active_expire_shards sample now is_ c e in
  effect now e e' unchanged /\ expired_keys_ e' = expired_keys_ e /\
  c <= c' <= c + sample * Z.of_nat (length is_) /\
  Z.of_nat (keys_stored e') + c' = Z.of_nat (keys_stored e) + c /\
  (forall j k, j ∉ is_ -> find e' j k = find e j k) /\
  (forall i k x, i ∈ is_ -> Z.of_nat (size (sh_map (shard_at e i))) <= sample ->
     find e' i k = Some x -> expired x now = false).
Proof.
  intros Hwf Hn Hall Hs. revert c e Hwf Hall.
  induction is_ as [|i is_ IH]; intros c e Hwf Hall.
  { simpl. split; [done|]. split; [done|]. split; [lia|]. split; [done|]. split; [done|]. set_solver. }
  apply list.NoDup_cons in Hn as [Hi Hn]. inversion Hall as [|? ? Hlt Hall']; subst.
  cbn [active_expire_shards]. pose proof (active_expire_shard_spec sample now i c e Hwf Hlt Hs) as H1.
  destruct (active_expire_shard sample now i c e) as [c1 e1].
  destruct H1 as (due & -> & Heff & Hl & Hfind & Hexp & Hkeys & Hlen & Hfull).
  specialize (IH Hn (c + Z.of_nat (length due)) e1 (proj1 Heff)).
  rewrite (proj2 (proj2 (proj1 (proj2 Heff)))) in IH. specialize (IH Hall').
  destruct (active_expire_shards sample now is_ _ e1) as [c2 e2].
  destruct IH as (Heff2 & Hexp2 & Hc & Hk2 & Hfind2 & Hfull2).
  assert (Hother : forall j k, j <> i -> find e1 j k = find e j k).
  { intros j k Hj. rewrite Hfind. case_decide as Hin; [|done].
    apply list_elem_of_fmap in Hin as ([k' x'] & -> & Hin). apply Hl in Hin. simpl.
    destruct (find e j k') eqn:E; [|done].
    apply wf_find_route in E; [|done]. apply wf_find_route in Hin; [|done]. congruence. }
  split; [by eapply effect_trans|]. split; [congruence|].
  split; [rewrite length_cons; lia|]. split; [lia|]. split.
  - intros j k Hj. rewrite Hfind2, Hother by set_solver. done.
  - intros j k x Hj Hsz Hf. destruct (decide (j = i)) as [->|Hne].
    + rewrite Hfind2 in Hf by done. by eapply Hfull.
    + apply (Hfull2 j k x); [set_solver| |done].
      rewrite (sh_map_eq e e1 j); [done|]. intros k'. by apply Hother.
Qed.

Lemma shard_indices_ok e :
  NoDup (shard_indices e) /\ Forall (fun i => (i < length (shards_ e))%nat) (shard_indices e).
Proof.
  split; [apply NoDup_seq|]. apply Forall_forall. intros i Hi. apply in_seq in Hi. lia.
Qed.

Lemma live_list_live e now k x :
  wf e ->
  (exists y, (k, y) ∈ live_list e now (shard_indices e) /\ (e_value y, e_expiry y) = x)
  <-> live e now !! k = Some x.
Proof.
  intros Hwf. rewrite fresh_live by done. split.
  - intros (y & Hy & <-). apply live_list_elem in Hy; [|done]. by rewrite Hy.
  - destruct (fresh e now k) as [y|] eqn:Hf; simpl; [|done]. intros [= <-].
    exists y. split; [|done]. by apply live_list_elem.
Qed.

(** The live entries, as a map of the observable view. *)
Lemma live_as_list e now :
  wf e ->
  live e now = list_to_map ((fun kx => (kx.1, (e_value kx.2, e_expiry kx.2))) <$> live_list e now (shard_indices e)).
Proof.
  intros Hwf. apply map_eq. intros k. apply option_eq. intros x.
  rewrite <- (elem_of_list_to_map (M := gmap bytes)), <- live_list_live; [|done|].
  2:{ rewrite <- list_fmap_compose. apply live_list_nodup; [done|apply shard_indices_ok]. }
  rewrite list_elem_of_fmap. split.
  - intros (y & Hy & <-). by exists (k, y).
  - intros ([k' y] & [= -> ->] & Hy). eauto.
Qed.

(** * Properties *)

(** [DBSIZE] counts exactly the keys that are present and not expired;
    sweeping out the expired ones changes nothing a client can see. *)
Lemma dbsize_spec e now :
  wf e ->
  let '(n, e') := dbsize now e in
  n = Z.of_nat (size (live e now)) /\ effect now e e' unchanged.
Proof.
  intros Hwf. unfold dbsize. destruct (shard_indices_ok e) as [Hn _].
  pose proof (sweep_shards_spec (fun total _ _ => total + 1) now (shard_indices e) 0 e Hwf Hn) as Hs.
  destruct (sweep_shards _ now _ 0 e) as [n e']. destruct Hs as [Heff ->]. split; [|done].
  rewrite live_as_list by done. rewrite map_size_list_to_map.
  - rewrite length_fmap. generalize (live_list e now (shard_indices e)) as l. intros l.
    assert (Hfold : forall z, fold_left (fun a (_ : bytes * Entry) => a + 1) l z = z + Z.of_nat (length l)).
    { induction l as [|y l IH]; intros z; simpl; [lia|]. rewrite IH. lia. }
    apply Hfold.
  - rewrite <- list_fmap_compose. by apply live_list_nodup.
Qed.

(** The snapshot that [SAVE] and the AOF rewrite serialise lists every live
    key exactly once, with its value and its deadline in milliseconds, and
    nothing else. *)
Lemma snapshot_spec e now :
  wf e ->
  let '(l, e') := snapshot now e in
  NoDup (sn_key <$> l) /\
  (forall k v x, MkSnapshotEntry k v x ∈ l <->
     exists d, live e now !! k = Some (v, d) /\ x = unix_ms <$> d) /\
  effect now e e' unchanged.
Proof.
  intros Hwf. unfold snapshot. destruct (shard_indices_ok e) as [Hn _].
  pose proof (sweep_shards_spec (fun acc k x => acc ++ [snapshot_entry k x]) now (shard_indices e) [] e Hwf Hn) as Hs.
  destruct (sweep_shards _ now _ [] e) as [l e']. destruct Hs as [Heff ->].
  assert (Hfold : forall L (acc : list SnapshotEntry),
    fold_left (fun a (kx : bytes * Entry) => a ++ [snapshot_entry kx.1 kx.2]) L acc
    = acc ++ ((fun kx => snapshot_entry kx.1 kx.2) <$> L)).
  { induction L as [|y L IH]; intros acc; simpl; [by rewrite app_nil_r|].
    rewrite IH. by rewrite <- app_assoc. }
  rewrite Hfold. cbn [app]. split; [|split; [|done]].
  - rewrite <- list_fmap_compose. by apply live_list_nodup.
  - intros k v x. rewrite list_elem_of_fmap. split.
    + intros ([k' y] & [= -> -> ->] & Hy). exists (e_expiry y). split; [|done].
      apply live_list_live; [done|]. eauto.
    + intros (d & Hd & ->). apply live_list_live in Hd as (y & Hy & [= <- <-]); [|done].
      by exists (k, y).
Qed.

(** [FLUSHDB] leaves an empty database and returns all of its accounted
    memory. *)
Lemma flushdb_spec e :
  wf e ->
  let e' := flushdb e in
  wf e' /\ same_shape e e' /\ used_memory_ e' = 0 /\ forall t, live e' t = ∅.
Proof.
  intros Hwf. unfold flushdb. set (e1 := MkEngine _ _ _ _ _).
  set (released := fold_left _ _ _).
  assert (Hrel : released = u64 (total_mem e)).
  { assert (Hfold : forall l z, (forall i s, l !! i = Some s -> sh_memory_bytes s = u64 (map_mem (sh_map s))) ->
      fold_left (fun acc s => u64 (acc + sh_memory_bytes s)) l (u64 z) = u64 (z + shards_mem l)).
    { induction l as [|s l IH]; intros z Hl; simpl; [by rewrite Z.add_0_r|].
      rewrite (Hl 0%nat s eq_refl). autorewrite with u64.
      rewrite IH by (intros i s' Hi; by apply (Hl (S i))). f_equal. lia. }
    unfold released. change 0 with (u64 0). rewrite Hfold by apply (wf_bytes e Hwf). f_equal. }
  pose proof (wf_used e Hwf) as Hu. pose proof (wf_max e Hwf) as Hm. unfold is_u64, u64_max in Hm.
  assert (Htot : 0 <= total_mem e) by apply shards_mem_nonneg.
  assert (Hused : used_memory_ (release_memory e1 released) = 0).
  { pose proof (u64_range (total_mem e)) as Hr. unfold is_u64 in Hr.
    rewrite release_max by (rewrite ?Hrel; cbn; destruct (_ =? 0); lia).
    cbn. rewrite Hrel. destruct (max_memory_bytes (config_ e) =? 0); [rewrite Hu; lia|].
    rewrite u64_small by lia. lia. }
  assert (Heq : release_memory e1 released = put_used e1 0) by (rewrite release_eq, Hused; done).
  rewrite Heq.
  assert (Hsh : forall i s, (clear_shard <$> shards_ e) !! i = Some s -> sh_map s = ∅ /\ sh_memory_bytes s = 0).
  { intros i s Hi. rewrite list_lookup_fmap in Hi. destruct (shards_ e !! i); simplify_eq/=. done. }
  assert (Hmem : shards_mem (clear_shard <$> shards_ e) = 0).
  { clear. induction (shards_ e) as [|s l IH]; [done|].
    change (map_mem ∅ + shards_mem (clear_shard <$> l) = 0). rewrite map_mem_empty. lia. }
  split; [split|split; [|split; [done|]]].
  - simpl. rewrite length_fmap. apply Hwf.
  - apply Hwf.
  - intros i s k x Hi Hk. destruct (Hsh i s Hi) as [Hs _]. by rewrite Hs, lookup_empty in Hk.
  - intros i s Hi. destruct (Hsh i s Hi) as [-> ->]. by rewrite map_mem_empty.
  - change (total_mem _) with (shards_mem (clear_shard <$> shards_ e)). rewrite Hmem. cbn.
    destruct (_ =? 0); [done|]. lia.
  - unfold same_shape. simpl. by rewrite length_fmap.
  - intros t. unfold live. cbn. apply map_eq. intros k. rewrite lookup_omap, lookup_empty.
    rewrite entries_of_none; [done|]. intros i s Hi. destruct (Hsh i s Hi) as [-> _]. apply lookup_empty.
Qed.

(** Background expiration is safe, bounded and exact: it only removes
    entries that have expired, at most [sample] per shard; the number it
    returns is the number of entries it removed, which is added to the
    statistics; and when the sample covers the largest shard no expired entry
    is left behind. *)
Lemma active_expire_spec e now sample :
  wf e -> 0 <= sample ->
  let '(n, e') := active_expire sample now e in
  effect now e e' unchanged /\
  0 <= n <= sample * shard_count e /\
  Z.of_nat (keys_stored e') + n = Z.of_nat (keys_stored e) /\
  expired_keys_ e' = (if n =? 0 then expired_keys_ e else u64 (expired_keys_ e + n)) /\
  ((forall i, Z.of_nat (size (sh_map (shard_at e i))) <= sample) ->
   forall i k x, find e' i k = Some x -> expired x now = false).
Proof.
  intros Hwf Hs. unfold active_expire. destruct (shard_indices_ok e) as [Hn Hall].
  pose proof (active_expire_shards_spec sample now _ 0 e Hwf Hn Hall Hs) as Hsp.
  destruct (active_expire_shards sample now (shard_indices e) 0 e) as [c e1].
  destruct Hsp as (Heff & Hexp & Hc & Hk & _ & Hfull). unfold shard_indices in Hc.
  rewrite length_seq in Hc.
  assert (Hidx : forall i k x, find e1 i k = Some x -> i ∈ shard_indices e).
  { intros i k x Hf. apply find_lt in Hf. rewrite (proj2 (proj2 (proj1 (proj2 Heff)))) in Hf.
    apply list_elem_of_In, in_seq. lia. }
  assert (Heff' : effect now e (add_expired e1 c) unchanged)
    by (destruct Heff as (? & ? & ?); split; [by apply add_expired_wf|done]).
  destruct (c =? 0); (split; [done|]; split; [unfold shard_count; lia|]; split; [simpl; unfold keys_stored in *; simpl; lia|]).
  - split; [done|]. intros Hsz i k x Hf. apply (Hfull i k x); [by eapply Hidx|apply Hsz|done].
  - split; [simpl; by rewrite Hexp|]. intros Hsz i k x Hf.
    apply (Hfull i k x); [by eapply Hidx|apply Hsz|done].
Qed.

Lemma new_engine_wf config limits :
  is_u64 (max_memory_bytes config) -> 0 <= shards config -> wf (new_engine config limits).
Proof.
  intros Hm Hsh. unfold new_engine.
  set (n := if shards config =? 0 then 1 else shards config).
  assert (Hn : 0 < n) by (unfold n; destruct (Z.eqb_spec (shards config) 0); lia).
  assert (Hs : forall i s, replicate (Z.to_nat n) empty_shard !! i = Some s -> s = empty_shard).
  { intros i s Hi. by apply lookup_replicate in Hi as [-> _]. }
  split; cbn [shards_ config_ max_memory_bytes used_memory_].
  - rewrite length_replicate. lia.
  - done.
  - intros i s k x Hi%Hs Hk. subst. simpl in Hk. by rewrite lookup_empty in Hk.
  - intros i s Hi%Hs. subst. simpl. by rewrite map_mem_empty.
  - destruct (max_memory_bytes config =? 0); [done|]. unfold is_u64 in Hm.
    enough (Hmem : shards_mem (replicate (Z.to_nat n) empty_shard) = 0)
      by (unfold total_mem; cbn [shards_]; rewrite Hmem; lia).
    clear. induction (Z.to_nat n) as [|m IH]; [done|].
    change (map_mem ∅ + shards_mem (replicate m empty_shard) = 0). by rewrite map_mem_empty, IH.
Qed.
Lemma new_engine_find config limits i k : find (new_engine config limits) i k = None.
Proof.
  unfold find, shard_at, new_engine. cbn [shards_].
  destruct (replicate _ _ !! i) as [s|] eqn:Hi; [|apply lookup_empty].
  apply lookup_replicate in Hi as [-> _]. apply lookup_empty.
Qed.

(** The number of live keys that carry a deadline. *)
Lemma expires_count_spec e now :
  wf e ->
  let '(n, e') := expires_count now e in
  n = Z.of_nat (size (filter (fun kx : bytes * (bytes * option Z) => is_Some kx.2.2) (live e now))) /\
  effect now e e' unchanged.
Proof.
  intros Hwf. unfold expires_count. destruct (shard_indices_ok e) as [Hn _].
  set (visit := fun total (_ : bytes) entry => _).
  pose proof (sweep_shards_spec visit now (shard_indices e) 0 e Hwf Hn) as Hs.
  destruct (sweep_shards _ now _ 0 e) as [n e']. destruct Hs as [Heff ->]. split; [|done].
  rewrite live_as_list by done.
  pose proof (live_list_nodup e now _ Hwf Hn) as Hnd. revert Hnd.
  generalize (live_list e now (shard_indices e)) as l. intros l.
  set (P := fun kx : bytes * (bytes * option Z) => is_Some kx.2.2).
  assert (Hfold : forall z, NoDup l.*1 ->
    fold_left (fun a (kx : bytes * Entry) => visit a kx.1 kx.2) l z
    = z + Z.of_nat (size (filter P (list_to_map (M := db)
        ((fun kx => (kx.1, (e_value kx.2, e_expiry kx.2))) <$> l))))).
  { induction l as [|[k x] l IH]; intros z Hnd.
    { change (z = z + Z.of_nat (size (filter P (∅ : db)))). rewrite map_filter_empty, map_size_empty. lia. }
    cbn [fmap list_fmap fst] in Hnd. apply list.NoDup_cons in Hnd as [Hk Hnd].
    cbn [fold_left fmap list_fmap list_to_map foldr fst snd]. rewrite IH by done.
    set (m := list_to_map _).
    assert (Hm : m !! k = None).
    { apply not_elem_of_list_to_map_1. rewrite <- list_fmap_compose. exact Hk. }
    assert (Hm' : filter P m !! k = None) by (apply map_lookup_filter_None; by left).
    unfold visit at 1. destruct (e_expiry x) as [w|] eqn:Hx.
    - rewrite map_filter_insert_True by (unfold P; simpl; eauto).
      rewrite map_size_insert_None by done. fold m. lia.
    - rewrite map_filter_insert_False by (unfold P; simpl; by intros []).
      rewrite delete_id by done. done. }
  intros Hnd. rewrite (Hfold 0 Hnd). done.
Qed.
End Sweep.
