(* ===== verification/StorageRefine.v ===== *)
(** Refinement of the storage engine by a plain map.

    The specification state is one finite map from keys to values and
    deadlines, without shards, memory accounting or lazy deletion.  Every run of
    the engine gives the replies of that map, and the engine's invariant is kept
    along every run. *)
From S2P Require Import Prelude Util Config Storage StorageFacts StorageSpec StorageSweep.

(** The engine's operations, with their arguments other than the clock reading
    under which they run.  [OExpire] carries the first of its two readings. *)
Inductive Op :=
  | OSet (k v : bytes) (ttl : option Z) (c : SetCondition)
  | OGet (k : bytes)
  | ODel (k : bytes)
  | OIncrBy (k : bytes) (delta : Z)
  | OAppend (k suffix : bytes)
  | OStrlen (k : bytes)
  | OExpireAt (k : bytes) (at_ : Z)
  | OExpire (k : bytes) (ttl now_ttl : Z)
  | OTtl (k : bytes)
  | OPersist (k : bytes)
  | ODbsize
  | OExpiresCount
  | OFlushdb
  | OActiveExpire (sample : Z).

Inductive Reply :=
  | RWrite (r : WriteResult)
  | RValue (v : option bytes)
  | RInt (n : Z)
  | RBool (b : bool)
  | RTtl (r : TtlResult)
  | RNone.

(** Arguments the callers can pass. *)
Definition op_ok (o : Op) : Prop :=
  match o with
  | OIncrBy _ delta => is_i64 delta
  | OActiveExpire sample => 0 <= sample
  | _ => True
  end.

Section EngineRun.
Context `{Platform}.

Definition engine_step (now : Z) (o : Op) (e : StorageEngine) : Reply * StorageEngine :=
  match o with
  | OSet k v ttl c => let '(r, e) := set now k v ttl c e in (RWrite r, e)
  | OGet k => let '(r, e) := get now k e in (RValue r, e)
  | ODel k => let '(r, e) := del_one now k e in (RInt r, e)
  | OIncrBy k delta => let '(r, e) := incr_by now k delta e in (RWrite r, e)
  | OAppend k suffix => let '(r, e) := append now k suffix e in (RWrite r, e)
  | OStrlen k => let '(r, e) := strlen now k e in (RInt r, e)
  | OExpireAt k x => let '(r, e) := expire_at now k x e in (RBool r, e)
  | OExpire k ttl t0 => let '(r, e) := expire t0 now k ttl e in (RBool r, e)
  | OTtl k => let '(r, e) := ttl now k e in (RTtl r, e)
  | OPersist k => let '(r, e) := persist now k e in (RBool r, e)
  | ODbsize => let '(r, e) := dbsize now e in (RInt r, e)
  | OExpiresCount => let '(r, e) := expires_count now e in (RInt r, e)
  | OFlushdb => (RNone, flushdb e)
  | OActiveExpire sample => (RNone, (active_expire sample now e).2)
  end.

Fixpoint engine_run (tr : list (Z * Op)) (e : StorageEngine) : list Reply * StorageEngine :=
  match tr with
  | [] => ([], e)
  | (now, o) :: tr =>
      let '(r, e) := engine_step now o e in
      let '(rs, e) := engine_run tr e in
      (r :: rs, e)
  end.
End EngineRun.

(** * The specification *)

Module Map.

(** The bindings of [d] that have not expired at [t]. *)
Definition view (t : Z) (d : db) : db :=
  filter (fun kx => (match kx.2.2 with Some w => w <=? t | None => false end) = false) d.

(** A write, refused when [oom]. *)
Definition write (oom : bool) (k v : bytes) (x : option Z) (res : Z) (d : db) : Reply * db :=
  if oom then (RWrite (MkWrite NoMemory 0), d)
  else (RWrite (MkWrite WOk res), <[k := (v, x)]> d).

Definition refuse (c : WriteCode) (d : db) : Reply * db := (RWrite (MkWrite c 0), d).

(** One operation at time [now] on the map; [oom] says that memory ran out, and
    [lim] is the configured maximum of key and value sizes. *)
Definition step (lim : ProtocolConfig) (oom : bool) (now : Z) (o : Op) (d : db) : Reply * db :=
  let d := view now d in
  let key_ok k := bsize k <=? max_key_size lim in
  let value_ok v := bsize v <=? max_value_size lim in
  match o with
  | OSet k v ttl c =>
      if negb (key_ok k) then refuse KeyTooLarge d
      else if negb (value_ok v) then refuse ValueTooLarge d
      else if negb (Spec.condition_holds c (Spec.present k d)) then refuse NotSet d
      else write oom k v (add_ms now <$> ttl) 0 d
  | OGet k => (RValue (Spec.value_of k d), d)
  | ODel k => (RInt (if Spec.present k d then 1 else 0), delete k d)
  | OIncrBy k delta =>
      if negb (key_ok k) then refuse KeyTooLarge d
      else
        match Spec.counter k d with
        | None => refuse InvalidInteger d
        | Some c =>
            if bool_decide (is_i64 (c + delta)) then
              if negb (value_ok (to_string (c + delta))) then refuse ValueTooLarge d
              else write oom k (to_string (c + delta)) None (c + delta) d
            else refuse Overflow d
        end
  | OAppend k suffix =>
      let v := Spec.string_of k d ++ suffix in
      if negb (key_ok k) then refuse KeyTooLarge d
      else if negb (value_ok v) then refuse ValueTooLarge d
      else write oom k v None (i64 (bsize v)) d
  | OStrlen k => (RInt (bsize (Spec.string_of k d)), d)
  | OExpireAt k x =>
      (RBool (Spec.present k d),
       match d !! k with None => d | Some (v, _) => <[k := (v, Some x)]> d end)
  | OExpire k ttl t0 =>
      (RBool (Spec.present k d),
       if ttl <=? 0 then delete k d
       else match d !! k with None => d | Some (v, _) => <[k := (v, Some (add_ms t0 ttl))]> d end)
  | OTtl k => (RTtl (Spec.ttl_of now k d), d)
  | OPersist k =>
      match d !! k with
      | Some (v, Some _) => (RBool true, <[k := (v, None)]> d)
      | _ => (RBool false, d)
      end
  | ODbsize => (RInt (Z.of_nat (size d)), d)
  | OExpiresCount =>
      (RInt (Z.of_nat (size (filter (fun kx : bytes * (bytes * option Z) => is_Some kx.2.2) d))), d)
  | OFlushdb => (RNone, ∅)
  | OActiveExpire _ => (RNone, d)
  end.

Fixpoint run (lim : ProtocolConfig) (ooms : list bool) (tr : list (Z * Op)) (d : db) : list Reply * db :=
  match tr, ooms with
  | (now, o) :: tr, oom :: ooms =>
      let '(r, d) := step lim oom now o d in
      let '(rs, d) := run lim ooms tr d in
      (r :: rs, d)
  | _, _ => ([], d)
  end.

Lemma lookup_view t d k :
  view t d !! k = x ← d !! k;
    match x.2 with Some w => if w <=? t then None else Some x | None => Some x end.
Proof.
  apply option_eq. intros y. unfold view. rewrite map_lookup_filter_Some.
  destruct (d !! k) as [[v [w|]]|]; simpl; [destruct (w <=? t) eqn:Hw| |];
    naive_solver congruence.
Qed.

Lemma view_put t k v x d : put_at t k v x (view t d) = view t (<[k := (v, x)]> d).
Proof.
  apply map_eq. intros k'. rewrite lookup_view. unfold put_at.
  destruct (decide (k' = k)) as [->|Hk].
  - rewrite lookup_insert_eq. simpl. destruct x as [w|]; [destruct (w <=? t)|];
      by rewrite ?lookup_delete_eq, ?lookup_insert_eq.
  - rewrite lookup_insert_ne by done. destruct x as [w|]; [destruct (w <=? t)|];
      by rewrite ?lookup_delete_ne, ?lookup_insert_ne, lookup_view.
Qed.

Lemma view_delete t k d : delete k (view t d) = view t (delete k d).
Proof.
  apply map_eq. intros k'. rewrite lookup_view. destruct (decide (k' = k)) as [->|Hk].
  - by rewrite !lookup_delete_eq.
  - by rewrite !lookup_delete_ne, lookup_view by done.
Qed.

Lemma view_view t0 t d : t0 <= t -> view t (view t0 d) = view t d.
Proof.
  intros Ht. apply map_eq. intros k. rewrite !lookup_view.
  destruct (d !! k) as [[v [w|]]|]; simpl; [|done|done].
  destruct (Z.leb_spec w t0); simpl; destruct (Z.leb_spec w t); try done; lia.
Qed.

End Map.

(** * Simulation *)

Section Simulation.
Context `{Platform}.

(** From [now] on the engine shows exactly the unexpired bindings of [d]. *)
Definition simulates (lim : ProtocolConfig) (now : Z) (e : StorageEngine) (d : db) : Prop :=
  wf e /\ limits_ e = lim /\ forall t, now <= t -> live e t = Map.view t d.

(** The engine cannot run out of memory. *)
Definition unlimited (e : StorageEngine) : Prop :=
  max_memory_bytes (config_ e) = 0 /\ forall e k x, emplace_throws e k x = false.

Lemma simulates_effect lim t0 now e e' d d' f :
  simulates lim t0 e d -> t0 <= now -> effect now e e' f ->
  (forall t, now <= t -> f t (Map.view t d) = Map.view t d') ->
  simulates lim now e' d'.
Proof.
  intros (_ & Hlim & Hl) Ht (Hwf & (_ & Hsh & _) & He) Hf. split; [done|].
  split; [by rewrite Hsh|]. intros t Ht'. rewrite He, Hl, Hf by lia. done.
Qed.

(** The operation's reply and the states after it agree. *)
Definition agrees (lim : ProtocolConfig) (now : Z) (o : Op) (e : StorageEngine) (d : db) : Prop :=
  let '(r, e') := engine_step now o e in
  config_ e' = config_ e /\
  exists oom, let '(r', d') := Map.step lim oom now o d in
    r = r' /\ simulates lim now e' d' /\ (unlimited e -> oom = false).

(** An operation with a determined effect. *)
Lemma agrees_intro lim t0 now o e d f :
  simulates lim t0 e d -> t0 <= now ->
  let '(r, e') := engine_step now o e in
  let '(r', d') := Map.step lim false now o d in
  r = r' -> effect now e e' f ->
  (forall t, now <= t -> f t (Map.view t d) = Map.view t d') ->
  agrees lim now o e d.
Proof.
  intros Hs Ht. unfold agrees. destruct (engine_step now o e) as [r e'].
  destruct (Map.step lim false now o d) as [r' d'] eqn:Hm. intros -> He Hf.
  split; [apply He|]. exists false. rewrite Hm. split; [done|].
  split; [by eapply simulates_effect|done].
Qed.
(** A write whose arguments are acceptable. *)
Lemma agrees_stored lim t0 now o e d k v x res :
  simulates lim t0 e d -> t0 <= now ->
  let '(r, e') := engine_step now o e in
  (forall oom, Map.step lim oom now o d = Map.write oom k v x res (Map.view now d)) ->
  (exists w, r = RWrite w /\ stored now e e' w k v x res) ->
  agrees lim now o e d.
Proof.
  intros Hs Ht. unfold agrees. destruct (engine_step now o e) as [r e'].
  intros Hm (w & -> & [(-> & Hroom & He)|(-> & He & Hroom)]); (split; [apply He|]).
  - exists false. rewrite Hm. split; [done|]. split; [|done].
    eapply simulates_effect; [done|done|done|]. intros t Htt. simpl.
    by rewrite <- (Map.view_view now t d), Map.view_put.
  - exists true. rewrite Hm. split; [done|]. split.
    + eapply simulates_effect; [done|done|done|]. intros t Htt. simpl. by rewrite Map.view_view.
    + intros [Hmax Hno]. exfalso. destruct Hroom as (_ & e1 & y & Hy); [|by rewrite Hno in Hy].
      unfold room, fits. by rewrite Hmax.
Qed.

(** A refused write. *)
Lemma agrees_refused lim t0 now o e d c :
  simulates lim t0 e d -> t0 <= now ->
  let '(r, e') := engine_step now o e in
  Map.step lim false now o d = Map.refuse c (Map.view now d) ->
  r = RWrite (MkWrite c 0) -> effect now e e' unchanged ->
  agrees lim now o e d.
Proof.
  intros Hs Ht. pose proof (agrees_intro lim t0 now o e d unchanged Hs Ht) as Ha. revert Ha.
  destruct (engine_step now o e) as [r e']. intros Ha Hm -> He. rewrite Hm in Ha.
  apply Ha; [done|done|]. intros t Htt. simpl. by rewrite Map.view_view.
Qed.

Section Step.
Variables (lim : ProtocolConfig) (t0 now : Z) (e : StorageEngine) (d : db).
Hypotheses (Hsim : simulates lim t0 e d) (Hle : t0 <= now).

Let Hwf : wf e := proj1 Hsim.

Lemma sim_live : live e now = Map.view now d.
Proof. by apply Hsim. Qed.

Lemma sim_key k : key_valid e k = (bsize k <=? max_key_size lim).
Proof. unfold key_valid. by rewrite (proj1 (proj2 Hsim)). Qed.

Lemma sim_value v : value_valid e v = (bsize v <=? max_value_size lim).
Proof. unfold value_valid. by rewrite (proj1 (proj2 Hsim)). Qed.

Lemma set_agrees k v ttl c : agrees lim now (OSet k v ttl c) e d.
Proof.
  pose proof (set_spec e now k v ttl c Hwf) as Hs.
  pose proof (agrees_stored lim t0 now (OSet k v ttl c) e d k v (add_ms now <$> ttl) 0 Hsim Hle) as Hok.
  pose proof (fun code => agrees_refused lim t0 now (OSet k v ttl c) e d code Hsim Hle) as Hno.
  cbn [engine_step Map.step] in *. rewrite sim_live, sim_key, sim_value in Hs.
  destruct (set now k v ttl c e) as [r e'].
  destruct (negb (bsize k <=? _)); [destruct Hs as [-> ?]; by eapply Hno|].
  destruct (negb (bsize v <=? _)); [destruct Hs as [-> ?]; by eapply Hno|].
  destruct (negb (Spec.condition_holds _ _)); [destruct Hs as [-> ?]; by eapply Hno|].
  apply Hok; [done|]. eauto.
Qed.

Lemma incr_by_agrees k delta : is_i64 delta -> agrees lim now (OIncrBy k delta) e d.
Proof.
  intros Hd. pose proof (incr_by_spec e now k delta Hwf Hd) as Hs.
  pose proof (fun c => agrees_stored lim t0 now (OIncrBy k delta) e d k (to_string (c + delta)) None
    (c + delta) Hsim Hle) as Hok.
  pose proof (fun code => agrees_refused lim t0 now (OIncrBy k delta) e d code Hsim Hle) as Hno.
  cbn [engine_step Map.step] in *. rewrite sim_live, sim_key in Hs.
  destruct (incr_by now k delta e) as [r e'].
  destruct (negb (bsize k <=? _)); [destruct Hs as [-> ?]; by eapply Hno|].
  destruct (Spec.counter k (Map.view now d)) as [c|]; [|destruct Hs as [-> ?]; by eapply Hno].
  destruct (bool_decide _); [|destruct Hs as [-> ?]; by eapply Hno].
  rewrite sim_value in Hs.
  destruct (negb (bsize (to_string _) <=? _)); [destruct Hs as [-> ?]; by eapply Hno|].
  apply (Hok c); [done|]. eauto.
Qed.

Lemma append_agrees k suffix : agrees lim now (OAppend k suffix) e d.
Proof.
  pose proof (append_spec e now k suffix Hwf) as Hs.
  set (v := Spec.string_of k (Map.view now d) ++ suffix).
  pose proof (agrees_stored lim t0 now (OAppend k suffix) e d k v None (i64 (bsize v)) Hsim Hle) as Hok.
  pose proof (fun code => agrees_refused lim t0 now (OAppend k suffix) e d code Hsim Hle) as Hno.
  cbn [engine_step Map.step] in *. rewrite sim_live, sim_key in Hs. fold v in Hs, Hok, Hno.
  destruct (append now k suffix e) as [r e'].
  destruct (negb (bsize k <=? _)); [destruct Hs as [-> ?]; by eapply Hno|].
  rewrite sim_value in Hs.
  destruct (negb (bsize v <=? _)); [destruct Hs as [-> ?]; by eapply Hno|].
  apply Hok; [done|]. eauto.
Qed.

(** Operations that change nothing observable. *)
Lemma reader_agrees o :
  let '(r, e') := engine_step now o e in
  Map.step lim false now o d = (r, Map.view now d) -> effect now e e' unchanged ->
  agrees lim now o e d.
Proof.
  pose proof (agrees_intro lim t0 now o e d unchanged Hsim Hle) as Ha. revert Ha.
  destruct (engine_step now o e) as [r e']. intros Ha Hm He. rewrite Hm in Ha.
  apply Ha; [done|done|]. intros t Htt. by rewrite Map.view_view.
Qed.

Lemma put_view t k v x : now <= t -> put_at t k v x (Map.view t d) = Map.view t (<[k := (v, x)]> (Map.view now d)).
Proof. intros Ht. by rewrite <- Map.view_put, Map.view_view. Qed.

Lemma delete_view t k : now <= t -> delete k (Map.view t d) = Map.view t (delete k (Map.view now d)).
Proof. intros Ht. by rewrite <- Map.view_delete, Map.view_view. Qed.

Lemma expire_at_agrees k x : agrees lim now (OExpireAt k x) e d.
Proof.
  pose proof (expire_at_spec e now k x Hwf) as Hs. rewrite sim_live in Hs.
  pose proof (fun f => agrees_intro lim t0 now (OExpireAt k x) e d f Hsim Hle) as Ha.
  cbn [engine_step Map.step] in *. destruct (expire_at now k x e) as [r e'].
  destruct Hs as [-> Heff]. eapply Ha; [done|done|]. cbn beta. intros t Ht.
  destruct (Map.view now d !! k) as [[v w]|] eqn:Hk; [|by rewrite Map.view_view].
  rewrite <- put_view by done. destruct (Z.leb_spec x now) as [Hx|]; [|done].
  unfold put_at. by rewrite (proj2 (Z.leb_le x t)) by lia.
Qed.

Lemma del_agrees k : agrees lim now (ODel k) e d.
Proof.
  pose proof (del_one_spec e now k Hwf) as Hs. rewrite sim_live in Hs.
  pose proof (fun f => agrees_intro lim t0 now (ODel k) e d f Hsim Hle) as Ha.
  cbn [engine_step Map.step] in *. destruct (del_one now k e) as [r e'].
  destruct Hs as [-> Heff]. eapply Ha; [done|done|]. cbn beta. intros t Ht. by apply delete_view.
Qed.

Lemma expire_agrees k ttl t1 : agrees lim now (OExpire k ttl t1) e d.
Proof.
  destruct (Z.leb_spec ttl 0) as [Hz|Hz].
  - pose proof (del_agrees k) as Ha. unfold agrees in *. cbn [engine_step Map.step] in *.
    unfold expire. rewrite (proj2 (Z.leb_le ttl 0)) by done.
    destruct (del_one now k e) as [r e']. destruct Ha as (? & _ & [= ->] & Ha & _). split; [done|].
    exists false. split; [|done]. by destruct (Spec.present k (Map.view now d)).
  - pose proof (expire_at_agrees k (add_ms t1 ttl)) as Ha. unfold agrees in *.
    cbn [engine_step Map.step] in *.
    unfold expire. by rewrite (proj2 (Z.leb_gt ttl 0)) by done.
Qed.

Lemma persist_agrees k : agrees lim now (OPersist k) e d.
Proof.
  pose proof (persist_spec e now k Hwf) as Hs. rewrite sim_live in Hs.
  pose proof (fun f => agrees_intro lim t0 now (OPersist k) e d f Hsim Hle) as Ha.
  cbn [engine_step Map.step] in *. destruct (persist now k e) as [r e'].
  destruct (Map.view now d !! k) as [[v [w|]]|]; destruct Hs as [-> Heff];
    (eapply Ha; [done|done|]); cbn beta; intros t Ht; [by apply put_view| |]; by rewrite Map.view_view.
Qed.

Lemma strlen_spec k :
  let '(r, e') := strlen now k e in
  r = bsize (Spec.string_of k (live e now)) /\ effect now e e' unchanged.
Proof.
  pose proof (get_spec e now k Hwf) as Hs. unfold strlen. destruct (get now k e) as [r e'].
  destruct Hs as [-> Heff]. split; [|done]. unfold Spec.value_of, Spec.string_of.
  by destruct (live e now !! k) as [[v x]|].
Qed.

(** The operations that read. *)
Lemma readers_agree o :
  match o with
  | OGet _ | OStrlen _ | OTtl _ | ODbsize | OExpiresCount => agrees lim now o e d
  | OActiveExpire sample => 0 <= sample -> agrees lim now o e d
  | _ => True
  end.
Proof.
  pose proof sim_live as Hlive. pose proof (reader_agrees o) as Ha.
  destruct o as [| k | | | | k | | | k | | | | | sample]; try done; cbn [engine_step Map.step] in Ha.
  - pose proof (get_spec e now k Hwf) as Hs. destruct (get now k e). rewrite Hlive in Hs.
    destruct Hs as [-> ?]. by apply Ha.
  - pose proof (strlen_spec k) as Hs. destruct (strlen now k e). rewrite Hlive in Hs.
    destruct Hs as [-> ?]. by apply Ha.
  - pose proof (ttl_spec e now k Hwf) as Hs. destruct (ttl now k e). rewrite Hlive in Hs.
    destruct Hs as [-> ?]. by apply Ha.
  - pose proof (dbsize_spec e now Hwf) as Hs. destruct (dbsize now e). rewrite Hlive in Hs.
    destruct Hs as [-> ?]. by apply Ha.
  - pose proof (expires_count_spec e now Hwf) as Hs. destruct (expires_count now e). rewrite Hlive in Hs.
    destruct Hs as [-> ?]. by apply Ha.
  - intros Hs. pose proof (active_expire_spec e now sample Hwf Hs) as Hsp.
    destruct (active_expire sample now e). apply Ha; [done|apply Hsp].
Qed.

Lemma flushdb_agrees : agrees lim now OFlushdb e d.
Proof.
  destruct (flushdb_spec e Hwf) as (Hwf' & Hsh & _ & Hl). split; [apply Hsh|].
  exists false. split; [done|]. split; [|done]. split; [done|].
  split; [rewrite (proj1 (proj2 Hsh)); apply Hsim|]. intros t _. rewrite Hl.
  unfold Map.view. by rewrite map_filter_empty.
Qed.

Lemma step_agrees o : op_ok o -> agrees lim now o e d.
Proof.
  intros Ho. pose proof (readers_agree o) as Hr.
  destruct o; try done.
  - apply set_agrees.
  - apply del_agrees.
  - by apply incr_by_agrees.
  - apply append_agrees.
  - apply expire_at_agrees.
  - apply expire_agrees.
  - apply persist_agrees.
  - apply flushdb_agrees.
  - by apply Hr.
Qed.
End Step.

(** Clock readings that do not go backwards, from [t] on. *)
Fixpoint nondecreasing (t : Z) (tr : list (Z * Op)) : Prop :=
  match tr with [] => True | (now, _) :: tr => t <= now /\ nondecreasing now tr end.

Lemma run_agrees lim t0 e d tr :
  simulates lim t0 e d -> nondecreasing t0 tr -> Forall (fun no => op_ok no.2) tr ->
  let '(rs, e') := engine_run tr e in
  config_ e' = config_ e /\
  exists ooms t1, length ooms = length tr /\ (unlimited e -> Forall (fun b => b = false) ooms) /\
    let '(rs', d') := Map.run lim ooms tr d in rs = rs' /\ simulates lim t1 e' d'.
Proof.
  revert t0 e d. induction tr as [|[now o] tr IH]; intros t0 e d Hs Hm Ho.
  { split; [done|]. by exists [], t0. }
  cbn [engine_run nondecreasing] in *.
  destruct Hm as [Hle Hm]. inversion Ho as [|? ? Ho1 Ho2]; subst. simpl in Ho1.
  pose proof (step_agrees lim t0 now e d Hs Hle o Ho1) as Ha. unfold agrees in Ha.
  destruct (engine_step now o e) as [r e1]. destruct Ha as (Hc & oom & Ha).
  destruct (Map.step lim oom now o d) as [r' d1] eqn:Hstep. destruct Ha as (-> & Hs1 & Hun).
  specialize (IH now e1 d1 Hs1 Hm Ho2). destruct (engine_run tr e1) as [rs e2].
  destruct IH as (Hc2 & ooms & t1 & Hlen & Hun2 & IH). split; [congruence|].
  exists (oom :: ooms), t1. split; [simpl; lia|]. split.
  { intros Hu. constructor; [by apply Hun|]. apply Hun2. unfold unlimited in *. by rewrite Hc. }
  cbn [Map.run]. rewrite Hstep. destruct (Map.run lim ooms tr d1) as [rs' d2]. by destruct IH as [-> ?].
Qed.

(** Any well-formed engine simulates its own observable database. *)
Lemma simulates_live e now : wf e -> simulates (limits_ e) now e (live e now).
Proof.
  intros Hwf. split; [done|]. split; [done|]. intros t Ht. apply map_eq. intros k.
  rewrite Map.lookup_view, !live_lookup by done.
  destruct (find e (shard_for_key e k) k) as [x|]; [|done]. simpl. unfold alive.
  destruct (expired x now) eqn:Hx; [by rewrite (expired_mono x now t)|].
  simpl. unfold expired. destruct (e_expiry x) as [w|]; [|done]. by destruct (w <=? t).
Qed.

(** The invariant is kept along any run, whatever the clock does. *)
Lemma run_wf tr e :
  wf e -> Forall (fun no => op_ok no.2) tr ->
  let e' := (engine_run tr e).2 in
  wf e' /\ config_ e' = config_ e /\ limits_ e' = limits_ e.
Proof.
  revert e. induction tr as [|[now o] tr IH]; intros e Hwf Ho; [done|].
  inversion Ho as [|? ? Ho1 Ho2]; subst.
  pose proof (step_agrees (limits_ e) now now e (live e now) (simulates_live e now Hwf)
    ltac:(done) o Ho1) as Ha. unfold agrees in Ha.
  cbn [engine_run]. destruct (engine_step now o e) as [r e1]. destruct Ha as (Hc & oom & Ha).
  destruct (Map.step (limits_ e) oom now o (live e now)). destruct Ha as (_ & (Hwf1 & Hl & _) & _).
  specialize (IH e1 Hwf1 Ho2). destruct (engine_run tr e1) as [rs e2]. simpl in *.
  destruct IH as (? & ? & ?). split; [done|]. split; congruence.
Qed.
End Simulation.
