(* ===== verification/StorageProps.v ===== *)
(** The storage engine's properties, each stated for any hash function, map
    traversal order and allocator ([Platform]), with a witness on a concrete
    engine. *)
From S2P Require Import Prelude Util Config Storage StorageFacts StorageSpec StorageSweep.
From S2P Require Import StorageRefine.

Section Props.
Context `{Platform}.

(** C6. Refinement: whatever sequence of operations runs, under clock readings
    that do not go backwards, the engine answers as one plain map from keys to
    values and deadlines does, where a write may be refused for lack of memory;
    without a memory limit and with an allocator that does not fail, no write is
    refused.  Sharding, lazy and active expiry and memory accounting are
    invisible. *)
Theorem engine_refines config limits t0 tr :
  is_u64 (max_memory_bytes config) -> 0 <= shards config ->
  nondecreasing t0 tr -> Forall (fun no => op_ok no.2) tr ->
  let e := new_engine config limits in
  exists ooms, length ooms = length tr /\
    (unlimited e -> Forall (fun oom => oom = false) ooms) /\
    (engine_run tr e).1 = (Map.run limits ooms tr ∅).1.
Proof.
  intros Hm Hs Ht Ho e.
  assert (Hwf : wf e) by (by apply new_engine_wf).
  assert (Hsim : simulates limits t0 e ∅).
  { split; [done|]. split; [done|]. intros t _. apply map_eq. intros k.
    rewrite Map.lookup_view, lookup_empty, live_lookup by done. simpl.
    unfold e. by rewrite new_engine_find. }
  pose proof (run_agrees limits t0 e ∅ tr Hsim Ht Ho) as Hr.
  destruct (engine_run tr e) as [rs e']. destruct Hr as (_ & ooms & t1 & Hlen & Hun & Hr).
  exists ooms. destruct (Map.run limits ooms tr ∅) as [rs' d']. by destruct Hr as [-> _].
Qed.

(** C14. Memory safety of the limit: after any operations, under any clock, every
    stored key and value is within the configured sizes and in the shard its
    hash selects, and with a memory limit configured the accounted memory is
    exactly the sum over the stored entries and never exceeds the limit. *)
Theorem memory_invariant config limits tr :
  is_u64 (max_memory_bytes config) -> 0 <= shards config ->
  Forall (fun no => op_ok no.2) tr ->
  let e := (engine_run tr (new_engine config limits)).2 in
  (forall i k x, find e i k = Some x ->
     i = shard_for_key e k /\ bsize k <= max_key_size limits /\ bsize (e_value x) <= max_value_size limits) /\
  (max_memory_bytes config <> 0 ->
     used_memory_ e = total_mem e /\ used_memory_ e <= max_memory_bytes config).
Proof.
  intros Hm Hs Ho e. destruct (run_wf tr _ (new_engine_wf config limits Hm Hs) Ho) as (Hwf & Hc & Hl).
  fold e in Hwf, Hc, Hl. split.
  - intros i k x Hf.
    destruct (wf_entries e Hwf i (shard_at e i) k x (shard_at_lookup _ _ (find_lt _ _ _ _ Hf)) Hf)
      as (? & Hk & Hv).
    unfold key_valid, value_valid in *. rewrite Hl in *. cbn in Hk, Hv. bool_to_prop. split; [done|lia].
  - intros Hz. pose proof (wf_used e Hwf) as Hu. rewrite Hc in Hu. cbn [config_ new_engine max_memory_bytes] in Hu.
    rewrite (proj2 (Z.eqb_neq _ 0)) in Hu by done. lia.
Qed.

(** C30. [SET] on every branch: oversized keys and values and unmet [NX]/[XX]
    conditions are refused with the database unchanged; otherwise the key is
    bound to the value and the deadline [now + ttl] (none without [ttl]), or,
    only when the limit leaves no room or the allocator fails, the write is
    refused and nothing changes. *)
Theorem set_correct e now k v ttl c :
  wf e ->
  let '(r, e') := set now k v ttl c e in
  if negb (key_valid e k) then r = MkWrite KeyTooLarge 0 /\ effect now e e' unchanged
  else if negb (value_valid e v) then r = MkWrite ValueTooLarge 0 /\ effect now e e' unchanged
  else if negb (Spec.condition_holds c (Spec.present k (live e now)))
  then r = MkWrite NotSet 0 /\ effect now e e' unchanged
  else stored now e e' r k v (add_ms now <$> ttl) 0.
Proof. apply set_spec. Qed.

(** C31. [INCR]/[DECR]: a missing key counts as zero, a value that is not a
    64-bit integer is refused, a sum outside 64 bits is refused as an overflow,
    and otherwise the key holds the decimal text of the exact sum, without a
    deadline. *)
Theorem incr_by_correct e now k delta :
  wf e -> is_i64 delta ->
  let '(r, e') := incr_by now k delta e in
  if negb (key_valid e k) then r = MkWrite KeyTooLarge 0 /\ effect now e e' unchanged
  else
    match Spec.counter k (live e now) with
    | None => r = MkWrite InvalidInteger 0 /\ effect now e e' unchanged
    | Some c =>
        if bool_decide (is_i64 (c + delta)) then
          if negb (value_valid e (to_string (c + delta)))
          then r = MkWrite ValueTooLarge 0 /\ effect now e e' unchanged
          else stored now e e' r k (to_string (c + delta)) None (c + delta)
        else r = MkWrite Overflow 0 /\ effect now e e' unchanged
    end.
Proof. apply incr_by_spec. Qed.

(** C32. Background expiration is safe, bounded and exact: it only removes
    entries that have expired, at most [sample] per shard; the number it
    returns is the number of entries it removed, which is added to the
    statistics; and when the sample covers the largest shard no expired entry
    is left behind. *)
Theorem active_expire_correct e now sample :
  wf e -> 0 <= sample ->
  let '(n, e') := active_expire sample now e in
  effect now e e' unchanged /\
  0 <= n <= sample * shard_count e /\
  Z.of_nat (keys_stored e') + n = Z.of_nat (keys_stored e) /\
  expired_keys_ e' = (if n =? 0 then expired_keys_ e else u64 (expired_keys_ e + n)) /\
  ((forall i, Z.of_nat (size (sh_map (shard_at e i))) <= sample) ->
   forall i k x, find e' i k = Some x -> expired x now = false).
Proof. apply active_expire_spec. Qed.

(** C33. The snapshot that [SAVE] and the AOF rewrite serialise lists every live
    key exactly once, with its value and its deadline in milliseconds, and
    nothing else. *)
Theorem snapshot_correct e now :
  wf e ->
  let '(l, e') := snapshot now e in
  NoDup (sn_key <$> l) /\
  (forall k v x, MkSnapshotEntry k v x ∈ l <->
     exists d, live e now !! k = Some (v, d) /\ x = unix_ms <$> d) /\
  effect now e e' unchanged.
Proof. apply snapshot_spec. Qed.

(** [FLUSHDB] leaves an empty database and returns all of its accounted
    memory. *)
Theorem flushdb_correct e :
  wf e ->
  let e' := flushdb e in
  wf e' /\ same_shape e e' /\ used_memory_ e' = 0 /\ forall t, live e' t = ∅.
Proof. apply flushdb_spec. Qed.
End Props.

(** * Witnesses *)

Definition demo_storage : StorageConfig := MkStorageConfig 4 1000.

Definition demo_trace : list (Z * Op) :=
  [(1, OSet (lit "a") (lit "1") None Always);
   (2, OSet (lit "bb") (lit "xy") (Some 3) NX);
   (3, OIncrBy (lit "a") 41);
   (4, OSet (lit "ccc") (lit "z") (Some 1) Always);
   (2000004, OGet (lit "ccc"))].

Lemma demo_ok : Forall (fun no : Z * Op => op_ok no.2) demo_trace.
Proof. repeat constructor; by vm_compute. Qed.

Definition demo_engine : StorageEngine := (engine_run demo_trace (new_engine demo_storage default_protocol)).2.

Lemma demo_wf : wf demo_engine.
Proof. apply run_wf; [by apply new_engine_wf|apply demo_ok]. Qed.

Lemma engine_refines_witness :
  exists ooms, length ooms = length demo_trace /\
    (unlimited (new_engine demo_storage default_protocol) -> Forall (fun oom => oom = false) ooms) /\
    [RWrite (MkWrite WOk 0); RWrite (MkWrite WOk 0); RWrite (MkWrite WOk 42);
     RWrite (MkWrite WOk 0); RValue None]
    = (Map.run default_protocol ooms demo_trace ∅).1.
Proof.
  assert (Hr : (engine_run demo_trace (new_engine demo_storage default_protocol)).1
    = [RWrite (MkWrite WOk 0); RWrite (MkWrite WOk 0); RWrite (MkWrite WOk 42);
       RWrite (MkWrite WOk 0); RValue None]) by (vm_compute; reflexivity).
  rewrite <- Hr. clear Hr.
  refine (engine_refines demo_storage default_protocol 0 demo_trace _ _ _ demo_ok).
  - by vm_compute.
  - by vm_compute.
  - repeat split; by vm_compute.
Defined.

Lemma memory_invariant_witness :
  used_memory_ demo_engine = 199 /\ total_mem demo_engine = 199.
Proof.
  destruct (memory_invariant demo_storage default_protocol demo_trace) as [_ Hm];
    [by vm_compute | done | apply demo_ok |].
  destruct Hm as [Hu _]; [done|]. fold demo_engine in Hu.
  assert (Hc : used_memory_ demo_engine = 199) by (vm_compute; reflexivity).
  split; [exact Hc|]. rewrite <- Hu. exact Hc.
Defined.

(** A key that is absent is set with a deadline. *)
Lemma set_correct_witness :
  (set 10 (lit "d") (lit "v") (Some 5) NX demo_engine).1 = MkWrite WOk 0 /\
  let '(r, e') := set 10 (lit "d") (lit "v") (Some 5) NX demo_engine in
  if negb (key_valid demo_engine (lit "d"))
  then r = MkWrite KeyTooLarge 0 /\ effect 10 demo_engine e' unchanged
  else if negb (value_valid demo_engine (lit "v"))
  then r = MkWrite ValueTooLarge 0 /\ effect 10 demo_engine e' unchanged
  else if negb (Spec.condition_holds NX (Spec.present (lit "d") (live demo_engine 10)))
  then r = MkWrite NotSet 0 /\ effect 10 demo_engine e' unchanged
  else stored 10 demo_engine e' r (lit "d") (lit "v") (add_ms 10 <$> Some 5) 0.
Proof.
  split; [vm_compute; reflexivity|].
  apply (set_correct demo_engine 10 (lit "d") (lit "v") (Some 5) NX demo_wf).
Defined.

(** A counter at the top of the 64-bit range overflows. *)
Lemma incr_by_correct_witness :
  let '(r, e') := incr_by 10 (lit "a") i64_max demo_engine in
  r = MkWrite Overflow 0 /\ effect 10 demo_engine e' unchanged.
Proof.
  assert (Hi : is_i64 i64_max) by (by vm_compute).
  pose proof (incr_by_correct demo_engine 10 (lit "a") i64_max demo_wf Hi) as Hs.
  assert (Hk : key_valid demo_engine (lit "a") = true) by (vm_compute; reflexivity).
  assert (Hc : Spec.counter (lit "a") (live demo_engine 10) = Some 42) by (vm_compute; reflexivity).
  assert (Ho : bool_decide (is_i64 (42 + i64_max)) = false) by (vm_compute; reflexivity).
  rewrite Hk, Hc, Ho in Hs. exact Hs.
Defined.

(** The key [bb] expires 3 ms after it was set. *)
Lemma active_expire_correct_witness :
  (active_expire 20 3000002 demo_engine).1 = 1 /\
  let '(n, e') := active_expire 20 3000002 demo_engine in
  effect 3000002 demo_engine e' unchanged /\ 0 <= n <= 20 * shard_count demo_engine /\
  Z.of_nat (keys_stored e') + n = Z.of_nat (keys_stored demo_engine).
Proof.
  split; [vm_compute; reflexivity|].
  pose proof (active_expire_correct demo_engine 3000002 20 demo_wf ltac:(done)) as Hs.
  destruct (active_expire 20 3000002 demo_engine) as [n e'].
  destruct Hs as (He & Hn & Hk & _). split; [exact He|]. split; [exact Hn|exact Hk].
Defined.

Lemma snapshot_correct_witness :
  (snapshot 10 demo_engine).1
  = [MkSnapshotEntry (lit "a") (lit "42") None; MkSnapshotEntry (lit "bb") (lit "xy") (Some 3)] /\
  let '(l, e') := snapshot 10 demo_engine in
  NoDup (sn_key <$> l) /\
  (forall k v x, MkSnapshotEntry k v x ∈ l <->
     exists d, live demo_engine 10 !! k = Some (v, d) /\ x = unix_ms <$> d) /\
  effect 10 demo_engine e' unchanged.
Proof. split; [vm_compute; reflexivity|]. apply (snapshot_correct demo_engine 10 demo_wf). Defined.

Lemma flushdb_correct_witness :
  used_memory_ demo_engine = 199 /\ used_memory_ (flushdb demo_engine) = 0 /\
  forall t, live (flushdb demo_engine) t = ∅.
Proof. split; [vm_compute; reflexivity|]. apply (flushdb_correct demo_engine demo_wf). Defined.
