(* ===== verification/Restore.v ===== *)
(** Rebuilding a database from the entries of a snapshot.

    The AOF rewrite and the snapshot both write, per entry, a [SET] and, for a
    key with a deadline, a [PEXPIREAT].  This file shows what running those
    operations on an empty engine gives: the observable database the entries
    were taken from, with deadlines cut to whole milliseconds. *)
From S2P Require Import Prelude Util Config Storage StorageFacts StorageSpec StorageSweep.
From S2P Require Import StorageRefine.

Section Restore.
Context `{Platform}.

(** * Memory as a sum over the entries *)

Lemma map_mem_union m1 m2 : m1 ##ₘ m2 -> map_mem (m1 ∪ m2) = map_mem m1 + map_mem m2.
Proof.
  induction m1 as [|k x m1 Hk IH] using map_ind; intros Hd.
  { by rewrite map_mem_empty, (left_id_L ∅ (∪)). }
  apply map_disjoint_insert_l in Hd as [Hk2 Hd].
  rewrite <- insert_union_l. rewrite !map_mem_insert_new; [|done|].
  - rewrite IH by done. lia.
  - by apply lookup_union_None.
Qed.

Lemma map_mem_submap m1 m2 :
  (forall k x, m1 !! k = Some x -> exists y, m2 !! k = Some y /\ e_value y = e_value x) ->
  map_mem m1 <= map_mem m2.
Proof.
  revert m2. induction m1 as [|k x m1 Hk IH] using map_ind; intros m2 Hs.
  { rewrite map_mem_empty. apply map_mem_nonneg. }
  destruct (Hs k x) as (y & Hy & Hv); [by rewrite lookup_insert_eq|].
  rewrite map_mem_insert_new by done.
  rewrite <- (insert_delete_id m2 k y) by done.
  rewrite map_mem_insert_new by (by rewrite lookup_delete_eq).
  rewrite Hv. enough (map_mem m1 <= map_mem (delete k m2)) by lia.
  apply IH. intros k' x' Hk'. assert (k' <> k) by congruence.
  destruct (Hs k' x') as (y' & ? & ?); [by rewrite lookup_insert_ne|].
  exists y'. by rewrite lookup_delete_ne.
Qed.

Lemma shards_mem_entries l :
  (forall i j s s' k x y, l !! i = Some s -> l !! j = Some s' ->
     sh_map s !! k = Some x -> sh_map s' !! k = Some y -> i = j) ->
  shards_mem l = map_mem (entries_of l).
Proof.
  induction l as [|s l IH]; intros Hd; simpl; [by rewrite map_mem_empty|].
  rewrite map_mem_union, IH; [done| |].
  - intros i j s1 s2 k x y H1 H2 Hx Hy. by injection (Hd (S i) (S j) s1 s2 k x y H1 H2 Hx Hy).
  - apply map_disjoint_spec. intros k x y Hx Hy.
    enough (entries_of l !! k = None) by congruence. apply entries_of_none. intros i s' Hi.
    destruct (sh_map s' !! k) as [z|] eqn:Hz; [|done].
    by specialize (Hd 0%nat (S i) s s' k x z eq_refl Hi Hx Hz).
Qed.

Lemma total_mem_entries e : wf e -> total_mem e = map_mem (entries_of (shards_ e)).
Proof.
  intros Hwf. apply shards_mem_entries. intros i j s s' k x y Hi Hj Hx Hy.
  destruct (wf_entries e Hwf i s k x Hi Hx) as [<- _].
  by destruct (wf_entries e Hwf j s' k y Hj Hy) as [<- _].
Qed.

(** * The two operations, entry by entry *)

Lemma set_point e now k v :
  wf e -> key_valid e k = true -> value_valid e v = true -> room e k v = true ->
  (forall e1 y, emplace_throws e1 k y = false) ->
  let '(r, e') := set now k v None Always e in
  r = MkWrite WOk 0 /\ wf e' /\
  exists y, point_update e e' k (Some y) /\ e_value y = v /\ e_expiry y = None.
Proof.
  intros Hwf Hk Hv Hroom Hno. unfold set. rewrite Hk, Hv. cbn [negb].
  rewrite erase_if_expired_eq.
  destruct (find_live e (shard_for_key e k) k now) as [o e1] eqn:He.
  pose proof (find_live_room e now k v Hwf) as Hr1. rewrite He in Hr1. cbn [snd] in *.
  destruct (find_live_effect e now k o e1 Hwf He) as ((Hwf1 & Hsh & _) & _ & Hp & Hr & Hf).
  rewrite Hr in Hf. rewrite Hf. cbn [bool_decide andb orb].
  destruct (same_shape_valid e e1 k v Hsh) as [Hk1 Hv1].
  set (y := MkEntry v (add_ms now <$> None) _ now).
  pose proof (store_entry_wf e1 k y 0 Hwf1 ltac:(congruence) ltac:(cbn; congruence)) as Hs.
  cbv zeta in Hs. rewrite Hr, Hf in Hs. revert Hs.
  destruct (store_entry e1 (shard_for_key e k) k o y 0) as [r e2]. intros (Hwf2 & Hs).
  destruct Hs as [(-> & _ & Hp2)|(_ & _ & Hs)].
  - split; [done|]. split; [done|]. exists y. split; [by eapply point_update_trans|done].
  - exfalso. destruct Hs as (_ & e3 & He3); [cbn; congruence|]. by rewrite Hno in He3.
Qed.

Lemma expire_at_point e now k x y :
  wf e -> find e (shard_for_key e k) k = Some y -> e_expiry y = None ->
  let e' := (expire_at now k x e).2 in
  wf e' /\
  exists o, point_update e e' k o /\
    if x <=? now then o = None else exists z, o = Some z /\ e_value z = e_value y /\ e_expiry z = Some x.
Proof.
  intros Hwf Hf Hx. unfold expire_at, find_live. rewrite Hf.
  assert (Hex : expired y now = false) by (unfold expired; by rewrite Hx). rewrite Hex.
  destruct (x <=? now) eqn:Hle.
  - destruct (expire_entry_wf e k y Hwf Hf) as [? ?]. split; [done|]. by exists None.
  - set (z := MkEntry (e_value y) (Some x) _ _).
    destruct (update_entry_wf e k y z Hwf Hf eq_refl) as [? ?]. split; [done|].
    exists (Some z). split; [done|]. by exists z.
Qed.

(** * All entries *)

(** The operations for one entry, at clock readings [t] and, for the deadline,
    [t + 1]: whether the write succeeded, the next reading and the engine. *)
Definition restore_entry (clock : nat -> Z) (t : nat) (s : SnapshotEntry) (e : StorageEngine)
    : bool * nat * StorageEngine :=
  let '(w, e) := set (clock t) (sn_key s) (sn_value s) None Always e in
  (bool_decide (w_code w = WOk),
   match sn_expire_at_unix_ms s with None => S t | Some _ => S (S t) end,
   match sn_expire_at_unix_ms s with
   | None => e
   | Some ms => (expire_at (clock (S t)) (sn_key s) (timepoint_from_unix_ms ms) e).2
   end).

(** The entry of a key after it was restored, when no reading exceeded
    [bound]. *)
Definition restored_as (bound : Z) (s : SnapshotEntry) (o : option Entry) : Prop :=
  match o with
  | Some y => e_value y = sn_value s /\ e_expiry y = timepoint_from_unix_ms <$> sn_expire_at_unix_ms s
  | None => exists ms, sn_expire_at_unix_ms s = Some ms /\ timepoint_from_unix_ms ms <= bound
  end.

(** The engine holds exactly the entries in [done]. *)
Definition restored (bound : Z) (done : list SnapshotEntry) (e : StorageEngine) : Prop :=
  wf e /\
  (forall s, s ∈ done -> restored_as bound s (find e (shard_for_key e (sn_key s)) (sn_key s))) /\
  (forall k, k ∉ sn_key <$> done -> find e (shard_for_key e k) k = None).

Definition entries_mem (l : list SnapshotEntry) : Z :=
  foldr (fun s acc => entry_memory (sn_key s) (sn_value s) + acc) 0 l.

Lemma entries_mem_app l1 l2 : entries_mem (l1 ++ l2) = entries_mem l1 + entries_mem l2.
Proof. induction l1 as [|s l1 IH]; simpl; [done|]. rewrite IH. lia. Qed.

Lemma entries_mem_nonneg l : 0 <= entries_mem l.
Proof.
  induction l as [|s l IH]; simpl; [done|].
  pose proof (entry_memory_nonneg (sn_key s) (sn_value s)). lia.
Qed.

(** The entries as a map of the engine's kind. *)
Definition entries_map (l : list SnapshotEntry) : gmap bytes Entry :=
  list_to_map ((fun s => (sn_key s, MkEntry (sn_value s) None 0 0)) <$> l).

Lemma entries_map_keys l : ((fun s => (sn_key s, MkEntry (sn_value s) None 0 0)) <$> l).*1 = sn_key <$> l.
Proof. rewrite <- list_fmap_compose. done. Qed.

Lemma entries_mem_map l : NoDup (sn_key <$> l) -> map_mem (entries_map l) = entries_mem l.
Proof.
  induction l as [|s l IH]; intros Hn; [apply map_mem_empty|].
  cbn [fmap list_fmap] in Hn. apply list.NoDup_cons in Hn as [Hs Hn].
  change (map_mem (<[sn_key s := MkEntry (sn_value s) None 0 0]> (entries_map l))
    = entry_memory (sn_key s) (sn_value s) + entries_mem l).
  rewrite map_mem_insert_new; [by rewrite <- IH|].
  apply not_elem_of_list_to_map_1. by rewrite entries_map_keys.
Qed.

Lemma restored_mem bound l e : NoDup (sn_key <$> l) -> restored bound l e -> total_mem e <= entries_mem l.
Proof.
  intros Hn (Hwf & Hin & Hout). rewrite total_mem_entries, <- entries_mem_map by done.
  apply map_mem_submap. intros k x Hk. rewrite entries_of_find in Hk by done.
  destruct (decide (k ∈ sn_key <$> l)) as [Hkl|Hkl]; [|by rewrite Hout in Hk].
  apply list_elem_of_fmap in Hkl as (s & -> & Hs). specialize (Hin s Hs). rewrite Hk in Hin.
  exists (MkEntry (sn_value s) None 0 0). split; [|by destruct Hin].
  apply elem_of_list_to_map; [by rewrite entries_map_keys|].
  apply list_elem_of_fmap. by exists s.
Qed.

Lemma point_update_find e e' k o k' :
  point_update e e' k o ->
  find e' (shard_for_key e' k') k' = if decide (k' = k) then o else find e (shard_for_key e k') k'.
Proof. intros [Hs Hp]. by rewrite (same_shape_route _ _ _ Hs), Hp. Qed.

(** What the entries need of the engine they are restored into. *)
Definition restorable (l : list SnapshotEntry) (e : StorageEngine) : Prop :=
  NoDup (sn_key <$> l) /\
  Forall (fun s => key_valid e (sn_key s) = true /\ value_valid e (sn_value s) = true) l /\
  (max_memory_bytes (config_ e) = 0 \/ entries_mem l <= max_memory_bytes (config_ e)) /\
  (forall e1 k y, emplace_throws e1 k y = false).

(** One more key: the others are untouched. *)
Lemma restored_snoc bound done s e e' o :
  restored bound done e -> sn_key s ∉ sn_key <$> done -> wf e' ->
  point_update e e' (sn_key s) o -> restored_as bound s o ->
  restored bound (done ++ [s]) e'.
Proof.
  intros (_ & Hin & Hout) Hs Hwf Hp Ho. split; [done|]. split.
  - intros s' Hs'. rewrite (point_update_find _ _ _ _ _ Hp).
    apply elem_of_app in Hs' as [Hs'|Hs'].
    + rewrite decide_False; [by apply Hin|]. intros Hk. apply Hs. rewrite <- Hk.
      apply list_elem_of_fmap. by exists s'.
    + apply list_elem_of_singleton in Hs' as ->. by rewrite decide_True.
  - intros k Hk. rewrite fmap_app, elem_of_app in Hk. rewrite (point_update_find _ _ _ _ _ Hp).
    rewrite decide_False; [apply Hout; tauto|]. intros ->. apply Hk. right. simpl. by left.
Qed.

Lemma restore_entry_spec clock t bound done s rest e :
  (forall i, clock i <= bound) ->
  restored bound done e -> restorable (done ++ s :: rest) e ->
  let '(ok, t', e') := restore_entry clock t s e in
  ok = true /\ restored bound (done ++ [s]) e' /\ same_shape e e'.
Proof.
  intros Hclk Hr (Hn & Hv & Hmem & Hno).
  rewrite fmap_app in Hn. apply list.NoDup_app in Hn as (Hnd & Hdis & Hn).
  cbn [fmap list_fmap] in Hn. apply list.NoDup_cons in Hn as [Hs Hn].
  assert (Hk : sn_key s ∉ sn_key <$> done) by (intros Hd; apply (Hdis _ Hd); by left).
  apply Forall_app in Hv as [_ Hv]. inversion Hv as [|? ? [Hkv Hvv] _]; subst.
  pose proof (restored_mem bound done e Hnd Hr) as Hle.
  pose proof Hr as (Hwf & Hin & Hout). assert (Hf := Hout _ Hk).
  assert (Hroom : room e (sn_key s) (sn_value s) = true).
  { unfold room, fits. rewrite Hf. cbn [found_mem]. destruct Hmem as [->|Hmem]; [done|].
    rewrite entries_mem_app in Hmem. cbn [entries_mem foldr] in Hmem.
    pose proof (entries_mem_nonneg rest) as Hrest. unfold entries_mem in Hrest.
    rewrite orb_true_iff. right. apply Z.leb_le. lia. }
  unfold restore_entry.
  pose proof (set_point e (clock t) _ _ Hwf Hkv Hvv Hroom (fun e1 y => Hno e1 _ y)) as Hset.
  destruct (set (clock t) (sn_key s) (sn_value s) None Always e) as [w e1].
  destruct Hset as (-> & Hwf1 & y & Hp & Hy & Hx). split; [done|].
  destruct (sn_expire_at_unix_ms s) as [ms|] eqn:Hms.
  - assert (Hf1 : find e1 (shard_for_key e1 (sn_key s)) (sn_key s) = Some y).
    { rewrite (point_update_find _ _ _ _ _ Hp). by rewrite decide_True. }
    destruct (expire_at_point e1 (clock (S t)) _ (timepoint_from_unix_ms ms) y Hwf1 Hf1 Hx)
      as (Hwf2 & o & Hp2 & Ho).
    assert (Hp3 := point_update_trans _ _ _ _ _ _ Hp Hp2). split; [|apply Hp3].
    eapply restored_snoc; [exact Hr|done|done|exact Hp3|].
    destruct (Z.leb_spec (timepoint_from_unix_ms ms) (clock (S t))) as [Hd|Hd].
    + subst o. exists ms. split; [done|]. specialize (Hclk (S t)). lia.
    + destruct Ho as (z & -> & Hz & Hzx). simpl. rewrite Hms. split; [congruence|done].
  - split; [|apply Hp]. eapply restored_snoc; [exact Hr|done|done|exact Hp|].
    simpl. by rewrite Hms, Hx.
Qed.

(** * The database that comes back *)

(** The entries, as a client sees them at [t]. *)
Definition entries_db (t : Z) (l : list SnapshotEntry) : db :=
  Map.view t (list_to_map
    ((fun s => (sn_key s, (sn_value s, timepoint_from_unix_ms <$> sn_expire_at_unix_ms s))) <$> l)).

Lemma restored_live bound l e t :
  NoDup (sn_key <$> l) -> restored bound l e -> bound <= t -> live e t = entries_db t l.
Proof.
  intros Hn (Hwf & Hin & Hout) Ht. apply map_eq. intros k. unfold entries_db.
  rewrite live_lookup, Map.lookup_view by done. set (m := list_to_map _).
  assert (Hkeys : ((fun s => (sn_key s, (sn_value s, timepoint_from_unix_ms <$> sn_expire_at_unix_ms s))) <$> l).*1
    = sn_key <$> l) by (by rewrite <- list_fmap_compose).
  destruct (decide (k ∈ sn_key <$> l)) as [Hk|Hk].
  - apply list_elem_of_fmap in Hk as (s & -> & Hs).
    assert (Hm : m !! sn_key s = Some (sn_value s, timepoint_from_unix_ms <$> sn_expire_at_unix_ms s)).
    { apply elem_of_list_to_map; [by rewrite Hkeys|]. apply list_elem_of_fmap. by exists s. }
    rewrite Hm. specialize (Hin s Hs). simpl.
    destruct (find e _ (sn_key s)) as [y|]; simpl.
    + destruct Hin as [<- <-]. unfold alive, expired. by destruct (e_expiry y) as [w|]; [destruct (w <=? t)|].
    + destruct Hin as (ms & Hms & Hle). rewrite Hms. simpl.
      by rewrite (proj2 (Z.leb_le _ t)) by lia.
  - rewrite Hout by done. assert (Hm : m !! k = None).
    { apply not_elem_of_list_to_map_1. by rewrite Hkeys. }
    by rewrite Hm.
Qed.

(** Entries taken from a well-formed engine fit an engine configured alike. *)
Lemma snapshot_mem e now : wf e -> entries_mem (snapshot now e).1 <= total_mem e.
Proof.
  intros Hwf. pose proof (snapshot_spec e now Hwf) as Hs. destruct (snapshot now e) as [l e'].
  destruct Hs as (Hn & Hl & _). cbn [fst]. rewrite <- entries_mem_map, total_mem_entries by done.
  apply map_mem_submap. intros k x Hk. apply elem_of_list_to_map_2 in Hk.
  apply list_elem_of_fmap in Hk as ([k' v x'] & [= -> ->] & Hs). simpl in *.
  apply Hl in Hs as (d & Hd & _). rewrite live_lookup in Hd by done.
  rewrite entries_of_find by done. destruct (find e _ k') as [y|]; [|done]. exists y. split; [done|].
  simpl in Hd. unfold alive in Hd. destruct (expired y now); by simplify_eq.
Qed.

Lemma snapshot_valid e now s :
  wf e -> s ∈ (snapshot now e).1 -> key_valid e (sn_key s) = true /\ value_valid e (sn_value s) = true.
Proof.
  intros Hwf Hs. pose proof (snapshot_spec e now Hwf) as Hsp. destruct (snapshot now e) as [l e'].
  destruct Hsp as (_ & Hl & _). destruct s as [k v x]. apply Hl in Hs as (d & Hd & _).
  rewrite live_lookup in Hd by done. destruct (find e (shard_for_key e k) k) as [y|] eqn:Hf; [|done].
  simpl in Hd. unfold alive in Hd. destruct (expired y now); simplify_eq. simpl.
  by destruct (wf_entries e Hwf _ _ k y (shard_at_lookup _ _ (find_lt _ _ _ _ Hf)) Hf).
Qed.

Lemma snapshot_restorable e now e0 :
  wf e -> max_memory_bytes (config_ e0) = max_memory_bytes (config_ e) -> limits_ e0 = limits_ e ->
  (forall e1 k y, emplace_throws e1 k y = false) -> restorable (snapshot now e).1 e0.
Proof.
  intros Hwf Hc Hl Hno. split; [|split; [|split; [|done]]].
  - pose proof (snapshot_spec e now Hwf) as Hs. destruct (snapshot now e). by destruct Hs.
  - apply Forall_forall. intros s Hs%list_elem_of_In.
    unfold key_valid, value_valid. rewrite Hl. by apply (snapshot_valid e now).
  - rewrite Hc. pose proof (wf_used e Hwf) as Hu.
    destruct (Z.eqb_spec (max_memory_bytes (config_ e)) 0); [by left|right].
    pose proof (snapshot_mem e now Hwf). lia.
Qed.
End Restore.
