(* ===== verification/Fs.v ===== *)
(** Files and system calls as the persistence code uses them.

    The file system is a directory from paths to inodes and the inodes'
    contents, so that a descriptor goes on naming its inode after the path was
    replaced.  Every system call takes its outcome from a list supplied by the
    environment; once the list is used up all calls succeed.  Durability (what
    [fsync] adds) is not represented: contents are what the kernel shows. *)
From S2P Require Import Prelude Util Storage.

(** * State *)

Record Fs := MkFs {
  fs_dir : gmap bytes nat;
  fs_data : gmap nat bytes;
  fs_next : nat
}.

(** Outcome of a system call; the message is what [strerror] or
    [error_code::message] says. *)
Inductive Io :=
  | IoOk
  | IoShort (n : nat)
  | IoIntr
  | IoError (msg : bytes).

Record Sys := MkSys {
  s_fs : Fs;
  s_io : list Io;
  s_ticks : nat
}.

Definition empty_fs : Fs := MkFs ∅ ∅ 0.

Abbreviation SysM := (St Sys).

(** The contents of an inode, and of the file at a path. *)
Definition content (fs : Fs) (i : nat) : bytes := default [] (fs_data fs !! i).

Definition file_at (fs : Fs) (path : bytes) : option bytes := content fs <$> fs_dir fs !! path.

Definition on_fs (f : Fs -> Fs) : SysM unit :=
  fun s => (tt, MkSys (f (s_fs s)) (s_io s) (s_ticks s)).

Definition look_fs {A} (f : Fs -> A) : SysM A := fun s => (f (s_fs s), s).

Definition next_io : SysM Io :=
  fun s =>
    match s_io s with
    | [] => (IoOk, s)
    | o :: io => (o, MkSys (s_fs s) io (s_ticks s))
    end.

(** A call that can only succeed or fail: its error message. *)
Definition call_error (o : Io) : option bytes :=
  match o with
  | IoError m => Some m
  | IoIntr => Some (lit "Interrupted system call")
  | _ => None
  end.

Definition syscall : SysM (option bytes) := o ← next_io; mret (call_error o).

(** [Clock::now()]: the next reading of [clock]. *)
Definition read_clock (clock : nat -> TimePoint) : SysM TimePoint :=
  fun s => (clock (s_ticks s), MkSys (s_fs s) (s_io s) (S (s_ticks s))).

(** * Directory operations *)

Definition fs_append (fd : nat) (b : bytes) (fs : Fs) : Fs :=
  MkFs (fs_dir fs) (<[fd := content fs fd ++ b]> (fs_data fs)) (fs_next fs).

(** [open] with [O_CREAT]: the inode, new and empty if the path was free; with
    [O_TRUNC] an existing file is emptied. *)
Definition fs_open (trunc : bool) (path : bytes) (fs : Fs) : nat * Fs :=
  match fs_dir fs !! path with
  | Some i =>
      (i, if trunc then MkFs (fs_dir fs) (<[i := []]> (fs_data fs)) (fs_next fs) else fs)
  | None =>
      let i := fs_next fs in
      (i, MkFs (<[path := i]> (fs_dir fs)) (<[i := []]> (fs_data fs)) (S i))
  end.

Definition fs_remove (path : bytes) (fs : Fs) : Fs :=
  MkFs (delete path (fs_dir fs)) (fs_data fs) (fs_next fs).

Definition fs_rename (from to : bytes) (fs : Fs) : Fs :=
  match fs_dir fs !! from with
  | Some i => MkFs (<[to := i]> (delete from (fs_dir fs))) (fs_data fs) (fs_next fs)
  | None => fs
  end.

Definition open_file (trunc : bool) (path : bytes) : SysM (bytes + nat) :=
  e ← syscall;
  match e with
  | Some m => mret (inl m)
  | None => fun s =>
      let '(i, fs) := fs_open trunc path (s_fs s) in (inr i, MkSys fs (s_io s) (s_ticks s))
  end.

(** [filesystem::remove(path, ec)]: the message of [ec]. *)
Definition remove (path : bytes) : SysM bytes :=
  e ← syscall;
  match e with
  | Some m => mret m
  | None => _ ← on_fs (fs_remove path); mret (lit "Success")
  end.

Definition rename (from to : bytes) : SysM (option bytes) :=
  e ← syscall;
  match e with
  | Some m => mret (Some m)
  | None => _ ← on_fs (fs_rename from to); mret None
  end.

Definition exists_file (path : bytes) : SysM bool :=
  look_fs (fun fs => bool_decide (is_Some (fs_dir fs !! path))).

(** * Paths *)

(** A path is usable when it is not empty and has no NUL byte. *)
Definition path_is_safe (path : bytes) : bool :=
  match path with
  | [] => false
  | _ => forallb (fun c => negb (bool_decide (c = Ascii.zero))) path
  end.

Fixpoint drop_while (f : ascii -> bool) (b : bytes) : bytes :=
  match b with
  | [] => []
  | c :: rest => if f c then drop_while f rest else b
  end.

Definition is_slash (c : ascii) : bool := bool_decide (c = "/"%char).

(** [filesystem::path::parent_path]: what precedes the last component, without
    the separators between the two; the root is its own parent. *)
Definition parent_path (path : bytes) : bytes :=
  if existsb is_slash path then
    match drop_while is_slash (drop_while (fun c => negb (is_slash c)) (rev path)) with
    | [] => lit "/"
    | r => rev r
    end
  else [].

(** [ensure_parent_dir], whose two copies differ in the error they report. *)
Definition ensure_parent_dir (failure : bytes -> bytes -> bytes) (path : bytes) : SysM Status :=
  match parent_path path with
  | [] => mret status_ok
  | parent =>
      e ← syscall;
      mret match e with Some m => MkStatus IOError (failure parent m) | None => status_ok end
  end.

(** * Writing *)

(** [write_all]: retried on [EINTR], continued after a short write. *)
Fixpoint write_loop (io : list Io) (fd : nat) (b : bytes) (fs : Fs) : Status * (Fs * list Io) :=
  match b with
  | [] => (status_ok, (fs, io))
  | _ =>
      match io with
      | [] => (status_ok, (fs_append fd b fs, []))
      | IoOk :: io => (status_ok, (fs_append fd b fs, io))
      | IoShort n :: io =>
          if (n =? 0)%nat then (MkStatus IOError (lit "write returned zero bytes"), (fs, io))
          else write_loop io fd (drop n b) (fs_append fd (take n b) fs)
      | IoIntr :: io => write_loop io fd b fs
      | IoError m :: io => (MkStatus IOError m, (fs, io))
      end
  end.

Definition write_all (fd : nat) (b : bytes) : SysM Status :=
  fun s =>
    let '(st, (fs, io)) := write_loop (s_io s) fd b (s_fs s) in (st, MkSys fs io (s_ticks s)).

Definition sync_fd (target : bytes) : SysM Status :=
  e ← syscall;
  mret match e with
       | Some m => MkStatus IOError (lit "fsync failed for " ++ target ++ lit ": " ++ m)
       | None => status_ok
       end.

Definition close_fd (target : bytes) : SysM Status :=
  e ← syscall;
  mret match e with
       | Some m => MkStatus IOError (lit "failed to close " ++ target ++ lit ": " ++ m)
       | None => status_ok
       end.

(** Opens, syncs and closes the directory; every error is ignored. *)
Definition sync_parent_dir_best_effort (path : bytes) : SysM unit :=
  match parent_path path with
  | [] => mret tt
  | _ =>
      e ← syscall;
      match e with
      | Some _ => mret tt
      | None => _ ← syscall; _ ← syscall; mret tt
      end
  end.

(** * Output file streams

    An [ofstream] is its inode and whether it is still good.  An insertion
    that fails may leave a prefix in the file. *)
Definition stream_put (fd : nat) (good : bool) (b : bytes) : SysM bool :=
  if good then
    o ← next_io;
    match o with
    | IoOk => _ ← on_fs (fs_append fd b); mret true
    | IoShort n => _ ← on_fs (fs_append fd (take n b)); mret false
    | IoIntr | IoError _ => mret false
    end
  else mret false.

Definition stream_close (good : bool) : SysM bool :=
  e ← syscall; mret match e with Some _ => false | None => good end.

(** Reading a whole file through an [ifstream]; [None] when it cannot be
    opened. *)
Definition read_stream (path : bytes) : SysM (option bytes) :=
  e ← syscall;
  match e with
  | Some _ => mret None
  | None => look_fs (fun fs => file_at fs path)
  end.

(** [read_file]: empty when the file cannot be opened. *)
Definition read_file (path : bytes) : SysM bytes := o ← read_stream path; mret (default [] o).
