(* ===== verification/FsFacts.v ===== *)
(** Specifications of the file-system operations, whatever outcomes the
    environment gives their system calls. *)
From S2P Require Import Prelude Util Storage Fs.

(** * Well-formed file systems *)

(** Directory entries name inodes in use, and no inode has two names (the
    server creates no hard links). *)
Definition fs_wf (fs : Fs) : Prop :=
  (forall p i, fs_dir fs !! p = Some i -> (i < fs_next fs)%nat) /\
  (forall p q i, fs_dir fs !! p = Some i -> fs_dir fs !! q = Some i -> p = q).

(** Only the contents of inode [fd] changed: [b] was appended. *)
Definition appended (fd : nat) (b : bytes) (fs fs' : Fs) : Prop :=
  fs_dir fs' = fs_dir fs /\ fs_next fs' = fs_next fs /\
  content fs' fd = content fs fd ++ b /\
  forall i, i <> fd -> content fs' i = content fs i.

Lemma appended_nil fd fs : appended fd [] fs fs.
Proof. split; [done|]. split; [done|]. by rewrite app_nil_r. Qed.

Lemma appended_fs_append fd b fs : appended fd b fs (fs_append fd b fs).
Proof.
  unfold appended, fs_append, content. cbn [fs_dir fs_data fs_next]. split; [done|]. split; [done|].
  split; [by rewrite lookup_insert_eq|]. intros i Hi. by rewrite lookup_insert_ne.
Qed.

Lemma appended_trans fd b1 b2 fs1 fs2 fs3 :
  appended fd b1 fs1 fs2 -> appended fd b2 fs2 fs3 -> appended fd (b1 ++ b2) fs1 fs3.
Proof.
  intros (D1 & N1 & C1 & O1) (D2 & N2 & C2 & O2). unfold appended.
  rewrite D2, N2, C2, C1, app_assoc. split; [done|]. split; [done|]. split; [done|].
  intros i Hi. by rewrite O2, O1.
Qed.

Lemma appended_wf fd b fs fs' : appended fd b fs fs' -> fs_wf fs -> fs_wf fs'.
Proof. intros (D & N & _) [H1 H2]. unfold fs_wf. by rewrite D, N. Qed.

(** Appending to another inode leaves the file at [p] as it is. *)
Lemma appended_file_at fd b fs fs' p :
  appended fd b fs fs' -> fs_dir fs !! p <> Some fd -> file_at fs' p = file_at fs p.
Proof.
  intros (D & _ & _ & O) Hp. unfold file_at. rewrite D. destruct (fs_dir fs !! p) as [i|]; [|done].
  simpl. rewrite O by congruence. done.
Qed.

(** * Opening, renaming, removing *)

Lemma fs_open_spec trunc path fs :
  fs_wf fs ->
  let '(i, fs') := fs_open trunc path fs in
  fs_wf fs' /\ fs_dir fs' !! path = Some i /\
  content fs' i = (if trunc then [] else default [] (file_at fs path)) /\
  (forall q, q <> path -> fs_dir fs' !! q = fs_dir fs !! q) /\
  (forall j, j <> i -> content fs' j = content fs j) /\
  (forall q j, q <> path -> fs_dir fs !! q = Some j -> j <> i).
Proof.
  intros [Hb Hinj]. unfold fs_open, file_at. destruct (fs_dir fs !! path) as [i|] eqn:Hp.
  - assert (Hne : forall q j, q <> path -> fs_dir fs !! q = Some j -> j <> i).
    { intros q j Hq Hj ->. by apply Hq, (Hinj q path i). }
    destruct trunc; unfold content; simpl; (split; [done|]; split; [done|]); simpl.
    + split; [by rewrite lookup_insert_eq|]. split; [done|]. split; [|done].
      intros j Hj. by rewrite lookup_insert_ne.
    + done.
  - unfold content. simpl. split; [split|].
    + intros p i Hi. destruct (decide (p = path)) as [->|Hq]; simpl in Hi.
      * rewrite lookup_insert_eq in Hi. simplify_eq. simpl. lia.
      * rewrite lookup_insert_ne in Hi by done. apply Hb in Hi. simpl. lia.
    + intros p q i Hpi Hqi. simpl in *.
      destruct (decide (p = path)) as [->|Hp'], (decide (q = path)) as [->|Hq'];
        rewrite ?lookup_insert_eq, ?lookup_insert_ne in * by done; simplify_eq; try done.
      * apply Hb in Hqi. lia.
      * apply Hb in Hpi. lia.
      * by apply (Hinj p q i).
    + split; [by rewrite lookup_insert_eq|]. split; [rewrite lookup_insert_eq; by destruct trunc|].
      split; [intros q Hq; by rewrite lookup_insert_ne|].
      split; [intros j Hj; by rewrite lookup_insert_ne|].
      intros q j Hq Hj. apply Hb in Hj. lia.
Qed.

Lemma fs_rename_spec from to fs i :
  fs_wf fs -> fs_dir fs !! from = Some i -> from <> to ->
  let fs' := fs_rename from to fs in
  fs_wf fs' /\ fs_dir fs' !! to = Some i /\ file_at fs' to = Some (content fs i) /\
  (forall q, q <> to -> q <> from -> fs_dir fs' !! q = fs_dir fs !! q).
Proof.
  intros [Hb Hinj] Hi Hne. unfold fs_rename. rewrite Hi. split; [split|].
  - intros p j Hj. simpl in *. destruct (decide (p = to)) as [->|].
    + rewrite lookup_insert_eq in Hj. simplify_eq. by eapply Hb.
    + rewrite lookup_insert_ne in Hj by done. apply lookup_delete_Some in Hj as [_ Hj]. by eapply Hb.
  - intros p q j Hp Hq. simpl in *.
    destruct (decide (p = to)) as [->|Hp'], (decide (q = to)) as [->|Hq'];
      rewrite ?lookup_insert_eq, ?lookup_insert_ne in * by done;
      rewrite ?lookup_delete_Some in *; simplify_eq; try done.
    + destruct Hq as [Hq Hq2]. by destruct Hq; apply (Hinj from q j).
    + destruct Hp as [Hp Hp2]. by destruct Hp; apply (Hinj from p j).
    + destruct Hp, Hq. by apply (Hinj p q j).
  - simpl. unfold file_at, content. simpl. rewrite lookup_insert_eq. split; [done|]. split; [done|].
    intros q Hq1 Hq2. by rewrite lookup_insert_ne, lookup_delete_ne by done.
Qed.

Lemma fs_remove_wf path fs : fs_wf fs -> fs_wf (fs_remove path fs).
Proof.
  intros [Hb Hinj]. split; simpl.
  - intros p i [_ Hi]%lookup_delete_Some. by eapply Hb.
  - intros p q i [_ Hp]%lookup_delete_Some [_ Hq]%lookup_delete_Some. by eapply Hinj.
Qed.

Lemma fs_remove_file_at path fs p : p <> path -> file_at (fs_remove path fs) p = file_at fs p.
Proof. intros Hp. unfold file_at, fs_remove, content. simpl. by rewrite lookup_delete_ne. Qed.

(** * Weakest preconditions of the calls *)

(** States with the same files, between which no clock was read. *)
Definition same_fs (s s' : Sys) : Prop := s_fs s' = s_fs s /\ s_ticks s' = s_ticks s.

Lemma wp_next_io (Q : Io -> Sys -> Prop) s :
  (forall o s', same_fs s s' -> Q o s') -> wp next_io Q s.
Proof. intros HQ. unfold wp, next_io. by destruct (s_io s); apply HQ. Qed.

Lemma wp_syscall (Q : option bytes -> Sys -> Prop) s :
  (forall r s', same_fs s s' -> Q r s') -> wp syscall Q s.
Proof. intros HQ. apply wp_bind, wp_next_io. intros o s' Hs. apply wp_ret. by apply HQ. Qed.

Lemma wp_on_fs f (Q : unit -> Sys -> Prop) s :
  (forall s', s_fs s' = f (s_fs s) -> s_ticks s' = s_ticks s -> Q tt s') -> wp (on_fs f) Q s.
Proof. intros HQ. by apply HQ. Qed.

Lemma wp_look_fs {A} (f : Fs -> A) (Q : A -> Sys -> Prop) s : Q (f (s_fs s)) s -> wp (look_fs f) Q s.
Proof. done. Qed.

Lemma wp_read_clock clock (Q : Z -> Sys -> Prop) s :
  (forall s', s_fs s' = s_fs s -> s_ticks s' = S (s_ticks s) -> Q (clock (s_ticks s)) s') ->
  wp (read_clock clock) Q s.
Proof. intros HQ. by apply HQ. Qed.

Lemma wp_open_file trunc path (Q : bytes + nat -> Sys -> Prop) s :
  (forall m s', same_fs s s' -> Q (inl m) s') ->
  (forall s', s_fs s' = (fs_open trunc path (s_fs s)).2 -> s_ticks s' = s_ticks s ->
     Q (inr (fs_open trunc path (s_fs s)).1) s') ->
  wp (open_file trunc path) Q s.
Proof.
  intros Herr Hok. apply wp_bind, wp_syscall. intros [m|] s' [Hf Ht]; [by apply wp_ret, Herr|].
  unfold wp. destruct (fs_open trunc path (s_fs s')) as [i fs] eqn:E.
  specialize (Hok (MkSys fs (s_io s') (s_ticks s'))). rewrite <- Hf, E in Hok. by apply Hok.
Qed.

Lemma wp_rename from to (Q : option bytes -> Sys -> Prop) s :
  (forall m s', same_fs s s' -> Q (Some m) s') ->
  (forall s', s_fs s' = fs_rename from to (s_fs s) -> s_ticks s' = s_ticks s -> Q None s') ->
  wp (rename from to) Q s.
Proof.
  intros Herr Hok. apply wp_bind, wp_syscall. intros [m|] s' [Hf Ht]; [by apply wp_ret, Herr|].
  apply wp_bind, wp_on_fs. intros s2 Hf2 Ht2. apply wp_ret, Hok; congruence.
Qed.

Lemma wp_remove path (Q : bytes -> Sys -> Prop) s :
  (forall m s', (s_fs s' = s_fs s \/ s_fs s' = fs_remove path (s_fs s)) -> s_ticks s' = s_ticks s -> Q m s') ->
  wp (remove path) Q s.
Proof.
  intros HQ. apply wp_bind, wp_syscall. intros [m|] s' [Hf Ht]; [by apply wp_ret, HQ; [left|]|].
  apply wp_bind, wp_on_fs. intros s2 Hf2 Ht2. apply wp_ret, HQ; [right|]; congruence.
Qed.

Lemma wp_ensure_parent_dir fail path (Q : Status -> Sys -> Prop) s :
  (forall st s', same_fs s s' -> Q st s') -> wp (ensure_parent_dir fail path) Q s.
Proof.
  intros HQ. unfold ensure_parent_dir. destruct (parent_path path); [by apply wp_ret, HQ|].
  apply wp_bind, wp_syscall. intros [m|] s' Hs; by apply wp_ret, HQ.
Qed.

Lemma wp_sync_fd target (Q : Status -> Sys -> Prop) s :
  (forall st s', same_fs s s' -> Q st s') -> wp (sync_fd target) Q s.
Proof. intros HQ. apply wp_bind, wp_syscall. intros r s' Hs. by apply wp_ret, HQ. Qed.

Lemma wp_close_fd target (Q : Status -> Sys -> Prop) s :
  (forall st s', same_fs s s' -> Q st s') -> wp (close_fd target) Q s.
Proof. intros HQ. apply wp_bind, wp_syscall. intros r s' Hs. by apply wp_ret, HQ. Qed.

Lemma same_fs_trans s1 s2 s3 : same_fs s1 s2 -> same_fs s2 s3 -> same_fs s1 s3.
Proof. unfold same_fs. intuition congruence. Qed.

Lemma wp_sync_parent_dir path (Q : unit -> Sys -> Prop) s :
  (forall s', same_fs s s' -> Q tt s') -> wp (sync_parent_dir_best_effort path) Q s.
Proof.
  intros HQ. unfold sync_parent_dir_best_effort. destruct (parent_path path); [by apply wp_ret, HQ|].
  apply wp_bind, wp_syscall. intros [m|] s1 H1; [by apply wp_ret, HQ|].
  apply wp_bind, wp_syscall. intros r2 s2 H2. apply wp_bind, wp_syscall. intros r3 s3 H3.
  apply wp_ret, HQ. eauto using same_fs_trans.
Qed.

(** * Writing *)

(** Whatever happens, what a write leaves is a prefix of the data; all of it
    when it reports success. *)
Lemma write_loop_spec io fd b fs :
  let '(st, (fs', _)) := write_loop io fd b fs in
  exists b', b' `prefix_of` b /\ appended fd b' fs fs' /\ (ok_status st = true -> b' = b).
Proof.
  revert b fs. induction io as [|o io IH]; intros [|c b] fs; cbn [write_loop];
    try (exists []; split; [apply prefix_nil|]; split; [apply appended_nil|done]).
  - exists (c :: b). split; [done|]. split; [apply appended_fs_append|done].
  - destruct o as [|n| |m].
    + exists (c :: b). split; [done|]. split; [apply appended_fs_append|done].
    + destruct (n =? 0)%nat; [exists []; split; [apply prefix_nil|]; split; [apply appended_nil|done]|].
      specialize (IH (drop n (c :: b)) (fs_append fd (take n (c :: b)) fs)).
      destruct (write_loop io fd _ _) as [st [fs' io']]. destruct IH as (b' & [q Hq] & Ha & Hok).
      exists (take n (c :: b) ++ b'). split; [|split].
      * exists q. by rewrite <- app_assoc, <- Hq, take_drop.
      * eapply appended_trans; [apply appended_fs_append|done].
      * intros Hst. by rewrite Hok, take_drop.
    + apply (IH (c :: b) fs).
    + exists []. split; [apply prefix_nil|]. split; [apply appended_nil|done].
Qed.

Lemma wp_write_all fd b (Q : Status -> Sys -> Prop) s :
  (forall st s' b', b' `prefix_of` b -> appended fd b' (s_fs s) (s_fs s') -> s_ticks s' = s_ticks s ->
     (ok_status st = true -> b' = b) -> Q st s') ->
  wp (write_all fd b) Q s.
Proof.
  intros HQ. unfold wp, write_all. pose proof (write_loop_spec (s_io s) fd b (s_fs s)) as Hw.
  destruct (write_loop _ fd b _) as [st [fs' io']]. destruct Hw as (b' & Hp & Ha & Hok).
  by apply (HQ st (MkSys fs' io' (s_ticks s)) b').
Qed.

(** A stream insertion: likewise. *)
Lemma wp_stream_put fd good b (Q : bool -> Sys -> Prop) s :
  (forall r s' b', b' `prefix_of` b -> appended fd b' (s_fs s) (s_fs s') -> s_ticks s' = s_ticks s ->
     (r = true -> good = true /\ b' = b) -> Q r s') ->
  wp (stream_put fd good b) Q s.
Proof.
  intros HQ. unfold stream_put.
  assert (Hnone : forall s', same_fs s s' -> Q false s').
  { intros s' [Hf Ht]. apply (HQ false s' []); [apply prefix_nil| |done|done].
    rewrite Hf. apply appended_nil. }
  destruct good; [|by apply wp_ret, Hnone].
  apply wp_bind, wp_next_io. intros [|n| |m] s1 [Hf Ht]; try (by apply wp_ret, Hnone).
  - apply wp_bind, wp_on_fs. intros s2 Hf2 Ht2. apply wp_ret, (HQ true s2 b); [done| |congruence|done].
    rewrite Hf2, Hf. apply appended_fs_append.
  - apply wp_bind, wp_on_fs. intros s2 Hf2 Ht2.
    apply wp_ret, (HQ false s2 (take n b)); [apply prefix_take| |congruence|done].
    rewrite Hf2, Hf. apply appended_fs_append.
Qed.

Lemma wp_stream_close good (Q : bool -> Sys -> Prop) s :
  (forall r s', same_fs s s' -> (r = true -> good = true) -> Q r s') -> wp (stream_close good) Q s.
Proof.
  intros HQ. apply wp_bind, wp_syscall. intros [m|] s' Hs; apply wp_ret, HQ; done.
Qed.

(** A temporary file never shares its inode with another path. *)
Lemma open_tmp_untouched tmp fs p b fs2 :
  fs_wf fs -> p <> tmp ->
  appended (fs_open true tmp fs).1 b (fs_open true tmp fs).2 fs2 ->
  fs_wf fs2 /\ file_at fs2 p = file_at fs p /\
  fs_dir fs2 !! tmp = Some (fs_open true tmp fs).1 /\ content fs2 (fs_open true tmp fs).1 = b /\
  fs_dir fs2 !! p = fs_dir fs !! p.
Proof.
  intros Hwf Hp Ha. pose proof (fs_open_spec true tmp fs Hwf) as Ho.
  destruct (fs_open true tmp fs) as [i fs1]. cbn [fst snd] in *.
  destruct Ho as (Hwf1 & Hd & Hc & Hother & Hcont & Hne).
  pose proof Ha as (D & _ & C & _).
  split; [by eapply appended_wf|]. split; [|split; [by rewrite D|split; [by rewrite C, Hc|by rewrite D, Hother]]].
  rewrite (appended_file_at i b fs1 fs2).
  - unfold file_at. rewrite Hother by done. destruct (fs_dir fs !! p) as [j|] eqn:Hj; [|done].
    simpl. by rewrite Hcont by (by eapply Hne).
  - done.
  - rewrite Hother by done. intros Hj. by eapply Hne in Hj.
Qed.
