(* ===== verification/Aof.v ===== *)
(** The append-only file: [src/persistence/aof.cpp] and
    [include/veloxdb/persistence/aof.h].

    The object's mutexes order its operations; a function below is one such
    operation run to completion.  Log lines are not represented. *)
From S2P Require Import Prelude Util Config Resp Storage Fs.

Inductive FsyncPolicy := FsyncAlways | FsyncEverySec | FsyncNo.

#[export] Instance FsyncPolicy_eq_dec : EqDecision FsyncPolicy.
Proof. solve_decision. Defined.

Record Aof := MkAof {
  aof_config : PersistenceConfig;
  aof_protocol : ProtocolConfig;
  policy_ : FsyncPolicy;
  fd_ : option nat;
  stop_ : bool;
  sync_thread : bool;
  current_size_ : Z;
  last_write_ok_ : bool;
  last_error_ : bytes
}.

Record ReplayStats := MkReplayStats {
  rs_commands : Z;
  rs_ignored_partial_tail : bool;
  rs_status : Status
}.

Definition parse_policy (policy : bytes) : FsyncPolicy :=
  let lower := to_lower_ascii policy in
  if beq lower (lit "always") then FsyncAlways
  else if beq lower (lit "no") then FsyncNo
  else FsyncEverySec.

Definition new_aof (config : PersistenceConfig) (protocol : ProtocolConfig) : Aof :=
  MkAof config protocol (parse_policy (fsync_policy config)) None false false 0 true [].

Definition set_fd (a : Aof) (fd : option nat) (size : Z) : Aof :=
  MkAof (aof_config a) (aof_protocol a) (policy_ a) fd (stop_ a) (sync_thread a) size
    (last_write_ok_ a) (last_error_ a).

Definition set_size (a : Aof) (size : Z) : Aof := set_fd a (fd_ a) size.

Definition set_write (a : Aof) (ok : bool) (err : bytes) : Aof :=
  MkAof (aof_config a) (aof_protocol a) (policy_ a) (fd_ a) (stop_ a) (sync_thread a)
    (current_size_ a) ok err.

Definition set_threads (a : Aof) (stop running : bool) : Aof :=
  MkAof (aof_config a) (aof_protocol a) (policy_ a) (fd_ a) stop running (current_size_ a)
    (last_write_ok_ a) (last_error_ a).

(** [last_write_ok_ = false; last_error_ = status.message()]. *)
Definition failed (a : Aof) (st : Status) : Aof := set_write a false (message st).

Definition enabled (a : Aof) : bool := aof_enabled (aof_config a) && bool_decide (is_Some (fd_ a)).

Definition dir_failure (parent m : bytes) : bytes :=
  lit "failed to create directory " ++ parent ++ lit ": " ++ m.

Definition reopen_locked (a : Aof) : SysM (Status * Aof) :=
  let path := aof_path (aof_config a) in
  r ← open_file false path;
  match r with
  | inl m => mret (MkStatus IOError (lit "failed to open AOF " ++ path ++ lit ": " ++ m), a)
  | inr fd =>
      (* the old descriptor is closed, its result ignored *)
      _ ← (match fd_ a with Some _ => syscall | None => mret None end);
      e ← syscall;
      size ← look_fs (fun fs => bsize (default [] (file_at fs path)));
      mret (status_ok, set_fd a (Some fd) (match e with Some _ => 0 | None => size end))
  end.

Definition open_ (a : Aof) : SysM (Status * Aof) :=
  if negb (aof_enabled (aof_config a)) then mret (status_ok, a)
  else if negb (path_is_safe (aof_path (aof_config a)))
  then mret (MkStatus InvalidArgument (lit "invalid AOF path"), a)
  else
    st ← ensure_parent_dir dir_failure (aof_path (aof_config a));
    if negb (ok_status st) then mret (st, a)
    else
      '(st, a) ← reopen_locked a;
      if negb (ok_status st) then mret (st, a)
      else
        mret (status_ok,
              set_threads a false (sync_thread a || bool_decide (policy_ a = FsyncEverySec))).

Definition close_ (a : Aof) : SysM Aof :=
  let a := set_threads a true false in
  match fd_ a with
  | None => mret a
  | Some _ => _ ← syscall; _ ← syscall; mret (set_fd a None (current_size_ a))
  end.

Definition write_bytes_locked (a : Aof) (b : bytes) : SysM (Status * Aof) :=
  match fd_ a with
  | None => mret (MkStatus IOError (lit "AOF is not open"), a)
  | Some fd =>
      st ← write_all fd b;
      mret (st, if ok_status st then set_size a (u64 (current_size_ a + bsize b)) else a)
  end.

Definition append (a : Aof) (args : list bytes) : SysM (Status * Aof) :=
  if negb (enabled a) then mret (status_ok, a)
  else
    '(st, a) ← write_bytes_locked a (encode_command args);
    st ← (if ok_status st && bool_decide (policy_ a = FsyncAlways)
          then e ← syscall;
               mret match e with
                    | Some m => MkStatus IOError (lit "fsync failed: " ++ m)
                    | None => st
                    end
          else mret st);
    if negb (ok_status st) then mret (st, failed a st)
    else mret (status_ok, set_write a true (last_error_ a)).

Definition sync (a : Aof) : SysM Status :=
  match fd_ a with
  | None => mret status_ok
  | Some _ => sync_fd (aof_path (aof_config a))
  end.

(** One turn of [sync_loop]. *)
Definition sync_tick (a : Aof) : SysM Aof :=
  st ← sync a;
  mret (if negb (ok_status st) then failed a st else a).

(** * Rewriting *)

(** The commands that recreate one entry. *)
Definition entry_commands (entry : SnapshotEntry) : list (list bytes) :=
  [lit "SET"; sn_key entry; sn_value entry] ::
  match sn_expire_at_unix_ms entry with
  | Some ms => [[lit "PEXPIREAT"; sn_key entry; to_string ms]]
  | None => []
  end.

(** The loop over the snapshot: stops at the first failed write. *)
Fixpoint write_commands (fd : nat) (cmds : list (list bytes)) : SysM Status :=
  match cmds with
  | [] => mret status_ok
  | c :: cmds =>
      st ← write_all fd (encode_command c);
      if negb (ok_status st) then mret st else write_commands fd cmds
  end.

Section Rewrite.
Context `{Platform}.
Variable clock : nat -> TimePoint.

(** [storage.snapshot()]. *)
Definition take_snapshot (e : StorageEngine) : SysM (list SnapshotEntry * StorageEngine) :=
  now ← read_clock clock; mret (snapshot now e).

(** Installing the finished temporary file. *)
Definition install_rewrite (a : Aof) (tmp_path : bytes) : SysM (Status * Aof) :=
  let path := aof_path (aof_config a) in
  e ← rename tmp_path path;
  match e with
  | Some _ =>
      (* [remove] overwrites the error code that is then reported *)
      m ← remove tmp_path;
      let st := MkStatus IOError (lit "failed to install rewritten AOF: " ++ m) in
      mret (st, failed a st)
  | None =>
      _ ← sync_parent_dir_best_effort path;
      _ ← (if path_is_safe (manifest_path (aof_config a))
           then remove (manifest_path (aof_config a)) else mret []);
      '(st, a) ← reopen_locked a;
      if negb (ok_status st) then mret (st, failed a st)
      else mret (status_ok, set_write a true [])
  end.

(** [rewrite]; [pid] is the process id that names the temporary file. *)
Definition rewrite_tmp_path (pid : Z) (path : bytes) : bytes :=
  path ++ lit ".rewrite." ++ to_string pid ++ lit ".tmp".

Definition rewrite (pid : Z) (a : Aof) (e : StorageEngine) : SysM (Status * Aof * StorageEngine) :=
  let path := aof_path (aof_config a) in
  if negb (aof_enabled (aof_config a))
  then mret (MkStatus InvalidArgument (lit "AOF is disabled"), a, e)
  else if negb (path_is_safe path)
  then mret (MkStatus InvalidArgument (lit "invalid AOF path"), a, e)
  else
    st ← ensure_parent_dir dir_failure path;
    if negb (ok_status st) then mret (st, failed a st, e)
    else
      let tmp_path := rewrite_tmp_path pid path in
      r ← open_file true tmp_path;
      match r with
      | inl m =>
          let st := MkStatus IOError (lit "failed to open AOF rewrite temp file: " ++ m) in
          mret (st, failed a st, e)
      | inr tmp_fd =>
          '(entries, e) ← take_snapshot e;
          st ← write_commands tmp_fd (flat_map entry_commands entries);
          if negb (ok_status st) then
            _ ← syscall; _ ← remove tmp_path; mret (st, failed a st, e)
          else
            st ← sync_fd tmp_path;
            close_status ← close_fd tmp_path;
            let st := if ok_status st && negb (ok_status close_status) then close_status else st in
            if negb (ok_status st) then
              _ ← remove tmp_path; mret (st, failed a st, e)
            else
              '(st, a) ← install_rewrite a tmp_path;
              mret (st, a, e)
      end.
End Rewrite.

(** * Replaying *)

Section Replay.
Context {W : Type}.
Variable callback : list bytes -> St W Status.

(** The command loop of [replay_file]; [None] stands for fuel that ran out. *)
Fixpoint replay_loop (fuel : nat) (p : Parser) (commands : Z) : St W (option ReplayStats) :=
  match fuel with
  | O => mret None
  | S fuel =>
      match next_command p with
      | (CNeedMore, p) =>
          mret (Some (MkReplayStats commands (negb (buffered_bytes p =? 0)) status_ok))
      | (CError err, p) =>
          mret (Some (MkReplayStats commands false
                  (MkStatus ProtocolError (lit "AOF replay failed: " ++ err))))
      | (CFault, _) => mret None
      | (COk args _, p) =>
          st ← callback args;
          if negb (ok_status st) then mret (Some (MkReplayStats commands false st))
          else replay_loop fuel p (commands + 1)
      end
  end.

(** [replay_file] on the bytes of an existing file: every command takes at
    least one byte, so one more step than there are bytes is enough. *)
Definition replay_bytes (protocol : ProtocolConfig) (content : bytes) (start_offset : Z)
    : St W (option ReplayStats) :=
  if bsize content =? 0 then mret (Some (MkReplayStats 0 false status_ok))
  else if bsize content <? start_offset
  then mret (Some (MkReplayStats 0 false
               (MkStatus ProtocolError (lit "AOF replay offset is beyond end of file"))))
  else if start_offset =? bsize content then mret (Some (MkReplayStats 0 false status_ok))
  else
    let rest := drop (Z.to_nat start_offset) content in
    let '(st, p) := Resp.append (MkParser (parser_options_from_config protocol) []) rest in
    if negb (ok_status st) then mret (Some (MkReplayStats 0 false st))
    else replay_loop (S (length rest)) p 0.
End Replay.
