(* ===== verification/Snapshot.v ===== *)
(** Snapshots and their manifest: [src/persistence/snapshot.cpp] and
    [include/veloxdb/persistence/snapshot.h]. *)
From S2P Require Import Prelude Util Config Resp Storage Fs Aof.

Record Manifest := MkManifest {
  mf_snapshot_path : bytes;
  mf_aof_path : bytes;
  mf_aof_offset : Z;
  mf_created_unix_ms : Z
}.

Record RecoveryLoadResult := MkRecovery {
  rl_status : Status;
  rl_loaded_snapshot : bool;
  rl_found_manifest : bool;
  rl_aof_replay_offset : Z
}.

Record SnapshotStore := MkStore {
  ss_path : bytes;
  ss_manifest_path : bytes;
  ss_protocol : ProtocolConfig
}.

Definition default_manifest_path (snapshot_path : bytes) : bytes := snapshot_path ++ lit ".manifest".

Definition new_store (path : bytes) (protocol : ProtocolConfig) (manifest_path : bytes) : SnapshotStore :=
  MkStore path (match manifest_path with [] => default_manifest_path path | p => p end) protocol.

(** * Path normalisation

    [filesystem::path::lexically_normal]: separators are collapsed, ["."]
    components dropped, a [".."] cancels the component before it (or is dropped
    at the root), and a path that becomes empty is ["."].  A separator stays at
    the end when the path ended in one, in ["."], or in a [".."] that cancelled
    a component, unless the last component is [".."]. *)
Fixpoint split_slash (cur : bytes) (b : bytes) : list bytes :=
  match b with
  | [] => [rev cur]
  | c :: rest => if is_slash c then rev cur :: split_slash [] rest else split_slash (c :: cur) rest
  end.

Definition dot : bytes := lit ".".
Definition dotdot : bytes := lit "..".

(** The components, innermost first, and whether the text so far ends in a
    separator. *)
Fixpoint normal_components (absolute : bool) (parts : list bytes) (stack : list bytes) (sep : bool)
    : list bytes * bool :=
  match parts with
  | [] => (stack, sep)
  | p :: rest =>
      if beq p [] || beq p dot then normal_components absolute rest stack true
      else if beq p dotdot then
        match stack with
        | q :: stack' =>
            if beq q dotdot then normal_components absolute rest (p :: stack) false
            else normal_components absolute rest stack' true
        | [] =>
            if absolute then normal_components absolute rest [] true
            else normal_components absolute rest [p] false
        end
      else normal_components absolute rest (p :: stack) false
  end.

Fixpoint join_slash (parts : list bytes) : bytes :=
  match parts with
  | [] => []
  | [p] => p
  | p :: rest => p ++ lit "/" ++ join_slash rest
  end.

Definition normalize_path_string (path : bytes) : bytes :=
  match path with
  | [] => []
  | c :: _ =>
      let absolute := is_slash c in
      let '(stack, sep) := normal_components absolute (split_slash [] path) [] false in
      let body := join_slash (rev stack) in
      let tail :=
        match stack with
        | [] => []
        | q :: _ => if sep && negb (beq q dotdot) then lit "/" else []
        end in
      match (if absolute then lit "/" else []) ++ body ++ tail with
      | [] => dot
      | p => p
      end
  end.

(** * Manifest text *)

Fixpoint split_lines (cur : bytes) (b : bytes) : list bytes :=
  match b with
  | [] => match cur with [] => [] | _ => [rev cur] end
  | c :: rest => if bool_decide (c = LF) then rev cur :: split_lines [] rest else split_lines (c :: cur) rest
  end.

(** [getline] until the end of the text: the last line may lack its newline. *)
Definition getlines (b : bytes) : list bytes := split_lines [] b.

Definition not_eq_sign (c : ascii) : bool := negb (bool_decide (c = "="%char)).

(** One line: comments and lines without ["="] are skipped, and the first value
    of a key wins. *)
Definition manifest_line (values : gmap bytes bytes) (raw : bytes) : gmap bytes bytes :=
  let line := trim raw in
  match line with
  | [] => values
  | c :: _ =>
      if bool_decide (c = "#"%char) then values
      else
        match span not_eq_sign line with
        | (_, []) => values
        | (key, _ :: value) =>
            let key := trim key in
            match values !! key with
            | Some _ => values
            | None => <[key := trim value]> values
            end
        end
  end.

Definition parse_manifest_lines (content : bytes) : gmap bytes bytes :=
  fold_left manifest_line (getlines content) ∅.

(** The manifest's text, one insertion per line. *)
Definition manifest_lines (m : Manifest) : list bytes :=
  [lit "format_version=1" ++ [LF];
   lit "snapshot_path=" ++ normalize_path_string (mf_snapshot_path m) ++ [LF];
   lit "aof_path=" ++ normalize_path_string (mf_aof_path m) ++ [LF];
   lit "aof_offset=" ++ to_string (mf_aof_offset m) ++ [LF];
   lit "created_unix_ms=" ++ to_string (mf_created_unix_ms m) ++ [LF]].

(** What [read_manifest] makes of the text. *)
Definition manifest_of_text (content : bytes) : option Manifest :=
  let values := parse_manifest_lines content in
  version ← values !! lit "format_version";
  snapshot_path ← values !! lit "snapshot_path";
  aof_path ← values !! lit "aof_path";
  aof_offset ← values !! lit "aof_offset";
  created ← values !! lit "created_unix_ms";
  if negb (beq version (lit "1")) then None
  else
    offset ← parse_u64 aof_offset;
    created ← parse_i64 created;
    Some (MkManifest snapshot_path aof_path offset created).

(** * Saving *)

Definition snapshot_dir_failure (parent m : bytes) : bytes :=
  lit "failed to create snapshot directory: " ++ m.

Fixpoint put_all (fd : nat) (good : bool) (parts : list bytes) : SysM bool :=
  match parts with
  | [] => mret good
  | b :: rest => good ← stream_put fd good b; put_all fd good rest
  end.

(** The loop over the snapshot: after each entry the stream is tested. *)
Fixpoint put_entries (fd : nat) (entries : list SnapshotEntry) : SysM bool :=
  match entries with
  | [] => mret true
  | entry :: rest =>
      good ← put_all fd true (map encode_command (entry_commands entry));
      if negb good then mret false else put_entries fd rest
  end.

(** The common end of the two writers: move the temporary file into place. *)
Definition install (failure : bytes) (tmp_path path : bytes) : SysM Status :=
  e ← rename tmp_path path;
  match e with
  | Some m => _ ← remove tmp_path; mret (MkStatus IOError (failure ++ m))
  | None => mret status_ok
  end.

Definition write_manifest (ss : SnapshotStore) (m : Manifest) : SysM Status :=
  let path := ss_manifest_path ss in
  if negb (path_is_safe path)
  then mret (MkStatus InvalidArgument (lit "invalid snapshot manifest path"))
  else
    st ← ensure_parent_dir snapshot_dir_failure path;
    if negb (ok_status st) then mret st
    else
      let tmp_path := path ++ lit ".tmp" in
      r ← open_file true tmp_path;
      match r with
      | inl _ => mret (MkStatus IOError (lit "failed to open snapshot manifest temp file"))
      | inr fd =>
          good ← put_all fd true (manifest_lines m);
          good ← stream_close good;
          if negb good then mret (MkStatus IOError (lit "failed writing snapshot manifest"))
          else install (lit "failed to install snapshot manifest: ") tmp_path path
      end.

Definition read_manifest (ss : SnapshotStore) : SysM (option Manifest) :=
  let path := ss_manifest_path ss in
  present ← exists_file path;
  if negb (path_is_safe path) || negb present then mret None
  else
    content ← read_stream path;
    mret (content ≫= manifest_of_text).

Definition manifest_matches (ss : SnapshotStore) (m : Manifest) (aof_path : bytes) (aof_size : Z)
    : SysM bool :=
  if negb (beq (mf_snapshot_path m) (normalize_path_string (ss_path ss))) then mret false
  else if negb (beq (mf_aof_path m) (normalize_path_string aof_path)) then mret false
  else if aof_size <? mf_aof_offset m then mret false
  else exists_file (ss_path ss).

Definition remove_manifest (ss : SnapshotStore) : SysM unit :=
  if negb (path_is_safe (ss_manifest_path ss)) then mret tt
  else _ ← remove (ss_manifest_path ss); mret tt.

Section Save.
Context `{Platform}.
Variable clock : nat -> TimePoint.

Definition save_snapshot_file (ss : SnapshotStore) (e : StorageEngine) : SysM (Status * StorageEngine) :=
  let path := ss_path ss in
  if negb (path_is_safe path)
  then mret (MkStatus InvalidArgument (lit "invalid snapshot path"), e)
  else
    st ← ensure_parent_dir snapshot_dir_failure path;
    if negb (ok_status st) then mret (st, e)
    else
      let tmp_path := path ++ lit ".tmp" in
      r ← open_file true tmp_path;
      match r with
      | inl _ => mret (MkStatus IOError (lit "failed to open snapshot temp file"), e)
      | inr fd =>
          '(entries, e) ← take_snapshot clock e;
          good ← put_entries fd entries;
          if negb good then mret (MkStatus IOError (lit "failed writing snapshot"), e)
          else
            good ← stream_close good;
            if negb good then mret (MkStatus IOError (lit "failed closing snapshot"), e)
            else st ← install (lit "failed to install snapshot: ") tmp_path path; mret (st, e)
      end.

(** [save(storage, aof)]; the checkpoint is the size of the log when its guard
    is taken. *)
Definition save (ss : SnapshotStore) (e : StorageEngine) (aof : option Aof) : SysM (Status * StorageEngine) :=
  match (a ← aof; if enabled a then Some a else None) with
  | Some a =>
      let offset := current_size_ a in
      st ← sync a;
      if negb (ok_status st) then mret (st, e)
      else
        '(st, e) ← save_snapshot_file ss e;
        if negb (ok_status st) then mret (st, e)
        else
          now ← read_clock clock;
          st ← write_manifest ss
                 (MkManifest (ss_path ss) (aof_path (aof_config a)) offset (unix_ms now));
          mret (st, e)
  | None =>
      '(st, e) ← save_snapshot_file ss e;
      _ ← (if ok_status st then remove_manifest ss else mret tt);
      mret (st, e)
  end.

(** * Loading *)

(** One command of a snapshot file. *)
Definition load_command (args : list bytes) (e : StorageEngine) : SysM (Status * StorageEngine) :=
  match args with
  | [name; key; value] =>
      if beq name (lit "SET") then
        now ← read_clock clock;
        let '(w, e) := set now key value None Always e in
        mret (if bool_decide (w_code w = WOk) then status_ok
              else MkStatus InternalError (storage_write_error (w_code w)), e)
      else if beq name (lit "PEXPIREAT") then
        match parse_i64 value with
        | None => mret (MkStatus ProtocolError (lit "invalid PEXPIREAT in snapshot"), e)
        | Some ms =>
            now ← read_clock clock;
            mret (status_ok, (expire_at now key (timepoint_from_unix_ms ms) e).2)
        end
      else mret (MkStatus ProtocolError (lit "unknown snapshot command"), e)
  | _ => mret (MkStatus ProtocolError (lit "unknown snapshot command"), e)
  end.

(** The command loop of [load]; [None] stands for fuel that ran out. *)
Fixpoint load_loop (fuel : nat) (p : Parser) (e : StorageEngine) : SysM (option Status * StorageEngine) :=
  match fuel with
  | O => mret (None, e)
  | S fuel =>
      match next_command p with
      | (CNeedMore, p) =>
          mret (Some (if buffered_bytes p =? 0 then status_ok
                      else MkStatus ProtocolError (lit "partial snapshot command")), e)
      | (CError err, _) => mret (Some (MkStatus ProtocolError err), e)
      | (CFault, _) => mret (None, e)
      | (COk args _, p) =>
          '(st, e) ← load_command args e;
          if negb (ok_status st) then mret (Some st, e) else load_loop fuel p e
      end
  end.

(** [load] on the bytes of the snapshot file. *)
Definition load_bytes (ss : SnapshotStore) (content : bytes) (e : StorageEngine)
    : SysM (option Status * StorageEngine) :=
  match content with
  | [] => mret (Some status_ok, e)
  | _ =>
      let '(st, p) := Resp.append (MkParser (parser_options_from_config (ss_protocol ss)) []) content in
      if negb (ok_status st) then mret (Some st, e)
      else load_loop (S (length content)) p e
  end.

Definition load (ss : SnapshotStore) (e : StorageEngine) : SysM (option Status * StorageEngine) :=
  let path := ss_path ss in
  present ← exists_file path;
  if negb (path_is_safe path) || negb present then mret (Some status_ok, e)
  else
    content ← read_stream path;
    match content with
    | None => mret (Some (MkStatus IOError (lit "failed to open snapshot")), e)
    | Some content => load_bytes ss content e
    end.

Definition load_for_recovery (ss : SnapshotStore) (e : StorageEngine) (aof_path : bytes) (aof_size : Z)
    : SysM (option RecoveryLoadResult * StorageEngine) :=
  manifest ← read_manifest ss;
  match manifest with
  | None => mret (Some (MkRecovery status_ok false false 0), e)
  | Some m =>
      matches ← manifest_matches ss m aof_path aof_size;
      if negb matches then mret (Some (MkRecovery status_ok false true 0), e)
      else
        '(st, e) ← load ss e;
        mret (match st with
              | None => None
              | Some st =>
                  Some (if ok_status st then MkRecovery st true true (mf_aof_offset m)
                        else MkRecovery st false true 0)
              end, e)
  end.
End Save.
