(* ===== verification/ConfigLoader.v ===== *)
(** The configuration loader: [src/config/config.cpp].

    Settings come from a file, the environment and the command line, in this
    order; each goes through [apply_kv], which knows every key. *)
From S2P Require Import Prelude Util Config Resp Storage Fs Aof Snapshot.

Definition dquote : ascii := Ascii.ascii_of_nat 34.

(** [front()] and [back()]. *)
Definition front (b : bytes) : option ascii := match b with [] => None | c :: _ => Some c end.
Definition back (b : bytes) : option ascii := front (reverse b).

Definition strip_quotes (value : bytes) : bytes :=
  let value := trim value in
  match value with
  | c :: ((_ :: _) as rest) =>
      if bool_decide (c = dquote) && bool_decide (back rest = Some dquote)
      then take (length rest - 1) rest else value
  | _ => value
  end.

Fixpoint remove_comment_from (in_string : bool) (line : bytes) : bytes :=
  match line with
  | [] => []
  | c :: rest =>
      let in_string := if bool_decide (c = dquote) then negb in_string else in_string in
      if negb in_string && bool_decide (c = "#"%char) then []
      else c :: remove_comment_from in_string rest
  end.

Definition remove_comment (line : bytes) : bytes := remove_comment_from false line.

(** * Values *)

Definition invalid (m : bytes) : Status := MkStatus InvalidArgument m.

(** The parsers of [set_u16], [set_size], [set_bool] and [set_bytes]: an error
    or the value to store. *)
Definition set_u16 (value name : bytes) : Status + Z :=
  match parse_u64 value with
  | Some n => if 65535 <? n then inl (invalid (lit "invalid uint16 value for " ++ name)) else inr n
  | None => inl (invalid (lit "invalid uint16 value for " ++ name))
  end.

Definition set_size (value name : bytes) : Status + Z :=
  match parse_u64 value with
  | Some n => if u64_max <? n then inl (invalid (lit "invalid size value for " ++ name)) else inr n
  | None => inl (invalid (lit "invalid size value for " ++ name))
  end.

Definition set_bool (value name : bytes) : Status + bool :=
  match parse_bool value with
  | Some b => inr b
  | None => inl (invalid (lit "invalid bool value for " ++ name))
  end.

Definition set_bytes (value name : bytes) : Status + Z :=
  match parse_byte_size value with
  | Some n => inr n
  | None => inl (invalid (lit "invalid byte size for " ++ name))
  end.

(** * Fields *)

Definition put_server (c : Config) (s : ServerConfig) : Config :=
  MkConfig s (storage c) (persistence c) (expiration c) (logging_level c) (metrics_enabled c)
    (admin_shutdown_enabled c) (protocol c).
Definition put_storage (c : Config) (s : StorageConfig) : Config :=
  MkConfig (server c) s (persistence c) (expiration c) (logging_level c) (metrics_enabled c)
    (admin_shutdown_enabled c) (protocol c).
Definition put_persistence (c : Config) (p : PersistenceConfig) : Config :=
  MkConfig (server c) (storage c) p (expiration c) (logging_level c) (metrics_enabled c)
    (admin_shutdown_enabled c) (protocol c).
Definition put_expiration (c : Config) (x : ExpirationConfig) : Config :=
  MkConfig (server c) (storage c) (persistence c) x (logging_level c) (metrics_enabled c)
    (admin_shutdown_enabled c) (protocol c).
Definition put_protocol (c : Config) (p : ProtocolConfig) : Config :=
  MkConfig (server c) (storage c) (persistence c) (expiration c) (logging_level c) (metrics_enabled c)
    (admin_shutdown_enabled c) p.

Definition put_host (c : Config) (v : bytes) : Config :=
  let s := server c in put_server c (MkServerConfig v (port s) (workers s) (max_clients s)).
Definition put_port (c : Config) (v : Z) : Config :=
  let s := server c in put_server c (MkServerConfig (host s) v (workers s) (max_clients s)).
Definition put_workers (c : Config) (v : Z) : Config :=
  let s := server c in put_server c (MkServerConfig (host s) (port s) v (max_clients s)).
Definition put_max_clients (c : Config) (v : Z) : Config :=
  let s := server c in put_server c (MkServerConfig (host s) (port s) (workers s) v).
Definition put_shards (c : Config) (v : Z) : Config :=
  put_storage c (MkStorageConfig v (max_memory_bytes (storage c))).
Definition put_max_memory (c : Config) (v : Z) : Config :=
  put_storage c (MkStorageConfig (shards (storage c)) v).
Definition put_aof_enabled (c : Config) (v : bool) : Config :=
  let p := persistence c in
  put_persistence c (MkPersistenceConfig v (aof_path p) (fsync_policy p) (snapshot_path p) (manifest_path p)).
Definition put_aof_path (c : Config) (v : bytes) : Config :=
  let p := persistence c in
  put_persistence c (MkPersistenceConfig (aof_enabled p) v (fsync_policy p) (snapshot_path p) (manifest_path p)).
Definition put_fsync_policy (c : Config) (v : bytes) : Config :=
  let p := persistence c in
  put_persistence c (MkPersistenceConfig (aof_enabled p) (aof_path p) v (snapshot_path p) (manifest_path p)).
Definition put_snapshot_path (c : Config) (v : bytes) : Config :=
  let p := persistence c in
  put_persistence c (MkPersistenceConfig (aof_enabled p) (aof_path p) (fsync_policy p) v (manifest_path p)).
Definition put_manifest_path (c : Config) (v : bytes) : Config :=
  let p := persistence c in
  put_persistence c (MkPersistenceConfig (aof_enabled p) (aof_path p) (fsync_policy p) (snapshot_path p) v).
Definition put_active_enabled (c : Config) (v : bool) : Config :=
  let x := expiration c in put_expiration c (MkExpirationConfig v (interval_ms x) (sample_per_shard x)).
Definition put_interval_ms (c : Config) (v : Z) : Config :=
  let x := expiration c in put_expiration c (MkExpirationConfig (active_enabled x) v (sample_per_shard x)).
Definition put_sample_per_shard (c : Config) (v : Z) : Config :=
  let x := expiration c in put_expiration c (MkExpirationConfig (active_enabled x) (interval_ms x) v).
Definition put_logging_level (c : Config) (v : bytes) : Config :=
  MkConfig (server c) (storage c) (persistence c) (expiration c) v (metrics_enabled c)
    (admin_shutdown_enabled c) (protocol c).
Definition put_metrics_enabled (c : Config) (v : bool) : Config :=
  MkConfig (server c) (storage c) (persistence c) (expiration c) (logging_level c) v
    (admin_shutdown_enabled c) (protocol c).
Definition put_shutdown_enabled (c : Config) (v : bool) : Config :=
  MkConfig (server c) (storage c) (persistence c) (expiration c) (logging_level c) (metrics_enabled c)
    v (protocol c).
Definition put_max_request_bytes (c : Config) (v : Z) : Config :=
  let p := protocol c in
  put_protocol c (MkProtocolConfig v (max_array_elements p) (max_key_size p) (max_value_size p)
                    (max_output_buffer_bytes p)).
Definition put_max_array_elements (c : Config) (v : Z) : Config :=
  let p := protocol c in
  put_protocol c (MkProtocolConfig (max_request_bytes p) v (max_key_size p) (max_value_size p)
                    (max_output_buffer_bytes p)).
Definition put_max_key_size (c : Config) (v : Z) : Config :=
  let p := protocol c in
  put_protocol c (MkProtocolConfig (max_request_bytes p) (max_array_elements p) v (max_value_size p)
                    (max_output_buffer_bytes p)).
Definition put_max_value_size (c : Config) (v : Z) : Config :=
  let p := protocol c in
  put_protocol c (MkProtocolConfig (max_request_bytes p) (max_array_elements p) (max_key_size p) v
                    (max_output_buffer_bytes p)).
Definition put_max_output_buffer_bytes (c : Config) (v : Z) : Config :=
  let p := protocol c in
  put_protocol c (MkProtocolConfig (max_request_bytes p) (max_array_elements p) (max_key_size p)
                    (max_value_size p) v).

(** Storing a parsed value; an error leaves the configuration alone. *)
Definition store {A} (put : Config -> A -> Config) (c : Config) (r : Status + A) : Status * Config :=
  match r with inl st => (st, c) | inr v => (status_ok, put c v) end.

(** * [apply_kv] *)

Definition apply_kv (c : Config) (key value : bytes) : Status * Config :=
  let v := strip_quotes value in
  let named name := beq key (lit name) in
  if named "server.host" then (status_ok, put_host c v)
  else if named "server.port" then store put_port c (set_u16 v key)
  else if named "server.workers" then store put_workers c (set_size v key)
  else if named "server.max_clients" then store put_max_clients c (set_size v key)
  else if named "storage.shards" then store put_shards c (set_size v key)
  else if named "storage.max_memory" then store put_max_memory c (set_bytes v key)
  else if named "storage.max_memory_bytes" then store put_max_memory c (set_size v key)
  else if named "persistence.aof_enabled" then store put_aof_enabled c (set_bool v key)
  else if named "persistence.aof_path" then (status_ok, put_aof_path c v)
  else if named "persistence.fsync_policy" then
    let policy := to_lower_ascii v in
    if negb (beq policy (lit "always")) && negb (beq policy (lit "everysec")) && negb (beq policy (lit "no"))
    then (invalid (lit "fsync policy must be always, everysec, or no"), c)
    else (status_ok, put_fsync_policy c policy)
  else if named "persistence.snapshot_path" then (status_ok, put_snapshot_path c v)
  else if named "persistence.manifest_path" then (status_ok, put_manifest_path c v)
  else if named "expiration.active_enabled" then store put_active_enabled c (set_bool v key)
  else if named "expiration.interval_ms" then
    match parse_u64 v with
    | None => (invalid (lit "invalid interval"), c)
    | Some n => (status_ok, put_interval_ms c n)
    end
  else if named "expiration.sample_per_shard" then store put_sample_per_shard c (set_size v key)
  else if named "logging.level" then (status_ok, put_logging_level c (to_lower_ascii v))
  else if named "metrics.enabled" then store put_metrics_enabled c (set_bool v key)
  else if named "admin.shutdown_enabled" then store put_shutdown_enabled c (set_bool v key)
  else if named "protocol.max_request_bytes" then store put_max_request_bytes c (set_bytes v key)
  else if named "protocol.max_array_elements" then store put_max_array_elements c (set_size v key)
  else if named "protocol.max_key_size" then store put_max_key_size c (set_bytes v key)
  else if named "protocol.max_value_size" then store put_max_value_size c (set_bytes v key)
  else if named "protocol.max_output_buffer_bytes" then store put_max_output_buffer_bytes c (set_bytes v key)
  else (invalid (lit "unknown config key: " ++ key), c).

(** * The three sources *)

Definition starts_with (prefix b : bytes) : bool := beq (take (length prefix) b) prefix.

Definition is_bracket (c : ascii) (b : option ascii) : bool := bool_decide (b = Some c).

(** The lines of a file: [section] is the current section, [line_no] the number
    of lines read. *)
Fixpoint load_lines (lines : list bytes) (section : bytes) (line_no : Z) (c : Config) : Status * Config :=
  match lines with
  | [] => (status_ok, c)
  | raw :: lines =>
      let line_no := line_no + 1 in
      let line := trim (remove_comment raw) in
      match line with
      | [] => load_lines lines section line_no c
      | _ =>
          if is_bracket "["%char (front line) && is_bracket "]"%char (back line)
          then load_lines lines (trim (take (length line - 2) (tl line))) line_no c
          else
            match span not_eq_sign line with
            | (_, []) => (invalid (lit "invalid config line " ++ to_string line_no), c)
            | (before, _ :: after) =>
                let key := match section with [] => trim before | _ => section ++ lit "." ++ trim before end in
                let '(st, c) := apply_kv c key (strip_quotes after) in
                if negb (ok_status st)
                then (invalid (lit "config line " ++ to_string line_no ++ lit ": " ++ message st), c)
                else load_lines lines section line_no c
            end
      end
  end.

Definition load_file (c : Config) (path : bytes) : SysM (Status * Config) :=
  content ← read_stream path;
  mret match content with
       | None => (MkStatus IOError (lit "failed to open config file: " ++ path), c)
       | Some content => load_lines (getlines content) [] 0 c
       end.

Definition env_entries : list (string * string) :=
  [("VELOXDB_HOST", "server.host");
   ("VELOXDB_PORT", "server.port");
   ("VELOXDB_WORKERS", "server.workers");
   ("VELOXDB_MAX_CLIENTS", "server.max_clients");
   ("VELOXDB_STORAGE_SHARDS", "storage.shards");
   ("VELOXDB_MAX_MEMORY", "storage.max_memory");
   ("VELOXDB_AOF_ENABLED", "persistence.aof_enabled");
   ("VELOXDB_AOF_PATH", "persistence.aof_path");
   ("VELOXDB_FSYNC_POLICY", "persistence.fsync_policy");
   ("VELOXDB_SNAPSHOT_PATH", "persistence.snapshot_path");
   ("VELOXDB_MANIFEST_PATH", "persistence.manifest_path");
   ("VELOXDB_LOG_LEVEL", "logging.level");
   ("VELOXDB_SHUTDOWN_ENABLED", "admin.shutdown_enabled");
   ("VELOXDB_EXPIRATION_ACTIVE", "expiration.active_enabled");
   ("VELOXDB_EXPIRATION_INTERVAL_MS", "expiration.interval_ms")]%string.

Section Load.
(** The environment: [std::getenv]. *)
Variable getenv : bytes -> option bytes.

Fixpoint apply_env_from (entries : list (string * string)) (c : Config) : Status * Config :=
  match entries with
  | [] => (status_ok, c)
  | (env, key) :: entries =>
      match getenv (lit env) with
      | None => apply_env_from entries c
      | Some value =>
          let '(st, c) := apply_kv c (lit key) value in
          if negb (ok_status st) then (invalid (lit env ++ lit ": " ++ message st), c)
          else apply_env_from entries c
      end
  end.

Definition apply_env (c : Config) : Status * Config := apply_env_from env_entries c.

Definition aliases : list (string * string) :=
  [("host", "server.host");
   ("port", "server.port");
   ("workers", "server.workers");
   ("max-clients", "server.max_clients");
   ("storage-shards", "storage.shards");
   ("max-memory", "storage.max_memory");
   ("aof-enabled", "persistence.aof_enabled");
   ("aof-path", "persistence.aof_path");
   ("fsync-policy", "persistence.fsync_policy");
   ("snapshot-path", "persistence.snapshot_path");
   ("manifest-path", "persistence.manifest_path");
   ("log-level", "logging.level");
   ("shutdown-enabled", "admin.shutdown_enabled");
   ("max-request-bytes", "protocol.max_request_bytes");
   ("max-key-size", "protocol.max_key_size");
   ("max-value-size", "protocol.max_value_size");
   ("max-output-buffer-bytes", "protocol.max_output_buffer_bytes");
   ("expiration-interval-ms", "expiration.interval_ms");
   ("expiration-active", "expiration.active_enabled")]%string.

Fixpoint find_alias (name : bytes) (l : list (string * string)) : option bytes :=
  match l with
  | [] => None
  | (a, key) :: l => if beq name (lit a) then Some (lit key) else find_alias name l
  end.

Definition apply_cli_pair (c : Config) (name value : bytes) : Status * Config :=
  match find_alias name aliases with
  | None => (invalid (lit "unknown option --" ++ name), c)
  | Some key => apply_kv c key value
  end.

Definition config_eq : bytes := lit "--config=".

(** The first pass over the arguments: help, an error, or the path of the
    configuration file. *)
Inductive Scan := ScanHelp | ScanError (st : Status) | ScanPath (path : bytes).

Fixpoint scan_args (args : list bytes) (config_path : bytes) : Scan :=
  match args with
  | [] => ScanPath config_path
  | arg :: rest =>
      if beq arg (lit "--help") || beq arg (lit "-h") then ScanHelp
      else if beq arg (lit "--config") then
        match rest with
        | [] => ScanError (invalid (lit "--config requires a path"))
        | path :: rest => scan_args rest path
        end
      else if starts_with config_eq arg then scan_args rest (drop (length config_eq) arg)
      else scan_args rest config_path
  end.

(** The second pass. *)
Fixpoint apply_args (args : list bytes) (c : Config) : Status * Config :=
  match args with
  | [] => (status_ok, c)
  | arg :: rest =>
      if beq arg (lit "--config") then
        match rest with [] => (status_ok, c) | _ :: rest => apply_args rest c end
      else if starts_with config_eq arg then apply_args rest c
      else if negb (starts_with (lit "--") arg)
      then (invalid (lit "unexpected positional argument: " ++ arg), c)
      else
        match span not_eq_sign arg with
        | (before, _ :: value) =>
            let '(st, c) := apply_cli_pair c (drop 2 before) value in
            if negb (ok_status st) then (st, c) else apply_args rest c
        | (_, []) =>
            let name := drop 2 arg in
            match rest with
            | [] => (invalid (lit "--" ++ name ++ lit " requires a value"), c)
            | value :: rest =>
                let '(st, c) := apply_cli_pair c name value in
                if negb (ok_status st) then (st, c) else apply_args rest c
            end
        end
  end.

Record ConfigLoadResult := MkLoadResult {
  lr_config : Config;
  lr_status : Status;
  lr_show_help : bool
}.

(** The settings that must not be zero. *)
Definition at_least_one (n : Z) : Z := if n =? 0 then 1 else n.

Definition clamp (c : Config) : Config :=
  let c := put_workers c (at_least_one (workers (server c))) in
  let c := put_shards c (at_least_one (shards (storage c))) in
  put_interval_ms c (at_least_one (interval_ms (expiration c))).

Definition load_config_file (c : Config) (path : bytes) : SysM (Status * Config) :=
  match path with [] => mret (status_ok, c) | _ => load_file c path end.

(** [load]; [args] are the arguments after the program's name. *)
Definition load (args : list bytes) : SysM ConfigLoadResult :=
  match scan_args args [] with
  | ScanHelp => mret (MkLoadResult default_config status_ok true)
  | ScanError st => mret (MkLoadResult default_config st false)
  | ScanPath path =>
      '(st, c) ← load_config_file default_config path;
      if negb (ok_status st) then mret (MkLoadResult c st false)
      else
        let '(st, c) := apply_env c in
        if negb (ok_status st) then mret (MkLoadResult c st false)
        else
          let '(st, c) := apply_args args c in
          if negb (ok_status st) then mret (MkLoadResult c st false)
          else mret (MkLoadResult (clamp c) st false)
  end.
End Load.

Definition help_text : bytes := lit "VeloxDB 0.1.0

Usage:
  veloxdb [--config ./veloxdb.toml] [options]

Options:
  --host <addr>                         Listen address (default 0.0.0.0)
  --port <port>                         Listen port (default 7379)
  --workers <n>                         Worker event loops
  --max-clients <n>                     Connection limit
  --storage-shards <n>                  Storage shard count
  --max-memory <bytes|kb|mb|gb>         No-eviction write limit
  --aof-enabled <true|false>            Enable append-only persistence
  --aof-path <path>                     AOF path
  --fsync-policy <always|everysec|no>   AOF fsync policy
  --snapshot-path <path>                SAVE snapshot path
  --manifest-path <path>                Snapshot/AOF manifest path
  --log-level <trace|debug|info|warn|error|off>
  --shutdown-enabled <true|false>       Enable SHUTDOWN command
  --max-request-bytes <n>
  --max-key-size <bytes|kb|mb|gb>
  --max-value-size <bytes|kb|mb|gb>
  --expiration-active <true|false>
  --expiration-interval-ms <n>
".
