(* ===== verification/ConfigFacts.v ===== *)
(** Properties of the configuration loader: each key has one setting, the last
    assignment wins, and every configuration that loads is usable. *)
From S2P Require Import Prelude Util Config Resp Storage Fs Aof Snapshot ConfigLoader.

(** * Settings *)

Inductive Setting := SText (b : bytes) | SNum (n : Z) | SFlag (b : bool).

Inductive Field :=
  | FHost | FPort | FWorkers | FMaxClients | FShards | FMaxMemory | FAofEnabled | FAofPath
  | FFsyncPolicy | FSnapshotPath | FManifestPath | FActiveEnabled | FIntervalMs | FSamplePerShard
  | FLoggingLevel | FMetricsEnabled | FShutdownEnabled | FMaxRequestBytes | FMaxArrayElements
  | FMaxKeySize | FMaxValueSize | FMaxOutputBufferBytes.

#[export] Instance Field_eq_dec : EqDecision Field.
Proof. solve_decision. Defined.

(** Kinds of values, and what a text means for each. *)
Inductive Kind := KText | KLower | KPolicy | KPort | KSize | KBytes | KFlag.

Definition meaning (k : Kind) (v : bytes) : option Setting :=
  match k with
  | KText => Some (SText v)
  | KLower => Some (SText (to_lower_ascii v))
  | KPolicy =>
      let p := to_lower_ascii v in
      if beq p (lit "always") || beq p (lit "everysec") || beq p (lit "no") then Some (SText p) else None
  | KPort => n ← parse_u64 v; if n <=? 65535 then Some (SNum n) else None
  | KSize => SNum <$> parse_u64 v
  | KBytes => SNum <$> parse_byte_size v
  | KFlag => SFlag <$> parse_bool v
  end.

(** The keys: two of them set the memory limit. *)
Definition field_of (key : bytes) : option (Field * Kind) :=
  let named name := beq key (lit name) in
  if named "server.host" then Some (FHost, KText)
  else if named "server.port" then Some (FPort, KPort)
  else if named "server.workers" then Some (FWorkers, KSize)
  else if named "server.max_clients" then Some (FMaxClients, KSize)
  else if named "storage.shards" then Some (FShards, KSize)
  else if named "storage.max_memory" then Some (FMaxMemory, KBytes)
  else if named "storage.max_memory_bytes" then Some (FMaxMemory, KSize)
  else if named "persistence.aof_enabled" then Some (FAofEnabled, KFlag)
  else if named "persistence.aof_path" then Some (FAofPath, KText)
  else if named "persistence.fsync_policy" then Some (FFsyncPolicy, KPolicy)
  else if named "persistence.snapshot_path" then Some (FSnapshotPath, KText)
  else if named "persistence.manifest_path" then Some (FManifestPath, KText)
  else if named "expiration.active_enabled" then Some (FActiveEnabled, KFlag)
  else if named "expiration.interval_ms" then Some (FIntervalMs, KSize)
  else if named "expiration.sample_per_shard" then Some (FSamplePerShard, KSize)
  else if named "logging.level" then Some (FLoggingLevel, KLower)
  else if named "metrics.enabled" then Some (FMetricsEnabled, KFlag)
  else if named "admin.shutdown_enabled" then Some (FShutdownEnabled, KFlag)
  else if named "protocol.max_request_bytes" then Some (FMaxRequestBytes, KBytes)
  else if named "protocol.max_array_elements" then Some (FMaxArrayElements, KSize)
  else if named "protocol.max_key_size" then Some (FMaxKeySize, KBytes)
  else if named "protocol.max_value_size" then Some (FMaxValueSize, KBytes)
  else if named "protocol.max_output_buffer_bytes" then Some (FMaxOutputBufferBytes, KBytes)
  else None.

Definition get_field (c : Config) (f : Field) : Setting :=
  match f with
  | FHost => SText (host (server c))
  | FPort => SNum (port (server c))
  | FWorkers => SNum (workers (server c))
  | FMaxClients => SNum (max_clients (server c))
  | FShards => SNum (shards (storage c))
  | FMaxMemory => SNum (max_memory_bytes (storage c))
  | FAofEnabled => SFlag (aof_enabled (persistence c))
  | FAofPath => SText (aof_path (persistence c))
  | FFsyncPolicy => SText (fsync_policy (persistence c))
  | FSnapshotPath => SText (snapshot_path (persistence c))
  | FManifestPath => SText (manifest_path (persistence c))
  | FActiveEnabled => SFlag (active_enabled (expiration c))
  | FIntervalMs => SNum (interval_ms (expiration c))
  | FSamplePerShard => SNum (sample_per_shard (expiration c))
  | FLoggingLevel => SText (logging_level c)
  | FMetricsEnabled => SFlag (metrics_enabled c)
  | FShutdownEnabled => SFlag (admin_shutdown_enabled c)
  | FMaxRequestBytes => SNum (max_request_bytes (protocol c))
  | FMaxArrayElements => SNum (max_array_elements (protocol c))
  | FMaxKeySize => SNum (max_key_size (protocol c))
  | FMaxValueSize => SNum (max_value_size (protocol c))
  | FMaxOutputBufferBytes => SNum (max_output_buffer_bytes (protocol c))
  end.

Definition put_field (c : Config) (f : Field) (x : Setting) : Config :=
  match f, x with
  | FHost, SText v => put_host c v
  | FPort, SNum v => put_port c v
  | FWorkers, SNum v => put_workers c v
  | FMaxClients, SNum v => put_max_clients c v
  | FShards, SNum v => put_shards c v
  | FMaxMemory, SNum v => put_max_memory c v
  | FAofEnabled, SFlag v => put_aof_enabled c v
  | FAofPath, SText v => put_aof_path c v
  | FFsyncPolicy, SText v => put_fsync_policy c v
  | FSnapshotPath, SText v => put_snapshot_path c v
  | FManifestPath, SText v => put_manifest_path c v
  | FActiveEnabled, SFlag v => put_active_enabled c v
  | FIntervalMs, SNum v => put_interval_ms c v
  | FSamplePerShard, SNum v => put_sample_per_shard c v
  | FLoggingLevel, SText v => put_logging_level c v
  | FMetricsEnabled, SFlag v => put_metrics_enabled c v
  | FShutdownEnabled, SFlag v => put_shutdown_enabled c v
  | FMaxRequestBytes, SNum v => put_max_request_bytes c v
  | FMaxArrayElements, SNum v => put_max_array_elements c v
  | FMaxKeySize, SNum v => put_max_key_size c v
  | FMaxValueSize, SNum v => put_max_value_size c v
  | FMaxOutputBufferBytes, SNum v => put_max_output_buffer_bytes c v
  | _, _ => c
  end.

(** The setting has the field's type. *)
Definition typed (f : Field) (x : Setting) : bool :=
  match f, x with
  | (FHost | FAofPath | FFsyncPolicy | FSnapshotPath | FManifestPath | FLoggingLevel), SText _ => true
  | (FPort | FWorkers | FMaxClients | FShards | FMaxMemory | FIntervalMs | FSamplePerShard |
     FMaxRequestBytes | FMaxArrayElements | FMaxKeySize | FMaxValueSize | FMaxOutputBufferBytes), SNum _ => true
  | (FAofEnabled | FActiveEnabled | FMetricsEnabled | FShutdownEnabled), SFlag _ => true
  | _, _ => false
  end.

Lemma put_get c f x : typed f x = true -> get_field (put_field c f x) f = x.
Proof. by destruct f, x. Qed.

Lemma put_get_other c f x f' : f' <> f -> get_field (put_field c f x) f' = get_field c f'.
Proof. by destruct f, x, f'. Qed.

Lemma field_typed k f kd v x : field_of k = Some (f, kd) -> meaning kd v = Some x -> typed f x = true.
Proof.
  assert (Hm : forall kd x, meaning kd v = Some x ->
    match kd with KText | KLower | KPolicy => exists b, x = SText b | KPort | KSize | KBytes => exists n, x = SNum n
    | KFlag => exists b, x = SFlag b end).
  { intros [] y; cbn [meaning].
    - intros [= <-]. by eexists.
    - intros [= <-]. by eexists.
    - destruct (_ || _); [|done]. intros [= <-]. by eexists.
    - intros (n & _ & Hn)%bind_Some. destruct (n <=? 65535); [|done]. injection Hn as <-. by eexists.
    - intros (n & _ & ->)%fmap_Some. by eexists.
    - intros (n & _ & ->)%fmap_Some. by eexists.
    - intros (n & _ & ->)%fmap_Some. by eexists. }
  intros Hf Hx. specialize (Hm kd x Hx). clear Hx. revert Hf. unfold field_of.
  repeat match goal with |- context [beq k ?x] => destruct (beq k x);
    [intros [= <- <-]; destruct Hm as [? ->]; reflexivity|] end. done.
Qed.

(** * [apply_kv] *)

Lemma set_size_parse v name : set_size v name
  = match parse_u64 v with Some n => inr n | None => inl (invalid (lit "invalid size value for " ++ name)) end.
Proof.
  unfold set_size. destruct (parse_u64 v) as [n|] eqn:Hp; [|done].
  apply parse_u64_range in Hp. unfold is_u64 in Hp. by rewrite (proj2 (Z.ltb_ge _ _)) by lia.
Qed.

Lemma set_u16_parse v name :
  set_u16 v name = match (n ← parse_u64 v; if n <=? 65535 then Some n else None) with
                   | Some n => inr n
                   | None => inl (invalid (lit "invalid uint16 value for " ++ name))
                   end.
Proof.
  unfold set_u16. destruct (parse_u64 v) as [n|]; [|done]. cbn.
  destruct (Z.leb_spec n 65535); destruct (Z.ltb_spec 65535 n); try done; lia.
Qed.

(** What assigning [value] to [key] sets, if it is acceptable. *)
Definition assigned (key value : bytes) : option (Field * Setting) :=
  '(f, kd) ← field_of key;
  x ← meaning kd (strip_quotes value);
  Some (f, x).

Lemma apply_kv_assign c k v :
  match assigned k v with
  | None => ok_status (apply_kv c k v).1 = false /\ (apply_kv c k v).2 = c
  | Some (f, x) => apply_kv c k v = (status_ok, put_field c f x)
  end.
Proof.
  unfold assigned, apply_kv, field_of. generalize (strip_quotes v) as w. intros w.
  repeat match goal with |- context [beq k (lit ?x)] => destruct (beq k (lit x));
    [cbn [mbind option_bind meaning]; unfold store; rewrite ?set_size_parse, ?set_u16_parse;
     unfold set_bool, set_bytes|] end; [..|done].
  all: first
    [ done
    | destruct (parse_bool w); done
    | destruct (parse_byte_size w); done
    | destruct (parse_u64 w) as [n|]; [|done]; first [done | cbn; destruct (n <=? 65535); done]
    | destruct (beq _ (lit "always")), (beq _ (lit "everysec")), (beq _ (lit "no")); done ].
Qed.

(** * Assignments in order *)

Definition assign_all (pairs : list (bytes * bytes)) (c : Config) : Config :=
  fold_left (fun c kv => (apply_kv c kv.1 kv.2).2) pairs c.

(** A field after the assignments: what the last one to it says. *)
Definition last_assigned (f : Field) (pairs : list (bytes * bytes)) (init : Setting) : Setting :=
  fold_left (fun x kv => match assigned kv.1 kv.2 with
                         | Some (f', y) => if decide (f' = f) then y else x
                         | None => x
                         end) pairs init.

Lemma assigned_typed k v f x : assigned k v = Some (f, x) -> typed f x = true.
Proof.
  unfold assigned. destruct (field_of k) as [[f' kd]|] eqn:Hf; [|done]. cbn [mbind option_bind].
  destruct (meaning kd _) as [y|] eqn:Hm; [|done]. cbn. intros [= <- <-]. by eapply field_typed.
Qed.

Lemma assign_all_last f pairs c :
  get_field (assign_all pairs c) f = last_assigned f pairs (get_field c f).
Proof.
  revert c. induction pairs as [|[k v] pairs IH]; intros c; [done|].
  unfold assign_all, last_assigned in *. cbn [fold_left fst snd]. rewrite IH. f_equal.
  pose proof (apply_kv_assign c k v) as Ha. destruct (assigned k v) as [[f' x]|] eqn:Hx.
  - rewrite Ha. cbn [snd]. destruct (decide (f' = f)) as [->|Hne]; [|by apply put_get_other].
    eapply put_get, assigned_typed, Hx.
  - by destruct Ha as [_ ->].
Qed.

(** * The three sources as lists of assignments *)

Fixpoint file_pairs (lines : list bytes) (section : bytes) : list (bytes * bytes) :=
  match lines with
  | [] => []
  | raw :: lines =>
      let line := trim (remove_comment raw) in
      match line with
      | [] => file_pairs lines section
      | _ =>
          if is_bracket "["%char (front line) && is_bracket "]"%char (back line)
          then file_pairs lines (trim (take (length line - 2) (tl line)))
          else
            let '(before, after) := span not_eq_sign line in
            (match section with [] => trim before | _ => section ++ lit "." ++ trim before end,
             strip_quotes (tl after)) :: file_pairs lines section
      end
  end.

Definition env_pairs (getenv : bytes -> option bytes) (entries : list (string * string))
    : list (bytes * bytes) :=
  omap (fun '(env, key) => value ← getenv (lit env); Some (lit key, value)) entries.

Definition cli_pair (name value : bytes) : bytes * bytes := (default [] (find_alias name aliases), value).

Fixpoint cli_pairs (args : list bytes) : list (bytes * bytes) :=
  match args with
  | [] => []
  | arg :: rest =>
      if beq arg (lit "--config") then match rest with [] => [] | _ :: rest => cli_pairs rest end
      else if starts_with config_eq arg then cli_pairs rest
      else
        match span not_eq_sign arg with
        | (before, _ :: value) => cli_pair (drop 2 before) value :: cli_pairs rest
        | (_, []) =>
            match rest with
            | [] => []
            | value :: rest => cli_pair (drop 2 arg) value :: cli_pairs rest
            end
        end
  end.

(** An assignment that failed did so for its value, and changed nothing. *)
Lemma apply_kv_ok c k v : ok_status (apply_kv c k v).1 = true -> is_Some (assigned k v).
Proof.
  intros Hok. pose proof (apply_kv_assign c k v) as Ha. destruct (assigned k v) as [[f x]|]; [by eexists|].
  destruct Ha as [Hf _]. congruence.
Qed.

Definition acceptable (kv : bytes * bytes) : Prop := is_Some (assigned kv.1 kv.2).

(** A source that was accepted amounts to its assignments, all acceptable. *)
Definition amounts_to (r : Status * Config) (c : Config) (pairs : list (bytes * bytes)) : Prop :=
  ok_status r.1 = true -> r.2 = assign_all pairs c /\ Forall acceptable pairs.

Lemma amounts_to_cons r c k v pairs :
  ok_status (apply_kv c k v).1 = true -> amounts_to r (apply_kv c k v).2 pairs -> amounts_to r c ((k, v) :: pairs).
Proof.
  intros Hok Hr Hst. destruct (Hr Hst) as [-> Ha]. split; [done|].
  apply List.Forall_cons; [|done]. by eapply apply_kv_ok.
Qed.

Lemma load_lines_amounts lines section n c :
  amounts_to (load_lines lines section n c) c (file_pairs lines section).
Proof.
  revert section n c. induction lines as [|raw lines IH]; intros section n c; [done|].
  cbn [load_lines file_pairs]. generalize (trim (remove_comment raw)) as line. intros [|a line]; [apply IH|].
  destruct (_ && _); [apply IH|]. destruct (span not_eq_sign (a :: line)) as [before [|e after]]; [done|].
  cbn [tl]. generalize (match section with [] => trim before | _ => section ++ lit "." ++ trim before end) as key.
  intros key. pose proof (amounts_to_cons (load_lines lines section (n + 1) (apply_kv c key (strip_quotes after)).2)
    c key (strip_quotes after) (file_pairs lines section)) as Hc.
  destruct (apply_kv c key (strip_quotes after)) as [st c']. cbn [fst snd] in Hc.
  destruct (ok_status st); cbn [negb]; [|done]. apply Hc; [done|]. apply IH.
Qed.

Lemma apply_env_amounts getenv entries c :
  amounts_to (apply_env_from getenv entries c) c (env_pairs getenv entries).
Proof.
  revert c. induction entries as [|[env key] entries IH]; intros c; [done|].
  cbn [apply_env_from env_pairs omap list_omap]. fold (env_pairs getenv entries).
  destruct (getenv (lit env)) as [value|]; cbn; [|apply IH].
  pose proof (amounts_to_cons (apply_env_from getenv entries (apply_kv c (lit key) value).2)
    c (lit key) value (env_pairs getenv entries)) as Hc.
  destruct (apply_kv c (lit key) value) as [st c']. cbn [fst snd] in Hc.
  destruct (ok_status st); cbn [negb]; [|done]. apply Hc; [done|]. apply IH.
Qed.

Lemma apply_cli_pair_amounts (rest : Config -> Status * Config) name value c pairs :
  (forall c, amounts_to (rest c) c pairs) ->
  amounts_to (let '(st, c) := apply_cli_pair c name value in if negb (ok_status st) then (st, c) else rest c)
    c (cli_pair name value :: pairs).
Proof.
  intros Hr. unfold apply_cli_pair, cli_pair. destruct (find_alias name aliases) as [key|]; [|done]. cbn [default from_option id].
  pose proof (amounts_to_cons (rest (apply_kv c key value).2) c key value pairs) as Hc.
  destruct (apply_kv c key value) as [st c']. cbn [fst snd] in Hc.
  destruct (ok_status st) eqn:Hst; cbn [negb]; [|intros Hok; cbn in Hok; congruence]. apply Hc; [done|]. apply Hr.
Qed.

Lemma apply_args_amounts args c : amounts_to (apply_args args c) c (cli_pairs args).
Proof.
  remember (length args) as n eqn:Hn. revert args c Hn.
  induction n as [n IH] using lt_wf_ind. intros [|arg rest] c ->; [done|]. cbn [apply_args cli_pairs length] in *.
  destruct (beq arg (lit "--config")); [destruct rest; [done|]; eapply IH; [|done]; cbn; lia|].
  destruct (starts_with config_eq arg); [eapply IH; [|done]; lia|].
  destruct (negb (starts_with (lit "--") arg)); [done|].
  destruct (span not_eq_sign arg) as [before [|e value]].
  - destruct rest as [|value rest]; [done|]. apply apply_cli_pair_amounts. intros c'. eapply IH; [|done]. cbn. lia.
  - apply apply_cli_pair_amounts. intros c'. eapply IH; [|done]. lia.
Qed.

(** * Loading *)

(** The configuration file named by the arguments, as assignments. *)
Definition file_assignments (args : list bytes) (fs : Fs) : list (bytes * bytes) :=
  match scan_args args [] with
  | ScanPath ((_ :: _) as path) => file_pairs (getlines (default [] (file_at fs path))) []
  | _ => []
  end.

(** All assignments, in the order in which they are made. *)
Definition assignments (getenv : bytes -> option bytes) (args : list bytes) (fs : Fs) : list (bytes * bytes) :=
  file_assignments args fs ++ env_pairs getenv env_entries ++ cli_pairs args.

Definition clamped (f : Field) (x : Setting) : Setting :=
  match f, x with
  | (FWorkers | FShards | FIntervalMs), SNum n => SNum (at_least_one n)
  | _, _ => x
  end.

Lemma clamp_get c f : get_field (clamp c) f = clamped f (get_field c f).
Proof. by destruct f. Qed.

Lemma assign_all_app p1 p2 c : assign_all (p1 ++ p2) c = assign_all p2 (assign_all p1 c).
Proof. apply fold_left_app. Qed.

Lemma load_config_file_amounts c args path s :
  scan_args args [] = ScanPath path ->
  amounts_to (load_config_file c path s).1 c (file_assignments args (s_fs s)).
Proof.
  intros Hs. unfold file_assignments. rewrite Hs. unfold load_config_file. destruct path as [|a path]; [done|].
  unfold load_file, read_stream, syscall, next_io, look_fs, mbind, St_bind, mret, St_ret.
  destruct (s_io s) as [|o io]; [|destruct (call_error o); [done|]].
  all: cbn; (destruct (file_at (s_fs s) (a :: path)); [apply load_lines_amounts|done]).
Qed.

Lemma scan_error args p st : scan_args args p = ScanError st -> ok_status st = false.
Proof.
  remember (length args) as n eqn:Hn. revert args Hn p.
  induction n as [n IH] using lt_wf_ind. intros [|arg rest] -> p; [done|]. cbn [scan_args length] in *.
  destruct (_ || _); [done|]. destruct (beq arg _); [|destruct (starts_with _ _)].
  - destruct rest as [|q rest]; [by intros [= <-]|]. eapply IH; [|done]. cbn. lia.
  - eapply IH; [|done]. lia.
  - eapply IH; [|done]. lia.
Qed.

Lemma load_ok getenv args s :
  let r := (load getenv args s).1 in
  lr_show_help r = false -> ok_status (lr_status r) = true ->
  lr_config r = clamp (assign_all (assignments getenv args (s_fs s)) default_config) /\
  Forall acceptable (assignments getenv args (s_fs s)).
Proof.
  unfold load. destruct (scan_args args []) as [|st|path] eqn:Hs; [done| |].
  { apply scan_error in Hs. cbn [fst mret St_ret lr_status]. congruence. }
  rewrite st_bind_eq. pose proof (load_config_file_amounts default_config args path s Hs) as Hfile.
  destruct (load_config_file default_config path s) as [[st c1] s1]. cbn [fst snd] in *.
  destruct (ok_status st) eqn:Hst; cbn [negb]; [|cbn; congruence].
  destruct (Hfile Hst) as [Hc1 Ha1]. cbn [fst snd] in *.
  pose proof (apply_env_amounts getenv env_entries c1) as Henv. unfold apply_env.
  destruct (apply_env_from getenv env_entries c1) as [st2 c2]. cbn [fst snd] in *.
  destruct (ok_status st2) eqn:Hst2; cbn [negb]; [|cbn; congruence]. destruct (Henv Hst2) as [Hc2 Ha2].
  pose proof (apply_args_amounts args c2) as Hargs. destruct (apply_args args c2) as [st3 c3]. cbn [fst snd] in *.
  destruct (ok_status st3) eqn:Hst3; cbn [negb]; [|cbn; congruence]. destruct (Hargs Hst3) as [Hc3 Ha3].
  cbn [fst mret St_ret lr_config snd] in *. intros _ _. unfold assignments.
  rewrite !assign_all_app, <- Hc1, <- Hc2, <- Hc3.
  split; [done|]. apply Forall_app. split; [done|]. apply Forall_app. by split.
Qed.

(** C24. The last assignment wins: if the configuration loads, every assignment
    in it was acceptable, and every setting has the value of the last one made
    to it, taking the configuration file first, then the environment, then the
    command line, and its default when there is none; a worker count, shard
    count or expiration interval of zero becomes one. *)
Theorem load_last_wins getenv args s :
  let r := (load getenv args s).1 in
  let all := assignments getenv args (s_fs s) in
  lr_show_help r = false -> ok_status (lr_status r) = true ->
  Forall acceptable all /\
  forall f, get_field (lr_config r) f = clamped f (last_assigned f all (get_field default_config f)).
Proof.
  intros r all Hh Hok. destruct (load_ok getenv args s Hh Hok) as [Hc Ha]. split; [done|]. intros f.
  unfold r. by rewrite Hc, clamp_get, assign_all_last.
Qed.

(** * Usable configurations *)

(** What every setting satisfies. *)
Definition good (f : Field) (x : Setting) : Prop :=
  match x with
  | SNum n => is_u64 n /\ (f = FPort -> n <= 65535)
  | SText b => f = FFsyncPolicy -> b ∈ [lit "always"; lit "everysec"; lit "no"]
  | SFlag _ => True
  end.

Lemma field_kind k f kd : field_of k = Some (f, kd) -> (f = FPort <-> kd = KPort) /\ (f = FFsyncPolicy <-> kd = KPolicy).
Proof.
  unfold field_of. repeat match goal with |- context [beq k ?x] => destruct (beq k x); [by intros [= <- <-]|] end. done.
Qed.

Lemma parse_byte_size_range v n : parse_byte_size v = Some n -> is_u64 n.
Proof.
  unfold parse_byte_size. case_match; [done|]. destruct (first_suffix _ _) as [w mul].
  destruct (parse_u64 w); [|done]. case_match; [done|]. intros [= <-]. apply u64_range.
Qed.

Lemma assigned_good k v f x : assigned k v = Some (f, x) -> good f x.
Proof.
  unfold assigned. destruct (field_of k) as [[f' kd]|] eqn:Hf; [|done]. cbn [mbind option_bind].
  destruct (meaning kd _) as [y|] eqn:Hm; [|done]. cbn. intros [= <- <-].
  destruct (field_kind k f' kd Hf) as [Hport Hpol]. generalize dependent (strip_quotes v). intros w Hm.
  destruct kd; cbn [meaning] in Hm.
  - injection Hm as <-. intros ->. by destruct Hpol as [H _]; discriminate H.
  - injection Hm as <-. intros ->. by destruct Hpol as [H _]; discriminate H.
  - destruct (_ || _) eqn:Hp; [|done]. injection Hm as <-. intros _.
    apply orb_true_iff in Hp as [[Hp|Hp]%orb_true_iff|Hp]; apply bool_decide_eq_true_1 in Hp; rewrite Hp; set_solver.
  - apply bind_Some in Hm as (n & Hn & Hm). destruct (Z.leb_spec n 65535); [|done]. injection Hm as <-.
    split; [by eapply parse_u64_range|done].
  - apply fmap_Some in Hm as (n & Hn & ->). split; [by eapply parse_u64_range|]. intros ->.
    by destruct Hport as [H _]; discriminate H.
  - apply fmap_Some in Hm as (n & Hn & ->). split; [by eapply parse_byte_size_range|]. intros ->.
    by destruct Hport as [H _]; discriminate H.
  - by apply fmap_Some in Hm as (n & Hn & ->).
Qed.

Lemma last_assigned_good f pairs x : good f x -> good f (last_assigned f pairs x).
Proof.
  revert x. induction pairs as [|[k v] pairs IH]; intros x Hx; [done|]. unfold last_assigned in *. cbn [fold_left fst snd].
  apply IH. destruct (assigned k v) as [[f' y]|] eqn:Ha; [|done].
  destruct (decide (f' = f)) as [->|]; [by eapply assigned_good|done].
Qed.

Lemma default_good f : good f (get_field default_config f).
Proof.
  destruct f; cbn [get_field good]; try done.
  all: first [split; [split; vm_compute; discriminate|intros [=]; vm_compute; discriminate]|intros; set_solver].
Qed.

(** A configuration the server can run with. *)
Definition usable (c : Config) : Prop :=
  0 <= port (server c) <= 65535 /\
  1 <= workers (server c) <= u64_max /\ 1 <= shards (storage c) <= u64_max /\
  1 <= interval_ms (expiration c) <= u64_max /\
  is_u64 (max_clients (server c)) /\ is_u64 (max_memory_bytes (storage c)) /\
  is_u64 (sample_per_shard (expiration c)) /\
  is_u64 (max_request_bytes (protocol c)) /\ is_u64 (max_array_elements (protocol c)) /\
  is_u64 (max_key_size (protocol c)) /\ is_u64 (max_value_size (protocol c)) /\
  is_u64 (max_output_buffer_bytes (protocol c)) /\
  fsync_policy (persistence c) ∈ [lit "always"; lit "everysec"; lit "no"].

Lemma at_least_one_range n : is_u64 n -> 1 <= at_least_one n <= u64_max.
Proof. unfold is_u64, at_least_one, u64_max. intros Hn. destruct (Z.eqb_spec n 0); lia. Qed.

Lemma loaded_usable getenv args s :
  let r := (load getenv args s).1 in
  lr_show_help r = false -> ok_status (lr_status r) = true -> usable (lr_config r).
Proof.
  intros r Hh Hok. destruct (load_ok getenv args s Hh Hok) as [Hc _]. unfold r. rewrite Hc.
  set (c := assign_all _ default_config).
  assert (Hg : forall f, good f (get_field c f)).
  { intros f. unfold c. rewrite assign_all_last. apply last_assigned_good, default_good. }
  pose proof (Hg FPort) as [Hp Hp2]. pose proof (Hg FWorkers) as [Hw _]. pose proof (Hg FShards) as [Hsh _].
  pose proof (Hg FIntervalMs) as [Hi _]. pose proof (Hg FMaxClients) as [? _]. pose proof (Hg FMaxMemory) as [? _].
  pose proof (Hg FSamplePerShard) as [? _]. pose proof (Hg FMaxRequestBytes) as [? _].
  pose proof (Hg FMaxArrayElements) as [? _]. pose proof (Hg FMaxKeySize) as [? _].
  pose proof (Hg FMaxValueSize) as [? _]. pose proof (Hg FMaxOutputBufferBytes) as [? _].
  pose proof (Hg FFsyncPolicy) as Hf. specialize (Hp2 eq_refl). specialize (Hf eq_refl). clear Hg.
  split; [split; [apply Hp|exact Hp2]|]. split; [by apply at_least_one_range|].
  split; [by apply at_least_one_range|]. split; [by apply at_least_one_range|]. repeat (split; [done|]). done.
Qed.

(** C35. Whatever the file, the environment and the arguments say, a
    configuration that loads is usable: the port is a port number, there is at
    least one worker and one shard, the expiration interval is not zero, every
    size is a machine word, and the fsync policy is one of the three. *)
Theorem load_usable getenv args s :
  let r := (load getenv args s).1 in
  lr_show_help r = false -> ok_status (lr_status r) = true -> usable (lr_config r).
Proof. apply loaded_usable. Qed.

(** * Witnesses *)

(** A configuration file, an environment and arguments that all set the port. *)
Definition demo_toml : bytes :=
  lit "# demo" ++ [LF] ++ lit "[server]" ++ [LF] ++ lit "port = 7000 # overridden" ++ [LF] ++ lit "workers=0" ++ [LF] ++
  lit "host = " ++ [dquote] ++ lit "127.0.0.1" ++ [dquote] ++ [LF] ++ lit "[storage]" ++ [LF] ++ lit "max_memory = 2mb".

Definition demo_env (name : bytes) : option bytes :=
  if beq name (lit "VELOXDB_PORT") then Some (lit "7001")
  else if beq name (lit "VELOXDB_WORKERS") then Some (lit " 0 ") else None.

Definition demo_args : list bytes := [lit "--port=7002"; lit "--config"; lit "velox.toml"; lit "--max-memory"; lit "4kb"].

Definition demo_disk : Sys := MkSys (MkFs {[lit "velox.toml" := 0%nat]} {[0%nat := demo_toml]} 1) [] 0.

Lemma load_last_wins_witness :
  let r := (load demo_env demo_args demo_disk).1 in
  (lr_show_help r = false /\ ok_status (lr_status r) = true /\ port (server (lr_config r)) = 7002 /\
   workers (server (lr_config r)) = 1 /\ max_memory_bytes (storage (lr_config r)) = 4096 /\
   host (server (lr_config r)) = lit "127.0.0.1") /\
  Forall acceptable (assignments demo_env demo_args (s_fs demo_disk)) /\
  forall f, get_field (lr_config r) f
    = clamped f (last_assigned f (assignments demo_env demo_args (s_fs demo_disk)) (get_field default_config f)).
Proof.
  split; [vm_compute; repeat split|]. apply load_last_wins; vm_compute; reflexivity.
Defined.

Lemma load_usable_witness : usable (lr_config (load demo_env demo_args demo_disk).1).
Proof. apply load_usable; vm_compute; reflexivity. Defined.
