(* ===== verification/Metrics.v ===== *)
(** Server metrics: [src/metrics/metrics.cpp] and
    [include/veloxdb/metrics/metrics.h].  The counters are atomics; a function
    below is one uncontended call. *)
From S2P Require Import Prelude.

Record Metrics := MkMetrics {
  m_start : Z;
  m_enabled : bool;
  m_connected_clients : Z;
  m_total_connections_received : Z;
  m_total_commands_processed : Z;
  m_evicted_keys : Z;
  m_aof_last_write_ok : bool
}.

(** The constructor; [start] is a reading of the steady clock, in
    nanoseconds. *)
Definition new_metrics (start : Z) : Metrics := MkMetrics start true 0 0 0 0 true.

Definition set_enabled (b : bool) (m : Metrics) : Metrics :=
  MkMetrics (m_start m) b (m_connected_clients m) (m_total_connections_received m)
    (m_total_commands_processed m) (m_evicted_keys m) (m_aof_last_write_ok m).

Definition set_clients (connected total : Z) (m : Metrics) : Metrics :=
  MkMetrics (m_start m) (m_enabled m) connected total
    (m_total_commands_processed m) (m_evicted_keys m) (m_aof_last_write_ok m).

Definition connection_opened (m : Metrics) : Metrics :=
  set_clients (u64 (m_connected_clients m + 1)) (u64 (m_total_connections_received m + 1)) m.

Definition connection_closed (m : Metrics) : Metrics :=
  if m_connected_clients m =? 0 then m
  else set_clients (m_connected_clients m - 1) (m_total_connections_received m) m.

Definition command_processed (m : Metrics) : Metrics :=
  if m_enabled m then
    MkMetrics (m_start m) (m_enabled m) (m_connected_clients m) (m_total_connections_received m)
      (u64 (m_total_commands_processed m + 1)) (m_evicted_keys m) (m_aof_last_write_ok m)
  else m.

Definition set_aof_ok (b : bool) (m : Metrics) : Metrics :=
  MkMetrics (m_start m) (m_enabled m) (m_connected_clients m) (m_total_connections_received m)
    (m_total_commands_processed m) (m_evicted_keys m) b.

Definition aof_write_failed : Metrics -> Metrics := set_aof_ok false.
Definition aof_write_succeeded : Metrics -> Metrics := set_aof_ok true.

(** [duration_cast<seconds>(steady_clock::now() - start_)]. *)
Definition uptime_seconds (steady_now : Z) (m : Metrics) : Z :=
  u64 (Z.quot (steady_now - m_start m) 1000000000).
