(* ===== verification/Commands.v ===== *)
(** The command handlers and their registry: [src/commands/commands.cpp],
    [src/commands/command_registry.cpp] and
    [include/veloxdb/commands/command_registry.h].

    A handler runs on a [World]: every object a command context refers to.  The
    guard that keeps an AOF rewrite or a checkpoint apart from mutations makes
    a command atomic with respect to both; here a command runs alone, and
    [Threads] has the same handlers one action at a time. *)
From S2P Require Import Prelude Util Config Resp Storage Fs Aof Snapshot Metrics.

Record World := MkWorld {
  w_sys : Sys;
  w_storage : StorageEngine;
  w_metrics : Metrics;
  w_config : Config;
  w_aof : option Aof;
  w_log_level : LogLevel;
  w_stop : bool
}.

Record CommandResult := MkResult { response : bytes; close_after_write : bool }.

(** What a [CommandContext] holds besides the objects of the [World]: the
    snapshot store, whether a shutdown callback is set, and whether the
    command is replayed from the log. *)
Record CommandContext := MkContext {
  ctx_snapshot : option SnapshotStore;
  ctx_request_shutdown : bool;
  ctx_replay : bool
}.

Abbreviation CmdM := (St World).

Definition put_storage (e : StorageEngine) (w : World) : World :=
  MkWorld (w_sys w) e (w_metrics w) (w_config w) (w_aof w) (w_log_level w) (w_stop w).
Definition put_sys (s : Sys) (w : World) : World :=
  MkWorld s (w_storage w) (w_metrics w) (w_config w) (w_aof w) (w_log_level w) (w_stop w).
Definition put_aof (a : Aof) (w : World) : World :=
  MkWorld (w_sys w) (w_storage w) (w_metrics w) (w_config w) (Some a) (w_log_level w) (w_stop w).
Definition put_log_level (l : LogLevel) (w : World) : World :=
  MkWorld (w_sys w) (w_storage w) (w_metrics w) (w_config w) (w_aof w) l (w_stop w).
Definition on_metrics (f : Metrics -> Metrics) (w : World) : World :=
  MkWorld (w_sys w) (w_storage w) (f (w_metrics w)) (w_config w) (w_aof w) (w_log_level w) (w_stop w).
Definition request_stop (w : World) : World :=
  MkWorld (w_sys w) (w_storage w) (w_metrics w) (w_config w) (w_aof w) (w_log_level w) true.

(** System calls and clock readings of the world. *)
Definition lift_sys {A} (m : SysM A) : CmdM A :=
  fun w => let '(a, s) := m (w_sys w) in (a, put_sys s w).

Definition asks {A} (f : World -> A) : CmdM A := fun w => (f w, w).

Definition done_ (response : bytes) : CommandResult := MkResult response false.
Definition ok : CommandResult := done_ (simple (lit "OK")).
Definition err (message : bytes) : CommandResult := done_ (error message).

Definition wrong_args (command : bytes) : CommandResult :=
  err (lit "wrong number of arguments for '" ++ to_lower_ascii command ++ lit "' command").

Definition version : bytes := lit "0.1.0".

Section Handlers.
Context `{Platform}.
Variables (clock : nat -> TimePoint) (steady : nat -> Z) (pid : Z).

(** A storage operation with the next clock reading. *)
Definition storage_op {A} (op : TimePoint -> StorageEngine -> A * StorageEngine) : CmdM A :=
  now ← lift_sys (read_clock clock);
  e ← asks w_storage;
  let '(a, e') := op now e in
  _ ← st_modify (put_storage e');
  mret a.

(** A storage operation that reads the clock once per key. *)
Definition storage_ops {A} (m : St (StorageEngine * nat) A) : CmdM A :=
  fun w =>
    let s := w_sys w in
    let '(a, (e, t)) := m (w_storage w, s_ticks s) in
    (a, put_storage e (put_sys (MkSys (s_fs s) (s_io s) t) w)).

(** * Persistence of commands *)

Definition persist (ctx : CommandContext) (args : list bytes) : CmdM Status :=
  aof ← asks w_aof;
  match aof with
  | None => mret status_ok
  | Some a =>
      if ctx_replay ctx || negb (enabled a) then mret status_ok
      else
        '(st, a) ← lift_sys (Aof.append a args);
        _ ← st_modify (put_aof a);
        mret st
  end.

Definition append_failed (st : Status) : CommandResult :=
  err (lit "persistence append failed: " ++ message st).

Definition persist_or_ok (ctx : CommandContext) (args : list bytes) (result : CommandResult)
    : CmdM CommandResult :=
  st ← persist ctx args;
  if negb (ok_status st) then
    _ ← st_modify (on_metrics aof_write_failed);
    mret (append_failed st)
  else
    _ ← st_modify (on_metrics aof_write_succeeded);
    mret result.

(** The handlers that persist only when they changed something, and do not
    report a success to the metrics. *)
Definition persist_if (ctx : CommandContext) (changed : bool) (args : list bytes)
    (result : CommandResult) : CmdM CommandResult :=
  if negb changed then mret result
  else
    st ← persist ctx args;
    if negb (ok_status st) then
      _ ← st_modify (on_metrics aof_write_failed);
      mret (append_failed st)
    else mret result.

(** * Arguments *)

Definition parse_i64_arg (arg : bytes) : option Z := parse_i64 arg.

Definition parse_ttl_ms (value : bytes) (multiplier : Z) : option Z :=
  match parse_i64_arg value with
  | None => None
  | Some parsed =>
      if (0 <? parsed) && (Z.quot i64_max multiplier <? parsed) then None
      else Some (i64 (parsed * multiplier))
  end.

Definition pxat_arg_from_ttl (ttl : Z) : CmdM bytes :=
  now ← lift_sys (read_clock clock);
  mret (to_string (unix_ms (add_ms now ttl))).

Definition bulk_pairs (pairs : list (bytes * bytes)) : list (option bytes) :=
  flat_map (fun kv => [Some kv.1; Some kv.2]) pairs.

(** * String commands *)

Definition ping (ctx : CommandContext) (args : list bytes) : CmdM CommandResult :=
  match args with
  | [_] => mret (done_ (simple (lit "PONG")))
  | [_; message] => mret (done_ (bulk message))
  | _ => mret (wrong_args (hd [] args))
  end.

Definition echo (ctx : CommandContext) (args : list bytes) : CmdM CommandResult :=
  match args with
  | [_; message] => mret (done_ (bulk message))
  | _ => mret (wrong_args (hd [] args))
  end.

Definition get_cmd (ctx : CommandContext) (args : list bytes) : CmdM CommandResult :=
  match args with
  | [_; key] =>
      value ← storage_op (fun now => Storage.get now key);
      mret (done_ (match value with Some v => bulk v | None => null_bulk end))
  | _ => mret (wrong_args (hd [] args))
  end.

(** The option loop of [set]: an error message, or the condition, the relative
    and the absolute expiry. *)
Fixpoint set_options (opts : list bytes) (condition : SetCondition) (ttl pxat : option Z)
    : bytes + (SetCondition * option Z * option Z) :=
  match opts with
  | [] => inr (condition, ttl, pxat)
  | opt :: rest =>
      let option_ := to_upper_ascii opt in
      if beq option_ (lit "NX") then
        if bool_decide (condition = XX) then inl (lit "syntax error")
        else set_options rest NX ttl pxat
      else if beq option_ (lit "XX") then
        if bool_decide (condition = NX) then inl (lit "syntax error")
        else set_options rest XX ttl pxat
      else if beq option_ (lit "EX") || beq option_ (lit "PX") || beq option_ (lit "EXAT")
              || beq option_ (lit "PXAT") then
        match rest with
        | [] => inl (lit "syntax error")
        | value :: rest =>
            if bool_decide (is_Some ttl) || bool_decide (is_Some pxat) then inl (lit "syntax error")
            else
              let expiry : option (option Z * option Z) :=
                if beq option_ (lit "EX") then Some (parse_ttl_ms value 1000, pxat)
                else if beq option_ (lit "PX") then Some (parse_ttl_ms value 1, pxat)
                else if beq option_ (lit "EXAT") then
                  parsed ← parse_i64_arg value; Some (ttl, Some (i64 (parsed * 1000)))
                else parsed ← parse_i64_arg value; Some (ttl, Some parsed) in
              match expiry with
              | None => inl (lit "invalid expire time in SET")
              | Some (ttl, pxat) =>
                  if match ttl with Some t => t <=? 0 | None => false end
                     || match pxat with Some t => t <=? 0 | None => false end
                  then inl (lit "invalid expire time in SET")
                  else set_options rest condition ttl pxat
              end
        end
      else inl (lit "syntax error")
  end.

(** The storage write and its reply, once the options are known. *)
Definition set_run (ctx : CommandContext) (key value : bytes) (condition : SetCondition)
    (ttl pxat : option Z) : CmdM CommandResult :=
  ttl ← (match pxat with
         | None => mret ttl
         | Some at_ =>
             now ← lift_sys (read_clock clock);
             mret (Some (to_ms (i64 (timepoint_from_unix_ms at_ - now))))
         end);
  result ← storage_op (fun now => Storage.set now key value ttl condition);
  match w_code result with
  | NotSet => mret (done_ null_bulk)
  | WOk =>
      expiry_args ← (match ttl with
                     | None => mret []
                     | Some t =>
                         arg ← (match pxat with
                                | Some at_ => mret (to_string at_)
                                | None => pxat_arg_from_ttl t
                                end);
                         mret [lit "PXAT"; arg]
                     end);
      persist_or_ok ctx ([lit "SET"; key; value] ++ expiry_args) ok
  | code => mret (err (storage_write_error code))
  end.

Definition set_cmd (ctx : CommandContext) (args : list bytes) : CmdM CommandResult :=
  match args with
  | _ :: key :: value :: opts =>
      match set_options opts Always None None with
      | inl message => mret (err message)
      | inr (condition, ttl, pxat) => set_run ctx key value condition ttl pxat
      end
  | _ => mret (wrong_args (hd [] args))
  end.

Definition del_cmd (ctx : CommandContext) (args : list bytes) : CmdM CommandResult :=
  match args with
  | _ :: ((_ :: _) as keys) =>
      deleted ← storage_ops (Storage.del clock keys);
      persist_if ctx (negb (deleted =? 0)) args (done_ (integer (i64 deleted)))
  | _ => mret (wrong_args (hd [] args))
  end.

Definition exists_cmd (ctx : CommandContext) (args : list bytes) : CmdM CommandResult :=
  match args with
  | _ :: ((_ :: _) as keys) =>
      n ← storage_ops (Storage.exists_ clock keys);
      mret (done_ (integer (i64 n)))
  | _ => mret (wrong_args (hd [] args))
  end.

Definition mget_cmd (ctx : CommandContext) (args : list bytes) : CmdM CommandResult :=
  match args with
  | _ :: ((_ :: _) as keys) =>
      values ← storage_ops (Storage.mget clock keys);
      mret (done_ (array_of_bulk values))
  | _ => mret (wrong_args (hd [] args))
  end.

(** The write loop of [mset]: the error of the first write that fails, whose
    predecessors stay. *)
Fixpoint mset_loop (pairs : list bytes) : CmdM (option WriteCode) :=
  match pairs with
  | key :: value :: rest =>
      result ← storage_op (fun now => Storage.set now key value None Always);
      if bool_decide (w_code result = WOk) then mset_loop rest else mret (Some (w_code result))
  | _ => mret None
  end.

Definition mset_cmd (ctx : CommandContext) (args : list bytes) : CmdM CommandResult :=
  if (length args <? 3)%nat || Nat.even (length args) then mret (wrong_args (hd [] args))
  else
    failure ← mset_loop (tl args);
    match failure with
    | Some code => mret (err (storage_write_error code))
    | None => persist_or_ok ctx args ok
    end.

(** * Counters and strings *)

Definition write_reply (ctx : CommandContext) (args : list bytes) (result : WriteResult)
    : CmdM CommandResult :=
  if bool_decide (w_code result = WOk)
  then persist_or_ok ctx args (done_ (integer (w_integer result)))
  else mret (err (storage_write_error (w_code result))).

Definition incr_decr (delta : Z) (ctx : CommandContext) (args : list bytes) : CmdM CommandResult :=
  match args with
  | [_; key] =>
      result ← storage_op (fun now => Storage.incr_by now key delta);
      write_reply ctx args result
  | _ => mret (wrong_args (hd [] args))
  end.

Definition append_cmd (ctx : CommandContext) (args : list bytes) : CmdM CommandResult :=
  match args with
  | [_; key; suffix] =>
      result ← storage_op (fun now => Storage.append now key suffix);
      write_reply ctx args result
  | _ => mret (wrong_args (hd [] args))
  end.

Definition strlen_cmd (ctx : CommandContext) (args : list bytes) : CmdM CommandResult :=
  match args with
  | [_; key] =>
      n ← storage_op (fun now => Storage.strlen now key);
      mret (done_ (integer (i64 n)))
  | _ => mret (wrong_args (hd [] args))
  end.

(** * Expiration *)

(** [storage.expire]: a first clock reading for the deadline, taken only for a
    positive time to live. *)
Definition storage_expire (key : bytes) (ttl : Z) : CmdM bool :=
  if ttl <=? 0 then storage_op (fun now => Storage.expire 0 now key ttl)
  else
    now_ttl ← lift_sys (read_clock clock);
    storage_op (fun now => Storage.expire now_ttl now key ttl).

Definition bool_reply (changed : bool) : CommandResult := done_ (integer (if changed then 1 else 0)).

Definition expire_impl (multiplier : Z) (command_name : bytes) (ctx : CommandContext)
    (args : list bytes) : CmdM CommandResult :=
  match args with
  | [_; key; value] =>
      match parse_ttl_ms value multiplier with
      | None => mret (err (lit "invalid expire time in " ++ command_name))
      | Some ttl =>
          changed ← storage_expire key ttl;
          if negb changed then mret (bool_reply changed)
          else
            pxat ← pxat_arg_from_ttl ttl;
            persist_if ctx true [lit "PEXPIREAT"; key; pxat] (bool_reply changed)
      end
  | _ => mret (wrong_args (hd [] args))
  end.

Definition pexpireat (ctx : CommandContext) (args : list bytes) : CmdM CommandResult :=
  match args with
  | [_; key; value] =>
      match parse_i64_arg value with
      | None => mret (err (lit "invalid expire time in PEXPIREAT"))
      | Some when =>
          changed ← storage_op (fun now => Storage.expire_at now key (timepoint_from_unix_ms when));
          persist_if ctx changed args (bool_reply changed)
      end
  | _ => mret (wrong_args (hd [] args))
  end.

Definition ttl_reply (millis : bool) (r : TtlResult) : Z :=
  match ttl_state r with
  | Missing => -2
  | NoExpiry => -1
  | HasExpiry =>
      if millis then ttl_milliseconds r else Z.quot (i64 (ttl_milliseconds r + 999)) 1000
  end.

Definition ttl_impl (millis : bool) (ctx : CommandContext) (args : list bytes) : CmdM CommandResult :=
  match args with
  | [_; key] =>
      r ← storage_op (fun now => Storage.ttl now key);
      mret (done_ (integer (ttl_reply millis r)))
  | _ => mret (wrong_args (hd [] args))
  end.

Definition persist_cmd (ctx : CommandContext) (args : list bytes) : CmdM CommandResult :=
  match args with
  | [_; key] =>
      changed ← storage_op (fun now => Storage.persist now key);
      persist_if ctx changed args (bool_reply changed)
  | _ => mret (wrong_args (hd [] args))
  end.
(** * Server commands *)

Definition dbsize_cmd (ctx : CommandContext) (args : list bytes) : CmdM CommandResult :=
  match args with
  | [_] => n ← storage_op Storage.dbsize; mret (done_ (integer (i64 n)))
  | _ => mret (wrong_args (hd [] args))
  end.

Definition flushdb_cmd (ctx : CommandContext) (args : list bytes) : CmdM CommandResult :=
  match args with
  | [_] =>
      _ ← st_modify (fun w => put_storage (Storage.flushdb (w_storage w)) w);
      persist_or_ok ctx [lit "FLUSHDB"] ok
  | _ => mret (wrong_args (hd [] args))
  end.

Definition info_line (name value : bytes) : bytes := name ++ lit ":" ++ value ++ crlf.

(** The text of [INFO], from the values read for it. *)
Definition info_text (w : World) (uptime keys expires : Z) : bytes :=
  let m := w_metrics w in
  lit "# Server" ++ crlf ++
  info_line (lit "veloxdb_version") version ++
  info_line (lit "uptime_seconds") (to_string uptime) ++
  info_line (lit "tcp_port") (to_string (port (server (w_config w)))) ++
  info_line (lit "connected_clients") (to_string (m_connected_clients m)) ++ crlf ++
  lit "# Memory" ++ crlf ++
  info_line (lit "used_memory_estimate") (to_string (used_memory_ (w_storage w))) ++ crlf ++
  lit "# Stats" ++ crlf ++
  info_line (lit "total_commands_processed") (to_string (m_total_commands_processed m)) ++
  info_line (lit "total_connections_received") (to_string (m_total_connections_received m)) ++
  info_line (lit "expired_keys") (to_string (expired_keys_ (w_storage w))) ++
  info_line (lit "evicted_keys") (to_string (m_evicted_keys m)) ++ crlf ++
  lit "# Keyspace" ++ crlf ++
  info_line (lit "db0") (lit "keys=" ++ to_string keys ++ lit ",expires=" ++ to_string expires) ++ crlf ++
  lit "# Persistence" ++ crlf ++
  info_line (lit "aof_enabled")
    (match w_aof w with Some a => if enabled a then lit "1" else lit "0" | None => lit "0" end) ++
  info_line (lit "aof_current_size")
    (match w_aof w with Some a => to_string (current_size_ a) | None => lit "0" end) ++
  info_line (lit "aof_last_write_status")
    (match w_aof w with Some a => if last_write_ok_ a then lit "ok" else lit "err" | None => lit "ok" end).

(** The memory and expiry counters are read before the keyspace sweep. *)
Definition info_cmd (ctx : CommandContext) (args : list bytes) : CmdM CommandResult :=
  match args with
  | [_] | [_; _] =>
      w ← st_get;
      let uptime := uptime_seconds (steady (s_ticks (w_sys w))) (w_metrics w) in
      keys ← storage_op Storage.dbsize;
      expires ← storage_op Storage.expires_count;
      mret (done_ (bulk (info_text w uptime keys expires)))
  | _ => mret (wrong_args (hd [] args))
  end.

Definition command_cmd (names : list bytes) (args : list bytes) : CmdM CommandResult :=
  match args with
  | [_] => mret (done_ (array_of_bulk (Some <$> names)))
  | _ => mret (wrong_args (hd [] args))
  end.

Definition yes_no (b : bool) : bytes := if b then lit "yes" else lit "no".

Definition config_values (w : World) : list (bytes * bytes) :=
  let c := w_config w in
  [(lit "server.host", host (server c));
   (lit "server.port", to_string (port (server c)));
   (lit "server.workers", to_string (workers (server c)));
   (lit "server.max_clients", to_string (max_clients (server c)));
   (lit "storage.shards", to_string (shards (storage c)));
   (lit "storage.max_memory", to_string (max_memory_bytes (storage c)));
   (lit "persistence.aof_enabled", yes_no (aof_enabled (persistence c)));
   (lit "persistence.aof_path", aof_path (persistence c));
   (lit "persistence.fsync_policy", fsync_policy (persistence c));
   (lit "persistence.snapshot_path", snapshot_path (persistence c));
   (lit "persistence.manifest_path", manifest_path (persistence c));
   (lit "expiration.active_enabled", yes_no (active_enabled (expiration c)));
   (lit "expiration.interval_ms", to_string (interval_ms (expiration c)));
   (lit "logging.level", log_level_name (w_log_level w));
   (lit "metrics.enabled", yes_no (m_enabled (w_metrics w)));
   (lit "admin.shutdown_enabled", yes_no (admin_shutdown_enabled c));
   (lit "protocol.max_request_bytes", to_string (max_request_bytes (protocol c)));
   (lit "protocol.max_key_size", to_string (max_key_size (protocol c)));
   (lit "protocol.max_value_size", to_string (max_value_size (protocol c)))].

Definition config_get (pattern : bytes) (w : World) : list (bytes * bytes) :=
  List.filter (fun kv => beq pattern (lit "*") || beq pattern (to_lower_ascii kv.1)) (config_values w).

Definition config_set (key value : bytes) : CmdM CommandResult :=
  let key := to_lower_ascii key in
  if beq key (lit "logging.level") then
    _ ← st_modify (put_log_level (parse_log_level value)); mret ok
  else if beq key (lit "metrics.enabled") then
    match parse_bool value with
    | None => mret (err (lit "invalid bool value"))
    | Some b => _ ← st_modify (on_metrics (set_enabled b)); mret ok
    end
  else mret (err (lit "CONFIG SET only supports safe runtime values: logging.level, metrics.enabled")).

Definition config_cmd (ctx : CommandContext) (args : list bytes) : CmdM CommandResult :=
  match args with
  | name :: sub :: rest =>
      let sub := to_upper_ascii sub in
      if beq sub (lit "GET") then
        match rest with
        | [pattern] =>
            matched ← asks (config_get (to_lower_ascii pattern));
            mret (done_ (array_of_bulk (bulk_pairs matched)))
        | _ => mret (wrong_args name)
        end
      else if beq sub (lit "SET") then
        match rest with
        | [key; value] => config_set key value
        | _ => mret (wrong_args name)
        end
      else mret (err (lit "unsupported CONFIG subcommand"))
  | _ => mret (wrong_args (hd [] args))
  end.

Definition save_cmd (ctx : CommandContext) (args : list bytes) : CmdM CommandResult :=
  match args with
  | [_] =>
      match ctx_snapshot ctx with
      | None => mret (err (lit "snapshot store is not configured"))
      | Some ss =>
          w ← st_get;
          '(st, e) ← lift_sys (Snapshot.save clock ss (w_storage w) (w_aof w));
          _ ← st_modify (put_storage e);
          mret (if ok_status st then ok else err (message st))
      end
  | _ => mret (wrong_args (hd [] args))
  end.

Definition bgsave (ctx : CommandContext) (args : list bytes) : CmdM CommandResult :=
  match args with
  | [_] => mret (err (lit "BGSAVE is planned; use SAVE for the MVP snapshot path"))
  | _ => mret (wrong_args (hd [] args))
  end.

Definition bgrewriteaof (ctx : CommandContext) (args : list bytes) : CmdM CommandResult :=
  match args with
  | [_] =>
      w ← st_get;
      match (a ← w_aof w; if enabled a then Some a else None) with
      | None => mret (err (lit "AOF is disabled"))
      | Some a =>
          '(st, a, e) ← lift_sys (Aof.rewrite clock pid a (w_storage w));
          _ ← st_modify (put_storage e);
          _ ← st_modify (put_aof a);
          if negb (ok_status st) then
            _ ← st_modify (on_metrics aof_write_failed);
            mret (err (lit "AOF rewrite failed: " ++ message st))
          else
            _ ← st_modify (on_metrics aof_write_succeeded);
            mret ok
      end
  | _ => mret (wrong_args (hd [] args))
  end.

Definition shutdown_cmd (ctx : CommandContext) (args : list bytes) : CmdM CommandResult :=
  match args with
  | [_] | [_; _] =>
      c ← asks w_config;
      if negb (admin_shutdown_enabled c) then mret (err (lit "SHUTDOWN is disabled by configuration"))
      else
        aof ← asks w_aof;
        _ ← (match aof with Some a => lift_sys (Aof.sync a) | None => mret status_ok end);
        _ ← (if ctx_request_shutdown ctx then st_modify request_stop else mret tt);
        mret (MkResult (simple (lit "OK")) true)
  | _ => mret (wrong_args (hd [] args))
  end.

(** * The registry

    A handler also receives the registry's command names, which the closure
    registered for [COMMAND] reads. *)
Definition Handler : Type := list bytes -> CommandContext -> list bytes -> CmdM CommandResult.
Abbreviation Registry := (gmap bytes Handler).

Definition register_command (name : bytes) (h : Handler) (r : Registry) : Registry :=
  <[to_upper_ascii name := h]> r.

(** [operator<] of [std::string], and sorting by it. *)
Fixpoint bytes_ltb (a b : bytes) : bool :=
  match a, b with
  | _, [] => false
  | [], _ :: _ => true
  | x :: a, y :: b => (code x <? code y) || ((code x =? code y) && bytes_ltb a b)
  end.

Fixpoint insert_sorted (x : bytes) (l : list bytes) : list bytes :=
  match l with
  | [] => [x]
  | y :: rest => if bytes_ltb y x then y :: insert_sorted x rest else x :: l
  end.

Definition sort_names (l : list bytes) : list bytes := foldr insert_sorted [] l.

Definition command_names (r : Registry) : list bytes := sort_names (map_to_list r).*1.

Definition execute (r : Registry) (ctx : CommandContext) (args : list bytes) : CmdM CommandResult :=
  match args with
  | [] => mret (err (lit "empty command"))
  | name :: _ =>
      match r !! to_upper_ascii name with
      | None => mret (err (lit "unknown command '" ++ name ++ lit "'"))
      | Some h => h (command_names r) ctx args
      end
  end.

Definition cmd (f : CommandContext -> list bytes -> CmdM CommandResult) : Handler := fun _ => f.

Definition default_commands : list (string * Handler) :=
  [("PING", cmd ping); ("ECHO", cmd echo); ("GET", cmd get_cmd); ("SET", cmd set_cmd);
   ("DEL", cmd del_cmd); ("EXISTS", cmd exists_cmd); ("MGET", cmd mget_cmd); ("MSET", cmd mset_cmd);
   ("INCR", cmd (incr_decr 1)); ("DECR", cmd (incr_decr (-1)));
   ("APPEND", cmd append_cmd); ("STRLEN", cmd strlen_cmd);
   ("EXPIRE", cmd (expire_impl 1000 (lit "EXPIRE")));
   ("PEXPIRE", cmd (expire_impl 1 (lit "PEXPIRE")));
   ("PEXPIREAT", cmd pexpireat);
   ("TTL", cmd (ttl_impl false)); ("PTTL", cmd (ttl_impl true));
   ("PERSIST", cmd persist_cmd); ("DBSIZE", cmd dbsize_cmd); ("FLUSHDB", cmd flushdb_cmd);
   ("INFO", cmd info_cmd); ("CONFIG", cmd config_cmd); ("SAVE", cmd save_cmd);
   ("BGSAVE", cmd bgsave); ("BGREWRITEAOF", cmd bgrewriteaof); ("SHUTDOWN", cmd shutdown_cmd);
   ("COMMAND", fun names _ args => command_cmd names args)]%string.

Definition register_default_commands (r : Registry) : Registry :=
  fold_left (fun r nh => register_command (lit nh.1) nh.2 r) default_commands r.

Definition default_registry : Registry := register_default_commands ∅.
End Handlers.
