(* ===== verification/ConfigProps.v ===== *)
(** [CONFIG GET] and the configuration loader agree: what the one prints, the
    other reads back. *)
From S2P Require Import Prelude Util Config Resp Storage Fs Aof Snapshot ConfigLoader ConfigFacts.
From S2P Require Import Metrics Commands.

(** The configuration a running server reports: the logging level and the
    metrics switch are those in force. *)
Definition runtime_config (w : World) : Config :=
  put_metrics_enabled (put_logging_level (w_config w) (log_level_name (w_log_level w))) (m_enabled (w_metrics w)).

(** A text that the loader takes literally. *)
Definition literal (b : bytes) : Prop := strip_quotes b = b.

Definition texts_literal (c : Config) : Prop :=
  literal (host (server c)) /\ literal (aof_path (persistence c)) /\
  literal (snapshot_path (persistence c)) /\ literal (manifest_path (persistence c)).

Lemma strip_quotes_nonspace b :
  Forall (fun c => isspace c = false) b -> hd CR b <> dquote -> strip_quotes b = b.
Proof.
  intros Hs Hq. unfold strip_quotes. rewrite trim_nonspace by done. destruct b as [|c [|d rest]]; [done|done|].
  cbn [hd] in Hq. rewrite (bool_decide_eq_false_2 (c = dquote)) by done. done.
Qed.

(** * Numbers *)

Lemma u64_digits n : is_u64 n -> to_string n <> [] /\ Forall (fun c => isdigit c = true) (to_string n).
Proof.
  unfold is_u64. intros Hn. destruct (to_string_shape n) as (ds & -> & Hne & _ & Hall & _); [unfold u64_max in *; lia|].
  rewrite (proj2 (Z.ltb_ge n 0)) by lia. done.
Qed.

Lemma isdigit_facts c : isdigit c = true -> isspace c = false /\ c <> dquote /\ tolower c = c.
Proof.
  intros Hc. split; [by apply isdigit_not_space|]. split; [by intros ->|].
  destruct c as [[] [] [] [] [] [] [] []]; vm_compute in Hc |- *; done.
Qed.

Lemma strip_quotes_digits n : is_u64 n -> strip_quotes (to_string n) = to_string n.
Proof.
  intros [Hne Hd]%u64_digits. apply strip_quotes_nonspace.
  - eapply Forall_impl; [|exact Hd]. intros c Hc. by apply isdigit_facts.
  - destruct (to_string n) as [|c ds]; [done|]. inversion Hd; subst. by apply isdigit_facts.
Qed.

Lemma strip_suffix_digits suffix x ds :
  Forall (fun c => isdigit c = true) ds -> isdigit x = false -> strip_suffix (suffix ++ [x]) ds = None.
Proof.
  intros Hd Hx. unfold strip_suffix, beq. destruct (_ <=? _)%nat; [|done]. cbn [andb].
  case_bool_decide as Heq; [|done]. exfalso. rewrite List.Forall_forall in Hd.
  assert (Hin : x ∈ drop (length ds - length (suffix ++ [x])) ds) by (rewrite Heq; set_solver).
  apply list_elem_of_lookup in Hin as [i Hi]. rewrite lookup_drop in Hi. apply list_elem_of_lookup_2, list_elem_of_In, Hd in Hi.
  congruence.
Qed.

Lemma parse_byte_size_to_string n : is_u64 n -> parse_byte_size (to_string n) = Some n.
Proof.
  intros Hn. pose proof (u64_digits n Hn) as [Hne Hd]. unfold parse_byte_size.
  assert (Hsame : to_lower_ascii (trim (to_string n)) = to_string n).
  { rewrite trim_nonspace by (eapply Forall_impl; [|exact Hd]; intros c Hc; by apply isdigit_facts).
    unfold to_lower_ascii. rewrite <- (list_fmap_id (to_string n)) at 2. apply Forall_fmap_ext_1.
    eapply Forall_impl; [|exact Hd]. intros c Hc. by apply isdigit_facts. }
  rewrite Hsame. destruct (to_string n) as [|d ds] eqn:Hs; [done|]. rewrite <- Hs in *.
  assert (Hf : first_suffix byte_suffixes (to_string n) = (to_string n, 1)).
  { unfold byte_suffixes. cbn [first_suffix].
    rewrite (strip_suffix_digits (lit "k") "b"%char), (strip_suffix_digits [] "k"%char),
      (strip_suffix_digits (lit "m") "b"%char), (strip_suffix_digits [] "m"%char),
      (strip_suffix_digits (lit "g") "b"%char), (strip_suffix_digits [] "g"%char) by done. done. }
  rewrite Hf, parse_u64_to_string_eq by done. rewrite Z.div_1_r, Z.mul_1_r.
  unfold is_u64 in Hn. rewrite (proj2 (Z.ltb_ge _ _)) by lia. f_equal. apply u64_small. unfold u64_max in Hn. lia.
Qed.

(** * Printing and reading a configuration *)

(** The settings that [CONFIG GET] reports, in its order. *)
Definition reported : list Field :=
  [FHost; FPort; FWorkers; FMaxClients; FShards; FMaxMemory; FAofEnabled; FAofPath; FFsyncPolicy; FSnapshotPath;
   FManifestPath; FActiveEnabled; FIntervalMs; FLoggingLevel; FMetricsEnabled; FShutdownEnabled;
   FMaxRequestBytes; FMaxKeySize; FMaxValueSize].

Lemma yes_no_flag b : parse_bool (strip_quotes (yes_no b)) = Some b.
Proof. by destruct b. Qed.

Lemma level_lower l : to_lower_ascii (strip_quotes (log_level_name l)) = log_level_name l.
Proof. by destruct l. Qed.

(** The key of a pair is known: what remains is what its value means. *)
Lemma assigned_known key v f kd : field_of key = Some (f, kd) -> assigned key v = (x ← meaning kd (strip_quotes v); Some (f, x)).
Proof. intros Hf. unfold assigned. by rewrite Hf. Qed.

Lemma config_values_assigned w :
  usable (w_config w) -> texts_literal (w_config w) ->
  (fun kv => assigned kv.1 kv.2) <$> config_values w
  = (fun f => Some (f, get_field (runtime_config w) f)) <$> reported.
Proof.
  intros (Hport & Hw & Hsh & Hint & ? & ? & _ & ? & _ & ? & ? & _ & Hpol) (Hhost & Haof & Hsnap & Hman).
  assert (is_u64 (port (server (w_config w)))) by (unfold is_u64, u64_max; lia).
  assert (is_u64 (workers (server (w_config w)))) by (unfold is_u64; lia).
  assert (is_u64 (shards (storage (w_config w)))) by (unfold is_u64; lia).
  assert (is_u64 (interval_ms (expiration (w_config w)))) by (unfold is_u64; lia).
  unfold config_values, reported. cbn [fmap list_fmap fst snd].
  repeat (f_equal; [erewrite assigned_known by reflexivity; cbn [meaning get_field mbind option_bind]|]).
  all: rewrite ?strip_quotes_digits, ?yes_no_flag, ?level_lower by done; try done.
  all: rewrite ?parse_u64_to_string_eq, ?parse_byte_size_to_string by done; try done.
  - by rewrite Hhost.
  - cbn. by rewrite (proj2 (Z.leb_le _ _)) by lia.
  - by rewrite Haof.
  - change (fsync_policy (persistence (runtime_config w))) with (fsync_policy (persistence (w_config w))).
    apply elem_of_cons in Hpol as [->|[->|[->|Hno]%elem_of_cons]%elem_of_cons]; [vm_compute; reflexivity..|].
    by apply elem_of_nil in Hno.
  - by rewrite Hsnap.
  - by rewrite Hman.
  - f_equal. erewrite assigned_known by reflexivity. cbn [meaning get_field mbind option_bind].
    by rewrite strip_quotes_digits, parse_byte_size_to_string.
Qed.

(** The last assignment when each field is assigned the value it has in [c]. *)
Lemma last_assigned_fields f fields pairs c x :
  (fun kv => assigned kv.1 kv.2) <$> pairs = (fun f => Some (f, get_field c f)) <$> fields ->
  (f ∈ fields \/ x = get_field c f) -> last_assigned f pairs x = get_field c f.
Proof.
  revert fields x. induction pairs as [|kv pairs IH]; intros [|f0 fields] x Heq Hin; try done.
  { destruct Hin as [Hin|Hin]; [by apply elem_of_nil in Hin|done]. }
  cbn [fmap list_fmap] in Heq. injection Heq as Hkv Heq. unfold last_assigned in *. cbn [fold_left]. rewrite Hkv.
  apply (IH fields); [done|]. destruct (decide (f0 = f)) as [->|Hne]; [by right|].
  destruct Hin as [[->|Hin]%elem_of_cons|Hin]; [done|by left|by right].
Qed.

(** C36. [CONFIG GET] prints what the loader reads: assigning every pair that
    [CONFIG GET *] reports to any configuration, in the reported order, gives
    each of those settings the value the running server has, whenever its
    configuration is well-formed and its host
    and paths are texts the loader takes literally, that is without surrounding
    blanks and not in quotation marks. *)
Theorem config_get_reload w c f :
  usable (w_config w) -> texts_literal (w_config w) -> f ∈ reported ->
  config_get (lit "*") w = config_values w /\
  get_field (assign_all (config_values w) c) f = get_field (runtime_config w) f.
Proof.
  intros Hu Ht Hf. split.
  - unfold config_get. generalize (config_values w). intros l. induction l as [|kv l IH]; [done|]. cbn. by f_equal.
  - rewrite assign_all_last. eapply last_assigned_fields; [by apply config_values_assigned|]. by left.
Qed.

Definition default_world : World :=
  MkWorld (MkSys empty_fs [] 0) (new_engine default_storage default_protocol) (new_metrics 0) default_config None
    Debug false.

Lemma config_get_reload_witness :
  config_get (lit "*") default_world = config_values default_world /\
  get_field (assign_all (config_values default_world) default_config) FLoggingLevel = SText (lit "debug").
Proof.
  apply (config_get_reload default_world default_config FLoggingLevel).
  - repeat split; first [vm_compute; discriminate | set_solver].
  - repeat split; vm_compute; reflexivity.
  - unfold reported. set_solver.
Defined.
