(* ===== verification/Recovery.v ===== *)
(** Startup and recovery: [src/main.cpp] up to the start of the server, and
    [Aof::replay_file] with the callback that [main] passes to it. *)
From S2P Require Import Prelude Util Config Resp Storage Fs Aof Snapshot Metrics Commands.

(** How startup ends: the server runs, [main] returns an exit code, or the
    model's fuel ran out (which never happens). *)
Inductive StartOutcome := Started | Exited (exit_code : Z) | OutOfFuel.

Section Recovery.
Context `{Platform}.
Variables (clock : nat -> TimePoint) (steady : nat -> Z) (pid : Z).

Abbreviation registry := (default_registry clock steady pid).

(** [replay_file]: an unusable path and a missing file replay nothing. *)
Definition replay_file (path : bytes) (protocol : ProtocolConfig)
    (callback : list bytes -> CmdM Status) (start_offset : Z) : CmdM (option ReplayStats) :=
  present ← lift_sys (exists_file path);
  if negb (path_is_safe path) || negb present then mret (Some (MkReplayStats 0 false status_ok))
  else
    content ← lift_sys (read_file path);
    replay_bytes callback protocol content start_offset.

(** [response.rfind("-ERR", 0) == 0]. *)
Definition is_error_reply (r : bytes) : bool := beq (take 4 r) (lit "-ERR").

(** The callback: the command runs against the storage, without a log. *)
Definition replay_command (ss : SnapshotStore) (args : list bytes) : CmdM Status :=
  result ← execute registry (MkContext (Some ss) false true) args;
  mret (if is_error_reply (response result)
        then MkStatus ProtocolError (lit "AOF command failed during replay")
        else status_ok).

(** The size of the log, zero when it cannot be told. *)
Definition aof_file_size (path : bytes) : SysM Z :=
  present ← exists_file path;
  if negb present then mret 0
  else
    e ← syscall;
    look_fs (fun fs => match e with Some _ => 0 | None => bsize (default [] (file_at fs path)) end).

(** Loading the snapshot into the storage of the world. *)
Definition load_world (m : StorageEngine -> SysM (option Status * StorageEngine)) : CmdM (option Status) :=
  e ← asks w_storage;
  '(st, e) ← lift_sys (m e);
  _ ← st_modify (put_storage e);
  mret st.

Definition load_for_recovery_world (ss : SnapshotStore) (path : bytes) (size : Z)
    : CmdM (option RecoveryLoadResult) :=
  e ← asks w_storage;
  '(r, e) ← lift_sys (load_for_recovery clock ss e path size);
  _ ← st_modify (put_storage e);
  mret r.

(** Recovery with the AOF enabled: the snapshot its manifest vouches for, then
    the rest of the log. *)
Definition recover (ss : SnapshotStore) : CmdM StartOutcome :=
  config ← asks w_config;
  let path := aof_path (persistence config) in
  aof_size ← lift_sys (aof_file_size path);
  loaded ← load_for_recovery_world ss path aof_size;
  match loaded with
  | None => mret OutOfFuel
  | Some r =>
      if negb (ok_status (rl_status r)) then mret (Exited 3)
      else
        let offset := if rl_loaded_snapshot r then rl_aof_replay_offset r else 0 in
        stats ← replay_file path (protocol config) (replay_command ss) offset;
        match stats with
        | None => mret OutOfFuel
        | Some stats => mret (if negb (ok_status (rs_status stats)) then Exited 3 else Started)
        end
  end.

(** [main] after the configuration is known. *)
Definition startup : CmdM StartOutcome :=
  config ← asks w_config;
  let ss := new_store (snapshot_path (persistence config)) (protocol config)
              (manifest_path (persistence config)) in
  outcome ← (if aof_enabled (persistence config) then recover ss
             else
               (* a snapshot that cannot be loaded is only logged *)
               st ← load_world (load clock ss);
               mret match st with None => OutOfFuel | Some _ => Started end);
  match outcome with
  | Started =>
      '(st, a) ← lift_sys (open_ (new_aof (persistence config) (protocol config)));
      _ ← st_modify (put_aof a);
      mret (if ok_status st then Started else Exited 4)
  | other => mret other
  end.

(** The world [main] starts from. *)
Definition boot (config : Config) (sys : Sys) : World :=
  MkWorld sys (new_engine (storage config) (protocol config))
    (set_enabled (metrics_enabled config) (new_metrics (steady (s_ticks sys)))) config None
    (parse_log_level (logging_level config)) false.

(** Recovery from what is on disk. *)
Definition restart (config : Config) (sys : Sys) : StartOutcome * World := startup (boot config sys).
End Recovery.
