(* ===== verification/PersistFacts.v ===== *)
(** Lemmas on the log and the snapshot: what the writers leave in a file, and
    what the readers make of it. *)
From S2P Require Import Prelude Util Config Resp RespFacts Storage StorageFacts StorageSpec.
From S2P Require Import StorageSweep StorageRefine Restore Fs Aof Snapshot Metrics Commands.
From S2P Require Import Recovery.

(** * The bytes of a command list *)

Definition log_bytes (cmds : list (list bytes)) : bytes := concat (map encode_command cmds).

Definition entry_log (l : list SnapshotEntry) : bytes := log_bytes (flat_map entry_commands l).

Lemma log_bytes_app a b : log_bytes (a ++ b) = log_bytes a ++ log_bytes b.
Proof. unfold log_bytes. by rewrite map_app, concat_app. Qed.

Lemma encode_command_pos args : (0 < length (encode_command args))%nat.
Proof. unfold encode_command, array_header. rewrite !length_app. simpl. lia. Qed.

Lemma log_bytes_length cmds : (length cmds <= length (log_bytes cmds))%nat.
Proof.
  induction cmds as [|c cmds IH]; [done|]. change (log_bytes (c :: cmds)) with (encode_command c ++ log_bytes cmds).
  rewrite length_app. pose proof (encode_command_pos c). simpl. lia.
Qed.

(** What is left after the last complete command of a log: nothing, or a proper
    prefix of one more command. *)
Definition torn (o : ParserOptions) (tail : bytes) : Prop :=
  tail = [] \/ exists args suf, command_fits o args /\ encode_command args = tail ++ suf /\ suf <> [].

Lemma torn_needs_more o tail :
  limits_fit o -> torn o tail -> next_command (MkParser o tail) = (CNeedMore, MkParser o tail).
Proof.
  intros Hl [->|(args & suf & Hf & He & Hs)]; [done|]. by eapply torn_command_needs_more.
Qed.

(** * Replaying *)

Section ReplayFacts.
Context {W : Type}.
Variable callback : list bytes -> St W Status.

(** Running the commands of a log in order, up to the first that fails. *)
Fixpoint replay_all (cmds : list (list bytes)) (commands : Z) (tail : bool) : St W (option ReplayStats) :=
  match cmds with
  | [] => mret (Some (MkReplayStats commands tail status_ok))
  | c :: cmds =>
      st ← callback c;
      if negb (ok_status st) then mret (Some (MkReplayStats commands false st))
      else replay_all cmds (commands + 1) tail
  end.

Lemma replay_loop_log o cmds tail fuel n w :
  Forall (command_fits o) cmds -> limits_fit o -> torn o tail -> (length cmds < fuel)%nat ->
  replay_loop callback fuel (MkParser o (log_bytes cmds ++ tail)) n w
  = replay_all cmds n (negb (bsize tail =? 0)) w.
Proof.
  intros Hf Hl Ht. revert fuel n w. induction cmds as [|c cmds IH]; intros [|fuel] n w Hfuel;
    try (simpl in Hfuel; lia); cbn [replay_loop].
  - change (log_bytes [] ++ tail) with tail. rewrite torn_needs_more by done. done.
  - inversion Hf as [|? ? Hc Hf']; subst.
    change (log_bytes (c :: cmds)) with (encode_command c ++ log_bytes cmds).
    rewrite <- app_assoc, next_command_encode by done. cbn [replay_all].
    rewrite !st_bind_eq. destruct (negb (ok_status (callback c w).1)); [done|].
    apply IH; [done|]. simpl in Hfuel. lia.
Qed.

(** A whole log, from its start. *)
Lemma replay_bytes_log protocol cmds tail w :
  let o := parser_options_from_config protocol in
  Forall (command_fits o) cmds -> limits_fit o -> torn o tail ->
  bsize (log_bytes cmds ++ tail) <= max_request_bytes protocol ->
  replay_bytes callback protocol (log_bytes cmds ++ tail) 0 w
  = replay_all cmds 0 (negb (bsize tail =? 0)) w.
Proof.
  intros o Hf Hl Ht Hb. unfold replay_bytes.
  destruct (Z.eqb_spec (bsize (log_bytes cmds ++ tail)) 0) as [Hz|Hz].
  { unfold bsize in Hz. rewrite length_app in Hz. pose proof (log_bytes_length cmds).
    assert (cmds = []) as -> by (destruct cmds; [done|]; simpl in *; lia).
    assert (tail = []) as -> by (destruct tail; [done|]; simpl in *; lia). done. }
  pose proof (bsize_nonneg (log_bytes cmds ++ tail)).
  rewrite (proj2 (Z.ltb_ge _ _)), (proj2 (Z.eqb_neq _ _)) by lia. cbn [Z.to_nat drop].
  rewrite append_ok by done. cbn [app].
  apply replay_loop_log; try done. change (Z.to_nat 0) with 0%nat. rewrite drop_0, length_app. pose proof (log_bytes_length cmds). lia.
Qed.

(** Replaying from an offset is replaying the rest of the log. *)
Lemma replay_bytes_offset protocol pre rest w :
  replay_bytes callback protocol (pre ++ rest) (bsize pre) w = replay_bytes callback protocol rest 0 w.
Proof.
  unfold replay_bytes. rewrite bsize_app.
  pose proof (bsize_nonneg pre). pose proof (bsize_nonneg rest).
  rewrite (proj2 (Z.ltb_ge _ (bsize pre))), (proj2 (Z.ltb_ge _ 0)) by lia.
  replace (drop (Z.to_nat (bsize pre)) (pre ++ rest)) with rest
    by (unfold bsize; by rewrite Nat2Z.id, drop_app_length).
  cbn [Z.to_nat drop].
  destruct (Z.eqb_spec (bsize rest) 0) as [Hr|Hr].
  - rewrite (proj2 (Z.eqb_eq (bsize pre) _)) by lia. by destruct (_ =? 0).
  - rewrite !(proj2 (Z.eqb_neq _ _)) by lia. done.
Qed.

(** The loop always finishes. *)
Lemma replay_loop_total o buf fuel n w :
  limits_fit o -> bsize buf <= opt_max_request_bytes o -> (length buf < fuel)%nat ->
  is_Some (replay_loop callback fuel (MkParser o buf) n w).1.
Proof.
  intros Hl. revert buf n w. induction fuel as [|fuel IH]; intros buf n w Hb Hf; [lia|].
  cbn [replay_loop].
  destruct (next_command_cases o buf Hl Hb) as [->|(r & k & -> & Hs & Hk & Hpos & _)]; [by eexists|].
  destruct r as [args raw| |err|]; try done.
  rewrite st_bind_eq. destruct (negb _); [by eexists|]. destruct (Hpos args raw eq_refl) as [Hk0 _].
  apply IH; [|rewrite length_drop; lia].
  unfold bsize in *. rewrite length_drop. lia.
Qed.

Lemma replay_bytes_total protocol content offset w :
  limits_fit (parser_options_from_config protocol) ->
  is_Some (replay_bytes callback protocol content offset w).1.
Proof.
  intros Hl. unfold replay_bytes.
  do 3 (destruct (_ : bool); [by eexists|]).
  unfold Resp.append. cbn [options_ buffer_].
  destruct (_ || _) eqn:Ho; [by eexists|]. cbn [negb ok_status st_code status_ok].
  apply orb_false_iff in Ho as [Ho _]. apply Z.ltb_ge in Ho.
  apply replay_loop_total; [done|done|]. simpl. lia.
Qed.
End ReplayFacts.

(** * Loading a snapshot *)

Section LoadFacts.
Context `{Platform}.
Variable clock : nat -> Z.

(** Running the commands of a snapshot in order, up to the first that fails. *)
Fixpoint load_all (cmds : list (list bytes)) (e : StorageEngine) : SysM (option Status * StorageEngine) :=
  match cmds with
  | [] => mret (Some status_ok, e)
  | c :: cmds =>
      '(st, e) ← load_command clock c e;
      if negb (ok_status st) then mret (Some st, e) else load_all cmds e
  end.

Lemma load_loop_log o cmds fuel e s :
  Forall (command_fits o) cmds -> (length cmds < fuel)%nat ->
  load_loop clock fuel (MkParser o (log_bytes cmds)) e s = load_all cmds e s.
Proof.
  intros Hf. revert fuel e s. induction cmds as [|c cmds IH]; intros [|fuel] e s Hfuel;
    try (simpl in Hfuel; lia); cbn [load_loop]; [done|].
  inversion Hf as [|? ? Hc Hf']; subst.
  change (log_bytes (c :: cmds)) with (encode_command c ++ log_bytes cmds).
  rewrite next_command_encode by done. cbn [load_all]. rewrite !st_bind_eq.
  destruct (load_command clock c e s) as [[st e1] s1]. cbn [fst snd].
  destruct (negb (ok_status st)); [done|]. apply IH; [done|]. simpl in Hfuel. lia.
Qed.

Lemma load_bytes_log ss cmds e s :
  let o := parser_options_from_config (ss_protocol ss) in
  Forall (command_fits o) cmds -> bsize (log_bytes cmds) <= opt_max_request_bytes o ->
  load_bytes clock ss (log_bytes cmds) e s = load_all cmds e s.
Proof.
  intros o Hf Hb. unfold load_bytes.
  destruct (log_bytes cmds) as [|a b] eqn:Hc.
  { pose proof (log_bytes_length cmds) as Hlen. rewrite Hc in Hlen. by destruct cmds; simpl in Hlen; [|lia]. }
  rewrite <- Hc in *. rewrite append_ok by done. cbn [app].
  apply load_loop_log; [done|]. pose proof (log_bytes_length cmds). lia.
Qed.

Definition tick (s : Sys) (t : nat) : Sys := MkSys (s_fs s) (s_io s) t.

Lemma load_set k v e s :
  load_command clock [lit "SET"; k; v] e s =
  let '(w, e1) := set (clock (s_ticks s)) k v None Always e in
  ((if bool_decide (w_code w = WOk) then status_ok
    else MkStatus InternalError (storage_write_error (w_code w)), e1), tick s (S (s_ticks s))).
Proof.
  transitivity ((now ← read_clock clock;
    let '(w, e) := set now k v None Always e in
    mret (if bool_decide (w_code w = WOk) then status_ok
          else MkStatus InternalError (storage_write_error (w_code w)), e)) s); [done|].
  rewrite st_bind_eq. cbn [read_clock fst snd]. by destruct (set _ k v None Always e).
Qed.

Lemma load_pexpireat k ms e s :
  is_i64 ms ->
  load_command clock [lit "PEXPIREAT"; k; to_string ms] e s =
  ((status_ok, (expire_at (clock (s_ticks s)) k (timepoint_from_unix_ms ms) e).2), tick s (S (s_ticks s))).
Proof.
  intros Hms. transitivity (match parse_i64 (to_string ms) with
    | None => mret (MkStatus ProtocolError (lit "invalid PEXPIREAT in snapshot"), e)
    | Some ms =>
        now ← read_clock clock;
        mret (status_ok, (expire_at now k (timepoint_from_unix_ms ms) e).2)
    end s); [done|]. by rewrite parse_i64_to_string_eq.
Qed.

(** The commands of one entry do what [restore_entry] does. *)
Lemma load_entry entry cmds e s :
  (forall ms, sn_expire_at_unix_ms entry = Some ms -> is_i64 ms) ->
  let '(ok, t, e') := restore_entry clock (s_ticks s) entry e in
  ok = true -> load_all (entry_commands entry ++ cmds) e s = load_all cmds e' (tick s t).
Proof.
  intros Hms. unfold restore_entry, entry_commands. cbn [app load_all].
  rewrite st_bind_eq, load_set.
  destruct (set (clock (s_ticks s)) (sn_key entry) (sn_value entry) None Always e) as [w e1].
  intros Hok. rewrite Hok. cbn [fst snd].
  destruct (sn_expire_at_unix_ms entry) as [ms|]; [|done].
  change (negb (ok_status status_ok)) with false. cbv iota.
  cbn [app load_all]. by rewrite st_bind_eq, load_pexpireat by auto.
Qed.

Lemma load_entries bound done l e s :
  (forall i, clock i <= bound) -> restored bound done e -> restorable (done ++ l) e ->
  Forall (fun x => forall ms, sn_expire_at_unix_ms x = Some ms -> is_i64 ms) l ->
  exists e' t, load_all (flat_map entry_commands l) e s = ((Some status_ok, e'), tick s t) /\
    restored bound (done ++ l) e' /\ same_shape e e'.
Proof.
  intros Hclk. revert done e s. induction l as [|x l IH]; intros done e s Hr Hable Hms.
  { exists e, (s_ticks s). rewrite app_nil_r. by destruct s. }
  inversion Hms as [|? ? Hx Hms']; subst.
  pose proof (restore_entry_spec clock (s_ticks s) bound done x l e Hclk Hr Hable) as Hspec.
  pose proof (load_entry x (flat_map entry_commands l) e s Hx) as Hload. cbn [flat_map].
  destruct (restore_entry clock (s_ticks s) x e) as [[ok t] e1].
  destruct Hspec as (-> & Hr1 & Hsh). rewrite Hload by done.
  destruct (IH (done ++ [x]) e1 (tick s t) Hr1) as (e' & t' & Hall & Hr' & Hsh'); [|done|].
  { rewrite <- app_assoc. destruct Hable as (? & Hv & Hm & ?).
    destruct Hsh as (Hc & Hl & _). split; [done|]. split; [|split; [by rewrite Hc|done]].
    eapply Forall_impl; [|exact Hv]. intros y. unfold key_valid, value_valid. by rewrite Hl. }
  exists e', t'. rewrite Hall, <- app_assoc in *. split; [done|]. split; [done|by etrans].
Qed.

Lemma load_loop_total o buf fuel e s :
  limits_fit o -> bsize buf <= opt_max_request_bytes o -> (length buf < fuel)%nat ->
  is_Some (load_loop clock fuel (MkParser o buf) e s).1.1.
Proof.
  intros Hl. revert buf e s. induction fuel as [|fuel IH]; intros buf e s Hb Hf; [lia|].
  cbn [load_loop].
  destruct (next_command_cases o buf Hl Hb) as [->|(r & k & -> & Hs & Hk & Hpos & _)]; [by eexists|].
  destruct r as [args raw| |err|]; try done.
  rewrite st_bind_eq. destruct (load_command clock args e s) as [[st e1] s1]. cbn [fst snd].
  destruct (negb _); [by eexists|]. destruct (Hpos args raw eq_refl) as [Hk0 _].
  apply IH; [|rewrite length_drop; lia]. unfold bsize in *. rewrite length_drop. lia.
Qed.

Lemma load_total ss e s :
  limits_fit (parser_options_from_config (ss_protocol ss)) -> is_Some (load clock ss e s).1.1.
Proof.
  intros Hl. unfold load. rewrite st_bind_eq. destruct (_ || _); [by eexists|].
  rewrite st_bind_eq. destruct (read_stream _ _) as [[content|] s1]; cbn [fst snd]; [|by eexists].
  unfold load_bytes. destruct content as [|c content]; [by eexists|].
  unfold Resp.append. cbn [options_ buffer_].
  destruct (_ || _) eqn:Ho; [by eexists|]. cbn [negb ok_status st_code status_ok].
  apply orb_false_iff in Ho as [Ho _]. apply Z.ltb_ge in Ho.
  apply load_loop_total; [done|done|]. simpl. lia.
Qed.
End LoadFacts.

(** * Commands that fit the parser's limits *)

(** Limits under which everything the writers produce can be read back: arrays
    of three, bulk strings as long as a key, a value or a decimal number. *)
Definition protocol_ok (p : ProtocolConfig) : Prop :=
  limits_fit (parser_options_from_config p) /\ 3 <= max_array_elements p /\
  21 <= max_value_size p <= i64_max /\ max_key_size p <= max_value_size p.

Lemma log_bytes_le c cmds : c ∈ cmds -> bsize (encode_command c) <= bsize (log_bytes cmds).
Proof.
  intros Hc. apply list_elem_of_split in Hc as (l1 & l2 & ->). rewrite log_bytes_app.
  change (log_bytes (c :: l2)) with (encode_command c ++ log_bytes l2).
  rewrite !bsize_app. pose proof (bsize_nonneg (log_bytes l1)). pose proof (bsize_nonneg (log_bytes l2)). lia.
Qed.

Lemma command_fits3 p a b c :
  protocol_ok p ->
  bsize a <= max_value_size p -> bsize b <= max_value_size p -> bsize c <= max_value_size p ->
  bsize (encode_command [a; b; c]) <= max_request_bytes p ->
  command_fits (parser_options_from_config p) [a; b; c].
Proof.
  intros ([? ?] & ? & ? & ?) Ha Hb Hc Hr.
  assert (Hin : forall x : bytes, bsize x <= max_value_size p ->
    is_i64 (bsize x) /\ bsize x <= opt_max_bulk_bytes (parser_options_from_config p)).
  { intros x Hx. pose proof (bsize_nonneg x). unfold is_i64, i64_min. split; [lia|done]. }
  split; [unfold u64_max in *; cbn in *; lia|]. split; [simpl; unfold i64_max; lia|].
  split; [simpl; lia|]. split; [|done]. repeat constructor; by apply Hin.
Qed.

Lemma entry_commands_fit p l :
  protocol_ok p -> bsize (entry_log l) <= max_request_bytes p ->
  Forall (fun s => bsize (sn_key s) <= max_key_size p /\ bsize (sn_value s) <= max_value_size p) l ->
  Forall (fun s => forall ms, sn_expire_at_unix_ms s = Some ms -> is_i64 ms) l ->
  Forall (command_fits (parser_options_from_config p)) (flat_map entry_commands l).
Proof.
  intros Hp Hb Hkv Hms. rewrite List.Forall_forall in Hkv. rewrite List.Forall_forall in Hms.
  apply List.Forall_forall. intros c Hc.
  assert (Hc' := Hc). apply list_elem_of_In, log_bytes_le in Hc'. fold (entry_log l) in Hc'.
  apply in_flat_map in Hc as (s & Hs & Hc). destruct (Hkv s Hs) as [Hk Hv]. specialize (Hms s Hs).
  pose proof Hp as (_ & _ & ? & ?). destruct Hc as [<-|Hc].
  - apply command_fits3; [done|unfold bsize; simpl; lia|lia|lia|lia].
  - destruct (sn_expire_at_unix_ms s) as [ms|]; [|done]. destruct Hc as [<-|[]].
    apply command_fits3; [done|unfold bsize; simpl; lia|lia| |lia].
    specialize (Hms ms eq_refl). pose proof (to_string_length ms) as Hlen.
    unfold is_i64, i64_min, i64_max, u64_max in *. unfold bsize. lia.
Qed.
