(* ===== verification/ManifestFacts.v ===== *)
(** The manifest's text reads back as the manifest that was written. *)
From S2P Require Import Prelude Util Config Storage Fs Aof Snapshot.

(** A value that survives its line: no line feed, no space at either end. *)
Definition line_value (v : bytes) : Prop :=
  Forall (fun c => c <> LF) v /\ starts_not isspace v /\ ends_not isspace v.

Lemma split_lines_line cur v rest :
  Forall (fun c => c <> LF) v -> split_lines cur (v ++ LF :: rest) = (rev cur ++ v) :: split_lines [] rest.
Proof.
  intros Hv. revert cur. induction Hv as [|c v Hc Hv IH]; intros cur; simpl.
  - by rewrite app_nil_r.
  - rewrite bool_decide_eq_false_2 by done. rewrite IH. simpl. by rewrite <- app_assoc.
Qed.

Lemma getlines_concat lines :
  Forall (Forall (fun c => c <> LF)) lines ->
  getlines (concat (map (fun l => l ++ [LF]) lines)) = lines.
Proof.
  unfold getlines. induction 1 as [|l lines Hl Hls IH]; [done|].
  cbn [map concat]. rewrite <- app_assoc. cbn [app]. rewrite split_lines_line by done. by rewrite IH.
Qed.

(** A [key=value] line with a plain key. *)
Definition plain_key (k : bytes) : bool :=
  match k with
  | [] => false
  | c :: _ => negb (bool_decide (c = "#"%char)) && forallb (fun c => negb (isspace c) && not_eq_sign c) k
  end.

Lemma plain_key_facts k :
  plain_key k = true ->
  k <> [] /\ Forall (fun c => isspace c = false) k /\ Forall (fun c => not_eq_sign c = true) k /\
  forall c r, k = c :: r -> c <> "#"%char.
Proof.
  destruct k as [|c k]; [done|]. cbn [plain_key]. intros [Hc Hf]%andb_true_iff.
  rewrite forallb_forall in Hf. split; [done|]. split; [|split].
  - apply Forall_forall. intros a Ha. apply Hf in Ha. by bool_to_prop.
  - apply Forall_forall. intros a Ha. apply Hf in Ha. by bool_to_prop.
  - intros c' r [= <- _]. by bool_to_prop.
Qed.

Lemma ends_not_app p a b :
  ends_not p b -> (b = [] -> ends_not p a) -> ends_not p (a ++ b).
Proof.
  unfold ends_not. intros Hb Ha. rewrite reverse_app. destruct (reverse b) as [|c r] eqn:Hr; [|done].
  apply Ha. rewrite <- (reverse_involutive b), Hr. done.
Qed.

Lemma manifest_line_pair m k v :
  plain_key k = true -> line_value v -> m !! k = None ->
  manifest_line m (k ++ lit "=" ++ v) = <[k := v]> m.
Proof.
  intros Hk (_ & Hv1 & Hv2) Hm. destruct (plain_key_facts k Hk) as (Hne & Hsp & Heq & Hhash).
  destruct k as [|c k]; [done|].
  assert (Htrim : trim ((c :: k) ++ lit "=" ++ v) = (c :: k) ++ lit "=" ++ v).
  { apply trim_id.
    - simpl. by inversion Hsp.
    - apply ends_not_app; [|done]. apply ends_not_app; [done|]. intros ->. done. }
  unfold manifest_line. rewrite Htrim. cbn [app].
  rewrite bool_decide_eq_false_2 by (by eapply Hhash).
  change (c :: k ++ lit "=" ++ v) with ((c :: k) ++ lit "=" ++ v).
  rewrite span_app by done. cbn [lit String.list_ascii_of_string app].
  rewrite (trim_nonspace (c :: k)), (trim_id v) by done. by rewrite Hm.
Qed.

Lemma no_lf_nonspace v : Forall (fun c => isspace c = false) v -> Forall (fun c => c <> LF) v.
Proof. intros Hv. eapply Forall_impl; [|exact Hv]. intros c Hc ->. done. Qed.

Lemma line_value_to_string z : - u64_max <= z <= u64_max -> line_value (to_string z).
Proof.
  intros Hz. pose proof (to_string_nonspace z Hz) as Hn. split; [by apply no_lf_nonspace|]. by apply nonspace_ends.
Qed.

(** The parsed key-value pairs of a written manifest. *)
Lemma parse_manifest_pairs (pairs : list (bytes * bytes)) :
  Forall (fun kv => plain_key kv.1 = true /\ line_value kv.2) pairs -> NoDup pairs.*1 ->
  forall m, (forall k, k ∈ pairs.*1 -> m !! k = None) ->
  fold_left manifest_line (map (fun kv => kv.1 ++ lit "=" ++ kv.2) pairs) m
  = fold_left (fun m kv => <[kv.1 := kv.2]> m) pairs m.
Proof.
  induction 1 as [|[k v] pairs [Hk Hv] Hps IH]; intros Hn m Hm; [done|].
  cbn [fmap list_fmap fst] in Hn. apply list.NoDup_cons in Hn as [Hkn Hn].
  cbn [map fold_left fst snd] in *. rewrite manifest_line_pair by (done || (apply Hm; by left)).
  apply IH; [done|]. intros k' Hk'. rewrite lookup_insert_ne by (intros ->; done).
  apply Hm. by right.
Qed.

Definition manifest_pairs (m : Manifest) : list (bytes * bytes) :=
  [(lit "format_version", lit "1");
   (lit "snapshot_path", normalize_path_string (mf_snapshot_path m));
   (lit "aof_path", normalize_path_string (mf_aof_path m));
   (lit "aof_offset", to_string (mf_aof_offset m));
   (lit "created_unix_ms", to_string (mf_created_unix_ms m))].

Lemma manifest_lines_pairs m :
  manifest_lines m = map (fun l => l ++ [LF]) (map (fun kv => kv.1 ++ lit "=" ++ kv.2) (manifest_pairs m)).
Proof. unfold manifest_lines, manifest_pairs. simpl. by rewrite <- ?app_assoc. Qed.

Lemma plain_key_no_lf k : plain_key k = true -> Forall (fun c => c <> LF) k.
Proof. intros Hk. apply no_lf_nonspace. by destruct (plain_key_facts k Hk) as (_ & ? & _). Qed.

Lemma manifest_text_roundtrip m :
  line_value (normalize_path_string (mf_snapshot_path m)) ->
  line_value (normalize_path_string (mf_aof_path m)) ->
  is_u64 (mf_aof_offset m) -> is_i64 (mf_created_unix_ms m) ->
  manifest_of_text (concat (manifest_lines m))
  = Some (MkManifest (normalize_path_string (mf_snapshot_path m))
            (normalize_path_string (mf_aof_path m)) (mf_aof_offset m) (mf_created_unix_ms m)).
Proof.
  intros Hs Ha Ho Hc.
  assert (Hpairs : Forall (fun kv => plain_key kv.1 = true /\ line_value kv.2) (manifest_pairs m)).
  { unfold is_u64, is_i64, i64_min, i64_max, u64_max in *.
    unfold manifest_pairs. repeat (apply List.Forall_cons; [split; [done|]|]); try done.
    - change (lit "1") with (to_string 1). apply line_value_to_string. unfold u64_max. lia.
    - apply line_value_to_string. unfold u64_max. lia.
    - apply line_value_to_string. unfold u64_max. lia. }
  unfold manifest_of_text, parse_manifest_lines. rewrite manifest_lines_pairs, getlines_concat.
  2:{ apply Forall_map. eapply Forall_impl; [|exact Hpairs]. intros [k v] [Hk [Hv _]]. simpl in *.
      apply Forall_app. split; [by apply plain_key_no_lf|]. by constructor. }
  rewrite parse_manifest_pairs; [|done| |by intros; apply lookup_empty].
  2:{ cbn. repeat (apply list.NoDup_cons; split; [set_solver|]). constructor. }
  unfold manifest_pairs. cbn [fold_left fst snd].
  repeat first [rewrite lookup_insert_eq | rewrite lookup_insert_ne by discriminate].
  cbn [mbind option_bind]. change (negb (beq (lit "1") (lit "1"))) with false. cbv iota.
  by rewrite parse_u64_to_string_eq, parse_i64_to_string_eq.
Qed.
