(* ===== verification/WriterFacts.v ===== *)
(** The writers of the log and of the snapshot, whatever their system calls
    return: the file they replace holds either its old contents or all of the
    new ones. *)
From S2P Require Import Prelude Util Config Resp RespFacts Storage StorageFacts Fs FsFacts Aof.
From S2P Require Import Snapshot Metrics Commands Recovery Restore PersistFacts.

(** * Writing command lists *)

Lemma wp_write_commands fd cmds (Q : Status -> Sys -> Prop) s :
  (forall st s' b, appended fd b (s_fs s) (s_fs s') -> s_ticks s' = s_ticks s ->
     (ok_status st = true -> b = log_bytes cmds) -> Q st s') ->
  wp (write_commands fd cmds) Q s.
Proof.
  revert s Q. induction cmds as [|c cmds IH]; intros s Q HQ; cbn [write_commands].
  { apply wp_ret, (HQ _ _ []); [apply appended_nil|done|done]. }
  apply wp_bind, wp_write_all. intros st s1 b1 _ Ha Ht Hok.
  destruct (ok_status st) eqn:Hst; cbn [negb].
  - apply IH. intros st2 s2 b2 Ha2 Ht2 Hok2.
    apply (HQ st2 s2 (b1 ++ b2)); [by eapply appended_trans|congruence|].
    intros Hs2. by rewrite Hok, (Hok2 Hs2).
  - apply wp_ret, (HQ st s1 b1); [done|done|]. by rewrite Hst.
Qed.

Lemma wp_put_all fd good parts (Q : bool -> Sys -> Prop) s :
  (forall r s' b, appended fd b (s_fs s) (s_fs s') -> s_ticks s' = s_ticks s ->
     (r = true -> good = true /\ b = concat parts) -> Q r s') ->
  wp (put_all fd good parts) Q s.
Proof.
  revert s good Q. induction parts as [|p parts IH]; intros s good Q HQ; cbn [put_all].
  { apply wp_ret, (HQ _ _ []); [apply appended_nil|done|done]. }
  apply wp_bind, wp_stream_put. intros r s1 b1 _ Ha Ht Hok. apply IH.
  intros r2 s2 b2 Ha2 Ht2 Hok2.
  apply (HQ r2 s2 (b1 ++ b2)); [by eapply appended_trans|congruence|].
  intros Hr2. destruct (Hok2 Hr2) as [Hr ->]. destruct (Hok Hr) as [-> ->]. done.
Qed.

Lemma wp_put_entries fd l (Q : bool -> Sys -> Prop) s :
  (forall r s' b, appended fd b (s_fs s) (s_fs s') -> s_ticks s' = s_ticks s ->
     (r = true -> b = entry_log l) -> Q r s') ->
  wp (put_entries fd l) Q s.
Proof.
  revert s Q. induction l as [|x l IH]; intros s Q HQ; cbn [put_entries].
  { apply wp_ret, (HQ _ _ []); [apply appended_nil|done|done]. }
  apply wp_bind, wp_put_all. intros r s1 b1 Ha Ht Hok. destruct r; cbn [negb].
  - apply IH. intros r2 s2 b2 Ha2 Ht2 Hok2.
    apply (HQ r2 s2 (b1 ++ b2)); [by eapply appended_trans|congruence|].
    intros Hr2. rewrite (Hok2 Hr2). destruct (Hok eq_refl) as [_ ->].
    unfold entry_log. cbn [flat_map]. by rewrite log_bytes_app.
  - by apply wp_ret, (HQ false s1 b1).
Qed.

(** * Installing a temporary file *)

(** The new contents of a path: either untouched, or exactly [b]. *)
Definition old_or_new (path b : bytes) (fs fs' : Fs) : Prop :=
  file_at fs' path = file_at fs path \/ file_at fs' path = Some b.

(** Every other file is as before. *)
Definition only_paths (ps : list bytes) (fs fs' : Fs) : Prop :=
  forall p, p ∉ ps -> file_at fs' p = file_at fs p.

Lemma only_paths_trans ps fs1 fs2 fs3 :
  only_paths ps fs1 fs2 -> only_paths ps fs2 fs3 -> only_paths ps fs1 fs3.
Proof. intros H1 H2 p Hp. by rewrite H2, H1. Qed.

Lemma fs_rename_frame from to fs p :
  p <> from -> p <> to -> file_at (fs_rename from to fs) p = file_at fs p.
Proof.
  intros Hf Ht. unfold fs_rename, file_at, content. destruct (fs_dir fs !! from); [|done].
  simpl. by rewrite lookup_insert_ne, lookup_delete_ne.
Qed.

Lemma fs_remove_only path fs ps : path ∈ ps -> only_paths ps fs (fs_remove path fs).
Proof. intros Hp p Hps. apply fs_remove_file_at. intros ->. done. Qed.

Lemma wp_install fail tmp path b fs0 (Q : Status -> Sys -> Prop) s i :
  fs_wf (s_fs s) -> tmp <> path -> fs_dir (s_fs s) !! tmp = Some i -> content (s_fs s) i = b ->
  file_at (s_fs s) path = file_at fs0 path ->
  (forall st s', fs_wf (s_fs s') -> only_paths [tmp; path] (s_fs s) (s_fs s') ->
     old_or_new path b fs0 (s_fs s') ->
     (ok_status st = true -> file_at (s_fs s') path = Some b) -> Q st s') ->
  wp (install fail tmp path) Q s.
Proof.
  intros Hwf Hne Hi Hb Hold HQ. apply wp_bind, wp_rename.
  - intros m s1 [Hf Ht]. apply wp_bind, wp_remove. intros m2 s2 Hf2 Ht2.
    assert (Hother : only_paths [tmp] (s_fs s) (s_fs s2)).
    { destruct Hf2 as [->| ->]; rewrite Hf; [done|]. apply fs_remove_only. by left. }
    apply wp_ret, HQ; [| | |done].
    + destruct Hf2 as [->| ->]; rewrite Hf; [done|by apply fs_remove_wf].
    + intros p Hp. apply Hother. set_solver.
    + left. rewrite Hother; [done|set_solver].
  - intros s1 Hf Ht. destruct (fs_rename_spec tmp path (s_fs s) i Hwf Hi Hne) as (Hwf' & Hd & Hfile & _).
    apply wp_ret, HQ; rewrite Hf; [done| |right|]; rewrite ?Hb in Hfile; [|done|done].
    intros p Hp. apply fs_rename_frame; set_solver.
Qed.

Lemma app_neq_self (p suf : bytes) : suf <> [] -> p ++ suf <> p.
Proof. intros Hs Hp. apply Hs. apply (app_inv_head p). by rewrite app_nil_r. Qed.

(** * The snapshot file and the manifest *)

Section Writers.
Context `{Platform}.
Variable clock : nat -> Z.

Lemma wp_take_snapshot e (Q : list SnapshotEntry * StorageEngine -> Sys -> Prop) s :
  (forall s', s_fs s' = s_fs s -> s_ticks s' = S (s_ticks s) -> Q (snapshot (clock (s_ticks s)) e) s') ->
  wp (take_snapshot clock e) Q s.
Proof. intros HQ. by apply HQ. Qed.

Lemma wp_save_snapshot_file ss e (Q : Status * StorageEngine -> Sys -> Prop) s :
  fs_wf (s_fs s) ->
  let b := entry_log (snapshot (clock (s_ticks s)) e).1 in
  (forall st e' s', fs_wf (s_fs s') ->
     only_paths [ss_path ss ++ lit ".tmp"; ss_path ss] (s_fs s) (s_fs s') ->
     old_or_new (ss_path ss) b (s_fs s) (s_fs s') ->
     (e' = e \/ e' = (snapshot (clock (s_ticks s)) e).2) ->
     (ok_status st = true ->
        file_at (s_fs s') (ss_path ss) = Some b /\ e' = (snapshot (clock (s_ticks s)) e).2) ->
     Q (st, e') s') ->
  wp (save_snapshot_file clock ss e) Q s.
Proof.
  intros Hwf b HQ. unfold save_snapshot_file. set (tmp := ss_path ss ++ lit ".tmp") in *.
  assert (Hsame : forall st s', s_fs s' = s_fs s -> ok_status st = false -> Q (st, e) s').
  { intros st s' Hf Hst. apply HQ; rewrite ?Hf; [done|done|by left|by left|by rewrite Hst]. }
  destruct (path_is_safe (ss_path ss)); cbn [negb]; [|by apply wp_ret, Hsame].
  apply wp_bind, wp_ensure_parent_dir. intros st1 s1 [Hf1 Ht1].
  destruct (ok_status st1) eqn:Hst1; cbn [negb]; [|by apply wp_ret, Hsame].
  assert (Hne : ss_path ss <> tmp) by (by apply not_eq_sym, app_neq_self).
  apply wp_bind, wp_open_file.
  { intros m s2 [Hf2 Ht2]. apply wp_ret, Hsame; [congruence|done]. }
  intros s2 Hf2 Ht2. rewrite Hf1 in Hf2 |- *.
  apply wp_bind, wp_take_snapshot. intros s3 Hf3 Ht3. rewrite Ht2, Ht1.
  destruct (snapshot (clock (s_ticks s)) e) as [l e1] eqn:Hsnap. cbn [fst snd] in *.
  apply wp_bind, wp_put_entries. intros r s4 b4 Ha4 Ht4 Hb4. rewrite Hf3, Hf2 in Ha4.
  destruct (open_tmp_untouched _ _ _ _ _ Hwf Hne Ha4) as (Hwf4 & Hfile4 & Hdir4 & Hcont4 & _).
  assert (Hother : only_paths [tmp] (s_fs s) (s_fs s4)).
  { intros p Hp. by apply (open_tmp_untouched tmp (s_fs s) p b4 (s_fs s4) Hwf ltac:(set_solver) Ha4). }
  assert (Hfail : forall st s', s_fs s' = s_fs s4 -> ok_status st = false -> Q (st, e1) s').
  { intros st s' Hf Hst. apply HQ; rewrite ?Hf; [done| |by left|by right|by rewrite Hst].
    intros p Hp. apply Hother. set_solver. }
  destruct r; cbn [negb]; [|by apply wp_ret, Hfail].
  specialize (Hb4 eq_refl). subst b4.
  apply wp_bind, wp_stream_close. intros r5 s5 [Hf5 Ht5] _.
  destruct r5; cbn [negb]; [|by apply wp_ret, Hfail].
  rewrite <- Hf5 in *. apply wp_bind.
  eapply (wp_install _ _ _ b (s_fs s)); [done|done|done|done|done|].
  intros st6 s6 Hwf6 Hon6 Hon Hok. apply wp_ret, HQ; [done| |done|by right|].
  - eapply only_paths_trans; [|exact Hon6]. intros p Hp. apply Hother. set_solver.
  - intros Hst6. auto.
Qed.

(** * The log *)

(** Opening for append keeps the contents; a missing file is created empty. *)
Lemma fs_open_append_file_at path fs :
  fs_wf fs -> let '(i, fs') := fs_open false path fs in
  fs_wf fs' /\ fs_dir fs' !! path = Some i /\ content fs' i = default [] (file_at fs path) /\
  forall q, q <> path -> file_at fs' q = file_at fs q.
Proof.
  intros Hwf. pose proof (fs_open_spec false path fs Hwf) as Ho. destruct (fs_open false path fs) as [i fs'].
  destruct Ho as (Hwf' & Hd & Hc & Hq & Hj & Hne). split; [done|]. split; [done|]. split; [done|].
  intros q Hqp. unfold file_at. rewrite Hq by done. destruct (fs_dir fs !! q) as [j|] eqn:Hjq; [|done].
  simpl. rewrite Hj by (by eapply Hne). done.
Qed.

Lemma wp_reopen_locked a (Q : Status * Aof -> Sys -> Prop) s :
  fs_wf (s_fs s) ->
  let path := aof_path (aof_config a) in
  (forall st s', s_fs s' = s_fs s -> ok_status st = false -> Q (st, a) s') ->
  (forall s' fd size, fs_wf (s_fs s') -> fs_dir (s_fs s') !! path = Some fd ->
     file_at (s_fs s') path = Some (default [] (file_at (s_fs s) path)) ->
     (forall q, q <> path -> file_at (s_fs s') q = file_at (s_fs s) q) ->
     (size = 0 \/ size = bsize (default [] (file_at (s_fs s) path))) ->
     Q (status_ok, set_fd a (Some fd) size) s') ->
  wp (reopen_locked a) Q s.
Proof.
  intros Hwf path Herr Hok. unfold reopen_locked. fold path. apply wp_bind, wp_open_file.
  { intros m s1 [Hf _]. by apply wp_ret, Herr. }
  intros s1 Hf1 Ht1. pose proof (fs_open_append_file_at path (s_fs s) Hwf) as Ho.
  destruct (fs_open false path (s_fs s)) as [i fs1]. cbn [fst snd] in *. subst fs1.
  destruct Ho as (Hwf1 & Hd & Hc & Hq).
  assert (Hfile : file_at (s_fs s1) path = Some (default [] (file_at (s_fs s) path))).
  { unfold file_at at 1. by rewrite Hd, <- Hc. }
  apply wp_bind. assert (Hclose : forall (r : option bytes) s2, same_fs s1 s2 ->
    wp (e ← syscall; size ← look_fs (fun fs => bsize (default [] (file_at fs path)));
        mret (status_ok, set_fd a (Some i) (match e with Some _ => 0 | None => size end))) Q s2).
  { intros _ s2 [Hf2 _]. apply wp_bind, wp_syscall. intros r3 s3 [Hf3 _].
    apply wp_bind, wp_look_fs, wp_ret. rewrite Hf3, Hf2, Hfile. cbn [default].
    apply Hok; rewrite ?Hf3, ?Hf2; try done. destruct r3; [by left|by right]. }
  destruct (fd_ a); [apply wp_syscall; intros r s2 Hs2; by apply (Hclose r)|].
  apply wp_ret, (Hclose None). by split.
Qed.

Definition rewrite_done (a : Aof) (b : bytes) (s : Sys) (r : Status * Aof) (s' : Sys) : Prop :=
  let path := aof_path (aof_config a) in
  let '(st, a') := r in
  old_or_new path b (s_fs s) (s_fs s') /\ aof_config a' = aof_config a /\
  (ok_status st = true ->
     file_at (s_fs s') path = Some b /\ is_Some (fd_ a') /\ fd_ a' = fs_dir (s_fs s') !! path /\
     last_write_ok_ a' = true) /\
  (ok_status st = false -> last_write_ok_ a' = false).

Lemma wp_install_rewrite a tmp b s0 i (Q : Status * Aof -> Sys -> Prop) s :
  let path := aof_path (aof_config a) in
  fs_wf (s_fs s) -> tmp <> path -> manifest_path (aof_config a) <> path ->
  fs_dir (s_fs s) !! tmp = Some i -> content (s_fs s) i = b ->
  file_at (s_fs s) path = file_at (s_fs s0) path ->
  (forall r s', rewrite_done a b s0 r s' -> Q r s') ->
  wp (install_rewrite a tmp) Q s.
Proof.
  intros path Hwf Htmp Hman Hi Hb Hold HQ. unfold install_rewrite. fold path.
  apply wp_bind, wp_rename.
  { intros m s1 [Hf Ht]. apply wp_bind, wp_remove. intros m2 s2 Hf2 _. apply wp_ret, HQ.
    split; [left|by split]. fold path. rewrite <- Hold.
    destruct Hf2 as [->| ->]; rewrite Hf; [done|by apply fs_remove_file_at]. }
  intros s1 Hf1 _. destruct (fs_rename_spec tmp path (s_fs s) i Hwf Hi Htmp) as (Hwf1 & _ & Hfile1 & _).
  rewrite <- Hf1, Hb in *. apply wp_bind, wp_sync_parent_dir. intros s2 [Hf2 _].
  apply wp_bind.
  assert (Hafter : forall s3, s_fs s3 = s_fs s2 \/ s_fs s3 = fs_remove (manifest_path (aof_config a)) (s_fs s2) ->
    wp ('(st, a) ← reopen_locked a;
        if negb (ok_status st) then mret (st, failed a st) else mret (status_ok, set_write a true [])) Q s3).
  { intros s3 Hf3. assert (Hwf3 : fs_wf (s_fs s3)).
    { destruct Hf3 as [->| ->]; rewrite Hf2; [done|by apply fs_remove_wf]. }
    assert (Hfile3 : file_at (s_fs s3) path = Some b).
    { destruct Hf3 as [->| ->]; rewrite Hf2; [done|]. by rewrite fs_remove_file_at. }
    apply wp_bind, wp_reopen_locked; [done| |].
    - intros st s4 Hf4 Hst. rewrite Hst. cbn [negb]. apply wp_ret, HQ. split; [|split; [done|]].
      + right. fold path. by rewrite Hf4.
      + split; [by rewrite Hst|done].
    - fold path. intros s4 fd size _ Hd Hfile4 _ _. cbn [negb ok_status st_code status_ok].
      apply wp_ret, HQ. rewrite Hfile3 in Hfile4. split; [by right|]. split; [done|].
      split; [|done]. intros _. split; [done|]. split; [by eexists|]. split; [|done]. by symmetry. }
  destruct (path_is_safe (manifest_path (aof_config a))).
  - apply wp_remove. intros m s3 Hf3 _. by apply Hafter.
  - apply wp_ret, Hafter. by left.
Qed.

(** The rewrite as a whole. *)
Lemma wp_rewrite pid a e (Q : Status * Aof * StorageEngine -> Sys -> Prop) s :
  let path := aof_path (aof_config a) in
  let snap := snapshot (clock (s_ticks s)) e in
  fs_wf (s_fs s) -> manifest_path (aof_config a) <> path ->
  aof_enabled (aof_config a) = true -> path_is_safe path = true ->
  (forall st a' e' s', rewrite_done a (entry_log snap.1) s (st, a') s' ->
     (e' = e \/ e' = snap.2) -> (ok_status st = true -> e' = snap.2) -> Q (st, a', e') s') ->
  wp (rewrite clock pid a e) Q s.
Proof.
  intros path snap Hwf Hman Hen Hsafe HQ. unfold rewrite. fold path. rewrite Hen, Hsafe. cbn [negb].
  set (b := entry_log snap.1) in *.
  assert (Hold : forall st s', s_fs s' = s_fs s \/ file_at (s_fs s') path = file_at (s_fs s) path ->
    ok_status st = false -> rewrite_done a b s (st, failed a st) s').
  { intros st s' Hf Hst. split; [left; fold path; by destruct Hf as [->|]|]. split; [done|].
    split; [by rewrite Hst|done]. }
  apply wp_bind, wp_ensure_parent_dir. intros st1 s1 [Hf1 Ht1].
  destruct (ok_status st1) eqn:Hst1; cbn [negb];
    [|apply wp_ret, HQ; [apply Hold; auto|by left|by rewrite Hst1]].
  set (tmp := rewrite_tmp_path pid path).
  assert (Htmp : path <> tmp).
  { apply not_eq_sym. unfold tmp, rewrite_tmp_path. apply app_neq_self. done. }
  apply wp_bind, wp_open_file.
  { intros m s2 [Hf2 _]. apply wp_ret, HQ; [apply Hold; [left; congruence|done]|by left|done]. }
  intros s2 Hf2 Ht2. rewrite Hf1 in Hf2 |- *.
  apply wp_bind, wp_take_snapshot. intros s3 Hf3 _. rewrite Ht2, Ht1. fold snap.
  destruct snap as [l e1] eqn:Hsnap. cbn [fst snd] in *.
  apply wp_bind, wp_write_commands. intros st4 s4 b4 Ha4 _ Hb4. rewrite Hf3, Hf2 in Ha4.
  destruct (open_tmp_untouched _ _ _ _ _ Hwf Htmp Ha4) as (Hwf4 & Hfile4 & Hdir4 & Hcont4 & _).
  destruct (ok_status st4) eqn:Hst4; cbn [negb].
  2:{ apply wp_bind, wp_syscall. intros r5 s5 [Hf5 _]. apply wp_bind, wp_remove.
      intros m6 s6 Hf6 _. apply wp_ret, HQ; [|by right|by rewrite Hst4]. apply Hold; [|done]. right.
      destruct Hf6 as [->| ->]; rewrite Hf5; [done|]. by rewrite fs_remove_file_at. }
  specialize (Hb4 eq_refl). fold (entry_log l) in Hb4. fold b in Hb4. subst b4.
  apply wp_bind, wp_sync_fd. intros st5 s5 [Hf5 _]. apply wp_bind, wp_close_fd. intros st6 s6 [Hf6 _].
  set (st7 := if _ && _ then st6 else st5). rewrite <- Hf5, <- Hf6 in *.
  destruct (ok_status st7) eqn:Hst7; cbn [negb].
  - apply wp_bind. eapply (wp_install_rewrite a tmp b s); try done.
    intros [st8 a8] s8 Hdone. apply wp_ret, HQ; [done|by right|done].
  - apply wp_bind, wp_remove. intros m8 s8 Hf8 _. apply wp_ret, HQ; [|by right|by rewrite Hst7].
    apply Hold; [|done]. right. destruct Hf8 as [->| ->]; [done|]. by rewrite fs_remove_file_at.
Qed.

(** * Saving with a manifest *)

Lemma wp_write_manifest ss m (Q : Status -> Sys -> Prop) s :
  fs_wf (s_fs s) ->
  (forall st s', fs_wf (s_fs s') ->
     only_paths [ss_manifest_path ss ++ lit ".tmp"; ss_manifest_path ss] (s_fs s) (s_fs s') ->
     old_or_new (ss_manifest_path ss) (concat (manifest_lines m)) (s_fs s) (s_fs s') ->
     (ok_status st = true -> file_at (s_fs s') (ss_manifest_path ss) = Some (concat (manifest_lines m))) ->
     Q st s') ->
  wp (write_manifest ss m) Q s.
Proof.
  intros Hwf HQ. unfold write_manifest. set (path := ss_manifest_path ss) in *.
  set (tmp := path ++ lit ".tmp") in *. set (b := concat (manifest_lines m)) in *.
  assert (Hsame : forall st s', s_fs s' = s_fs s -> ok_status st = false -> Q st s').
  { intros st s' Hf Hst. apply HQ; rewrite ?Hf; [done|done|by left|by rewrite Hst]. }
  destruct (path_is_safe path); cbn [negb]; [|by apply wp_ret, Hsame].
  apply wp_bind, wp_ensure_parent_dir. intros st1 s1 [Hf1 _].
  destruct (ok_status st1) eqn:Hst1; cbn [negb]; [|by apply wp_ret, Hsame].
  assert (Hne : path <> tmp) by (by apply not_eq_sym, app_neq_self).
  apply wp_bind, wp_open_file.
  { intros m2 s2 [Hf2 _]. apply wp_ret, Hsame; [congruence|done]. }
  intros s2 Hf2 _. rewrite Hf1 in Hf2 |- *.
  apply wp_bind, wp_put_all. intros r s3 b3 Ha3 _ Hb3. rewrite Hf2 in Ha3.
  destruct (open_tmp_untouched _ _ _ _ _ Hwf Hne Ha3) as (Hwf3 & Hfile3 & Hdir3 & Hcont3 & _).
  assert (Hother : only_paths [tmp] (s_fs s) (s_fs s3)).
  { intros p Hp. by apply (open_tmp_untouched tmp (s_fs s) p b3 (s_fs s3) Hwf ltac:(set_solver) Ha3). }
  apply wp_bind, wp_stream_close. intros r4 s4 [Hf4 _] Hr. destruct r4; cbn [negb].
  - destruct (Hb3 (Hr eq_refl)) as [_ ->]. fold b in Hcont3. rewrite <- Hf4 in *.
    eapply (wp_install _ _ _ b (s_fs s)); [done|done|done|done|done|].
    intros st5 s5 Hwf5 Hon5 Hon Hok. apply HQ; [done| |done|done].
    eapply only_paths_trans; [|exact Hon5]. intros p Hp. apply Hother. set_solver.
  - apply wp_ret, HQ; rewrite Hf4; [done| |by left|done]. intros p Hp. apply Hother. set_solver.
Qed.
End Writers.

(** * Calls that do not fail *)

(** No system call fails or is interrupted; writes may still be short. *)
Definition calm (s : Sys) : Prop := Forall (fun o => call_error o = None) (s_io s).

Definition stays_calm {A} (m : SysM A) : Prop := forall s, calm s -> calm (m s).2.

Lemma calm_ret {A} (x : A) : stays_calm (mret x).
Proof. by intros s. Qed.

Lemma calm_bind {A B} (m : SysM A) (f : A -> SysM B) : stays_calm m -> (forall x, stays_calm (f x)) -> stays_calm (m ≫= f).
Proof. intros Hm Hf s Hs. rewrite st_bind_eq. by apply Hf, Hm. Qed.

Lemma calm_syscall : stays_calm syscall.
Proof. intros [fs [|o io] t] Hs; [done|]. by apply list.Forall_cons in Hs as [_ ?]. Qed.

Lemma syscall_calm s : calm s -> exists s', syscall s = (None, s') /\ calm s' /\ s_fs s' = s_fs s.
Proof.
  destruct s as [fs [|o io] t]; intros Hs; [by eexists|]. apply list.Forall_cons in Hs as [Ho Hs].
  exists (MkSys fs io t). unfold syscall, next_io, mbind, St_bind, mret, St_ret. cbn. by rewrite Ho.
Qed.

Lemma calm_write_all fd b : stays_calm (write_all fd b).
Proof.
  intros [fs io t] Hs. unfold calm, write_all in *. cbn [s_io s_fs] in *.
  enough (Hl : forall b fs, Forall (fun o => call_error o = None) (write_loop io fd b fs).2.2)
    by (specialize (Hl b fs); by destruct (write_loop io fd b fs) as [st [fs' io']]).
  clear b fs. induction Hs as [|o io Ho Hs IH]; intros [|c b] fs; cbn [write_loop]; try done; [by apply List.Forall_cons|].
  destruct o as [|n| |m]; try done. destruct (n =? 0)%nat; [done|apply IH].
Qed.

#[export] Hint Resolve calm_ret calm_syscall calm_write_all : velox.

(** Follows a program to its calls. *)
Ltac calm_walk :=
  repeat first
    [ progress auto with velox
    | apply calm_bind; [|intros ?]
    | match goal with |- stays_calm (match ?x with _ => _ end) => destruct x end
    | match goal with |- stays_calm (if ?x then _ else _) => destruct x end ].

Lemma calm_open_file trunc path : stays_calm (open_file trunc path).
Proof. unfold open_file. calm_walk. intros s Hs. by destruct (fs_open trunc path (s_fs s)). Qed.

Lemma calm_rename from to : stays_calm (rename from to).
Proof. unfold rename. calm_walk. by intros s. Qed.

Lemma calm_write_commands fd cmds : stays_calm (write_commands fd cmds).
Proof. induction cmds as [|c cmds IH]; cbn [write_commands]; calm_walk. Qed.

(** Opening the log leaves other paths alone. *)
Lemma reopen_other a q s :
  q <> aof_path (aof_config a) -> fs_dir (s_fs (reopen_locked a s).2) !! q = fs_dir (s_fs s) !! q.
Proof.
  intros Hq. change (wp (reopen_locked a) (fun _ s' => fs_dir (s_fs s') !! q = fs_dir (s_fs s) !! q) s).
  unfold reopen_locked. apply wp_bind, wp_open_file.
  { intros m s1 [Hf _]. apply wp_ret. by rewrite Hf. }
  intros s1 Hf1 _. assert (H1 : fs_dir (s_fs s1) !! q = fs_dir (s_fs s) !! q).
  { rewrite Hf1. unfold fs_open. destruct (fs_dir (s_fs s) !! aof_path (aof_config a)); [done|].
    cbn. by rewrite lookup_insert_ne. }
  apply wp_bind. destruct (fd_ a); [apply wp_syscall; intros r s2 [Hf2 _]; rewrite <- Hf2 in H1|apply wp_ret];
    (apply wp_bind, wp_syscall; intros r3 s3 [Hf3 _]; apply wp_bind, wp_look_fs, wp_ret; by rewrite Hf3).
Qed.

(** When the calls succeed, a finished rewrite has removed the manifest, which
    speaks of the old log. *)
Lemma install_removes_manifest a tmp s :
  let manifest := manifest_path (aof_config a) in
  calm s -> path_is_safe manifest = true -> manifest <> aof_path (aof_config a) ->
  wp (install_rewrite a tmp) (fun r s' => ok_status r.1 = true -> fs_dir (s_fs s') !! manifest = None) s.
Proof.
  intros manifest Hs Hsafe Hne. unfold install_rewrite. fold manifest. rewrite Hsafe. apply wp_bind.
  pose proof (calm_rename tmp (aof_path (aof_config a)) s Hs) as H1. unfold wp at 1.
  destruct (rename _ _ s) as [[m|] s1]; cbn [fst snd] in *.
  { apply wp_bind, wp_any. intros m2 s2. by apply wp_ret. }
  apply wp_bind. unfold wp at 1.
  assert (H2 : calm (sync_parent_dir_best_effort (aof_path (aof_config a)) s1).2).
  { revert s1 H1. change (stays_calm (sync_parent_dir_best_effort (aof_path (aof_config a)))).
    unfold sync_parent_dir_best_effort. calm_walk. }
  revert H2. generalize (sync_parent_dir_best_effort (aof_path (aof_config a)) s1).2. intros s2 H2. clear s1 H1.
  apply wp_bind. unfold remove. apply wp_bind. destruct (syscall_calm s2 H2) as (s3 & E3 & _ & Hf3).
  unfold wp at 1. rewrite E3. cbn [fst snd]. apply wp_bind, wp_on_fs. intros s4 Hf4 _. apply wp_ret, wp_bind.
  unfold wp at 1. pose proof (reopen_other a manifest s4 Hne) as Ho. rewrite Hf4 in Ho. cbn [fs_remove fs_dir] in Ho.
  rewrite lookup_delete_eq in Ho. destruct (reopen_locked a s4) as [[st a'] s5]. cbn [fst snd] in *.
  by destruct (negb (ok_status st)); apply wp_ret.
Qed.

Lemma rewrite_removes_manifest `{Platform} clock pid a e s :
  let manifest := manifest_path (aof_config a) in
  calm s -> path_is_safe manifest = true -> manifest <> aof_path (aof_config a) ->
  wp (rewrite clock pid a e) (fun r s' => ok_status r.1.1 = true -> file_at (s_fs s') manifest = None) s.
Proof.
  intros manifest Hs Hsafe Hne. unfold rewrite. set (path := aof_path (aof_config a)) in *.
  destruct (negb (aof_enabled _)); [by apply wp_ret|]. destruct (negb (path_is_safe path)); [by apply wp_ret|].
  assert (Hc : forall {A B} (m : SysM A) (f : A -> SysM B) Q s, stays_calm m -> calm s ->
    (forall x s', calm s' -> wp (f x) Q s') -> wp (m ≫= f) Q s).
  { intros A B m f Q s0 Hm H0 Hf. apply wp_bind. unfold wp at 1. by apply Hf, Hm. }
  apply Hc; [unfold ensure_parent_dir; calm_walk|done|]. intros st1 s1 H1.
  destruct (ok_status st1) eqn:E1; cbn [negb]; [|apply wp_ret; cbn; congruence].
  apply Hc; [apply calm_open_file|done|]. intros [m|fd] s2 H2; [by apply wp_ret|].
  apply Hc; [unfold take_snapshot; apply calm_bind; [by intros s0|intros now; apply calm_ret]|done|]. intros [l e'] s3 H3.
  apply Hc; [apply calm_write_commands|done|]. intros st4 s4 H4.
  destruct (ok_status st4) eqn:E4; cbn [negb].
  2: { apply wp_bind, wp_any. intros r5 s5. apply wp_bind, wp_any. intros r6 s6. apply wp_ret. cbn. congruence. }
  apply Hc; [unfold sync_fd; calm_walk|done|]. intros st5 s5 H5.
  apply Hc; [unfold close_fd; calm_walk|done|]. intros st6 s6 H6. set (st7 := if _ && _ then st6 else st5).
  destruct (ok_status st7) eqn:E7; cbn [negb].
  2: { apply wp_bind, wp_any. intros r8 s8. apply wp_ret. cbn. congruence. }
  apply wp_bind. eapply wp_mono; [by apply install_removes_manifest|]. cbv beta. intros [st8 a8] s8 H8.
  apply wp_ret. cbn [fst] in *. intros Hok. specialize (H8 Hok). fold manifest in H8. unfold file_at. by rewrite H8.
Qed.
