(* ===== verification/CommandFacts.v ===== *)
(** Lemmas on command execution: dispatch, and the handlers that recovery and
    durability rest on, as equations on the world. *)
From S2P Require Import Prelude Util Config Resp Storage Fs Aof Snapshot Metrics Commands.

Lemma put_storage_same w : put_storage (w_storage w) w = w.
Proof. by destruct w. Qed.

(** Looking a name up in a table. *)
Fixpoint assoc {A} (name : bytes) (l : list (string * A)) : option A :=
  match l with
  | [] => None
  | (n, a) :: l => if beq name (lit n) then Some a else assoc name l
  end.

Lemma assoc_elem {A} name (l : list (string * A)) a :
  assoc name l = Some a -> exists n, (n, a) ∈ l /\ name = lit n.
Proof.
  induction l as [|[n b] l IH]; [done|]. cbn [assoc]. unfold beq. case_bool_decide as Hn.
  - intros [= ->]. exists n. split; [by left|done].
  - intros (n' & Hin & ->)%IH. exists n'. split; [by right|done].
Qed.

(** Looking a name up in two tables that name the same things. *)
Lemma assoc_related {A B} (R : A -> B -> Prop) (l1 : list (string * A)) (l2 : list (string * B)) name :
  Forall2 (fun x y => x.1 = y.1 /\ R x.2 y.2) l1 l2 ->
  match assoc name l1, assoc name l2 with Some a, Some b => R a b | None, None => True | _, _ => False end.
Proof.
  induction 1 as [|[n1 a] [n2 b] l1 l2 [Hn Hr] _ IH]; [done|]. cbn in Hn, Hr. subst n2. cbn [assoc].
  destruct (beq name (lit n1)); [done|exact IH].
Qed.

Section CommandFacts.
Context `{Platform}.
Variables (clock : nat -> Z) (steady : nat -> Z) (pid : Z).

(** * Dispatch *)

Definition upper_name (nh : string * Handler) : bytes := to_upper_ascii (lit nh.1).

Lemma register_fold_other (l : list (string * Handler)) (r : gmap bytes Handler) (k : bytes) :
  k ∉ upper_name <$> l -> fold_left (fun r nh => register_command (lit nh.1) nh.2 r) l r !! k = r !! k.
Proof.
  revert r. induction l as [|nh l IH]; intros r Hk; [done|]. cbn [fold_left]. rewrite IH by set_solver.
  unfold register_command. rewrite lookup_insert_ne; [done|]. intros Heq. apply Hk. rewrite <- Heq. by left.
Qed.

Lemma register_fold_lookup (l : list (string * Handler)) (r : gmap bytes Handler) n nh :
  NoDup (upper_name <$> l) -> l !! n = Some nh ->
  fold_left (fun r nh => register_command (lit nh.1) nh.2 r) l r !! upper_name nh = Some nh.2.
Proof.
  revert r n. induction l as [|x l IH]; intros r n Hn Hl; [done|].
  cbn [fmap list_fmap] in Hn. apply list.NoDup_cons in Hn as [Hx Hn].
  destruct n as [|n]; simpl in Hl; cbn [fold_left]; [|by eapply IH].
  simplify_eq. rewrite register_fold_other by done. apply lookup_insert_eq.
Qed.

Lemma default_names_distinct : NoDup (upper_name <$> default_commands clock steady pid).
Proof.
  change (upper_name <$> default_commands clock steady pid) with (to_upper_ascii ∘ lit <$>
    ["PING"; "ECHO"; "GET"; "SET"; "DEL"; "EXISTS"; "MGET"; "MSET"; "INCR"; "DECR"; "APPEND"; "STRLEN";
     "EXPIRE"; "PEXPIRE"; "PEXPIREAT"; "TTL"; "PTTL"; "PERSIST"; "DBSIZE"; "FLUSHDB"; "INFO"; "CONFIG";
     "SAVE"; "BGSAVE"; "BGREWRITEAOF"; "SHUTDOWN"; "COMMAND"]%string).
  apply (bool_decide_unpack _). by vm_compute.
Qed.

Abbreviation registry := (default_registry clock steady pid).

(** The registry holds the handlers of the table under their names. *)
Lemma registry_lookup n name h :
  default_commands clock steady pid !! n = Some (name, h) -> registry !! to_upper_ascii (lit name) = Some h.
Proof. apply (register_fold_lookup _ ∅ n (name, h) default_names_distinct). Qed.

(** The registry is the table of the default commands. *)
Lemma registry_assoc name : default_registry clock steady pid !! name = assoc name (default_commands clock steady pid).
Proof.
  set (l := default_commands clock steady pid).
  assert (Hu : Forall (fun nh : string * Handler => to_upper_ascii (lit nh.1) = lit nh.1) l)
    by (repeat (apply List.Forall_cons; [vm_compute; reflexivity|]); apply List.Forall_nil).
  destruct (assoc name l) as [h|] eqn:Ha.
  - apply assoc_elem in Ha as (n & Hin & ->). pose proof Hin as [i Hi]%list_elem_of_lookup.
    rewrite List.Forall_forall in Hu. apply list_elem_of_In, Hu in Hin. cbn [fst] in Hin.
    rewrite <- Hin. by eapply registry_lookup.
  - unfold default_registry, register_default_commands. fold l. rewrite register_fold_other; [done|].
    intros Hin. apply list_elem_of_fmap in Hin as ([n h] & Hn & Hin). rewrite List.Forall_forall in Hu.
    pose proof (Hu _ (proj1 (list_elem_of_In _ _) Hin)) as Hup. unfold upper_name in Hn. cbn [fst] in *.
    rewrite Hup in Hn. subst name. clear Hup Hu. revert Hin Ha.
    induction l as [|[n' h'] l IH]; intros Hin; [by apply elem_of_nil in Hin|]. cbn [assoc]. unfold beq.
    case_bool_decide as Heq; [done|]. apply elem_of_cons in Hin as [[= -> ->]|Hin]; [done|]. by apply IH.
Qed.

(** Running a default command given its position in the table. *)
Lemma execute_default n name h ctx args :
  default_commands clock steady pid !! n = Some (name, h) -> to_upper_ascii (lit name) = lit name ->
  execute registry ctx (lit name :: args) = h (command_names registry) ctx (lit name :: args).
Proof.
  intros Hn Hu. pose proof (registry_lookup n name h Hn) as Hl. rewrite Hu in Hl.
  assert (Hr : registry !! lit name = Some h) by exact Hl.
  unfold execute. cbv beta iota. by rewrite Hu, Hr.
Qed.

(** * Storage operations *)

(** The world with the next clock reading taken and another engine. *)
Definition step_world (e : StorageEngine) (w : World) : World :=
  put_storage e (put_sys (MkSys (s_fs (w_sys w)) (s_io (w_sys w)) (S (s_ticks (w_sys w)))) w).

Definition ticks (w : World) : nat := s_ticks (w_sys w).

Lemma storage_op_eq {A} (op : Z -> StorageEngine -> A * StorageEngine) w :
  storage_op clock op w
  = let '(a, e') := op (clock (ticks w)) (w_storage w) in (a, step_world e' w).
Proof.
  unfold storage_op, lift_sys, asks, st_modify, step_world, ticks.
  unfold mbind, St_bind, mret, St_ret. simpl. by destruct (op _ (w_storage w)).
Qed.

(** * Persistence *)

(** Nothing is logged without a log, in a replay, or with the log closed. *)
Definition unlogged (ctx : CommandContext) (w : World) : Prop :=
  match w_aof w with None => True | Some a => ctx_replay ctx || negb (enabled a) = true end.

Lemma persist_unlogged ctx args w : unlogged ctx w -> persist ctx args w = (status_ok, w).
Proof.
  unfold unlogged, persist, asks. rewrite st_bind_eq. cbn [fst snd].
  destruct (w_aof w) as [a|]; [|done]. by intros ->.
Qed.

Lemma persist_or_ok_unlogged ctx args r w :
  unlogged ctx w -> persist_or_ok ctx args r w = (r, on_metrics aof_write_succeeded w).
Proof. intros Hu. unfold persist_or_ok. rewrite st_bind_eq, persist_unlogged by done. done. Qed.

Lemma persist_if_unlogged ctx b args r w : unlogged ctx w -> persist_if ctx b args r w = (r, w).
Proof.
  intros Hu. unfold persist_if. destruct b; [|done]. cbn [negb].
  by rewrite st_bind_eq, persist_unlogged.
Qed.

(** * Commands of a log *)

Lemma execute_set ctx k v w :
  unlogged ctx w ->
  execute registry ctx [lit "SET"; k; v] w =
  let '(r, e') := Storage.set (clock (ticks w)) k v None Always (w_storage w) in
  match w_code r with
  | NotSet => (done_ null_bulk, step_world e' w)
  | WOk => (ok, on_metrics aof_write_succeeded (step_world e' w))
  | code => (err (storage_write_error code), step_world e' w)
  end.
Proof.
  intros Hu. rewrite (execute_default 3 "SET" (cmd (set_cmd clock))) by done.
  unfold cmd, set_cmd, set_run. cbn [set_options]. rewrite st_ret_bind, st_bind_eq, storage_op_eq.
  destruct (Storage.set _ k v None Always _) as [[code n] e']. cbn [fst snd w_code].
  destruct code; try done. rewrite st_ret_bind. by rewrite persist_or_ok_unlogged.
Qed.

Lemma execute_pexpireat ctx k ms w :
  unlogged ctx w -> is_i64 ms ->
  execute registry ctx [lit "PEXPIREAT"; k; to_string ms] w =
  let '(b, e') := Storage.expire_at (clock (ticks w)) k (timepoint_from_unix_ms ms) (w_storage w) in
  (bool_reply b, step_world e' w).
Proof.
  intros Hu Hms. rewrite (execute_default 14 "PEXPIREAT" (cmd (pexpireat clock))) by done.
  unfold cmd, pexpireat, parse_i64_arg. rewrite parse_i64_to_string_eq by done.
  rewrite st_bind_eq, storage_op_eq. destruct (Storage.expire_at _ k _ _) as [b e']. cbn [fst snd].
  by rewrite persist_if_unlogged.
Qed.
End CommandFacts.
