(* ===== verification/RecoveryFacts.v ===== *)
(** Recovery brings back what was saved: running [main]'s recovery on the files
    the writers leave. *)
From S2P Require Import Prelude Util Config Resp RespFacts Storage StorageFacts StorageSpec.
From S2P Require Import StorageSweep StorageRefine Restore Fs FsFacts Aof Snapshot Metrics Commands.
From S2P Require Import Recovery PersistFacts ManifestFacts WriterFacts CommandFacts.

Section RecoveryFacts.
Context `{Platform}.
Variables (clock : nat -> Z) (steady : nat -> Z) (pid : Z).

(** Worlds that differ at most in the engine, the clock and the metrics. *)
Definition same_env (w w' : World) : Prop :=
  s_fs (w_sys w') = s_fs (w_sys w) /\ s_io (w_sys w') = s_io (w_sys w) /\
  w_config w' = w_config w /\ w_aof w' = w_aof w /\ w_stop w' = w_stop w /\
  w_log_level w' = w_log_level w.

#[global] Instance same_env_preorder : PreOrder same_env.
Proof.
  split; [done|]. unfold same_env. intros a b c. intuition congruence.
Qed.

Abbreviation replay := (replay_command clock steady pid).

Lemma replay_set ss k v w :
  w_aof w = None ->
  let '(r, e') := Storage.set (clock (ticks w)) k v None Always (w_storage w) in
  w_code r = WOk ->
  exists w', replay ss [lit "SET"; k; v] w = (status_ok, w') /\
    same_env w w' /\ w_storage w' = e' /\ ticks w' = S (ticks w).
Proof.
  intros Ha. pose proof (execute_set clock steady pid (MkContext (Some ss) false true) k v w) as Hx.
  unfold replay_command. rewrite st_bind_eq, Hx by (unfold unlogged; by rewrite Ha).
  destruct (Storage.set _ k v None Always _) as [[code n] e']. cbn [w_code]. intros ->. cbn [fst snd].
  by eexists.
Qed.

Lemma replay_pexpireat ss k ms w :
  w_aof w = None -> is_i64 ms ->
  exists w', replay ss [lit "PEXPIREAT"; k; to_string ms] w = (status_ok, w') /\
    same_env w w' /\ ticks w' = S (ticks w) /\
    w_storage w' = (Storage.expire_at (clock (ticks w)) k (timepoint_from_unix_ms ms) (w_storage w)).2.
Proof.
  intros Ha Hms.
  pose proof (execute_pexpireat clock steady pid (MkContext (Some ss) false true) k ms w) as Hx.
  unfold replay_command. rewrite st_bind_eq, Hx by (done || unfold unlogged; by rewrite Ha).
  destruct (Storage.expire_at _ k _ _) as [b e']. cbn [fst snd]. eexists.
  split; [by destruct b|done].
Qed.

(** The commands of one entry do what [restore_entry] does. *)
Lemma replay_entry ss entry cmds n tail w :
  w_aof w = None -> (forall ms, sn_expire_at_unix_ms entry = Some ms -> is_i64 ms) ->
  let '(ok, t, e') := restore_entry clock (ticks w) entry (w_storage w) in
  ok = true ->
  exists n' w', replay_all (replay ss) (entry_commands entry ++ cmds) n tail w
    = replay_all (replay ss) cmds n' tail w' /\
    same_env w w' /\ w_storage w' = e' /\ ticks w' = t.
Proof.
  intros Ha Hms. unfold restore_entry, entry_commands. cbn [app replay_all].
  pose proof (replay_set ss (sn_key entry) (sn_value entry) w Ha) as Hs.
  destruct (Storage.set _ _ _ None Always _) as [r e1]. intros Hok%bool_decide_eq_true.
  destruct (Hs Hok) as (w1 & H1 & Henv1 & He1 & Ht1).
  assert (Hgo : forall c cmds n w w', replay ss c w = (status_ok, w') ->
    replay_all (replay ss) (c :: cmds) n tail w = replay_all (replay ss) cmds (n + 1) tail w').
  { intros c cs m u u' Hc. cbn [replay_all]. by rewrite st_bind_eq, Hc. }
  destruct (sn_expire_at_unix_ms entry) as [ms|]; [|exists (n + 1), w1; by erewrite <- Hgo].
  destruct (replay_pexpireat ss (sn_key entry) ms w1) as (w2 & H2 & Henv2 & Ht2 & He2);
    [by destruct Henv1 as (_ & _ & _ & -> & _)|by apply Hms|].
  exists (n + 1 + 1), w2. split; [|split; [by etrans|by rewrite He2, Ht2, He1, Ht1]].
  by erewrite <- (Hgo _ cmds _ w1 w2), <- (Hgo _ _ n w w1).
Qed.

Lemma restorable_shape l e e' : same_shape e e' -> restorable l e -> restorable l e'.
Proof.
  intros (Hc & Hl & _) (? & Hv & Hm & ?). split; [done|]. split; [|split; [by rewrite Hc|done]].
  eapply Forall_impl; [|exact Hv]. intros y. unfold key_valid, value_valid. by rewrite Hl.
Qed.

Lemma replay_entries ss bound done l n tail w :
  (forall i, clock i <= bound) -> w_aof w = None ->
  restored bound done (w_storage w) -> restorable (done ++ l) (w_storage w) ->
  Forall (fun x => forall ms, sn_expire_at_unix_ms x = Some ms -> is_i64 ms) l ->
  exists n' w', replay_all (replay ss) (flat_map entry_commands l) n tail w
    = (Some (MkReplayStats n' tail status_ok), w') /\
    same_env w w' /\ restored bound (done ++ l) (w_storage w').
Proof.
  intros Hclk. revert done n w. induction l as [|x l IH]; intros done n w Ha Hr Hable Hms.
  { exists n, w. by rewrite app_nil_r. }
  inversion Hms as [|? ? Hx Hms']; subst.
  pose proof (restore_entry_spec clock (ticks w) bound done x l _ Hclk Hr Hable) as Hspec.
  pose proof (replay_entry ss x (flat_map entry_commands l) n tail w Ha Hx) as Hone. cbn [flat_map].
  destruct (restore_entry clock (ticks w) x (w_storage w)) as [[ok t] e1].
  destruct Hspec as (-> & Hr1 & Hsh). destruct (Hone eq_refl) as (n1 & w1 & -> & Henv & He & Ht).
  assert (Ha1 : w_aof w1 = None) by (by destruct Henv as (_ & _ & _ & -> & _)).
  subst e1. destruct (IH (done ++ [x]) n1 w1 Ha1 Hr1) as (n2 & w2 & H2 & Henv2 & Hr2).
  - rewrite <- app_assoc. by eapply restorable_shape.
  - done.
  - exists n2, w2. split; [done|]. split; [by etrans|]. by rewrite <- app_assoc in Hr2.
Qed.

(** * Deadlines in whole milliseconds *)

(** The resolution at which deadlines are written to disk. *)
Definition whole_ms (d : Z) : Z := timepoint_from_unix_ms (unix_ms d).

Definition cut (x : bytes * option Z) : bytes * option Z := (x.1, whole_ms <$> x.2).

(** The entries of a snapshot, read back, are the live database with its
    deadlines cut to milliseconds. *)
Lemma entries_db_snapshot e now t :
  wf e -> entries_db t (snapshot now e).1 = Map.view t (cut <$> live e now).
Proof.
  intros Hwf. pose proof (snapshot_spec e now Hwf) as Hs. destruct (snapshot now e) as [l e'].
  destruct Hs as (Hn & Hl & _). unfold entries_db. f_equal. apply map_eq. intros k.
  apply option_eq. intros [v x]. rewrite <- elem_of_list_to_map.
  2:{ rewrite <- list_fmap_compose. exact Hn. }
  rewrite list_elem_of_fmap, lookup_fmap. split.
  - intros ([k' v' x'] & [= -> -> ->] & Hin). apply Hl in Hin as (d & Hd & ->). rewrite Hd.
    simpl. unfold cut. by destruct d.
  - destruct (live e now !! k) as [[v' d]|] eqn:Hd; simpl; [|done]. intros [= <- <-].
    exists (MkSnapshotEntry k v' (unix_ms <$> d)). split; [by destruct d|]. apply Hl. eauto.
Qed.

(** Every stored deadline is a 64-bit tick count, as [TimePoint] is. *)
Definition deadlines_i64 (e : StorageEngine) : Prop :=
  forall i k x d, find e i k = Some x -> e_expiry x = Some d -> is_i64 d.

Lemma unix_ms_i64 d : is_i64 d -> is_i64 (unix_ms d).
Proof.
  unfold is_i64, unix_ms, to_ms, ns_per_ms, i64_min, i64_max. intros Hd.
  destruct (Z.le_gt_cases 0 d).
  - rewrite Z.quot_div_nonneg by lia. pose proof (Z.div_pos d 1000000 ltac:(lia) ltac:(lia)).
    pose proof (Z.div_le_upper_bound d 1000000 d ltac:(lia) ltac:(lia)). lia.
  - replace d with (- (- d)) by lia. rewrite Z.quot_opp_l, Z.quot_div_nonneg by lia.
    pose proof (Z.div_pos (- d) 1000000 ltac:(lia) ltac:(lia)).
    pose proof (Z.div_le_upper_bound (- d) 1000000 (- d) ltac:(lia) ltac:(lia)). lia.
Qed.

Lemma snapshot_ms_i64 e now :
  wf e -> deadlines_i64 e ->
  Forall (fun x => forall ms, sn_expire_at_unix_ms x = Some ms -> is_i64 ms) (snapshot now e).1.
Proof.
  intros Hwf Hd. pose proof (snapshot_spec e now Hwf) as Hs. destruct (snapshot now e) as [l e'].
  destruct Hs as (_ & Hl & _). apply Forall_forall. intros [k v x] Hin%list_elem_of_In ms. cbn. intros ->.
  apply Hl in Hin as (d & Hlive & Hx). destruct d as [d|]; [|done]. simplify_eq/=.
  apply unix_ms_i64. rewrite live_lookup in Hlive by done.
  destruct (find e (shard_for_key e k) k) as [y|] eqn:Hf; [|done]. simpl in Hlive. unfold alive in Hlive.
  destruct (expired y now); simplify_eq. by eapply Hd.
Qed.

(** * Reading files without I/O errors *)

Lemma syscall_ok s : s_io s = [] -> syscall s = (None, s).
Proof. intros Hs. unfold syscall, next_io. rewrite st_bind_eq, Hs. done. Qed.

Lemma lift_sys_same {A} (m : SysM A) a w : m (w_sys w) = (a, w_sys w) -> lift_sys m w = (a, w).
Proof. intros Hm. unfold lift_sys. rewrite Hm. by destruct w. Qed.

Lemma exists_file_eq path s :
  exists_file path s = (bool_decide (is_Some (file_at (s_fs s) path)), s).
Proof.
  unfold exists_file, look_fs, file_at. by destruct (fs_dir (s_fs s) !! path).
Qed.

Lemma aof_file_size_ok path s :
  s_io s = [] -> aof_file_size path s = (bsize (default [] (file_at (s_fs s) path)), s).
Proof.
  intros Hs. unfold aof_file_size. rewrite st_bind_eq, exists_file_eq. cbn [fst snd].
  destruct (file_at (s_fs s) path) as [b|] eqn:Hp; [|done].
  change (negb (bool_decide (is_Some (Some b)))) with false. cbv iota.
  rewrite st_bind_eq, syscall_ok by done. cbn [fst snd]. unfold look_fs. cbv beta iota. by rewrite Hp.
Qed.

Lemma read_stream_ok path s : s_io s = [] -> read_stream path s = (file_at (s_fs s) path, s).
Proof. intros Hs. unfold read_stream. by rewrite st_bind_eq, syscall_ok. Qed.

Lemma read_manifest_ok ss s :
  s_io s = [] -> path_is_safe (ss_manifest_path ss) = true ->
  read_manifest ss s = (file_at (s_fs s) (ss_manifest_path ss) ≫= manifest_of_text, s).
Proof.
  intros Hs Hsafe. unfold read_manifest. rewrite st_bind_eq, exists_file_eq, Hsafe. cbn [fst snd negb orb].
  destruct (file_at (s_fs s) (ss_manifest_path ss)) as [b|] eqn:Hb; [|done].
  change (negb (bool_decide (is_Some (Some b)))) with false. cbv iota.
  rewrite st_bind_eq, read_stream_ok by done. cbn [fst snd]. by rewrite Hb.
Qed.

Lemma replay_file_ok path protocol cb off w content :
  s_io (w_sys w) = [] -> path_is_safe path = true -> file_at (s_fs (w_sys w)) path = Some content ->
  replay_file path protocol cb off w = replay_bytes cb protocol content off w.
Proof.
  intros Hs Hsafe Hf. unfold replay_file.
  rewrite st_bind_eq, (lift_sys_same _ true) by (rewrite exists_file_eq, Hf; done).
  rewrite Hsafe. cbn [fst snd negb orb].
  rewrite st_bind_eq, (lift_sys_same _ content); [done|].
  unfold read_file. by rewrite st_bind_eq, read_stream_ok, Hf by done.
Qed.

(** Opening the log without I/O errors. *)
Lemma open_file_ok trunc path s :
  s_io s = [] -> open_file trunc path s
  = (inr (fs_open trunc path (s_fs s)).1, MkSys (fs_open trunc path (s_fs s)).2 [] (s_ticks s)).
Proof.
  intros Hs. unfold open_file, mbind, St_bind. rewrite syscall_ok by done. cbv beta iota.
  rewrite Hs. by destruct (fs_open trunc path (s_fs s)).
Qed.

Lemma ensure_parent_dir_ok fail path s :
  s_io s = [] -> ensure_parent_dir fail path s = (status_ok, s).
Proof.
  intros Hs. unfold ensure_parent_dir. destruct (parent_path path); [done|].
  by rewrite st_bind_eq, syscall_ok.
Qed.

Lemma reopen_ok a s :
  s_io s = [] ->
  let path := aof_path (aof_config a) in
  let '(fd, fs) := fs_open false path (s_fs s) in
  reopen_locked a s
  = ((status_ok, set_fd a (Some fd) (bsize (default [] (file_at fs path)))), MkSys fs [] (s_ticks s)).
Proof.
  intros Hs path. unfold reopen_locked. fold path. rewrite st_bind_eq, open_file_ok by done.
  destruct (fs_open false path (s_fs s)) as [fd fs]. cbn [fst snd].
  set (s1 := MkSys fs [] (s_ticks s)). assert (Hs1 : syscall s1 = (None, s1)) by done.
  unfold mbind, St_bind, mret, St_ret. destruct (fd_ a); rewrite ?Hs1; cbv beta iota; by rewrite ?Hs1.
Qed.

Lemma open_eq a s :
  s_io s = [] -> aof_enabled (aof_config a) = true -> path_is_safe (aof_path (aof_config a)) = true ->
  let '(fd, fs) := fs_open false (aof_path (aof_config a)) (s_fs s) in
  exists a', open_ a s = ((status_ok, a'), MkSys fs [] (s_ticks s)) /\ fd_ a' = Some fd /\
    aof_config a' = aof_config a.
Proof.
  intros Hs Hen Hsafe. pose proof (reopen_ok a s Hs) as Hr. cbv zeta in Hr.
  destruct (fs_open false _ (s_fs s)) as [fd fs]. eexists. split; [|split].
  - unfold open_. rewrite Hen, Hsafe. cbn [negb]. rewrite st_bind_eq, ensure_parent_dir_ok by done. cbn [fst snd].
    change (negb (ok_status status_ok)) with false. cbv iota. rewrite st_bind_eq, Hr. done.
  - done.
  - done.
Qed.

(** * Startup *)

(** What [recover] makes of the replay's statistics. *)
Definition recovered (stats : option ReplayStats) : StartOutcome :=
  match stats with
  | None => OutOfFuel
  | Some stats => if negb (ok_status (rs_status stats)) then Exited 3 else Started
  end.

Lemma load_for_recovery_world_eq ss path size w r e s' :
  load_for_recovery clock ss (w_storage w) path size (w_sys w) = ((r, e), s') ->
  load_for_recovery_world clock ss path size w = (r, put_storage e (put_sys s' w)).
Proof.
  intros Hl. unfold load_for_recovery_world, lift_sys, asks, st_modify, mbind, St_bind, mret, St_ret.
  by rewrite Hl.
Qed.

(** Recovery in terms of its two readers. *)
Lemma recover_eq ss w r e s' :
  let path := aof_path (persistence (w_config w)) in
  s_io (w_sys w) = [] ->
  load_for_recovery clock ss (w_storage w) path (bsize (default [] (file_at (s_fs (w_sys w)) path))) (w_sys w)
  = ((Some r, e), s') -> ok_status (rl_status r) = true ->
  recover clock steady pid ss w =
  let '(stats, w') := replay_file path (protocol (w_config w)) (replay ss)
      (if rl_loaded_snapshot r then rl_aof_replay_offset r else 0) (put_storage e (put_sys s' w)) in
  (recovered stats, w').
Proof.
  intros path Hio Hl Hok. unfold recover.
  rewrite st_bind_eq. cbn [asks fst snd]. fold path.
  rewrite st_bind_eq, (lift_sys_same _ (bsize (default [] (file_at (s_fs (w_sys w)) path))))
    by (by apply aof_file_size_ok).
  cbn [fst snd]. rewrite st_bind_eq, (load_for_recovery_world_eq _ _ _ _ _ _ _ Hl). cbn [fst snd].
  rewrite Hok. cbn [negb]. rewrite st_bind_eq. destruct (replay_file _ _ _ _ _) as [[stats|] w']; done.
Qed.

Lemma load_for_recovery_none ss e path size s :
  s_io s = [] -> path_is_safe (ss_manifest_path ss) = true ->
  file_at (s_fs s) (ss_manifest_path ss) = None ->
  load_for_recovery clock ss e path size s = ((Some (MkRecovery status_ok false false 0), e), s).
Proof.
  intros Hio Hsafe Hf. unfold load_for_recovery. by rewrite st_bind_eq, read_manifest_ok, Hf by done.
Qed.

(** The rest of startup once recovery succeeded: the log is opened. *)
Lemma startup_full w w' :
  let config := w_config w in
  let ss := new_store (snapshot_path (persistence config)) (protocol config)
              (manifest_path (persistence config)) in
  aof_enabled (persistence config) = true ->
  recover clock steady pid ss w = (Started, w') -> s_io (w_sys w') = [] ->
  path_is_safe (aof_path (persistence config)) = true ->
  let '(fd, fs) := fs_open false (aof_path (persistence config)) (s_fs (w_sys w')) in
  exists a, startup clock steady pid w
      = (Started, put_aof a (put_sys (MkSys fs [] (s_ticks (w_sys w'))) w')) /\
    fd_ a = Some fd /\ aof_config a = persistence config.
Proof.
  intros config ss Hen Hr Hio Hsafe.
  pose proof (open_eq (new_aof (persistence config) (protocol config)) (w_sys w') Hio Hen Hsafe) as Ho.
  cbn [new_aof aof_config] in Ho. destruct (fs_open _ _ _) as [fd fs]. destruct Ho as (a & Ho & Hfd & Hc).
  exists a. split; [|done]. unfold startup. rewrite st_bind_eq. cbn [asks fst snd]. fold config ss.
  rewrite Hen, st_bind_eq, Hr. cbn [fst snd]. rewrite st_bind_eq. unfold lift_sys. by rewrite Ho.
Qed.

Lemma startup_eq w w' :
  let config := w_config w in
  let ss := new_store (snapshot_path (persistence config)) (protocol config)
              (manifest_path (persistence config)) in
  aof_enabled (persistence config) = true ->
  recover clock steady pid ss w = (Started, w') -> s_io (w_sys w') = [] ->
  path_is_safe (aof_path (persistence config)) = true ->
  (startup clock steady pid w).1 = Started /\ w_storage (startup clock steady pid w).2 = w_storage w'.
Proof.
  intros config ss Hen Hr Hio Hsafe. pose proof (startup_full w w' Hen Hr Hio Hsafe) as Hf.
  fold config in Hf. destruct (fs_open _ _ _). destruct Hf as (a & -> & _). done.
Qed.
End RecoveryFacts.
