(* ===== verification/RecoveryProps.v ===== *)
(** Properties of persistence and recovery: the log, the snapshot, the manifest
    and startup. *)
From S2P Require Import Prelude Util Config Resp RespFacts Storage StorageFacts StorageSpec.
From S2P Require Import StorageSweep StorageRefine StorageProps Restore Fs FsFacts Aof Snapshot.
From S2P Require Import Metrics Commands Recovery PersistFacts ManifestFacts WriterFacts.
From S2P Require Import CommandFacts RecoveryFacts.

(** The snapshot store [main] builds. *)
Definition store_of (config : Config) : SnapshotStore :=
  new_store (snapshot_path (persistence config)) (protocol config) (manifest_path (persistence config)).

(** A manifest path that is set is the one used. *)
Lemma configured_manifest config :
  path_is_safe (manifest_path (persistence config)) = true ->
  ss_manifest_path (store_of config) = manifest_path (persistence config).
Proof. unfold store_of, new_store. by destruct (manifest_path (persistence config)). Qed.

Section Props.
Context `{Platform}.

(** A database that a restart with [config] can hold. *)
Definition saved_under (config : Config) (e : StorageEngine) : Prop :=
  wf e /\ deadlines_i64 e /\ limits_ e = protocol config /\
  max_memory_bytes (config_ e) = max_memory_bytes (storage config) /\ 0 <= shards (storage config) /\
  (forall e1 k y, emplace_throws e1 k y = false) /\ protocol_ok (protocol config).

Lemma saved_entries config e now :
  saved_under config e -> bsize (entry_log (snapshot now e).1) <= max_request_bytes (protocol config) ->
  let l := (snapshot now e).1 in
  Forall (command_fits (parser_options_from_config (protocol config))) (flat_map entry_commands l) /\
  Forall (fun x => forall ms, sn_expire_at_unix_ms x = Some ms -> is_i64 ms) l /\
  forall e0, max_memory_bytes (config_ e0) = max_memory_bytes (storage config) ->
    limits_ e0 = protocol config -> restorable l e0.
Proof.
  intros (Hwf & Hd & Hl & Hm & _ & Hno & Hp) Hb l.
  assert (Hms : Forall (fun x => forall ms, sn_expire_at_unix_ms x = Some ms -> is_i64 ms) l)
    by (by apply snapshot_ms_i64).
  split; [|split; [done|]].
  - apply entry_commands_fit; [done|done| |done].
    apply List.Forall_forall. intros s Hs%list_elem_of_In.
    destruct (snapshot_valid e now s Hwf Hs) as [Hk Hv]. unfold key_valid, value_valid in *.
    rewrite Hl in *. by bool_to_prop.
  - intros e0 Hm0 Hl0. apply snapshot_restorable; [done|congruence|congruence|done].
Qed.

Lemma restored_empty bound config limits :
  is_u64 (max_memory_bytes config) -> 0 <= shards config -> restored bound [] (new_engine config limits).
Proof.
  intros Hm Hs. split; [by apply new_engine_wf|]. split; [set_solver|]. intros k _. apply new_engine_find.
Qed.

(** Recovery from a log that holds the commands of a snapshot, without a
    manifest. *)
Lemma restart_from_log clock steady pid config e now sys bound :
  saved_under config e -> aof_enabled (persistence config) = true ->
  path_is_safe (aof_path (persistence config)) = true ->
  path_is_safe (ss_manifest_path (store_of config)) = true ->
  bsize (entry_log (snapshot now e).1) <= max_request_bytes (protocol config) ->
  s_io sys = [] -> file_at (s_fs sys) (aof_path (persistence config)) = Some (entry_log (snapshot now e).1) ->
  file_at (s_fs sys) (ss_manifest_path (store_of config)) = None ->
  (forall i, clock i <= bound) ->
  let '(out, w) := restart clock steady pid config sys in
  out = Started /\ forall t, bound <= t -> live (w_storage w) t = Map.view t (cut <$> live e now).
Proof.
  intros Hsaved Hen Hsafe Hmsafe Hb Hio Hfile Hman Hclk.
  destruct (saved_entries config e now Hsaved Hb) as (Hfit & Hms & Hable).
  pose proof Hsaved as (Hwf & _ & _ & Hm & Hsh & _ & Hp & _).
  set (l := (snapshot now e).1) in *. set (w0 := boot steady config sys).
  assert (Hm0 : is_u64 (max_memory_bytes (storage config))) by (rewrite <- Hm; apply Hwf).
  destruct (replay_entries clock steady pid (store_of config) bound [] l 0 false w0)
    as (n' & w1 & Hrun & Henv & Hrest); [done|done|by apply restored_empty|by apply Hable|done|].
  assert (Hrec : recover clock steady pid (store_of config) w0 = (Started, w1)).
  { rewrite (recover_eq clock steady pid (store_of config) w0 (MkRecovery status_ok false false 0)
      (w_storage w0) sys); [|done|by apply load_for_recovery_none|done].
    change (put_storage (w_storage w0) (put_sys sys w0)) with w0. cbn [rl_loaded_snapshot].
    rewrite (replay_file_ok _ _ _ _ _ (entry_log l)) by done. unfold entry_log.
    rewrite <- (app_nil_r (log_bytes _)), replay_bytes_log; [|done|done|by left|by rewrite app_nil_r].
    change (negb (bsize [] =? 0)) with false. by rewrite Hrun. }
  destruct (startup_eq clock steady pid w0 w1 Hen Hrec) as [Hs1 Hs2];
    [by destruct Henv as (_ & -> & _)|done|].
  unfold restart. fold w0. destruct (startup clock steady pid w0) as [out w]. cbn [fst snd] in *.
  assert (Hnd : NoDup (sn_key <$> l)) by apply (Hable (w_storage w0) eq_refl eq_refl).
  split; [done|]. intros t Ht. rewrite Hs2, (restored_live bound l) by done.
  by apply entries_db_snapshot.
Qed.

(** C13. Atomic rewrite: whatever the system calls return, after an AOF rewrite
    the log at its path holds either what it held before or the complete
    rewritten log, never a mixture or a prefix.  On success it is the rewritten
    log, the object appends to that very file, and its status is good; on
    failure the status says so. *)
Theorem rewrite_atomic clock pid a e s :
  let path := aof_path (aof_config a) in
  fs_wf (s_fs s) -> manifest_path (aof_config a) <> path ->
  aof_enabled (aof_config a) = true -> path_is_safe path = true ->
  let '((st, a', e'), s') := rewrite clock pid a e s in
  let log := entry_log (snapshot (clock (s_ticks s)) e).1 in
  (file_at (s_fs s') path = file_at (s_fs s) path \/ file_at (s_fs s') path = Some log) /\
  (ok_status st = true ->
     file_at (s_fs s') path = Some log /\ is_Some (fd_ a') /\ fd_ a' = fs_dir (s_fs s') !! path) /\
  last_write_ok_ a' = ok_status st.
Proof.
  intros path Hwf Hman Hen Hsafe.
  assert (Hwp := wp_rewrite clock pid a e (fun r s' =>
    let '(st, a', e') := r in
    rewrite_done a (entry_log (snapshot (clock (s_ticks s)) e).1) s (st, a') s') s Hwf Hman Hen Hsafe).
  unfold wp in Hwp. destruct (rewrite clock pid a e s) as [[[st a'] e'] s']. cbn [fst snd] in Hwp.
  destruct Hwp as (Hon & Hc & Hok & Hfail); [done|]. split; [done|]. split.
  - intros Hst. by destruct (Hok Hst) as (? & ? & ? & _).
  - destruct (ok_status st); [by destruct (Hok eq_refl) as (_ & _ & _ & ->)|by rewrite Hfail].
Qed.

(** C10. A rewritten log recovers the database: if an AOF rewrite succeeds and
    none of its system calls failed, then starting the server on the files it
    leaves, without I/O errors at startup, succeeds and shows exactly the keys,
    values and deadlines that were live when the rewrite took its snapshot,
    deadlines in whole milliseconds; whatever manifest and snapshot an earlier
    [SAVE] had left.  The log and the manifest have different configured paths,
    and the rewritten log fits [max_request_bytes]. *)
Theorem rewrite_recovers clock pid a e s config clock2 steady2 pid2 bound t0 :
  let manifest := manifest_path (persistence config) in
  saved_under config e -> aof_config a = persistence config ->
  aof_enabled (persistence config) = true -> path_is_safe (aof_path (persistence config)) = true ->
  path_is_safe manifest = true -> manifest <> aof_path (persistence config) ->
  fs_wf (s_fs s) -> calm s -> (forall i, clock2 i <= bound) ->
  let now := clock (s_ticks s) in
  bsize (entry_log (snapshot now e).1) <= max_request_bytes (protocol config) ->
  let '((st, a', e'), s') := rewrite clock pid a e s in
  ok_status st = true ->
  let '(out, w) := restart clock2 steady2 pid2 config (MkSys (s_fs s') [] t0) in
  out = Started /\ forall t, bound <= t -> live (w_storage w) t = Map.view t (cut <$> live e now).
Proof.
  intros manifest Hsaved Hc Hen Hsafe Hmsafe Hman Hwf Hcalm Hclk now Hb.
  assert (Hwp := wp_rewrite clock pid a e (fun r s' =>
    let '(st, a', e') := r in rewrite_done a (entry_log (snapshot now e).1) s (st, a') s') s Hwf).
  pose proof (rewrite_removes_manifest clock pid a e s Hcalm) as Hgone.
  rewrite Hc in Hwp, Hgone. specialize (Hwp Hman Hen Hsafe (fun _ _ _ _ Hd _ _ => Hd)). specialize (Hgone Hmsafe Hman).
  unfold wp in Hwp, Hgone. destruct (rewrite clock pid a e s) as [[[st a'] e'] s']. cbn [fst snd] in Hwp, Hgone.
  intros Hst. destruct Hwp as (_ & _ & Hok & _). destruct (Hok Hst) as (Hfile & _). specialize (Hgone Hst).
  rewrite Hc in Hfile.
  assert (Hpath : ss_manifest_path (store_of config) = manifest) by (by apply configured_manifest).
  by apply (restart_from_log clock2 steady2 pid2 config e now (MkSys (s_fs s') [] t0) bound); rewrite ?Hpath.
Qed.

(** * Saving and loading *)

Lemma wp_sync a (Q : Status -> Sys -> Prop) s :
  (forall st s', same_fs s s' -> Q st s') -> wp (sync a) Q s.
Proof.
  intros HQ. unfold sync. destruct (fd_ a); [by apply wp_sync_fd|]. by apply wp_ret, HQ.
Qed.

(** The files [SAVE] writes. *)
Definition save_paths (ss : SnapshotStore) : list bytes :=
  [ss_path ss ++ lit ".tmp"; ss_path ss; ss_manifest_path ss ++ lit ".tmp"; ss_manifest_path ss].


(** What [SAVE] with a log leaves on disk. *)
Lemma wp_save_aof clock ss e a s :
  fs_wf (s_fs s) -> enabled a = true ->
  ss_path ss ∉ [ss_manifest_path ss ++ lit ".tmp"; ss_manifest_path ss] ->
  wp (save clock ss e (Some a)) (fun r s' =>
    fs_wf (s_fs s') /\ only_paths (save_paths ss) (s_fs s) (s_fs s') /\
    (ok_status r.1 = true ->
     file_at (s_fs s') (ss_path ss) = Some (entry_log (snapshot (clock (s_ticks s)) e).1) /\
     exists i, file_at (s_fs s') (ss_manifest_path ss)
       = Some (concat (manifest_lines
           (MkManifest (ss_path ss) (aof_path (aof_config a)) (current_size_ a) (unix_ms (clock i))))))) s.
Proof.
  intros Hwf Hen Hpaths. unfold save. cbn [mbind option_bind]. rewrite Hen.
  apply wp_bind, wp_sync. intros st1 s1 [Hf1 Ht1].
  destruct (ok_status st1) eqn:Hst1; cbn [negb]; [|apply wp_ret; cbn; by rewrite Hst1, Hf1].
  apply wp_bind, wp_save_snapshot_file; [by rewrite Hf1|]. rewrite Ht1, Hf1.
  intros st2 e2 s2 Hwf2 Honly2 _ _ Hok2.
  assert (Hon2 : only_paths (save_paths ss) (s_fs s) (s_fs s2)).
  { intros p Hp. apply Honly2. unfold save_paths in Hp. set_solver. }
  destruct (ok_status st2) eqn:Hst2; cbn [negb]; [|apply wp_ret; cbn; by rewrite Hst2].
  destruct (Hok2 eq_refl) as [Hfile _].
  apply wp_bind, wp_read_clock. intros s3 Hf3 _.
  apply wp_bind, wp_write_manifest; [by rewrite Hf3|]. intros st4 s4 Hwf4 Honly _ Hok4.
  apply wp_ret. cbn [fst]. rewrite Hf3 in Honly. split; [done|]. split.
  - eapply only_paths_trans; [exact Hon2|]. intros p Hp. apply Honly. unfold save_paths in Hp. set_solver.
  - intros Hst4. split; [by rewrite Honly|]. exists (s_ticks s2). by apply Hok4.
Qed.



(** The log object and its file agree: it is open on the file at its path, and
    the size it reports is the file's. *)
Definition aof_tracks (a : Aof) (fs : Fs) : Prop :=
  exists fd, fd_ a = Some fd /\ fs_dir fs !! aof_path (aof_config a) = Some fd /\
    current_size_ a = bsize (content fs fd).



(** * Startup *)

Lemma load_for_recovery_some clock ss e path size s :
  limits_fit (parser_options_from_config (ss_protocol ss)) ->
  is_Some (load_for_recovery clock ss e path size s).1.1.
Proof.
  intros Hl. unfold load_for_recovery. rewrite st_bind_eq.
  destruct (read_manifest ss s) as [[m|] s1]; cbn [fst snd]; [|by eexists].
  rewrite st_bind_eq. destruct (manifest_matches ss m path size s1) as [[] s2]; cbn [fst snd negb]; [|by eexists].
  rewrite st_bind_eq. destruct (load_total clock ss e s2 Hl) as [st Hst].
  destruct (load clock ss e s2) as [[o e2] s3]. cbn [fst snd] in *. subst o. by eexists.
Qed.

Lemma recover_outcome clock steady pid ss w :
  limits_fit (parser_options_from_config (protocol (w_config w))) ->
  limits_fit (parser_options_from_config (ss_protocol ss)) ->
  wp (recover clock steady pid ss) (fun out _ => out = Started \/ out = Exited 3) w.
Proof.
  intros Hl Hss. unfold recover. apply wp_bind. unfold wp at 1. cbn [asks fst snd].
  apply wp_bind, wp_any. intros size w1.
  apply wp_bind, (wp_mono _ (fun r _ => is_Some r)).
  - unfold wp, load_for_recovery_world, lift_sys, asks, st_modify, mbind, St_bind, mret, St_ret.
    pose proof (load_for_recovery_some clock ss (w_storage w1) (aof_path (persistence (w_config w))) size
      (w_sys w1) Hss) as Hs.
    by destruct (load_for_recovery _ _ _ _ _ (w_sys w1)) as [[r e] s].
  - intros _ w2 [r ->]. destruct (negb (ok_status (rl_status r))); [apply wp_ret; by right|].
    apply wp_bind, (wp_mono _ (fun r _ => is_Some r)).
    + unfold replay_file. apply wp_bind, wp_any. intros present w3.
      destruct (_ || _); [apply wp_ret; by eexists|]. apply wp_bind, wp_any. intros content w4.
      by apply replay_bytes_total.
    + intros _ w3 [stats ->]. apply wp_ret. destruct (negb _); [by right|by left].
Qed.

(** How startup can end. *)
Lemma startup_outcome clock steady pid config sys :
  limits_fit (parser_options_from_config (protocol config)) ->
  wp (startup clock steady pid) (fun out _ => out = Started \/ out = Exited 3 \/ out = Exited 4)
    (boot steady config sys).
Proof.
  intros Hl. unfold startup. apply wp_bind. unfold wp at 1. cbn [asks fst snd boot w_config].
  apply wp_bind, (wp_mono _ (fun out _ => out = Started \/ out = Exited 3)).
  - destruct (aof_enabled (persistence config)); [by apply recover_outcome|].
    apply wp_bind, (wp_mono _ (fun st _ => is_Some st)).
    + unfold wp, load_world, lift_sys, asks, st_modify, mbind, St_bind, mret, St_ret.
      pose proof (load_total clock (store_of config) (new_engine (storage config) (protocol config)) sys Hl) as Hs.
      by destruct (load clock _ _ _) as [[r e] s].
    + intros _ w [st ->]. apply wp_ret. by left.
  - intros out w [-> | ->]; [|apply wp_ret; auto]. apply wp_bind, wp_any. intros [st a] w2.
    apply wp_bind, wp_any. intros _ w3. apply wp_ret. destruct (ok_status st); auto.
Qed.

(** C28. Recovery terminates: whatever bytes the log, the snapshot and the
    manifest hold, and whatever the system calls return, startup comes to an
    end: the server starts or [main] exits with a code. *)
Theorem restart_terminates clock steady pid config sys :
  limits_fit (parser_options_from_config (protocol config)) ->
  (restart clock steady pid config sys).1 <> OutOfFuel.
Proof.
  intros Hl. pose proof (startup_outcome clock steady pid config sys Hl) as Ho. unfold wp in Ho. unfold restart.
  by destruct Ho as [-> | [-> | ->]].
Qed.

(** * The log *)



(** Replaying from a checkpoint's offset is replaying the log written after
    it: the commands before the offset are not run again. *)
Theorem replay_from_offset {W} (cb : list bytes -> St W Status) p before_ cmds w :
  let o := parser_options_from_config p in
  Forall (command_fits o) cmds -> limits_fit o -> bsize (log_bytes cmds) <= max_request_bytes p ->
  replay_bytes cb p (log_bytes before_ ++ log_bytes cmds) (bsize (log_bytes before_)) w
  = replay_all cb cmds 0 false w.
Proof.
  intros o Hf Hl Hb. rewrite replay_bytes_offset, <- (app_nil_r (log_bytes cmds)).
  by rewrite replay_bytes_log; [|done|done|left|rewrite app_nil_r].
Qed.

(** What an append of [args] does to the log at [path], which held [old]. *)
Definition append_result (path old : bytes) (args : list bytes) (s : Sys) (r : Status * Aof) (s' : Sys) : Prop :=
  exists b, b `prefix_of` encode_command args /\
    file_at (s_fs s') path = Some (old ++ b) /\ only_paths [path] (s_fs s) (s_fs s') /\
    (ok_status r.1 = true -> b = encode_command args /\
       (bsize old + bsize (encode_command args) < 2 ^ 64 -> aof_tracks r.2 (s_fs s'))) /\
    last_write_ok_ r.2 = ok_status r.1.

(** The state after the bytes [b] were written, with whatever status. *)
Lemma append_written a a1 args fd b s s1 r :
  let path := aof_path (aof_config a) in
  fs_wf (s_fs s) -> fs_dir (s_fs s) !! path = Some fd -> current_size_ a = bsize (content (s_fs s) fd) ->
  b `prefix_of` encode_command args -> appended fd b (s_fs s) (s_fs s1) -> fd_ a = Some fd ->
  aof_config a1 = aof_config a -> fd_ a1 = fd_ a ->
  (ok_status r = true -> b = encode_command args /\ current_size_ a1 = u64 (current_size_ a + bsize b)) ->
  last_write_ok_ a1 = ok_status r ->
  append_result path (content (s_fs s) fd) args s (r, a1) s1.
Proof.
  intros path Hwf Hdir Hsize Hpre Happ Hfd Hc Hf Hok Hl. pose proof Happ as (D & _ & C & O).
  exists b. split; [done|]. split; [|split; [|split; [|done]]].
  - unfold file_at. rewrite D, Hdir. simpl. by rewrite C.
  - intros q Hq. eapply appended_file_at; [done|]. intros Hq2. apply Hq. apply list_elem_of_singleton.
    by apply (proj2 Hwf q path fd).
  - cbn [fst snd]. intros Hr. destruct (Hok Hr) as [-> Hs]. split; [done|]. intros Hlt. exists fd. rewrite Hc, Hf, Hs.
    split; [done|]. split; [by rewrite D|]. rewrite C, bsize_app, Hsize. apply u64_small.
    pose proof (bsize_nonneg (content (s_fs s) fd)). pose proof (bsize_nonneg (encode_command args)). lia.
Qed.

Lemma aof_append_result a args s :
  let path := aof_path (aof_config a) in
  let old := default [] (file_at (s_fs s) path) in
  fs_wf (s_fs s) -> aof_enabled (aof_config a) = true -> aof_tracks a (s_fs s) ->
  wp (Aof.append a args) (append_result path old args s) s.
Proof.
  intros path old Hwf Hen (fd & Hfd & Hdir & Hsize).
  assert (Hold : old = content (s_fs s) fd) by (unfold old, file_at; fold path in Hdir; by rewrite Hdir).
  rewrite Hold in *. unfold Aof.append, enabled. rewrite Hen, Hfd.
  change (negb (true && bool_decide (is_Some (Some fd)))) with false. cbv iota.
  unfold write_bytes_locked. rewrite Hfd. apply wp_bind, wp_bind, wp_write_all.
  intros st1 s1 b Hpre Happ _ Hb. apply wp_ret.
  set (a1 := if ok_status st1 then _ else a).
  assert (Hpost : forall st s2, s_fs s2 = s_fs s1 -> (ok_status st = true -> ok_status st1 = true) ->
    wp (if negb (ok_status st) then mret (st, failed a1 st) else mret (status_ok, set_write a1 true (last_error_ a1)))
      (append_result path (content (s_fs s) fd) args s) s2).
  { intros st s2 Hf2 Hst. rewrite <- Hf2 in Happ. destruct (ok_status st) eqn:E; cbn [negb]; apply wp_ret;
      apply (append_written a _ args fd b); try done; unfold a1; cbn; rewrite ?E; destruct (ok_status st1); try done.
    - intros _. by rewrite (Hb eq_refl).
    - by specialize (Hst eq_refl). }
  destruct (ok_status st1 && _) eqn:Hsync.
  - apply wp_bind, wp_bind, wp_syscall. intros [m|] s2 [Hf2 _]; apply wp_ret, Hpost; auto; done.
  - apply wp_bind, wp_ret, Hpost; auto.
Qed.

(** C27. Appending to the log: whatever the system calls return, the file keeps
    everything it held and gains a prefix of the encoded command, and no other
    file changes; on success it gains the whole command, and the size the object
    reports stays the size of the file. *)
Theorem aof_append_correct a args s :
  let path := aof_path (aof_config a) in
  let old := default [] (file_at (s_fs s) path) in
  fs_wf (s_fs s) -> aof_enabled (aof_config a) = true -> aof_tracks a (s_fs s) ->
  bsize old + bsize (encode_command args) < 2 ^ 64 ->
  let '((st, a'), s') := Aof.append a args s in
  exists b, b `prefix_of` encode_command args /\
    file_at (s_fs s') path = Some (old ++ b) /\ only_paths [path] (s_fs s) (s_fs s') /\
    (ok_status st = true -> b = encode_command args /\ aof_tracks a' (s_fs s')) /\
    last_write_ok_ a' = ok_status st.
Proof.
  intros path old Hwf Hen Htr Hlt. pose proof (aof_append_result a args s Hwf Hen Htr) as Hr. unfold wp in Hr.
  destruct (Aof.append a args s) as [[st a'] s']. destruct Hr as (b & ? & ? & ? & Hok & ?). exists b.
  repeat (split; [done|]). split; [|done]. intros Hst. destruct (Hok Hst) as [? Htr']. auto.
Qed.
End Props.

(** * Witnesses *)

Definition deadline_ok (x : Entry) : bool :=
  match e_expiry x with Some d => (i64_min <=? d) && (d <=? i64_max) | None => true end.

Lemma deadlines_i64_check e :
  wf e -> forallb (fun kx => deadline_ok kx.2) (map_to_list (entries_of (shards_ e))) = true -> deadlines_i64 e.
Proof.
  intros Hwf Hall i k x d Hf Hx. rewrite forallb_forall in Hall.
  assert (Hr := wf_find_route _ _ _ _ Hwf Hf). subst i.
  specialize (Hall (k, x)). unfold deadline_ok in Hall. cbn [snd] in Hall. rewrite Hx in Hall.
  unfold is_i64. enough ((i64_min <=? d) && (d <=? i64_max) = true) by (bool_to_prop; lia).
  apply Hall, list_elem_of_In, elem_of_map_to_list. by rewrite entries_of_find.
Qed.

Definition demo_config : Config :=
  MkConfig default_server demo_storage default_persistence default_expiration (lit "info") true false
    default_protocol.

Lemma demo_saved : saved_under demo_config demo_engine.
Proof.
  split; [apply demo_wf|]. split; [apply deadlines_i64_check; [apply demo_wf|vm_compute; reflexivity]|].
  split; [vm_compute; reflexivity|]. split; [vm_compute; reflexivity|]. split; [by vm_compute|].
  split; [done|]. repeat split; by vm_compute.
Qed.

(** A clock that advances by a millisecond per reading, and stops at 10. *)
Definition demo_clock (i : nat) : Z := Z.min 10 (Z.of_nat i) * 1000000.

Lemma demo_clock_bound i : demo_clock i <= 10000000.
Proof. unfold demo_clock. lia. Qed.

Definition demo_aof : Aof := set_fd (new_aof default_persistence default_protocol) (Some 0%nat) 3.

(** A file system with a log of three bytes. *)
Definition demo_fs : Fs :=
  MkFs {[lit "./data/veloxdb.aof" := 0%nat]} {[0%nat := lit "abc"]} 1.

Lemma demo_fs_wf : fs_wf demo_fs.
Proof.
  split; cbn [fs_dir demo_fs].
  - intros p i [_ <-]%lookup_singleton_Some. simpl. lia.
  - intros p q i [<- _]%lookup_singleton_Some [<- _]%lookup_singleton_Some. done.
Qed.

(** The rewrite meets a full disk after five bytes: the old log stays. *)
Lemma rewrite_atomic_witness :
  let s := MkSys demo_fs [IoOk; IoOk; IoShort 5; IoError (lit "No space left on device")] 3 in
  let '((st, a', e'), s') := rewrite demo_clock 7 demo_aof demo_engine s in
  (file_at (s_fs s') (lit "./data/veloxdb.aof") = Some (lit "abc") \/
   file_at (s_fs s') (lit "./data/veloxdb.aof")
   = Some (entry_log (snapshot (demo_clock 3) demo_engine).1)) /\
  last_write_ok_ a' = ok_status st.
Proof.
  intros s. pose proof (rewrite_atomic demo_clock 7 demo_aof demo_engine s demo_fs_wf) as Hr.
  destruct (rewrite demo_clock 7 demo_aof demo_engine s) as [[[st a'] e'] s'].
  destruct Hr as (Ho & _ & Hl); [discriminate|reflexivity|reflexivity|]. split; [exact Ho|exact Hl].
Defined.

Ltac not_in :=
  let H := fresh in intro H; repeat (apply elem_of_cons in H as [H|H]; [discriminate H|]); by apply elem_of_nil in H.

Lemma demo_snapshot_path :
  ss_path (store_of demo_config) ∉
  [ss_manifest_path (store_of demo_config) ++ lit ".tmp"; ss_manifest_path (store_of demo_config)].
Proof. not_in. Qed.

(** The files after a checkpoint: its manifest speaks of the log of three bytes. *)
Definition stale_fs : Fs :=
  s_fs (save demo_clock (store_of demo_config) demo_engine (Some demo_aof) (MkSys demo_fs [] 0)).2.

Lemma stale_fs_wf : fs_wf stale_fs.
Proof.
  pose proof (wp_save_aof demo_clock (store_of demo_config) demo_engine demo_aof (MkSys demo_fs [] 0)
    demo_fs_wf eq_refl demo_snapshot_path) as Hs. apply Hs.
Qed.

Lemma rewrite_recovers_witness :
  let s := MkSys stale_fs [] 0 in
  let '((st, a', e'), s') := rewrite demo_clock 7 demo_aof demo_engine s in
  ok_status st = true /\
  let '(out, w) := restart demo_clock (fun _ => 0) 8 demo_config (MkSys (s_fs s') [] 0) in
  out = Started /\
  forall t, 10000000 <= t -> live (w_storage w) t = Map.view t (cut <$> live demo_engine (demo_clock 0)).
Proof.
  intros s.
  pose proof (rewrite_recovers demo_clock 7 demo_aof demo_engine s demo_config demo_clock (fun _ => 0) 8
    10000000 0 demo_saved eq_refl eq_refl eq_refl eq_refl) as Hr. cbv zeta in Hr.
  assert (Hst : ok_status (rewrite demo_clock 7 demo_aof demo_engine s).1.1.1 = true)
    by (vm_compute; reflexivity).
  destruct (rewrite demo_clock 7 demo_aof demo_engine s) as [[[st a'] e'] s']. split; [exact Hst|].
  apply Hr; [discriminate|exact stale_fs_wf|apply List.Forall_nil|exact demo_clock_bound|vm_compute; discriminate|exact Hst].
Defined.





Lemma restart_terminates_witness :
  (restart demo_clock (fun _ => 0) 8 demo_config (MkSys demo_fs [] 0)).1 <> OutOfFuel.
Proof. apply restart_terminates. split; vm_compute; discriminate. Defined.

(** A callback that counts the commands it is given. *)
Definition count_commands (args : list bytes) : St nat Status := fun n => (status_ok, S n).

Lemma fits_ping : command_fits (parser_options_from_config default_protocol) [lit "PING"].
Proof.
  split; [by vm_compute|]. split; [by vm_compute|]. split; [by vm_compute|].
  split; [|by vm_compute]. repeat constructor; by vm_compute.
Qed.


Lemma replay_from_offset_witness :
  replay_bytes count_commands default_protocol (log_bytes [[lit "GET"]] ++ log_bytes [[lit "PING"]])
    (bsize (log_bytes [[lit "GET"]])) 5%nat
  = replay_all count_commands [[lit "PING"]] 0 false 5%nat.
Proof.
  apply (replay_from_offset count_commands default_protocol [[lit "GET"]] [[lit "PING"]]).
  - constructor; [exact fits_ping|]. constructor.
  - split; vm_compute; discriminate.
  - vm_compute. discriminate.
Defined.

Lemma aof_append_correct_witness :
  let '((st, a'), s') := Aof.append demo_aof [lit "PING"] (MkSys demo_fs [IoShort 3; IoIntr] 0) in
  exists b, b `prefix_of` encode_command [lit "PING"] /\
    file_at (s_fs s') (lit "./data/veloxdb.aof") = Some (lit "abc" ++ b) /\
    only_paths [lit "./data/veloxdb.aof"] demo_fs (s_fs s') /\
    (ok_status st = true -> b = encode_command [lit "PING"] /\ aof_tracks a' (s_fs s')) /\
    last_write_ok_ a' = ok_status st.
Proof.
  apply (aof_append_correct demo_aof [lit "PING"] (MkSys demo_fs [IoShort 3; IoIntr] 0)).
  - exact demo_fs_wf.
  - reflexivity.
  - exists 0%nat. repeat split; reflexivity.
  - vm_compute. reflexivity.
Defined.
