(* ===== verification/Frames.v ===== *)
(** What no command touches: a generic frame lemma for [execute], and its two
    uses, the configuration and the number of connected clients. *)
From S2P Require Import Prelude Util Config Resp Storage Fs Aof Snapshot Metrics Commands CommandFacts.

(** A view of the world that none of the objects commands write belong to. *)
Class Aside {X} (f : World -> X) : Prop := {
  aside_sys s w : f (put_sys s w) = f w;
  aside_storage e w : f (put_storage e w) = f w;
  aside_aof a w : f (put_aof a w) = f w;
  aside_level l w : f (put_log_level l w) = f w;
  aside_stop w : f (request_stop w) = f w;
  aside_aof_ok b w : f (on_metrics (set_aof_ok b) w) = f w;
  aside_enabled b w : f (on_metrics (set_enabled b) w) = f w
}.

Section Frames.
Context `{Platform} {X : Type} (f : World -> X) `{!Aside f}.
Variables (clock : nat -> Z) (steady : nat -> Z) (pid : Z).

Definition keeps {A} (m : CmdM A) : Prop := forall w, f (m w).2 = f w.

Lemma keeps_ret {A} (a : A) : keeps (mret a).
Proof. done. Qed.

Lemma keeps_bind {A B} (m : CmdM A) (g : A -> CmdM B) :
  keeps m -> (forall a, keeps (g a)) -> keeps (m ≫= g).
Proof. intros Hm Hg w. rewrite st_bind_eq. by rewrite (Hg (m w).1), Hm. Qed.

Lemma keeps_lift {A} (m : SysM A) : keeps (lift_sys m).
Proof. intros w. unfold lift_sys. destruct (m (w_sys w)). apply aside_sys. Qed.

Lemma keeps_asks {A} (g : World -> A) : keeps (asks g).
Proof. done. Qed.

Lemma keeps_get : keeps st_get.
Proof. done. Qed.

Lemma keeps_put_storage e : keeps (st_modify (put_storage e)).
Proof. intros w. apply aside_storage. Qed.

Lemma keeps_put_aof a : keeps (st_modify (put_aof a)).
Proof. intros w. apply aside_aof. Qed.

Lemma keeps_flush : keeps (st_modify (fun w => put_storage (Storage.flushdb (w_storage w)) w)).
Proof. intros w. apply aside_storage. Qed.

Lemma keeps_level l : keeps (st_modify (put_log_level l)).
Proof. intros w. apply aside_level. Qed.

Lemma keeps_stop : keeps (st_modify request_stop).
Proof. intros w. apply aside_stop. Qed.

Lemma keeps_failed : keeps (st_modify (on_metrics aof_write_failed)).
Proof. intros w. apply aside_aof_ok. Qed.

Lemma keeps_succeeded : keeps (st_modify (on_metrics aof_write_succeeded)).
Proof. intros w. apply aside_aof_ok. Qed.

Lemma keeps_enabled b : keeps (st_modify (on_metrics (set_enabled b))).
Proof. intros w. apply aside_enabled. Qed.

Lemma keeps_storage_ops {A} (m : St (StorageEngine * nat) A) : keeps (storage_ops m).
Proof.
  intros w. unfold storage_ops. destruct (m _) as [a [e t]]. cbn [snd]. by rewrite aside_storage, aside_sys.
Qed.

#[local] Hint Resolve keeps_ret keeps_lift keeps_asks keeps_get keeps_put_storage keeps_put_aof keeps_flush
  keeps_level keeps_stop keeps_failed keeps_succeeded keeps_enabled keeps_storage_ops : velox.

(** Walks through a handler: binds, tests and matches down to the primitive
    operations. *)
Ltac keep :=
  repeat first
    [ progress auto with velox
    | apply keeps_bind; [|intros ?]
    | match goal with |- keeps (match ?x with _ => _ end) => destruct x end
    | match goal with |- keeps (if ?x then _ else _) => destruct x end ].

Lemma keeps_storage_op {A} (op : Z -> StorageEngine -> A * StorageEngine) : keeps (storage_op clock op).
Proof. unfold storage_op. keep. Qed.

Lemma keeps_persist ctx args : keeps (persist ctx args).
Proof. unfold persist. keep. Qed.

#[local] Hint Resolve keeps_storage_op keeps_persist : velox.

Lemma keeps_persist_or_ok ctx args r : keeps (persist_or_ok ctx args r).
Proof. unfold persist_or_ok. keep. Qed.

Lemma keeps_persist_if ctx b args r : keeps (persist_if ctx b args r).
Proof. unfold persist_if. keep. Qed.

Lemma keeps_mset_loop pairs : keeps (mset_loop clock pairs).
Proof. induction pairs as [| |k v rest IH] using list_pair_ind; cbn [mset_loop]; keep. Qed.

#[local] Hint Resolve keeps_persist_or_ok keeps_persist_if keeps_mset_loop : velox.

Lemma keeps_default :
  Forall (fun nh => forall names ctx args, keeps (nh.2 names ctx args)) (default_commands clock steady pid).
Proof.
  unfold default_commands. repeat (apply List.Forall_cons; [intros names ctx args; cbn [snd]|]); [..|apply List.Forall_nil].
  all: unfold cmd, ping, echo, get_cmd, set_cmd, set_run, pxat_arg_from_ttl, del_cmd, exists_cmd, mget_cmd, mset_cmd,
    incr_decr, append_cmd, write_reply, strlen_cmd, expire_impl, storage_expire, pxat_arg_from_ttl, pexpireat,
    ttl_impl, persist_cmd, dbsize_cmd, flushdb_cmd, info_cmd, config_cmd, config_set, save_cmd, bgsave,
    bgrewriteaof, shutdown_cmd, command_cmd; cbv beta zeta; keep.
Qed.

Lemma keeps_execute ctx args : keeps (execute (default_registry clock steady pid) ctx args).
Proof.
  unfold execute. destruct args as [|name rest]; [apply keeps_ret|]. rewrite registry_assoc.
  destruct (assoc _ _) as [h|] eqn:Ha; [|apply keeps_ret]. apply assoc_elem in Ha as (n & Hin & _).
  pose proof keeps_default as Hd. rewrite List.Forall_forall in Hd. apply (Hd (n, h)). by apply list_elem_of_In.
Qed.
End Frames.

#[export] Instance config_aside : Aside w_config.
Proof. by split. Qed.

#[export] Instance clients_aside : Aside (fun w => m_connected_clients (w_metrics w)).
Proof. by split. Qed.
