(* ===== verification/KvSpec.v ===== *)
(** What the commands mean: a specification on a plain map from keys to values.

    It covers databases without deadlines: every command except the ones that
    set a deadline ([EXPIRE], [PEXPIRE], [PEXPIREAT], [SET] with an expiry) and
    the ones that replace persistence files ([SAVE], [BGREWRITEAOF]).  For each
    covered command it gives the reply, the map after it, and the record the
    append-only file gains. *)
From S2P Require Import Prelude Util Config Resp Storage StorageFacts StorageSpec.
From S2P Require Import Fs Aof Snapshot Metrics Commands CommandFacts.

Module Kv.

Abbreviation kv := (gmap bytes bytes).

(** [reply] is [None] when it depends on the server rather than on the data. *)
Record Outcome := MkOutcome { reply : option bytes; result : kv; logged : list (list bytes) }.

Definition says (r : CommandResult) (m : kv) : option Outcome :=
  Some (MkOutcome (Some (response r)) m []).
Definition server_reply (m : kv) : option Outcome := Some (MkOutcome None m []).
Definition writes (r : CommandResult) (m : kv) (record : list bytes) : option Outcome :=
  Some (MkOutcome (Some (response r)) m [record]).
Definition fails (c : WriteCode) (m : kv) : option Outcome := says (err (storage_write_error c)) m.
Definition wrong (args : list bytes) (m : kv) : option Outcome := says (wrong_args (hd [] args)) m.

Definition int_reply (n : Z) : CommandResult := done_ (integer n).
Definition value_reply (v : option bytes) : CommandResult :=
  done_ (match v with Some v => bulk v | None => null_bulk end).

Definition has (m : kv) (k : bytes) : bool := bool_decide (is_Some (m !! k)).

(** Why a key and its new value cannot be stored. *)
Definition too_large (lim : ProtocolConfig) (k v : bytes) : option WriteCode :=
  if negb (bsize k <=? max_key_size lim) then Some KeyTooLarge
  else if negb (bsize v <=? max_value_size lim) then Some ValueTooLarge
  else None.

(** The number of the given keys that were present, a key counting once, and
    the map without them. *)
Fixpoint remove_keys (keys : list bytes) (m : kv) : Z * kv :=
  match keys with
  | [] => (0, m)
  | k :: rest =>
      let '(n, m') := remove_keys rest (delete k m) in ((if has m k then 1 else 0) + n, m')
  end.

Definition count_keys (keys : list bytes) (m : kv) : Z :=
  foldr (fun k n => (if has m k then 1 else 0) + n) 0 keys.

(** Storing pairs up to the first that is too large. *)
Fixpoint store_pairs (lim : ProtocolConfig) (pairs : list bytes) (m : kv) : option WriteCode * kv :=
  match pairs with
  | k :: v :: rest =>
      match too_large lim k v with
      | Some c => (Some c, m)
      | None => store_pairs lim rest (<[k := v]> m)
      end
  | _ => (None, m)
  end.

(** Every pair can be stored. *)
Fixpoint pairs_fit (lim : ProtocolConfig) (pairs : list bytes) : bool :=
  match pairs with
  | k :: v :: rest => negb (bool_decide (is_Some (too_large lim k v))) && pairs_fit lim rest
  | _ => true
  end.

(** [MSET] stores the pairs before the first that is too large and then fails;
    this says that it does not come to that. *)
Definition mset_whole (lim : ProtocolConfig) (args : list bytes) : bool :=
  match args with
  | name :: pairs => negb (beq (to_upper_ascii name) (lit "MSET")) || pairs_fit lim pairs
  | [] => true
  end.

Section Exec.
Variable lim : ProtocolConfig.
Implicit Types (args : list bytes) (m : kv).

Definition ping args m : option Outcome :=
  match args with
  | [_] => says (done_ (simple (lit "PONG"))) m
  | [_; message] => says (done_ (bulk message)) m
  | _ => wrong args m
  end.

Definition echo args m : option Outcome :=
  match args with [_; message] => says (done_ (bulk message)) m | _ => wrong args m end.

Definition get args m : option Outcome :=
  match args with [_; k] => says (value_reply (m !! k)) m | _ => wrong args m end.

Definition set args m : option Outcome :=
  match args with
  | _ :: k :: v :: opts =>
      match set_options opts Always None None with
      | inl message => says (err message) m
      | inr (c, None, None) =>
          match too_large lim k v with
          | Some code => fails code m
          | None =>
              if Spec.condition_holds c (has m k)
              then writes ok (<[k := v]> m) [lit "SET"; k; v]
              else says (done_ null_bulk) m
          end
      | inr _ => None
      end
  | _ => wrong args m
  end.

Definition del args m : option Outcome :=
  match args with
  | _ :: ((_ :: _) as keys) =>
      let '(n, m') := remove_keys keys m in
      if n =? 0 then says (int_reply (i64 n)) m' else writes (int_reply (i64 n)) m' args
  | _ => wrong args m
  end.

Definition exists_ args m : option Outcome :=
  match args with
  | _ :: ((_ :: _) as keys) => says (int_reply (i64 (count_keys keys m))) m
  | _ => wrong args m
  end.

Definition mget args m : option Outcome :=
  match args with
  | _ :: ((_ :: _) as keys) => says (done_ (array_of_bulk ((fun k => m !! k) <$> keys))) m
  | _ => wrong args m
  end.

Definition mset args m : option Outcome :=
  if (length args <? 3)%nat || Nat.even (length args) then wrong args m
  else
    match store_pairs lim (tl args) m with
    | (Some c, m') => fails c m'
    | (None, m') => writes ok m' args
    end.

Definition counter (m : kv) (k : bytes) : option Z :=
  match m !! k with None => Some 0 | Some v => parse_integer_value v end.

Definition incr (delta : Z) args m : option Outcome :=
  match args with
  | [_; k] =>
      if negb (bsize k <=? max_key_size lim) then fails KeyTooLarge m
      else
        match counter m k with
        | None => fails InvalidInteger m
        | Some n =>
            if bool_decide (is_i64 (n + delta)) then
              match too_large lim k (to_string (n + delta)) with
              | Some c => fails c m
              | None => writes (int_reply (n + delta)) (<[k := to_string (n + delta)]> m) args
              end
            else fails Overflow m
        end
  | _ => wrong args m
  end.

Definition append args m : option Outcome :=
  match args with
  | [_; k; suffix] =>
      let v := default [] (m !! k) ++ suffix in
      match too_large lim k v with
      | Some c => fails c m
      | None => writes (int_reply (i64 (bsize v))) (<[k := v]> m) args
      end
  | _ => wrong args m
  end.

Definition strlen args m : option Outcome :=
  match args with
  | [_; k] => says (int_reply (i64 (bsize (default [] (m !! k))))) m
  | _ => wrong args m
  end.

Definition ttl args m : option Outcome :=
  match args with
  | [_; k] => says (int_reply (if has m k then -1 else -2)) m
  | _ => wrong args m
  end.

Definition persist args m : option Outcome :=
  match args with [_; _] => says (int_reply 0) m | _ => wrong args m end.

Definition dbsize args m : option Outcome :=
  match args with [_] => says (int_reply (i64 (Z.of_nat (size m)))) m | _ => wrong args m end.

Definition flushdb args m : option Outcome :=
  match args with [_] => writes ok ∅ [lit "FLUSHDB"] | _ => wrong args m end.

Definition server args m : option Outcome := server_reply m.
Definition uncovered args m : option Outcome := None.

Definition table : list (string * (list bytes -> kv -> option Outcome)) :=
  [("PING", ping); ("ECHO", echo); ("GET", get); ("SET", set); ("DEL", del); ("EXISTS", exists_);
   ("MGET", mget); ("MSET", mset); ("INCR", incr 1); ("DECR", incr (-1)); ("APPEND", append);
   ("STRLEN", strlen); ("EXPIRE", uncovered); ("PEXPIRE", uncovered); ("PEXPIREAT", uncovered);
   ("TTL", ttl); ("PTTL", ttl); ("PERSIST", persist); ("DBSIZE", dbsize); ("FLUSHDB", flushdb);
   ("INFO", server); ("CONFIG", server); ("SAVE", uncovered); ("BGSAVE", server);
   ("BGREWRITEAOF", uncovered); ("SHUTDOWN", server); ("COMMAND", server)]%string.

Definition exec args m : option Outcome :=
  match args with
  | [] => says (err (lit "empty command")) m
  | name :: _ =>
      match assoc (to_upper_ascii name) table with
      | None => says (err (lit "unknown command '" ++ name ++ lit "'")) m
      | Some f => f args m
      end
  end.

(** A sequence of covered commands: the map after it and the records logged. *)
Fixpoint run (cmds : list (list bytes)) m : option (kv * list (list bytes)) :=
  match cmds with
  | [] => Some (m, [])
  | c :: cmds =>
      o ← exec c m;
      '(m', l) ← run cmds (result o);
      Some (m', logged o ++ l)
  end.
End Exec.
End Kv.
