(* ===== verification/KvFacts.v ===== *)
(** The command handlers implement the specification of [KvSpec]: on a
    database without deadlines each covered command gives the specified reply
    and map, and appends the specified record to the journal.

    The journal is an interface: [Journal] says what logging must do, and the
    log of a running server and the replay of a log both provide it. *)
From S2P Require Import Prelude Util Config Resp Storage StorageFacts StorageSpec StorageSweep.
From S2P Require Import StorageRefine Fs Aof Snapshot Metrics Commands Recovery CommandFacts KvSpec.

Import Kv.

(** * The specification's own properties *)

Lemma not_error c r : c <> "-"%char -> is_error_reply (c :: r) = false.
Proof. intros Hc. unfold is_error_reply, beq. apply bool_decide_eq_false_2. intros [=]. done. Qed.

Lemma too_large_code lim k v c : too_large lim k v = Some c -> c = KeyTooLarge \/ c = ValueTooLarge.
Proof. unfold too_large. destruct (negb _); [|destruct (negb _)]; naive_solver. Qed.

Lemma store_pairs_fit lim pairs m :
  pairs_fit lim pairs = true -> (store_pairs lim pairs m).1 = None.
Proof.
  revert m. induction pairs as [| |k v rest IH] using list_pair_ind; intros m Hf; [done|done|].
  cbn [pairs_fit store_pairs] in *. destruct (too_large lim k v); [done|]. by apply IH.
Qed.

(** What a command leaves to be replayed: nothing if the map is unchanged;
    otherwise one record which, run on the same map, gives the same map again
    and no error. *)
Definition replays_as (lim : ProtocolConfig) (m : kv) (o : Outcome) : Prop :=
  (logged o = [] /\ result o = m) \/
  exists c r, logged o = [c] /\ is_error_reply r = false /\
    exec lim c m = Some (MkOutcome (Some r) (result o) [c]).

Lemma set_record lim k v m :
  too_large lim k v = None ->
  exec lim [lit "SET"; k; v] m = Some (MkOutcome (Some (simple (lit "OK"))) (<[k := v]> m) [[lit "SET"; k; v]]).
Proof.
  intros Ht. change (Kv.set lim [lit "SET"; k; v] m = writes ok (<[k := v]> m) [lit "SET"; k; v]).
  unfold Kv.set. cbn [set_options]. by rewrite Ht.
Qed.

(** Removing keys none of which is there removes nothing. *)
Lemma remove_keys_none keys m : 0 <= (remove_keys keys m).1 /\ ((remove_keys keys m).1 = 0 -> (remove_keys keys m).2 = m).
Proof.
  revert m. induction keys as [|k keys IH]; intros m; [done|]. cbn [remove_keys].
  specialize (IH (delete k m)). destruct (remove_keys keys (delete k m)) as [n m']. cbn [fst snd] in *.
  destruct IH as [Hn Hm]. unfold has. case_bool_decide as Hk; [split; lia|]. split; [lia|]. intros H0.
  rewrite Hm by lia. apply delete_id. by apply eq_None_not_Some.
Qed.

(** Cases of the specification's tests and matches, down to the outcome. *)
Ltac spec_cases He :=
  unfold ping, echo, Kv.get, Kv.set, Kv.del, Kv.exists_, Kv.mget, mset, incr, Kv.append, Kv.strlen, Kv.ttl,
    Kv.persist, Kv.dbsize, Kv.flushdb, server, uncovered, wrong, fails, says, server_reply, writes in He;
  repeat (match type of He with
          | context [match ?x with _ => _ end] => is_var x; destruct x
          | context [match ?x with _ => _ end] => destruct x eqn:?
          end; cbn beta iota in He);
  try discriminate He; injection He as <-.

(** The outcome logs nothing and changes nothing, or logs the command as it was
    given and does not fail. *)
Definition logs_itself (args : list bytes) (m : kv) (o : Outcome) : Prop :=
  (logged o = [] /\ result o = m) \/
  (logged o = [args] /\ exists r, reply o = Some r /\ is_error_reply r = false).

Ltac record_cases He :=
  spec_cases He;
  first [by left | right; split; [done|]; eexists; split; [done|]; by apply not_error].

Lemma del_record args m o : Kv.del args m = Some o -> logs_itself args m o.
Proof.
  intros He. destruct args as [|n [|k keys]]; [record_cases He..|].
  pose proof (remove_keys_none (k :: keys) m) as [_ Hm]. unfold Kv.del in He.
  destruct (remove_keys (k :: keys) m) as [c m']. cbn [fst snd] in Hm.
  destruct (Z.eqb_spec c 0) as [->|]; [|record_cases He]. rewrite Hm in He by done. record_cases He.
Qed.

Lemma mset_record lim args m o :
  pairs_fit lim (tl args) = true -> mset lim args m = Some o -> logs_itself args m o.
Proof.
  intros Hf He. apply (store_pairs_fit lim _ m) in Hf. unfold mset in He.
  destruct (_ || _); [record_cases He|].
  destruct (store_pairs lim (tl args) m) as [[c|] m']; [done|]. record_cases He.
Qed.

Lemma set_records lim args m o : Kv.set lim args m = Some o -> replays_as lim m o.
Proof.
  intros He. destruct args as [|n [|k [|v opts]]]; [spec_cases He; by left..|].
  destruct (too_large lim k v) as [c|] eqn:Ht; unfold Kv.set in He; rewrite Ht in He; spec_cases He;
    try by left. right. eexists _, _. split; [done|]. split; [|by apply set_record]. done.
Qed.

Lemma flushdb_records lim args m o : Kv.flushdb args m = Some o -> replays_as lim m o.
Proof.
  intros He. spec_cases He; [by left| |by left]. right. eexists _, _. split; [done|]. split; [|done]. done.
Qed.

Lemma exec_record lim args m o :
  exec lim args m = Some o -> mset_whole lim args = true -> replays_as lim m o.
Proof.
  intros He Hw. assert (He' := He). unfold exec in He.
  destruct args as [|name rest]; [injection He as <-; by left|]. cbn [mset_whole] in Hw.
  destruct (assoc (to_upper_ascii name) (table lim)) as [f|] eqn:Hf; [|injection He as <-; by left].
  apply assoc_elem in Hf as (n & Hin & Hn). rewrite Hn in Hw.
  assert (Hself : logs_itself (name :: rest) m o -> replays_as lim m o).
  { intros [Hl|(Hl & r & Hr & Herr)]; [by left|]. right. exists (name :: rest), r. split; [done|].
    split; [done|]. rewrite He'. destruct o. cbn in *. by subst. }
  clear He'. unfold table in Hin.
  repeat (apply elem_of_cons in Hin as [Hin|Hin]; [injection Hin as -> ->|]); [..|by apply elem_of_nil in Hin].
  20: by eapply (flushdb_records lim).
  4: by eapply set_records.
  all: apply Hself.
  4: by apply del_record.
  6: by apply (mset_record lim).
  all: record_cases He.
Qed.

(** * Storage operations on a database without deadlines *)

Section Handlers.
Context `{Platform}.
Variables (clock : nat -> Z) (steady : nat -> Z) (pid : Z) (lim : ProtocolConfig).
Hypothesis clock_mono : forall i, clock i <= clock (S i).

Definition plain (m : kv) : db := (fun v => (v, None)) <$> m.

(** When clock reading [i] comes next, the engine holds exactly [m], for ever,
    and cannot run out of memory. *)
Definition holds_at (i : nat) (e : StorageEngine) (m : kv) : Prop :=
  unlimited e /\ exists t, t <= clock i /\ simulates lim t e (plain m).

Definition holds (w : World) (m : kv) : Prop := holds_at (ticks w) (w_storage w) m.

Lemma plain_lookup m k : plain m !! k = (fun v => (v, None)) <$> m !! k.
Proof. apply lookup_fmap. Qed.

Lemma plain_insert m k v : <[k := (v, None)]> (plain m) = plain (<[k := v]> m).
Proof. unfold plain. by rewrite fmap_insert. Qed.

Lemma plain_delete m k : delete k (plain m) = plain (delete k m).
Proof. unfold plain. by rewrite fmap_delete. Qed.

Lemma plain_view t m : Map.view t (plain m) = plain m.
Proof.
  apply map_eq. intros k. rewrite Map.lookup_view, plain_lookup. by destruct (m !! k).
Qed.

Lemma plain_present m k : Spec.present k (plain m) = has m k.
Proof. unfold Spec.present, has. rewrite plain_lookup. by destruct (m !! k). Qed.

(** An operation that the plain map answers with [a] and [m'], whenever it is
    run, does the same on the engine. *)
Lemma timed_holds {A} (wrap : A -> Reply) `{!Inj eq eq wrap} (op : Z -> StorageEngine -> A * StorageEngine)
    o a m m' i e :
  (forall now e, engine_step now o e = let '(a, e') := op now e in (wrap a, e')) -> op_ok o ->
  holds_at i e m -> (forall now, Map.step lim false now o (plain m) = (wrap a, plain m')) ->
  exists e', timed clock op (e, i) = (a, (e', S i)) /\ holds_at (S i) e' m'.
Proof.
  intros Hop Hok (Hun & t & Ht & Hsim) Hstep. unfold timed.
  pose proof (step_agrees lim t (clock i) e (plain m) Hsim Ht o Hok) as Ha. unfold agrees in Ha.
  rewrite Hop in Ha. destruct (op (clock i) e) as [a1 e1]. destruct Ha as (Hc & oom & Ha).
  assert (oom = false) as ->.
  { destruct (Map.step lim oom (clock i) o (plain m)). by apply Ha. }
  rewrite Hstep in Ha. destruct Ha as (Ha & Hsim' & _). apply (inj wrap) in Ha. subst a1.
  exists e1. split; [done|]. split; [unfold unlimited in *; by rewrite Hc|]. exists (clock i). by split.
Qed.

(** What a command does not touch: files, the log object and the
    configuration. *)
Definition same_files (w w' : World) : Prop :=
  s_fs (w_sys w') = s_fs (w_sys w) /\ s_io (w_sys w') = s_io (w_sys w) /\
  w_aof w' = w_aof w /\ w_config w' = w_config w.

Lemma same_files_trans w1 w2 w3 : same_files w1 w2 -> same_files w2 w3 -> same_files w1 w3.
Proof. unfold same_files. intuition congruence. Qed.

Lemma storage_op_holds {A} (wrap : A -> Reply) `{!Inj eq eq wrap} (op : Z -> StorageEngine -> A * StorageEngine)
    o a m m' w :
  (forall now e, engine_step now o e = let '(a, e') := op now e in (wrap a, e')) -> op_ok o ->
  holds w m -> (forall now, Map.step lim false now o (plain m) = (wrap a, plain m')) ->
  exists w', storage_op clock op w = (a, w') /\ holds w' m' /\ same_files w w'.
Proof.
  intros Hop Hok Hw Hstep.
  destruct (timed_holds wrap op o a m m' _ _ Hop Hok Hw Hstep) as (e' & He & Hh).
  rewrite storage_op_eq. unfold timed in He. destruct (op _ _) as [a1 e1]. simplify_eq.
  by exists (step_world e' w).
Qed.

Lemma storage_ops_holds {A} (mm : St (StorageEngine * nat) A) a m' w e j :
  mm (w_storage w, ticks w) = (a, (e, j)) -> holds_at j e m' ->
  exists w', storage_ops mm w = (a, w') /\ holds w' m' /\ same_files w w'.
Proof.
  intros Hm Hh. unfold storage_ops. unfold ticks in Hm. rewrite Hm. by eexists.
Qed.

(** The plain map's answers. *)
Lemma get_plain now k m : Map.step lim false now (OGet k) (plain m) = (RValue (m !! k), plain m).
Proof.
  cbn [Map.step]. rewrite plain_view. do 2 f_equal. unfold Spec.value_of. rewrite plain_lookup.
  by destruct (m !! k).
Qed.

Lemma del_plain now k m :
  Map.step lim false now (ODel k) (plain m) = (RInt (if has m k then 1 else 0), plain (delete k m)).
Proof. cbn [Map.step]. by rewrite plain_view, plain_present, plain_delete. Qed.

Lemma strlen_plain now k m :
  Map.step lim false now (OStrlen k) (plain m) = (RInt (bsize (default [] (m !! k))), plain m).
Proof.
  cbn [Map.step]. rewrite plain_view. unfold Spec.string_of. rewrite plain_lookup. by destruct (m !! k).
Qed.

Lemma ttl_plain now k m :
  Map.step lim false now (OTtl k) (plain m)
  = (RTtl (MkTtl (if has m k then NoExpiry else Missing) 0), plain m).
Proof.
  cbn [Map.step]. rewrite plain_view. unfold Spec.ttl_of, has. rewrite plain_lookup. by destruct (m !! k).
Qed.

Lemma persist_plain now k m : Map.step lim false now (OPersist k) (plain m) = (RBool false, plain m).
Proof. cbn [Map.step]. rewrite plain_view, plain_lookup. by destruct (m !! k). Qed.

Lemma dbsize_plain now m : Map.step lim false now ODbsize (plain m) = (RInt (Z.of_nat (size m)), plain m).
Proof. cbn [Map.step]. rewrite plain_view. unfold plain. by rewrite map_size_fmap. Qed.

Lemma expires_plain now m : Map.step lim false now OExpiresCount (plain m) = (RInt 0, plain m).
Proof.
  cbn [Map.step]. rewrite plain_view. do 2 f_equal.
  assert (Hnone : filter (fun kx : bytes * (bytes * option Z) => is_Some kx.2.2) (plain m) = ∅); [|by rewrite Hnone].
  apply map_eq. intros k. rewrite lookup_empty. apply eq_None_not_Some. intros [[v x] Hk].
  apply map_lookup_filter_Some in Hk as [Hk [y Hy]]. rewrite plain_lookup in Hk.
  destruct (m !! k); simplify_eq/=.
Qed.

(** A write: refused for its sizes, or stored. *)
Definition write_answer (k v : bytes) (n : Z) (m : kv) : WriteResult * kv :=
  match too_large lim k v with
  | Some c => (MkWrite c 0, m)
  | None => (MkWrite WOk n, <[k := v]> m)
  end.

Definition set_answer (k v : bytes) (c : SetCondition) (m : kv) : WriteResult * kv :=
  match too_large lim k v with
  | Some code => (MkWrite code 0, m)
  | None => if Spec.condition_holds c (has m k) then (MkWrite WOk 0, <[k := v]> m)
            else (MkWrite NotSet 0, m)
  end.

Lemma set_plain now k v c m :
  Map.step lim false now (OSet k v None c) (plain m)
  = (RWrite (set_answer k v c m).1, plain (set_answer k v c m).2).
Proof.
  cbn [Map.step]. rewrite plain_view, plain_present. unfold set_answer, too_large, Map.refuse.
  destruct (negb _); [done|]. destruct (negb _); [done|].
  destruct (Spec.condition_holds c (has m k)); [|done]. cbn [negb Map.write fmap option_fmap option_map].
  by rewrite plain_insert.
Qed.

Definition incr_answer (k : bytes) (delta : Z) (m : kv) : WriteResult * kv :=
  if negb (bsize k <=? max_key_size lim) then (MkWrite KeyTooLarge 0, m)
  else
    match counter m k with
    | None => (MkWrite InvalidInteger 0, m)
    | Some n =>
        if bool_decide (is_i64 (n + delta)) then write_answer k (to_string (n + delta)) (n + delta) m
        else (MkWrite Overflow 0, m)
    end.

Lemma incr_plain now k delta m :
  Map.step lim false now (OIncrBy k delta) (plain m)
  = (RWrite (incr_answer k delta m).1, plain (incr_answer k delta m).2).
Proof.
  cbn [Map.step]. rewrite plain_view. unfold Spec.counter, incr_answer, counter, write_answer, too_large, Map.refuse.
  rewrite plain_lookup. destruct (negb (bsize k <=? _)); [done|].
  destruct (m !! k) as [v|]; cbn [fmap option_fmap option_map];
    [destruct (parse_integer_value v); [|done]|];
    (case_bool_decide; [|done]); (destruct (negb _); [done|]); cbn [Map.write]; by rewrite plain_insert.
Qed.

Definition append_answer (k suffix : bytes) (m : kv) : WriteResult * kv :=
  let v := default [] (m !! k) ++ suffix in write_answer k v (i64 (bsize v)) m.

Lemma append_plain now k suffix m :
  Map.step lim false now (OAppend k suffix) (plain m)
  = (RWrite (append_answer k suffix m).1, plain (append_answer k suffix m).2).
Proof.
  cbn [Map.step]. rewrite plain_view. unfold Spec.string_of, append_answer, write_answer, too_large, Map.refuse.
  rewrite plain_lookup. destruct (m !! k) as [v|]; cbn [fmap option_fmap option_map default from_option];
    (destruct (negb _); [done|]); (destruct (negb _); [done|]); cbn [Map.write]; by rewrite plain_insert.
Qed.
End Handlers.
