(* ===== verification/KvRefine.v ===== *)
(** Every command handler implements its entry of the specification table of
    [KvSpec], over any journal; so does the dispatch. *)
From S2P Require Import Prelude Util Config Resp Storage StorageFacts StorageSpec StorageSweep.
From S2P Require Import StorageRefine Fs Aof Snapshot Metrics Commands Recovery CommandFacts.
From S2P Require Import KvSpec KvFacts.

Import Kv.

(** What a command may rely on when it persists its record: [J l w] says that
    in [w] the journal holds the records [l]. *)
Class Journal (ctx : CommandContext) (J : list (list bytes) -> World -> Prop) : Prop := {
  journal_io l w : J l w -> s_io (w_sys w) = [];
  journal_frame l w w' : J l w -> same_files w w' -> J l w';
  journal_persist l c w : J l w ->
    exists w', Commands.persist ctx c w = (status_ok, w') /\ J (l ++ [c]) w' /\
      w_storage w' = w_storage w /\ ticks w' = ticks w
}.

#[export] Instance RWrite_inj : Inj eq eq RWrite.
Proof. by intros ?? [= ->]. Qed.
#[export] Instance RValue_inj : Inj eq eq RValue.
Proof. by intros ?? [= ->]. Qed.
#[export] Instance RInt_inj : Inj eq eq RInt.
Proof. by intros ?? [= ->]. Qed.
#[export] Instance RBool_inj : Inj eq eq RBool.
Proof. by intros ?? [= ->]. Qed.
#[export] Instance RTtl_inj : Inj eq eq RTtl.
Proof. by intros ?? [= ->]. Qed.

Section Refine.
Context `{Platform}.
Variables (clock : nat -> Z) (steady : nat -> Z) (pid : Z) (lim : ProtocolConfig).
Hypothesis clock_mono : forall i, clock i <= clock (S i).

Abbreviation holds := (holds clock lim).
Abbreviation holds_at := (holds_at clock lim).

(** * Operations on several keys *)

Lemma del_holds keys m i e :
  holds_at i e m ->
  exists e' j, Storage.del clock keys (e, i) = ((remove_keys keys m).1, (e', j)) /\
    holds_at j e' (remove_keys keys m).2.
Proof.
  revert m i e. induction keys as [|k keys IH]; intros m i e Hh; [by exists e, i|]. cbn [Storage.del remove_keys].
  destruct (timed_holds clock lim clock_mono RInt (fun now => del_one now k) (ODel k) _ m (delete k m) i e
    (fun _ _ => eq_refl) I Hh (fun now => del_plain lim now k m)) as (e1 & He1 & Hh1).
  destruct (IH _ _ _ Hh1) as (e2 & j & He2 & Hh2). rewrite st_bind_eq, He1. cbn [fst snd].
  rewrite st_bind_eq, He2. destruct (remove_keys keys (delete k m)). by exists e2, j.
Qed.

Lemma exists_holds keys m i e :
  holds_at i e m ->
  exists e' j, Storage.exists_ clock keys (e, i) = (count_keys keys m, (e', j)) /\ holds_at j e' m.
Proof.
  revert i e. induction keys as [|k keys IH]; intros i e Hh; [by exists e, i|]. cbn [Storage.exists_].
  destruct (timed_holds clock lim clock_mono RValue (fun now => Storage.get now k) (OGet k) _ m m i e
    (fun _ _ => eq_refl) I Hh (fun now => get_plain lim now k m)) as (e1 & He1 & Hh1).
  destruct (IH _ _ Hh1) as (e2 & j & He2 & Hh2). rewrite st_bind_eq, He1. cbn [fst snd].
  rewrite st_bind_eq, He2. by exists e2, j.
Qed.

Lemma mget_holds keys m i e :
  holds_at i e m ->
  exists e' j, Storage.mget clock keys (e, i) = ((fun k => m !! k) <$> keys, (e', j)) /\ holds_at j e' m.
Proof.
  revert i e. induction keys as [|k keys IH]; intros i e Hh; [by exists e, i|]. cbn [Storage.mget].
  destruct (timed_holds clock lim clock_mono RValue (fun now => Storage.get now k) (OGet k) _ m m i e
    (fun _ _ => eq_refl) I Hh (fun now => get_plain lim now k m)) as (e1 & He1 & Hh1).
  destruct (IH _ _ Hh1) as (e2 & j & He2 & Hh2). rewrite st_bind_eq, He1. cbn [fst snd].
  rewrite st_bind_eq, He2. by exists e2, j.
Qed.

Lemma set_holds k v c m w :
  holds w m ->
  exists w', storage_op clock (fun now => Storage.set now k v None c) w = ((set_answer lim k v c m).1, w') /\
    holds w' (set_answer lim k v c m).2 /\ same_files w w'.
Proof.
  intros Hh. by apply (storage_op_holds clock lim clock_mono RWrite (fun now => Storage.set now k v None c) (OSet k v None c) _ m _ w (fun _ _ => eq_refl)
    I Hh (fun now => set_plain lim now k v c m)).
Qed.

Lemma mset_loop_holds pairs m w :
  holds w m ->
  exists w', mset_loop clock pairs w = ((store_pairs lim pairs m).1, w') /\
    holds w' (store_pairs lim pairs m).2 /\ same_files w w'.
Proof.
  revert m w. induction pairs as [| |k v rest IH] using list_pair_ind; intros m w Hh; [by exists w..|].
  cbn [mset_loop store_pairs]. pose proof (set_holds k v Always m w Hh) as Hs.
  unfold set_answer in Hs. destruct (too_large lim k v) as [code|] eqn:Ht.
  - destruct Hs as (w1 & Hw1 & Hh1 & Hf1). rewrite st_bind_eq, Hw1. exists w1. cbn [fst snd w_code].
    by destruct (too_large_code _ _ _ _ Ht) as [-> | ->].
  - cbn [Spec.condition_holds] in Hs. destruct Hs as (w1 & Hw1 & Hh1 & Hf1).
    rewrite st_bind_eq, Hw1. cbn [fst snd w_code]. rewrite bool_decide_eq_true_2 by done.
    destruct (IH _ _ Hh1) as (w2 & Hw2 & Hh2 & Hf2). exists w2. split; [done|]. split; [done|].
    by eapply same_files_trans.
Qed.

(** * Handlers *)

Context (ctx : CommandContext) (J : list (list bytes) -> World -> Prop) `{!Journal ctx J}.

(** A finished command gave the reply, the map and the record of [o]. *)
Definition answered (p : CommandResult * World) (l : list (list bytes)) (o : Outcome) : Prop :=
  (forall b, reply o = Some b -> p.1 = done_ b) /\ holds p.2 (result o) /\ J (l ++ logged o) p.2.

Definition implements (h : Handler) (f : list bytes -> kv -> option Outcome) : Prop :=
  forall names args m l w o, f args m = Some o -> holds w m -> J l w ->
    answered (h names ctx args w) l o.

Lemma answered_says r w w' m l :
  J l w -> same_files w w' -> holds w' m -> close_after_write r = false ->
  answered (r, w') l (MkOutcome (Some (response r)) m []).
Proof.
  intros HJ Hf Hh Hc. split; [|split; [done|]].
  - intros b [= <-]. destruct r. cbn in *. by subst.
  - cbn [logged snd]. rewrite app_nil_r. by eapply journal_frame.
Qed.

Lemma answered_server r w w' m l :
  J l w -> same_files w w' -> holds w' m -> answered (r, w') l (MkOutcome None m []).
Proof.
  intros HJ Hf Hh. split; [done|]. split; [done|]. cbn [logged snd]. rewrite app_nil_r. by eapply journal_frame.
Qed.

Lemma journal_step l c w w' m :
  J l w -> same_files w w' -> holds w' m ->
  exists w2, Commands.persist ctx c w' = (status_ok, w2) /\ J (l ++ [c]) w2 /\ holds w2 m.
Proof.
  intros HJ Hf Hh. apply (journal_frame _ _ w') in HJ; [|done].
  destruct (journal_persist l c w' HJ) as (w2 & Hp & HJ2 & Hs & Ht). exists w2. split; [done|]. split; [done|].
  unfold KvFacts.holds in *. by rewrite Hs, Ht.
Qed.

Lemma answered_or_ok c r w w' m l :
  J l w -> same_files w w' -> holds w' m -> close_after_write r = false ->
  answered (persist_or_ok ctx c r w') l (MkOutcome (Some (response r)) m [c]).
Proof.
  intros HJ Hf Hh Hc. destruct (journal_step l c w w' m HJ Hf Hh) as (w2 & Hp & HJ2 & Hh2).
  unfold persist_or_ok. rewrite st_bind_eq, Hp. cbn. split; [|split; [done|]].
  - intros b [= <-]. destruct r. cbn in *. by subst.
  - by eapply journal_frame.
Qed.

Lemma answered_if c r w w' m l :
  J l w -> same_files w w' -> holds w' m -> close_after_write r = false ->
  answered (persist_if ctx true c r w') l (MkOutcome (Some (response r)) m [c]).
Proof.
  intros HJ Hf Hh Hc. destruct (journal_step l c w w' m HJ Hf Hh) as (w2 & Hp & HJ2 & Hh2).
  unfold persist_if. cbn [negb]. rewrite st_bind_eq, Hp. cbn. split; [|split; [done|done]].
  intros b [= <-]. destruct r. cbn in *. by subst.
Qed.

(** A handler that answers at once. *)
Ltac at_once := by eapply answered_says.

Lemma ping_implements : implements (cmd Commands.ping) Kv.ping.
Proof.
  intros names args m l w o He Hh HJ. unfold cmd.
  destruct args as [|n [|a [|b args]]]; injection He as <-; at_once.
Qed.

Lemma echo_implements : implements (cmd Commands.echo) Kv.echo.
Proof.
  intros names args m l w o He Hh HJ. unfold cmd.
  destruct args as [|n [|a [|b args]]]; injection He as <-; at_once.
Qed.

Lemma get_implements : implements (cmd (get_cmd clock)) Kv.get.
Proof.
  intros names args m l w o He Hh HJ. unfold cmd.
  destruct args as [|n [|k [|b args]]]; injection He as <-; [at_once|at_once| |at_once].
  destruct (storage_op_holds clock lim clock_mono RValue (fun now => Storage.get now k) (OGet k) _ m m w (fun _ _ => eq_refl) I Hh
    (fun now => get_plain lim now k m)) as (w' & Hw & Hh' & Hf).
  unfold get_cmd. rewrite st_bind_eq, Hw. at_once.
Qed.

Lemma set_implements : implements (cmd (set_cmd clock)) (Kv.set lim).
Proof.
  intros names args m l w o He Hh HJ. unfold cmd.
  destruct args as [|n [|k [|v opts]]]; [injection He as <-; at_once..|].
  unfold set_cmd. unfold Kv.set in He.
  destruct (set_options opts Always None None) as [msg|[[c [ttl|]] [pxat|]]]; [injection He as <-; at_once|done..|].
  unfold set_run. rewrite st_ret_bind. destruct (set_holds k v c m w Hh) as (w' & Hw & Hh' & Hf).
  rewrite st_bind_eq, Hw. cbn [fst snd]. unfold set_answer in *.
  destruct (too_large lim k v) as [code|] eqn:Ht; cbn [fst snd w_code] in *.
  - injection He as <-. destruct (too_large_code _ _ _ _ Ht) as [-> | ->]; at_once.
  - destruct (Spec.condition_holds c (has m k)); injection He as <-; [|at_once].
    cbn [fst snd w_code] in *. rewrite st_ret_bind. by eapply answered_or_ok.
Qed.

Lemma del_implements : implements (cmd (del_cmd clock)) Kv.del.
Proof.
  intros names args m l w o He Hh HJ. unfold cmd.
  destruct args as [|n [|k keys]]; [injection He as <-; at_once..|].
  destruct (del_holds (k :: keys) m _ _ Hh) as (e & j & Hd & Hj).
  destruct (storage_ops_holds clock lim (Storage.del clock (k :: keys)) _ _ w e j Hd Hj) as (w' & Hw & Hh' & Hf).
  unfold del_cmd. unfold Kv.del in He. rewrite st_bind_eq, Hw. cbn [fst snd].
  destruct (remove_keys (k :: keys) m) as [c m']. cbn [fst snd] in *.
  destruct (c =? 0); injection He as <-; [at_once|]. by eapply answered_if.
Qed.

Lemma exists_implements : implements (cmd (exists_cmd clock)) Kv.exists_.
Proof.
  intros names args m l w o He Hh HJ. unfold cmd.
  destruct args as [|n [|k keys]]; injection He as <-; [at_once..|].
  destruct (exists_holds (k :: keys) m _ _ Hh) as (e & j & Hd & Hj).
  destruct (storage_ops_holds clock lim (Storage.exists_ clock (k :: keys)) _ _ w e j Hd Hj)
    as (w' & Hw & Hh' & Hf).
  unfold exists_cmd. rewrite st_bind_eq, Hw. at_once.
Qed.

Lemma mget_implements : implements (cmd (mget_cmd clock)) Kv.mget.
Proof.
  intros names args m l w o He Hh HJ. unfold cmd.
  destruct args as [|n [|k keys]]; injection He as <-; [at_once..|].
  destruct (mget_holds (k :: keys) m _ _ Hh) as (e & j & Hd & Hj).
  destruct (storage_ops_holds clock lim (Storage.mget clock (k :: keys)) _ _ w e j Hd Hj)
    as (w' & Hw & Hh' & Hf).
  unfold mget_cmd. rewrite st_bind_eq, Hw. at_once.
Qed.

Lemma mset_implements : implements (cmd (mset_cmd clock)) (Kv.mset lim).
Proof.
  intros names args m l w o He Hh HJ. unfold cmd, mset_cmd. unfold Kv.mset in He.
  destruct (_ || _); [injection He as <-; at_once|].
  destruct (mset_loop_holds (tl args) m w Hh) as (w' & Hw & Hh' & Hf).
  rewrite st_bind_eq, Hw. cbn [fst snd].
  destruct (store_pairs lim (tl args) m) as [[c|] m']; injection He as <-; [at_once|]. by eapply answered_or_ok.
Qed.

(** The reply to a counter or string write. *)
Lemma write_reply_answered args r w w' m l :
  J l w -> same_files w w' -> holds w' m ->
  answered (write_reply ctx args r w') l
    (if bool_decide (w_code r = WOk) then MkOutcome (Some (integer (w_integer r))) m [args]
     else MkOutcome (Some (response (err (storage_write_error (w_code r))))) m []).
Proof.
  intros HJ Hf Hh. unfold write_reply.
  case_bool_decide; [by eapply answered_or_ok|by eapply answered_says].
Qed.

Lemma incr_implements delta : is_i64 delta -> implements (cmd (incr_decr clock delta)) (Kv.incr lim delta).
Proof.
  intros Hd names args m l w o He Hh HJ. unfold cmd.
  destruct args as [|n [|k [|b args]]]; [injection He as <-; at_once..| |injection He as <-; at_once].
  destruct (storage_op_holds clock lim clock_mono RWrite (fun now => Storage.incr_by now k delta) (OIncrBy k delta) _ m _ w (fun _ _ => eq_refl) Hd Hh
    (fun now => incr_plain lim now k delta m)) as (w' & Hw & Hh' & Hf).
  unfold incr_decr. rewrite st_bind_eq, Hw. cbn [fst snd].
  pose proof (write_reply_answered [n; k] (incr_answer lim k delta m).1 w w' _ l HJ Hf Hh') as Ha. revert Ha.
  unfold Kv.incr in He. unfold incr_answer, write_answer in *.
  spec_cases He; try done. by destruct (too_large_code _ _ _ _ ltac:(eassumption)) as [-> | ->].
Qed.

Lemma append_implements : implements (cmd (append_cmd clock)) (Kv.append lim).
Proof.
  intros names args m l w o He Hh HJ. unfold cmd.
  destruct args as [|n [|k [|s [|b args]]]]; [injection He as <-; at_once..| |injection He as <-; at_once].
  destruct (storage_op_holds clock lim clock_mono RWrite (fun now => Storage.append now k s) (OAppend k s) _ m _ w (fun _ _ => eq_refl) I Hh
    (fun now => append_plain lim now k s m)) as (w' & Hw & Hh' & Hf).
  unfold append_cmd. rewrite st_bind_eq, Hw. cbn [fst snd].
  pose proof (write_reply_answered [n; k; s] (append_answer lim k s m).1 w w' _ l HJ Hf Hh') as Ha. revert Ha.
  unfold Kv.append in He. unfold append_answer, write_answer in *.
  spec_cases He; try done. by destruct (too_large_code _ _ _ _ ltac:(eassumption)) as [-> | ->].
Qed.

Lemma strlen_implements : implements (cmd (strlen_cmd clock)) Kv.strlen.
Proof.
  intros names args m l w o He Hh HJ. unfold cmd.
  destruct args as [|n [|k [|b args]]]; injection He as <-; [at_once|at_once| |at_once].
  destruct (storage_op_holds clock lim clock_mono RInt (fun now => Storage.strlen now k) (OStrlen k) _ m m w (fun _ _ => eq_refl) I Hh
    (fun now => strlen_plain lim now k m)) as (w' & Hw & Hh' & Hf).
  unfold strlen_cmd. rewrite st_bind_eq, Hw. at_once.
Qed.

Lemma ttl_implements millis : implements (cmd (ttl_impl clock millis)) Kv.ttl.
Proof.
  intros names args m l w o He Hh HJ. unfold cmd.
  destruct args as [|n [|k [|b args]]]; injection He as <-; [at_once|at_once| |at_once].
  destruct (storage_op_holds clock lim clock_mono RTtl (fun now => Storage.ttl now k) (OTtl k) _ m m w (fun _ _ => eq_refl) I Hh
    (fun now => ttl_plain lim now k m)) as (w' & Hw & Hh' & Hf).
  unfold ttl_impl. rewrite st_bind_eq, Hw. cbn [fst snd].
  destruct (has m k); at_once.
Qed.

Lemma persist_implements : implements (cmd (persist_cmd clock)) Kv.persist.
Proof.
  intros names args m l w o He Hh HJ. unfold cmd.
  destruct args as [|n [|k [|b args]]]; injection He as <-; [at_once|at_once| |at_once].
  destruct (storage_op_holds clock lim clock_mono RBool (fun now => Storage.persist now k) (OPersist k) _ m m w (fun _ _ => eq_refl) I Hh
    (fun now => persist_plain lim now k m)) as (w' & Hw & Hh' & Hf).
  unfold persist_cmd. rewrite st_bind_eq, Hw. at_once.
Qed.

Lemma dbsize_holds m w :
  holds w m -> exists w', storage_op clock Storage.dbsize w = (Z.of_nat (size m), w') /\ holds w' m /\ same_files w w'.
Proof.
  intros Hh. by apply (storage_op_holds clock lim clock_mono RInt Storage.dbsize ODbsize _ m m w (fun _ _ => eq_refl) I Hh
    (fun now => dbsize_plain lim now m)).
Qed.

Lemma dbsize_implements : implements (cmd (dbsize_cmd clock)) Kv.dbsize.
Proof.
  intros names args m l w o He Hh HJ. unfold cmd.
  destruct args as [|n [|k args]]; injection He as <-; [at_once| |at_once].
  destruct (dbsize_holds m w Hh) as (w' & Hw & Hh' & Hf).
  unfold dbsize_cmd. rewrite st_bind_eq, Hw. at_once.
Qed.

Lemma flushdb_implements : implements (cmd flushdb_cmd) Kv.flushdb.
Proof.
  intros names args m l w o He Hh HJ. unfold cmd.
  destruct args as [|n [|k args]]; injection He as <-; [at_once| |at_once].
  unfold flushdb_cmd. rewrite st_bind_eq. cbn [fst snd st_modify]. eapply answered_or_ok; [done|done| |done].
  destruct Hh as (Hun & t & Ht & Hs).
  destruct (flushdb_agrees lim t t (w_storage w) (plain m) Hs) as (Hc & oom & _ & Hs' & _).
  split; [unfold unlimited in *; cbn; cbn in Hc; by rewrite Hc|]. exists t. split; [done|].
  unfold plain. by rewrite fmap_empty.
Qed.

(** * Server commands *)

Lemma info_implements : implements (cmd (info_cmd clock steady)) Kv.server.
Proof.
  intros names args m l w o [= <-] Hh HJ. unfold cmd.
  assert (Hgo : forall r, answered ((keys ← storage_op clock Storage.dbsize;
    expires ← storage_op clock Storage.expires_count; mret (r keys expires)) w) l (MkOutcome None m [])).
  { intros r. destruct (dbsize_holds m w Hh) as (w1 & Hw1 & Hh1 & Hf1). rewrite st_bind_eq, Hw1. cbn [fst snd].
    destruct (storage_op_holds clock lim clock_mono RInt Storage.expires_count OExpiresCount _ m m w1
      (fun _ _ => eq_refl) I Hh1 (fun now => expires_plain lim now m)) as (w2 & Hw2 & Hh2 & Hf2).
    rewrite st_bind_eq, Hw2. eapply answered_server; [done| |done]. by eapply same_files_trans. }
  destruct args as [|n [|k [|b args]]]; try by eapply answered_server.
  all: unfold info_cmd; rewrite st_bind_eq; cbn [fst snd st_get]; apply Hgo.
Qed.

Lemma config_implements : implements (cmd config_cmd) Kv.server.
Proof.
  intros names args m l w o [= <-] Hh HJ. unfold cmd.
  destruct args as [|n [|sub rest]]; [by eapply answered_server..|]. unfold config_cmd, config_set.
  repeat (case_match; try by eapply answered_server).
Qed.

Lemma bgsave_implements : implements (cmd bgsave) Kv.server.
Proof.
  intros names args m l w o [= <-] Hh HJ. unfold cmd.
  destruct args as [|n [|k args]]; by eapply answered_server.
Qed.

Lemma sync_quiet a s : s_io s = [] -> (Aof.sync a s).2 = s.
Proof.
  intros Hs. unfold Aof.sync. destruct (fd_ a); [|done].
  unfold sync_fd, syscall, next_io, mbind, St_bind, mret, St_ret. by rewrite Hs.
Qed.

Lemma shutdown_implements : implements (cmd shutdown_cmd) Kv.server.
Proof.
  intros names args m l w o [= <-] Hh HJ. unfold cmd.
  assert (Hgo : answered ((c ← asks w_config;
      if negb (admin_shutdown_enabled c) then mret (err (lit "SHUTDOWN is disabled by configuration"))
      else
        aof ← asks w_aof;
        _ ← (match aof with Some a => lift_sys (Aof.sync a) | None => mret status_ok end);
        _ ← (if ctx_request_shutdown ctx then st_modify request_stop else mret tt);
        mret (MkResult (simple (lit "OK")) true)) w) l (MkOutcome None m [])).
  { rewrite st_bind_eq. cbn [fst snd asks]. destruct (negb _); [by eapply answered_server|].
    rewrite st_bind_eq. cbn [fst snd asks]. rewrite st_bind_eq.
    assert (Hs : (match w_aof w with Some a => lift_sys (Aof.sync a) | None => mret status_ok end w).2 = w).
    { destruct (w_aof w) as [a|]; [|done]. unfold lift_sys.
      pose proof (sync_quiet a (w_sys w) (journal_io l w HJ)) as Hs.
      destruct (Aof.sync a (w_sys w)) as [st s']. cbn in *. subst s'. by destruct w. }
    rewrite Hs. destruct (ctx_request_shutdown ctx); by eapply answered_server. }
  destruct args as [|n [|k [|b args]]]; [by eapply answered_server|exact Hgo|exact Hgo|by eapply answered_server].
Qed.

Lemma command_implements : implements (fun names _ args => command_cmd names args) Kv.server.
Proof.
  intros names args m l w o [= <-] Hh HJ. destruct args as [|n [|k args]]; by eapply answered_server.
Qed.

Lemma uncovered_implements h : implements h Kv.uncovered.
Proof. done. Qed.

(** * Dispatch *)

#[local] Hint Resolve ping_implements echo_implements get_implements set_implements del_implements
  exists_implements mget_implements mset_implements append_implements strlen_implements ttl_implements
  persist_implements dbsize_implements flushdb_implements info_implements config_implements
  bgsave_implements shutdown_implements command_implements uncovered_implements : velox.

Lemma table_implements :
  Forall2 (fun nh nf => nh.1 = nf.1 /\ implements nh.2 nf.2) (default_commands clock steady pid) (table lim).
Proof.
  pose proof (incr_implements 1 ltac:(done)). pose proof (incr_implements (-1) ltac:(done)).
  unfold default_commands, table.
  repeat (apply List.Forall2_cons; [split; [reflexivity|cbn [snd]; auto with velox]|]). apply List.Forall2_nil.
Qed.

Lemma execute_implements args m l w o :
  exec lim args m = Some o -> holds w m -> J l w ->
  answered (execute (default_registry clock steady pid) ctx args w) l o.
Proof.
  intros He Hh HJ. destruct args as [|name rest]; [injection He as <-; at_once|].
  unfold exec in He. pose proof (assoc_related implements _ _ (to_upper_ascii name) table_implements) as Hr.
  unfold execute. cbv beta iota. rewrite registry_assoc.
  destruct (assoc _ (default_commands clock steady pid)) as [h|], (assoc _ (table lim)) as [f|]; try done.
  - by eapply Hr.
  - injection He as <-. at_once.
Qed.
End Refine.
