(* ===== verification/Durability.v ===== *)
(** Durability: the commands a server acknowledges survive any number of
    restarts.

    The server's log and a replay are two journals (see [KvRefine]); with the
    first, commands extend the log by their records, and with the second,
    recovery runs the records again.  Both are tied to the specification of
    [KvSpec]. *)
From S2P Require Import Prelude Util Config Resp RespFacts Storage StorageFacts StorageSpec.
From S2P Require Import StorageSweep StorageRefine Fs FsFacts Aof Snapshot Metrics Commands Recovery.
From S2P Require Import PersistFacts WriterFacts CommandFacts RecoveryFacts RecoveryProps KvSpec KvFacts KvRefine.

Import Kv.

(** * Records *)

(** Running the records of a log, none of which may fail. *)
Fixpoint replays (lim : ProtocolConfig) (l : list (list bytes)) (m : kv) : option kv :=
  match l with
  | [] => Some m
  | c :: l =>
      o ← exec lim c m;
      r ← reply o;
      if is_error_reply r then None else replays lim l (result o)
  end.

Lemma replays_app lim l1 l2 m : replays lim (l1 ++ l2) m = replays lim l1 m ≫= replays lim l2.
Proof.
  revert m. induction l1 as [|c l1 IH]; intros m; [done|]. cbn [replays app].
  destruct (exec lim c m) as [o|]; [|done]. cbn [mbind option_bind].
  destruct (reply o) as [r|]; [|done]. cbn. by destruct (is_error_reply r).
Qed.

(** The records logged by a run, replayed, give the map after the run. *)
Lemma run_replays lim cmds m m' l :
  Forall (fun c => mset_whole lim c = true) cmds -> run lim cmds m = Some (m', l) -> replays lim l m = Some m'.
Proof.
  revert m m' l. induction cmds as [|c cmds IH]; intros m m' l Hw Hr; [by injection Hr as <- <-|].
  inversion Hw as [|? ? Hw1 Hw2]; subst. cbn [run] in Hr.
  destruct (exec lim c m) as [o|] eqn:He; [|done]. cbn [mbind option_bind] in Hr.
  destruct (run lim cmds (result o)) as [[m1 l1]|] eqn:Hr1; [|done]. injection Hr as <- <-.
  rewrite replays_app. destruct (exec_record lim c m o He Hw1) as [[Hl Hm]|(c' & r & Hl & Herr & He')]; rewrite Hl.
  - cbn. rewrite <- Hm. by apply IH.
  - cbn [replays]. rewrite He'. cbn. rewrite Herr. cbn. by apply IH.
Qed.

Lemma run_app lim c1 c2 m :
  run lim (c1 ++ c2) m = '(m1, l1) ← run lim c1 m; '(m2, l2) ← run lim c2 m1; Some (m2, l1 ++ l2).
Proof.
  revert m. induction c1 as [|c c1 IH]; intros m; cbn [run app].
  { cbn. by destruct (run lim c2 m) as [[??]|]. }
  destruct (exec lim c m) as [o|]; [|done]. cbn [mbind option_bind]. rewrite IH.
  destruct (run lim c1 (result o)) as [[m1 l1]|]; [|done]. cbn.
  destruct (run lim c2 m1) as [[m2 l2]|]; [|done]. cbn. by rewrite app_assoc.
Qed.

(** A record fits the parser's limits when its command does. *)
Lemma length_upper b : length (to_upper_ascii b) = length b.
Proof. apply length_map. Qed.

Lemma bsize_flat_map_le (l1 l2 : list bytes) :
  bsize (flat_map bulk_string_fragment l1) <= bsize (flat_map bulk_string_fragment (l1 ++ l2)).
Proof. rewrite flat_map_app, bsize_app. pose proof (bsize_nonneg (flat_map bulk_string_fragment l2)). lia. Qed.

Lemma renamed_fits o n n' args :
  to_upper_ascii n = n' -> command_fits o (n :: args) -> command_fits o (n' :: args).
Proof.
  intros Hn (H1 & H2 & H3 & H4 & H5).
  assert (Hlen : bsize n' = bsize n) by (unfold bsize; by rewrite <- Hn, length_upper).
  split; [done|]. split; [done|]. split; [done|]. split.
  - inversion H4; subst. apply List.Forall_cons; [by rewrite Hlen|done].
  - etransitivity; [|exact H5]. unfold encode_command. cbn [flat_map length]. rewrite !bsize_app.
    unfold bulk_string_fragment. rewrite !bsize_app, Hlen. lia.
Qed.

Lemma prefix_fits o l1 l2 :
  bsize (to_string (Z.of_nat (length l1))) = 1 -> command_fits o (l1 ++ l2) -> command_fits o l1.
Proof.
  intros Hd (H1 & H2 & H3 & H4 & H5). rewrite length_app in *. apply Forall_app in H4 as [H4 _].
  split; [done|]. split; [lia|]. split; [lia|]. split; [done|].
  etransitivity; [|exact H5]. unfold encode_command, array_header. rewrite !bsize_app, Hd, length_app.
  pose proof (bsize_flat_map_le l1 l2).
  pose proof (to_string_nonempty (Z.of_nat (length l1 + length l2))) as Hne.
  destruct (to_string (Z.of_nat (length l1 + length l2))) as [|d ds];
    [|rewrite bsize_cons; pose proof (bsize_nonneg ds); lia].
  exfalso. apply Hne; [|done]. unfold i64_max, u64_max in *. lia.
Qed.

Lemma record_fits o lim args m out :
  exec lim args m = Some out -> command_fits o args -> Forall (command_fits o) (logged out).
Proof.
  intros He Hf. unfold exec in He. destruct args as [|name rest]; [by injection He as <-|].
  destruct (assoc (to_upper_ascii name) (table lim)) as [f|] eqn:Ha; [|by injection He as <-].
  apply assoc_elem in Ha as (n & Hin & Hn). unfold table in Hin.
  repeat (apply elem_of_cons in Hin as [Hin|Hin]; [injection Hin as -> ->|]); [..|by apply elem_of_nil in Hin].
  all: spec_cases He; cbn [logged]; repeat (apply List.Forall_cons; [|apply List.Forall_nil]); try apply List.Forall_nil; try done.
  - eapply renamed_fits; [exact Hn|]. 
    match type of Hf with command_fits _ (?a :: ?b :: ?c :: ?l) => by apply (prefix_fits _ [a; b; c] l) end.
  - by eapply renamed_fits.
Qed.

(** * The two journals *)

Section Durability.
Context `{Platform}.
Variables (clock : nat -> Z) (steady : nat -> Z) (pid : Z) (config : Config).

Abbreviation lim := (protocol config).
Abbreviation options := (parser_options_from_config (protocol config)).

(** Settings under which the theorems below hold: the log is on and its path is
    usable, memory is not limited, and allocation does not fail. *)
Definition durable_config : Prop :=
  aof_enabled (persistence config) = true /\ path_is_safe (aof_path (persistence config)) = true /\
  path_is_safe (ss_manifest_path (store_of config)) = true /\
  ss_manifest_path (store_of config) <> aof_path (persistence config) /\
  max_memory_bytes (storage config) = 0 /\ 0 <= shards (storage config) /\ limits_fit options /\
  forall e k x, emplace_throws e k x = false.

(** A running server whose log file holds the records [l]. *)
Definition log_open (l : list (list bytes)) (w : World) : Prop :=
  s_io (w_sys w) = [] /\ w_config w = config /\ fs_wf (s_fs (w_sys w)) /\
  file_at (s_fs (w_sys w)) (ss_manifest_path (store_of config)) = None /\
  exists a fd, w_aof w = Some a /\ aof_config a = persistence config /\ fd_ a = Some fd /\
    fs_dir (s_fs (w_sys w)) !! aof_path (persistence config) = Some fd /\
    content (s_fs (w_sys w)) fd = log_bytes l.

(** A replay, which logs nothing. *)
Definition replaying (fs : Fs) (l : list (list bytes)) (w : World) : Prop :=
  s_io (w_sys w) = [] /\ w_config w = config /\ s_fs (w_sys w) = fs /\ w_aof w = None.

Lemma append_quiet a args s fd :
  s_io s = [] -> aof_enabled (aof_config a) = true -> fd_ a = Some fd ->
  exists a', Aof.append a args s
      = ((status_ok, a'), MkSys (fs_append fd (encode_command args) (s_fs s)) [] (s_ticks s)) /\
    fd_ a' = Some fd /\ aof_config a' = aof_config a.
Proof.
  intros Hs Hen Hfd. unfold Aof.append, enabled. rewrite Hen, Hfd.
  change (negb (true && bool_decide (is_Some (Some fd)))) with false. cbv iota.
  pose proof (encode_command_pos args) as Hpos.
  assert (Hw : write_bytes_locked a (encode_command args) s
    = ((status_ok, set_size a (u64 (current_size_ a + bsize (encode_command args)))),
       MkSys (fs_append fd (encode_command args) (s_fs s)) [] (s_ticks s))).
  { unfold write_bytes_locked, write_all, mbind, St_bind, mret, St_ret. rewrite Hfd, Hs.
    destruct (encode_command args); [simpl in Hpos; lia|done]. }
  rewrite st_bind_eq, Hw. cbn [fst snd]. rewrite st_bind_eq.
  destruct (ok_status status_ok && _); eexists; (split; [done|]); by split.
Qed.

#[local] Instance log_open_journal ctx :
  aof_enabled (persistence config) = true -> ctx_replay ctx = false -> Journal ctx log_open.
Proof.
  intros Hen Hctx. split.
  - by intros l w [? _].
  - intros l w w' (Hio & Hc & Hwf & Hm & a & fd & Ha & Hrest) (Hfs & Hio' & Haof & Hc').
    unfold log_open. rewrite Hfs, Hio', Haof, Hc'. repeat (split; [done|]). by exists a, fd.
  - intros l c w (Hio & Hc & Hwf & Hm & a & fd & Ha & Hac & Hfd & Hdir & Hcont).
    destruct (append_quiet a c (w_sys w) fd) as (a' & Happ & Hfd' & Hac'); [done|by rewrite Hac|done|].
    set (s' := MkSys (fs_append fd (encode_command c) (s_fs (w_sys w))) [] (s_ticks (w_sys w))) in *.
    exists (put_aof a' (put_sys s' w)). split; [|split; [|done]].
    + unfold Commands.persist. rewrite st_bind_eq. cbn [asks fst snd]. rewrite Ha, Hctx.
      unfold enabled. rewrite Hac, Hen, Hfd.
      change (false || negb (true && bool_decide (is_Some (Some fd)))) with false. cbv iota.
      rewrite st_bind_eq. unfold lift_sys. by rewrite Happ.
    + pose proof (appended_fs_append fd (encode_command c) (s_fs (w_sys w))) as Hap.
      split; [done|]. split; [done|]. split; [by eapply appended_wf|].
      split; [by apply fmap_None; apply fmap_None in Hm|].
      exists a', fd. split; [done|]. split; [by rewrite Hac'|]. split; [done|]. split; [done|].
      destruct Hap as (_ & _ & Hc' & _). cbn [w_sys put_aof put_sys s_fs s'].
      rewrite Hc', Hcont, log_bytes_app. f_equal. unfold log_bytes. cbn [map concat]. by rewrite app_nil_r.
Qed.

#[local] Instance replaying_journal ctx fs : Journal ctx (replaying fs).
Proof.
  split.
  - by intros l w [? _].
  - intros l w w' (Hio & Hc & Hf & Ha) (Hfs & Hio' & Haof & Hc'). unfold replaying.
    by rewrite Hfs, Hio', Haof, Hc'.
  - intros l c w HJ. exists w. split; [|done]. apply persist_unlogged. unfold unlogged.
    by destruct HJ as (_ & _ & _ & ->).
Qed.

(** * Sessions *)

Hypothesis clock_mono : forall i, clock i <= clock (S i).
Hypothesis Hconfig : durable_config.

(** The context of a command that a client sends. *)
Definition client_ctx : CommandContext := MkContext (Some (store_of config)) true false.

Fixpoint run_commands (cmds : list (list bytes)) : CmdM (list CommandResult) :=
  match cmds with
  | [] => mret []
  | c :: cmds =>
      r ← execute (default_registry clock steady pid) client_ctx c;
      rs ← run_commands cmds;
      mret (r :: rs)
  end.

(** A server that holds [m], with a log whose records give [m]. *)
Definition serving (l : list (list bytes)) (m : kv) (w : World) : Prop :=
  holds clock lim w m /\ log_open l w /\ replays lim l ∅ = Some m /\ Forall (command_fits options) l.

(** One command of a client. *)
Lemma execute_serving c l m w o :
  serving l m w -> exec lim c m = Some o -> mset_whole lim c = true -> command_fits options c ->
  (forall b, reply o = Some b -> (execute (default_registry clock steady pid) client_ctx c w).1 = done_ b) /\
  serving (l ++ logged o) (result o) (execute (default_registry clock steady pid) client_ctx c w).2.
Proof.
  intros (Hh & Hlog & Hrep & Hfit) He Hw Hf.
  pose proof (log_open_journal client_ctx (proj1 Hconfig) eq_refl) as HJ.
  destruct (execute_implements clock steady pid lim clock_mono client_ctx log_open c m l w o He Hh Hlog)
    as (Hr & Hh1 & Hlog1).
  split; [done|]. split; [done|]. split; [done|]. split.
  - rewrite replays_app, Hrep. cbn. apply (run_replays lim [c]); [by apply List.Forall_cons|].
    cbn [run]. rewrite He. cbn. by rewrite app_nil_r.
  - apply Forall_app. split; [done|]. by eapply record_fits.
Qed.

Lemma run_commands_serving cmds l m w m' l' :
  serving l m w -> run lim cmds m = Some (m', l') ->
  Forall (fun c => mset_whole lim c = true) cmds -> Forall (command_fits options) cmds ->
  serving (l ++ l') m' (run_commands cmds w).2.
Proof.
  revert l m w m' l'. induction cmds as [|c cmds IH]; intros l m w m' l' Hs Hr Hw Hf.
  { injection Hr as <- <-. by rewrite app_nil_r. }
  inversion Hw as [|? ? Hw1 Hw2]; subst. inversion Hf as [|? ? Hf1 Hf2]; subst. cbn [run] in Hr.
  destruct (exec lim c m) as [o|] eqn:He; [|done]. cbn [mbind option_bind] in Hr.
  destruct (run lim cmds (result o)) as [[m1 l1]|] eqn:Hr1; [|done]. injection Hr as <- <-.
  destruct (execute_serving c l m w o Hs He Hw1 Hf1) as [_ Hs1].
  cbn [run_commands]. rewrite st_bind_eq, app_assoc.
  specialize (IH _ _ _ _ _ Hs1 Hr1 Hw2 Hf2). rewrite st_bind_eq. exact IH.
Qed.

(** * Recovery *)

Lemma boot_holds sys : holds clock lim (boot steady config sys) ∅.
Proof.
  destruct Hconfig as (_ & _ & _ & _ & Hm & Hsh & _ & Hno).
  assert (Hwf : wf (new_engine (storage config) lim)) by (apply new_engine_wf; [by rewrite Hm|done]).
  split; [split; [done|exact Hno]|]. exists (clock (s_ticks sys)). split; [done|]. split; [done|]. split; [done|].
  intros t _. cbn [boot w_storage]. rewrite plain_view. apply map_eq. intros k.
  rewrite live_lookup by done. rewrite new_engine_find, plain_lookup. by rewrite lookup_empty.
Qed.

Lemma replay_records ss fs l m m' n tail w :
  replays lim l m = Some m' -> holds clock lim w m -> replaying fs [] w ->
  exists n' w', replay_all (replay_command clock steady pid ss) l n tail w
      = (Some (MkReplayStats n' tail status_ok), w') /\
    holds clock lim w' m' /\ replaying fs [] w'.
Proof.
  revert m n w. induction l as [|c l IH]; intros m n w Hr Hh HJ.
  { injection Hr as ->. by exists n, w. }
  cbn [replays] in Hr. destruct (exec lim c m) as [o|] eqn:He; [|done]. cbn [mbind option_bind] in Hr.
  destruct (reply o) as [r|] eqn:Hreply; [|done]. cbn in Hr. destruct (is_error_reply r) eqn:Herr; [done|].
  pose proof (replaying_journal (MkContext (Some ss) false true) fs) as Hj.
  destruct (execute_implements clock steady pid lim clock_mono (MkContext (Some ss) false true) (replaying fs)
    c m [] w o He Hh HJ) as (Hres & Hh1 & HJ1).
  specialize (Hres r Hreply).
  assert (Hc : replay_command clock steady pid ss c w
    = (status_ok, (execute (default_registry clock steady pid) (MkContext (Some ss) false true) c w).2)).
  { unfold replay_command. rewrite st_bind_eq, Hres. cbn [response done_]. by rewrite Herr. }
  cbn [replay_all]. rewrite st_bind_eq, Hc. by apply (IH (result o)).
Qed.

(** Files from which the records [l], which give [m], can be recovered. *)
Definition recoverable (l : list (list bytes)) (tail : bytes) (m : kv) (sys : Sys) : Prop :=
  s_io sys = [] /\ fs_wf (s_fs sys) /\ file_at (s_fs sys) (ss_manifest_path (store_of config)) = None /\
  default [] (file_at (s_fs sys) (aof_path (persistence config))) = log_bytes l ++ tail /\
  torn options tail /\ replays lim l ∅ = Some m /\ Forall (command_fits options) l.

Lemma log_bytes_nil l : log_bytes l = [] -> l = [].
Proof. intros Hl. pose proof (log_bytes_length l) as Hlen. rewrite Hl in Hlen. by destruct l; simpl in Hlen; [|lia]. Qed.

Lemma recover_records l tail m sys :
  recoverable l tail m sys -> bsize (log_bytes l ++ tail) <= max_request_bytes lim ->
  exists w, recover clock steady pid (store_of config) (boot steady config sys) = (Started, w) /\
    holds clock lim w m /\ replaying (s_fs sys) [] w.
Proof.
  intros (Hio & Hwf & Hman & Hfile & Ht & Hrep & Hfit) Hb.
  destruct Hconfig as (_ & Hsafe & Hmsafe & _ & _ & _ & Hl & _). set (w0 := boot steady config sys).
  destruct (replay_records (store_of config) (s_fs sys) l ∅ m 0 (negb (bsize tail =? 0)) w0 Hrep (boot_holds sys))
    as (n & w1 & Hall & Hh & HJ); [done|].
  exists w1. split; [|done].
  rewrite (recover_eq clock steady pid (store_of config) w0 (MkRecovery status_ok false false 0) (w_storage w0) sys);
    [|done|by apply load_for_recovery_none|done].
  change (put_storage (w_storage w0) (put_sys sys w0)) with w0. cbn [rl_loaded_snapshot].
  destruct (file_at (s_fs sys) (aof_path (persistence config))) as [content|] eqn:Hf; cbn in Hfile.
  - rewrite (replay_file_ok _ _ _ _ _ content) by done. subst content.
    rewrite replay_bytes_log by done. by rewrite Hall.
  - symmetry in Hfile. apply app_nil in Hfile as [->%log_bytes_nil ->]. cbn in Hall. injection Hall as <- <-.
    unfold replay_file. rewrite st_bind_eq. unfold lift_sys. rewrite exists_file_eq.
    change (s_fs (w_sys w0)) with (s_fs sys). cbn [w_config w0 boot]. rewrite Hf, Hsafe. done.
Qed.

(** Starting on recoverable files: the server holds the map, and if the log
    had no torn tail, goes on with it. *)
Lemma restart_serving l tail m sys :
  recoverable l tail m sys -> bsize (log_bytes l ++ tail) <= max_request_bytes lim ->
  exists w, restart clock steady pid config sys = (Started, w) /\ holds clock lim w m /\
    (tail = [] -> serving l m w).
Proof.
  intros Hr Hb. destruct (recover_records l tail m sys Hr Hb) as (w1 & Hrec & Hh & Hio & Hc & Hfs & Ha).
  destruct Hr as (_ & Hwf & Hman & Hfile & Ht & Hrep & Hfit). pose proof Hconfig as (Hen & Hsafe & _ & Hne & _).
  pose proof (startup_full clock steady pid (boot steady config sys) w1 Hen Hrec Hio Hsafe) as Hs.
  pose proof (fs_open_append_file_at (aof_path (persistence config)) (s_fs sys) Hwf) as Ho.
  cbn [boot w_config] in Hs. rewrite Hfs in Hs. destruct (fs_open false _ (s_fs sys)) as [fd fs'].
  destruct Hs as (a & Hs & Hfd & Hac). destruct Ho as (Hwf' & Hdir & Hcont & Hother).
  eexists. split; [exact Hs|]. split; [done|]. intros ->. rewrite app_nil_r in Hfile.
  split; [done|]. split; [|done]. split; [done|]. split; [done|]. split; [done|].
  split; [by cbn; rewrite Hother|]. exists a, fd. cbn. rewrite Hcont. done.
Qed.

(** * Lifetimes *)

(** One server after the other on the same files; each runs its commands and
    is killed. *)
Fixpoint lifetime (sessions : list (list (list bytes))) (sys : Sys) : option Sys :=
  match sessions with
  | [] => Some sys
  | cmds :: sessions =>
      match restart clock steady pid config sys with
      | (Started, w) => lifetime sessions (w_sys (run_commands cmds w).2)
      | _ => None
      end
  end.

(** The last server was killed while it appended [tail]. *)
Definition crash_write (tail : bytes) (sys : Sys) : Sys :=
  match fs_dir (s_fs sys) !! aof_path (persistence config) with
  | Some fd => MkSys (fs_append fd tail (s_fs sys)) (s_io sys) (s_ticks sys)
  | None => sys
  end.

Lemma serving_recoverable l m w : serving l m w -> recoverable l [] m (w_sys w).
Proof.
  intros (_ & (Hio & _ & Hwf & Hman & a & fd & _ & _ & _ & Hdir & Hcont) & Hrep & Hfit).
  split; [done|]. split; [done|]. split; [done|]. split; [|split; [by left|done]].
  unfold file_at. rewrite Hdir. cbn. by rewrite Hcont, app_nil_r.
Qed.

Lemma lifetime_recoverable sessions l m sys m' l' :
  recoverable l [] m sys -> run lim (concat sessions) m = Some (m', l') ->
  Forall (fun c => mset_whole lim c = true) (concat sessions) ->
  Forall (command_fits options) (concat sessions) ->
  bsize (log_bytes (l ++ l')) <= max_request_bytes lim ->
  exists sys', lifetime sessions sys = Some sys' /\ recoverable (l ++ l') [] m' sys'.
Proof.
  revert l m sys l'. induction sessions as [|cmds sessions IH]; intros l m sys l' Hr Hrun Hw Hf Hb.
  { injection Hrun as <- <-. exists sys. by rewrite app_nil_r. }
  cbn [concat] in *. rewrite run_app in Hrun. apply Forall_app in Hw as [Hw1 Hw2]. apply Forall_app in Hf as [Hf1 Hf2].
  destruct (run lim cmds m) as [[m1 l1]|] eqn:Hr1; [|done]. cbn in Hrun.
  destruct (run lim (concat sessions) m1) as [[m2 l2]|] eqn:Hr2; [|done]. injection Hrun as -> <-.
  rewrite app_assoc in Hb |- *. pose proof Hb as Hb'. rewrite log_bytes_app, log_bytes_app, !bsize_app in Hb'.
  pose proof (bsize_nonneg (log_bytes l1)). pose proof (bsize_nonneg (log_bytes l2)).
  destruct (restart_serving l [] m sys Hr) as (w & Hs & _ & Hserve); [rewrite app_nil_r; lia|].
  cbn [lifetime]. rewrite Hs. eapply IH; [|done..].
  apply serving_recoverable. eapply run_commands_serving; [by apply Hserve|done..].
Qed.

Lemma crash_recoverable l m tail sys :
  recoverable l [] m sys -> torn options tail ->
  exists tail', recoverable l tail' m (crash_write tail sys) /\ (tail' = [] \/ tail' = tail).
Proof.
  intros (Hio & Hwf & Hman & Hfile & _ & Hrest) Ht. unfold crash_write.
  destruct (fs_dir (s_fs sys) !! aof_path (persistence config)) as [fd|] eqn:Hdir.
  - exists tail. split; [|by right]. pose proof (appended_fs_append fd tail (s_fs sys)) as Hap.
    split; [done|]. split; [by eapply appended_wf|]. split; [by apply fmap_None; apply fmap_None in Hman|].
    split; [|done]. destruct Hap as (Hd & _ & Hc & _). unfold file_at in *. cbn [s_fs]. rewrite Hd, Hdir in *.
    cbn [fmap option_fmap option_map default from_option id] in *. rewrite app_nil_r in Hfile. by rewrite Hc, Hfile.
  - exists []. split; [|by left]. repeat (split; [done|]). split; [by left|done].
Qed.

Lemma holds_live w m t : holds clock lim w m -> clock (ticks w) <= t -> live (w_storage w) t = plain m.
Proof.
  intros (_ & t0 & Ht0 & _ & _ & Hl) Ht. rewrite Hl by lia. apply plain_view.
Qed.

(** Killed in the middle of an append, and started again. *)
Lemma crash_restart l m tail sys :
  recoverable l [] m sys -> torn options tail -> bsize (log_bytes l ++ tail) <= max_request_bytes lim ->
  let '(out, w) := restart clock steady pid config (crash_write tail sys) in
  out = Started /\ forall t, clock (ticks w) <= t -> live (w_storage w) t = plain m.
Proof.
  intros Hr Ht Hb. rewrite bsize_app in Hb. pose proof (bsize_nonneg tail).
  destruct (crash_recoverable l m tail sys Hr Ht) as (tail' & Hcrash & Htail).
  destruct (restart_serving l tail' m _ Hcrash) as (w & -> & Hh & _).
  { destruct Htail as [-> | ->]; rewrite bsize_app; [change (bsize []) with 0|]; lia. }
  split; [done|]. intros t Htt. by eapply holds_live.
Qed.

(** An empty data directory. *)
Lemma empty_recoverable sys :
  s_io sys = [] -> fs_wf (s_fs sys) -> file_at (s_fs sys) (aof_path (persistence config)) = None ->
  file_at (s_fs sys) (ss_manifest_path (store_of config)) = None -> recoverable [] [] ∅ sys.
Proof.
  intros Hio Hwf Hlog Hman. repeat (split; [done|]). split; [by rewrite Hlog|]. split; [by left|done].
Qed.
End Durability.

(** C5. Commands do what the specification says: on a database without deadlines
    and without a memory limit, under a clock that does not go back and over any
    journal, every covered command (the dispatch of every spelling of its name
    included) gives exactly the specified reply, leaves exactly the specified
    keys and values, and journals exactly the specified records.  Of [INFO],
    [CONFIG], [SHUTDOWN], [BGSAVE] and [COMMAND], which report on the server,
    only the effect on the data is specified. *)
Theorem commands_refine `{Platform} clock steady pid lim ctx J args m l w o :
  (forall i, clock i <= clock (S i)) -> Journal ctx J ->
  exec lim args m = Some o -> holds clock lim w m -> J l w ->
  let '(r, w') := execute (default_registry clock steady pid) ctx args w in
  (forall b, reply o = Some b -> r = done_ b) /\ holds clock lim w' (result o) /\ J (l ++ logged o) w'.
Proof.
  intros Hclk HJ He Hh Hj.
  pose proof (execute_implements clock steady pid lim Hclk ctx J args m l w o He Hh Hj) as Ha.
  by destruct (execute _ _ _ w) as [r w'].
Qed.

(** C2. Durability: take any sequence of servers run one after the other on an
    initially empty data directory, each killed after some covered commands,
    the last possibly in the middle of appending a further record.  Every
    server starts, and one more start succeeds and shows exactly the keys and
    values that all the commands together give, with nothing acknowledged lost
    and nothing else present.  Covered are the commands of the specification (no
    deadlines, no [SAVE], no rewrite) that fit the limits, every pair of an
    [MSET] included.  The log is on and fits [max_request_bytes], memory is not
    limited, the clock does not go back, and no system call or allocation
    fails. *)
Theorem durable `{Platform} clock steady pid config sessions sys m l tail :
  (forall i, clock i <= clock (S i)) -> durable_config config ->
  s_io sys = [] -> fs_wf (s_fs sys) ->
  file_at (s_fs sys) (aof_path (persistence config)) = None ->
  file_at (s_fs sys) (ss_manifest_path (store_of config)) = None ->
  run (protocol config) (concat sessions) ∅ = Some (m, l) ->
  Forall (fun c => mset_whole (protocol config) c = true) (concat sessions) ->
  Forall (command_fits (parser_options_from_config (protocol config))) (concat sessions) ->
  torn (parser_options_from_config (protocol config)) tail ->
  bsize (log_bytes l ++ tail) <= max_request_bytes (protocol config) ->
  exists sys', lifetime clock steady pid config sessions sys = Some sys' /\
    let '(out, w) := restart clock steady pid config (crash_write config tail sys') in
    out = Started /\ forall t, clock (ticks w) <= t -> live (w_storage w) t = plain m.
Proof.
  intros Hclk Hconf Hio Hwf Hlog Hman Hrun Hw Hf Ht Hb. pose proof Hb as Hb'.
  rewrite bsize_app in Hb'. pose proof (bsize_nonneg tail).
  pose proof (empty_recoverable config sys Hio Hwf Hlog Hman) as Hr.
  destruct (lifetime_recoverable clock steady pid config Hclk Hconf sessions [] ∅ sys m l Hr Hrun Hw Hf)
    as (sys' & Hlife & Hr'); [cbn [app]; lia|].
  exists sys'. split; [done|]. by apply (crash_restart clock steady pid config Hclk Hconf l).
Qed.

(** * Witnesses *)

(** The default configuration without a memory limit. *)
Definition kv_config : Config :=
  MkConfig default_server (MkStorageConfig 3 0) default_persistence default_expiration (lit "info") true false
    default_protocol.

Lemma kv_config_durable : durable_config kv_config.
Proof.
  do 6 (split; [first [reflexivity | discriminate | by vm_compute]|]). split; [split; by vm_compute|done].
Qed.

Lemma empty_fs_wf : fs_wf empty_fs.
Proof. split; cbn; intros p; by setoid_rewrite lookup_empty. Qed.

(** Decides the limits of concrete commands. *)
Definition fits_check (o : ParserOptions) (args : list bytes) : bool :=
  (opt_max_request_bytes o <=? u64_max) && (Z.of_nat (length args) <=? i64_max) &&
  (Z.of_nat (length args) <=? opt_max_array_elements o) &&
  forallb (fun b => (i64_min <=? bsize b) && (bsize b <=? i64_max) && (bsize b <=? opt_max_bulk_bytes o)) args &&
  (bsize (encode_command args) <=? opt_max_request_bytes o).

Lemma fits_check_ok o cmds : forallb (fits_check o) cmds = true -> Forall (command_fits o) cmds.
Proof.
  intros Hc. apply List.Forall_forall. intros args Hin. rewrite forallb_forall in Hc. specialize (Hc args Hin).
  unfold fits_check in Hc. bool_to_prop. split; [lia|]. split; [lia|]. split; [lia|]. split; [|lia].
  apply List.Forall_forall. intros b Hb. rewrite forallb_forall in *.
  match goal with H : forall x, In x args -> _ |- _ => specialize (H b Hb) end. bool_to_prop. unfold is_i64. lia.
Qed.

Definition kv_sessions : list (list (list bytes)) :=
  [[[lit "SET"; lit "a"; lit "1"]; [lit "incr"; lit "a"]; [lit "append"; lit "b"; lit "xyz"]; [lit "GET"; lit "b"]];
   [[lit "DEL"; lit "b"; lit "c"]; [lit "MSET"; lit "d"; lit "4"; lit "e"; lit "5"]; [lit "INCR"; lit "a"]]].

Lemma commands_refine_witness :
  let '(r, w') := execute (default_registry demo_clock (fun _ => 0) 7) (MkContext None false true)
                    [lit "SET"; lit "k"; lit "v"; lit "nx"] (boot (fun _ => 0) kv_config (MkSys empty_fs [] 0)) in
  (forall b, Some (simple (lit "OK")) = Some b -> r = done_ b) /\
  holds demo_clock default_protocol w' {[lit "k" := lit "v"]} /\
  replaying kv_config empty_fs ([] ++ [[lit "SET"; lit "k"; lit "v"]]) w'.
Proof.
  pose proof (commands_refine demo_clock (fun _ => 0) 7 default_protocol (MkContext None false true)
    (replaying kv_config empty_fs) [lit "SET"; lit "k"; lit "v"; lit "nx"] ∅ []
    (boot (fun _ => 0) kv_config (MkSys empty_fs [] 0))
    (MkOutcome (Some (simple (lit "OK"))) {[lit "k" := lit "v"]} [[lit "SET"; lit "k"; lit "v"]])) as Hc.
  destruct (execute _ _ _ _) as [r w']. apply Hc.
  - intros i. unfold demo_clock. lia.
  - apply replaying_journal.
  - vm_compute. reflexivity.
  - apply (boot_holds demo_clock (fun _ => 0) kv_config kv_config_durable).
  - repeat split.
Defined.

Lemma durable_witness :
  exists sys', lifetime demo_clock (fun _ => 0) 7 kv_config kv_sessions (MkSys empty_fs [] 0) = Some sys' /\
    let '(out, w) := restart demo_clock (fun _ => 0) 7 kv_config
                       (crash_write kv_config (take 9 (encode_command [lit "FLUSHDB"])) sys') in
    out = Started /\ forall t, demo_clock (ticks w) <= t ->
      live (w_storage w) t = plain {[lit "a" := lit "3"; lit "d" := lit "4"; lit "e" := lit "5"]}.
Proof.
  eapply (durable demo_clock (fun _ => 0) 7 kv_config kv_sessions (MkSys empty_fs [] 0)).
  - intros i. unfold demo_clock. lia.
  - exact kv_config_durable.
  - reflexivity.
  - exact empty_fs_wf.
  - reflexivity.
  - reflexivity.
  - vm_compute. reflexivity.
  - repeat (apply List.Forall_cons; [vm_compute; reflexivity|]). apply List.Forall_nil.
  - apply fits_check_ok. vm_compute. reflexivity.
  - right. exists [lit "FLUSHDB"], (drop 9 (encode_command [lit "FLUSHDB"])). split; [|split; [|discriminate]].
    + apply (List.Forall_inv (fits_check_ok (parser_options_from_config default_protocol) [[lit "FLUSHDB"]] eq_refl)).
    + symmetry. apply take_drop.
  - vm_compute. discriminate.
Defined.
