(* ===== verification/Net.v ===== *)
(** The TCP server: [src/net/tcp_server.cpp] and
    [include/veloxdb/net/tcp_server.h].

    Sockets, [poll] and [epoll] are the environment: what a call returns is an
    argument of the operation that makes it.  A worker's turn (one return of
    [epoll_wait] or [poll]) runs to completion; turns of different workers and
    of the accept loop interleave in any order.  Descriptors are integers. *)
From stdpp Require Import gmultiset.
From S2P Require Import Prelude Util Config Resp Storage Fs Aof Snapshot Metrics Commands.

(** * Connections *)

(** What [read] returned: some bytes (none at the end of the stream), would
    block, interrupted, or another error. *)
Inductive ReadEvent := RData (b : bytes) | RAgain | RIntr | RError.

(** What [write] returned: the number of bytes taken, would block, interrupted,
    or another error. *)
Inductive WriteEvent := WSent (n : nat) | WAgain | WIntr | WError.

(** A connection; its descriptor is its key in the worker's map. *)
Record Connection := MkConn {
  c_peer : bytes;
  c_parser : Parser;
  c_write_buffer : bytes;
  c_close_after_write : bool
}.

Definition new_connection (peer : bytes) (protocol : ProtocolConfig) : Connection :=
  MkConn peer (MkParser (parser_options_from_config protocol) []) [] false.

(** The reply to malformed input, after which the connection closes. *)
Definition protocol_error (c : Connection) (p : Parser) (m : bytes) : Connection :=
  MkConn (c_peer c) p (c_write_buffer c ++ error (lit "protocol error: " ++ m)) true.

Definition overflow_reply : bytes := error (lit "output buffer limit exceeded").

Section Connection.
Context `{Platform}.
Variables (clock : nat -> TimePoint) (steady : nat -> Z) (pid : Z).
Variable snapshot_store : option SnapshotStore.

Abbreviation registry := (default_registry clock steady pid).

(** The context [drain_commands] builds. *)
Definition request_ctx : CommandContext := MkContext snapshot_store true false.

(** The command loop; [None] stands for fuel that ran out. *)
Fixpoint drain_loop (fuel : nat) (c : Connection) : CmdM (option bool * Connection) :=
  match fuel with
  | O => mret (None, c)
  | S fuel =>
      match next_command (c_parser c) with
      | (CNeedMore, p) =>
          mret (Some true, MkConn (c_peer c) p (c_write_buffer c) (c_close_after_write c))
      | (CError m, p) => mret (Some false, protocol_error c p m)
      | (CFault, _) => mret (None, c)
      | (COk args _, p) =>
          _ ← st_modify (on_metrics command_processed);
          result ← execute registry request_ctx args;
          config ← asks w_config;
          let c := MkConn (c_peer c) p (c_write_buffer c ++ response result)
                     (c_close_after_write c || close_after_write result) in
          if close_after_write result then mret (Some true, c)
          else if max_output_buffer_bytes (protocol config) <? bsize (c_write_buffer c)
          then mret (Some false, MkConn (c_peer c) p overflow_reply true)
          else drain_loop fuel c
      end
  end.

(** Every command takes at least one byte from the parser's buffer. *)
Definition drain_commands (c : Connection) : CmdM (option bool * Connection) :=
  drain_loop (S (length (buffer_ (c_parser c)))) c.

(** [read_from]: whether the connection stays open.  When the events are used
    up, [read] would block. *)
Fixpoint read_from (events : list ReadEvent) (c : Connection) : CmdM (option bool * Connection) :=
  match events with
  | [] | RAgain :: _ => mret (Some true, c)
  | RIntr :: events => read_from events c
  | RError :: _ | RData [] :: _ => mret (Some false, c)
  | RData b :: events =>
      let '(st, p) := Resp.append (c_parser c) b in
      if negb (ok_status st) then mret (Some true, protocol_error c p (message st))
      else
        '(more, c) ← drain_commands (MkConn (c_peer c) p (c_write_buffer c) (c_close_after_write c));
        match more with
        | None => mret (None, c)
        | Some false => mret (Some true, c)
        | Some true => read_from events c
        end
  end.

(** [write_to]: whether the connection stays open, and the bytes sent. *)
Fixpoint write_to (events : list WriteEvent) (c : Connection) : bool * bytes * Connection :=
  match c_write_buffer c with
  | [] => (negb (c_close_after_write c), [], c)
  | buffer =>
      match events with
      | [] | WAgain :: _ => (true, [], c)
      | WIntr :: events => write_to events c
      | WError :: _ | WSent O :: _ => (false, [], c)
      | WSent n :: events =>
          let '(open_, sent, c') :=
            write_to events (MkConn (c_peer c) (c_parser c) (drop n buffer) (c_close_after_write c)) in
          (open_, take n buffer ++ sent, c')
      end
  end.

(** * Workers *)

(** [wk_write_interest] is the set of descriptors registered with [EPOLLOUT];
    every connection is registered for reading.  [wk_closed] records the clients'
    descriptors the worker passed to [close], each as often as it did. *)
Record Worker := MkWorker {
  wk_pending : list (Z * bytes);
  wk_connections : gmap Z Connection;
  wk_write_interest : gset Z;
  wk_closed : gmultiset Z
}.

Definition new_worker : Worker := MkWorker [] ∅ ∅ ∅.

(** [close_fd] on the descriptor of a client, which is never negative; the
    result of [close] is ignored. *)
Definition close_client (fd : Z) (wk : Worker) : Worker :=
  MkWorker (wk_pending wk) (wk_connections wk) (wk_write_interest wk) (wk_closed wk ⊎ {[+ fd +]}).

Definition add_connection (fd : Z) (peer : bytes) (wk : Worker) : Worker :=
  MkWorker (wk_pending wk ++ [(fd, peer)]) (wk_connections wk) (wk_write_interest wk) (wk_closed wk).

Definition put_conn (fd : Z) (c : Connection) (wk : Worker) : Worker :=
  MkWorker (wk_pending wk) (<[fd := c]> (wk_connections wk)) (wk_write_interest wk) (wk_closed wk).

Definition drop_conn (fd : Z) (wk : Worker) : Worker :=
  MkWorker (wk_pending wk) (delete fd (wk_connections wk)) (wk_write_interest wk ∖ {[fd]}) (wk_closed wk).

(** [register_connection]: whether [epoll_ctl] with [EPOLL_CTL_ADD] succeeded,
    which registers the descriptor for reading only. *)
Definition register_connection (added : bool) (fd : Z) (wk : Worker) : bool * Worker :=
  (added,
   if added then MkWorker (wk_pending wk) (wk_connections wk) (wk_write_interest wk ∖ {[fd]}) (wk_closed wk)
   else wk).

(** [update_connection_interest]: [EPOLL_CTL_MOD]; when it fails, that is only
    logged. *)
Definition update_connection_interest (modified : bool) (fd : Z) (c : Connection) (wk : Worker) : Worker :=
  if modified then
    MkWorker (wk_pending wk) (wk_connections wk)
      (if bsize (c_write_buffer c) =? 0 then wk_write_interest wk ∖ {[fd]}
       else wk_write_interest wk ∪ {[fd]}) (wk_closed wk)
  else wk.

(** The loop of [install_pending]; [added] are the results of registering, all
    successful once the list is used up. *)
Fixpoint install_all (added : list bool) (pending : list (Z * bytes)) (wk : Worker) : CmdM Worker :=
  match pending with
  | [] => mret wk
  | (fd, peer) :: pending =>
      match wk_connections wk !! fd with
      | Some _ => install_all added pending (close_client fd wk)
      | None =>
          config ← asks w_config;
          let '(registered, wk) :=
            register_connection (hd true added) fd (put_conn fd (new_connection peer (protocol config)) wk) in
          if negb registered then install_all (tl added) pending (drop_conn fd (close_client fd wk))
          else
            _ ← st_modify (on_metrics connection_opened);
            install_all (tl added) pending wk
      end
  end.

Definition install_pending (added : list bool) (wk : Worker) : CmdM Worker :=
  install_all added (wk_pending wk) (MkWorker [] (wk_connections wk) (wk_write_interest wk) (wk_closed wk)).

(** The result of [EPOLL_CTL_DEL] is ignored. *)
Definition close_connection (fd : Z) (wk : Worker) : CmdM Worker :=
  match wk_connections wk !! fd with
  | None => mret wk
  | Some _ =>
      let wk := drop_conn fd (close_client fd wk) in
      _ ← st_modify (on_metrics connection_closed); mret wk
  end.

Fixpoint close_list (fds : list Z) (wk : Worker) : CmdM Worker :=
  match fds with
  | [] => mret wk
  | fd :: fds => wk ← close_connection fd wk; close_list fds wk
  end.

(** [close_all_connections]. *)
Fixpoint close_each (fds : list Z) (wk : Worker) : CmdM Worker :=
  match fds with
  | [] => mret wk
  | fd :: fds =>
      let wk := close_client fd wk in
      _ ← st_modify (on_metrics connection_closed); close_each fds wk
  end.

Definition close_all_connections (wk : Worker) : CmdM Worker :=
  wk ← close_each (map_to_list (wk_connections wk)).*1 wk;
  mret (MkWorker (wk_pending wk) ∅ ∅ (wk_closed wk)).

(** * One turn of the event loop *)

(** A ready descriptor: the flags of its event mask, and what the calls made
    for it return; [rd_modified] is for [EPOLL_CTL_MOD].  [rd_error] is [EPOLLERR], or [POLLERR] or [POLLNVAL];
    [rd_hangup] is [EPOLLHUP] or [EPOLLRDHUP], or [POLLHUP]. *)
Record Ready := MkReady {
  rd_fd : Z;
  rd_error : bool;
  rd_in : bool;
  rd_out : bool;
  rd_hangup : bool;
  rd_reads : list ReadEvent;
  rd_writes : list WriteEvent;
  rd_modified : bool
}.

(** The wakeup pipe, with the results of registering the new connections, or a
    connection. *)
Inductive LoopEvent := Wakeup (added : list bool) | Client (r : Ready).

(** The tests on a connection, common to both loops: whether it must close, and
    the bytes sent.  [None] stands for fuel that ran out. *)
Definition serve_connection (r : Ready) (c : Connection) : CmdM (option bool * bytes * Connection) :=
  if rd_error r then mret (Some true, [], c)
  else
    '(ok, c) ← (if rd_in r then read_from (rd_reads r) c else mret (Some true, c));
    match ok with
    | None => mret (None, [], c)
    | Some false => mret (Some true, [], c)
    | Some true =>
        let '(open_, sent, c) := if rd_out r then write_to (rd_writes r) c else (true, [], c) in
        if negb open_ then mret (Some true, sent, c)
        else mret (Some (rd_hangup r && (bsize (c_write_buffer c) =? 0)), sent, c)
    end.

(** One event of [loop_epoll]: the descriptor to close, if any. *)
Definition epoll_event (ev : LoopEvent) (wk : Worker) : CmdM (option (option Z) * Worker) :=
  match ev with
  | Wakeup added => wk ← install_pending added wk; mret (Some None, wk)
  | Client r =>
      match wk_connections wk !! rd_fd r with
      | None => mret (Some None, wk)
      | Some c =>
          '(close, _, c) ← serve_connection r c;
          let wk := put_conn (rd_fd r) c wk in
          match close with
          | None => mret (None, wk)
          | Some true => mret (Some (Some (rd_fd r)), wk)
          | Some false => mret (Some None, update_connection_interest (rd_modified r) (rd_fd r) c wk)
          end
      end
  end.

Fixpoint epoll_events (evs : list LoopEvent) (wk : Worker) : CmdM (option (list Z) * Worker) :=
  match evs with
  | [] => mret (Some [], wk)
  | ev :: evs =>
      '(close, wk) ← epoll_event ev wk;
      match close with
      | None => mret (None, wk)
      | Some close =>
          '(rest, wk) ← epoll_events evs wk;
          mret ((fun rest => option_list close ++ rest) <$> rest, wk)
      end
  end.

(** The body of [loop_epoll] for one batch of events. *)
Definition epoll_turn (evs : list LoopEvent) (wk : Worker) : CmdM (option Worker) :=
  '(closing, wk) ← epoll_events evs wk;
  match closing with
  | None => mret None
  | Some fds => wk ← close_list fds wk; mret (Some wk)
  end.

(** [loop_poll]: the wakeup pipe is looked at first, then every connection that
    was polled. *)
Fixpoint poll_clients (rs : list Ready) (wk : Worker) : CmdM (option (list Z) * Worker) :=
  match rs with
  | [] => mret (Some [], wk)
  | r :: rs =>
      match wk_connections wk !! rd_fd r with
      | None => poll_clients rs wk
      | Some c =>
          '(close, _, c) ← serve_connection r c;
          let wk := put_conn (rd_fd r) c wk in
          match close with
          | None => mret (None, wk)
          | Some close =>
              '(rest, wk) ← poll_clients rs wk;
              mret ((fun rest => (if (close : bool) then [rd_fd r] else []) ++ rest) <$> rest, wk)
          end
      end
  end.

(** Without [epoll], registering always succeeds. *)
Definition poll_turn (wakeup : bool) (rs : list Ready) (wk : Worker) : CmdM (option Worker) :=
  wk ← (if wakeup then install_pending [] wk else mret wk);
  '(closing, wk) ← poll_clients rs wk;
  match closing with
  | None => mret None
  | Some fds => wk ← close_list fds wk; mret (Some wk)
  end.
End Connection.

(** * Accepting *)

(** What [accept] returned: a descriptor and its peer, or an error. *)
Inductive AcceptEvent := Accepted (fd : Z) (peer : bytes) | AcceptFailed.

(** [set_nonblocking]: two calls of [fcntl]. *)
Definition set_nonblocking : SysM Status :=
  e ← syscall;
  match e with
  | Some m => mret (MkStatus IOError (lit "fcntl(F_GETFL): " ++ m))
  | None =>
      e ← syscall;
      mret match e with
           | Some m => MkStatus IOError (lit "fcntl(F_SETFL): " ++ m)
           | None => status_ok
           end
  end.

(** [workers_[i]->add_connection(fd, peer)]. *)
Definition hand_over (i : nat) (fd : Z) (peer : bytes) (workers : list Worker) : list Worker :=
  alter (add_connection fd peer) i workers.

(** The accepting thread: [next_worker], and a record of the descriptors
    [accept] returned and of those that were closed instead of handed over. *)
Record Acceptor := MkAcceptor {
  next_worker : Z;
  ac_accepted : gmultiset Z;
  ac_closed : gmultiset Z
}.

Definition new_acceptor : Acceptor := MkAcceptor 0 ∅ ∅.

Definition note_accepted (fd : Z) (ac : Acceptor) : Acceptor :=
  MkAcceptor (next_worker ac) (ac_accepted ac ⊎ {[+ fd +]}) (ac_closed ac).

(** [int close_me = fd; close_fd(close_me);] *)
Definition refuse (fd : Z) (ac : Acceptor) : Acceptor :=
  MkAcceptor (next_worker ac) (ac_accepted ac) (ac_closed ac ⊎ {[+ fd +]}).

(** [++next_worker] *)
Definition advance (ac : Acceptor) : Acceptor :=
  MkAcceptor (u64 (next_worker ac + 1)) (ac_accepted ac) (ac_closed ac).

(** [accept_ready]: the workers with their new pending connections, and the
    acceptor.  When the events are used up, [accept] would block. *)
Fixpoint accept_ready (events : list AcceptEvent) (workers : list Worker) (ac : Acceptor)
    : CmdM (list Worker * Acceptor) :=
  match events with
  | [] | AcceptFailed :: _ => mret (workers, ac)
  | Accepted fd peer :: events =>
      let ac := note_accepted fd ac in
      st ← lift_sys set_nonblocking;
      if negb (ok_status st) then accept_ready events workers (refuse fd ac)
      else
        m ← asks w_metrics;
        config ← asks w_config;
        if (max_clients (server config) <=? m_connected_clients m) || bool_decide (workers = [])
        then accept_ready events workers (refuse fd ac)
        else
          let i := Z.to_nat (next_worker ac mod Z.of_nat (length workers)) in
          accept_ready events (hand_over i fd peer workers) (advance ac)
  end.
