(* ===== verification/NetFacts.v ===== *)
(** Connections: the replies a client receives are those of its commands, in
    order, however the network cuts requests and replies. *)
From S2P Require Import Prelude Util Config Resp RespFacts Storage Fs Aof Snapshot Metrics Commands.
From S2P Require Import Recovery PersistFacts CommandFacts Frames Net.

(** * Cutting a stream of commands *)

(** [part] is a proper prefix of the next command of [todo], or nothing. *)
Definition cut_at (todo : list (list bytes)) (part : bytes) : Prop :=
  part = [] \/ exists c t suf, todo = c :: t /\ encode_command c = part ++ suf /\ suf <> [].

Lemma split_stream todo x rest :
  x ++ rest = log_bytes todo ->
  exists cs todo' part, todo = cs ++ todo' /\ x = log_bytes cs ++ part /\ part ++ rest = log_bytes todo' /\
    cut_at todo' part.
Proof.
  revert x. induction todo as [|c todo IH]; intros x Hx.
  { apply app_nil in Hx as [-> ->]. exists [], [], []. repeat (split; [done|]). by left. }
  change (log_bytes (c :: todo)) with (encode_command c ++ log_bytes todo) in Hx.
  destruct (le_lt_dec (length (encode_command c)) (length x)) as [Hle|Hlt].
  - assert (Hpre : exists y, x = encode_command c ++ y).
    { exists (drop (length (encode_command c)) x).
      rewrite <- (take_drop (length (encode_command c)) x) at 1. f_equal.
      rewrite <- (take_app_le x rest) by done. rewrite Hx. apply take_app_length. }
    destruct Hpre as [y ->]. rewrite <- app_assoc in Hx. apply app_inv_head in Hx.
    destruct (IH y Hx) as (cs & todo' & part & -> & -> & Hp & Hcut).
    exists (c :: cs), todo', part. change (log_bytes (c :: cs)) with (encode_command c ++ log_bytes cs).
    by rewrite <- app_assoc.
  - exists [], (c :: todo), x. split; [done|]. split; [done|]. split; [done|]. right.
    exists c, todo, (drop (length x) (encode_command c)). split; [done|]. split.
    + rewrite <- (take_drop (length x) (encode_command c)) at 1. f_equal.
      rewrite <- (take_app_le (encode_command c) (log_bytes todo)) by lia. rewrite <- Hx. apply take_app_length.
    + intros Hd. apply (f_equal length) in Hd. rewrite length_drop in Hd. change (length (@nil ascii)) with 0%nat in Hd. lia.
Qed.

Lemma cut_torn o todo part : Forall (command_fits o) todo -> cut_at todo part -> torn o part.
Proof.
  intros Hf [->|(c & t & suf & -> & He & Hs)]; [by left|]. inversion Hf; subst. right. by exists c, suf.
Qed.

(** * Serving commands *)

Section Serve.
Context `{Platform}.
Variables (clock : nat -> Z) (steady : nat -> Z) (pid : Z) (ss : option SnapshotStore).

Abbreviation registry := (default_registry clock steady pid).
Abbreviation drain_loop := (drain_loop clock steady pid ss).
Abbreviation drain_commands := (drain_commands clock steady pid ss).
Abbreviation read_from := (read_from clock steady pid ss).

(** Executing commands one after the other, as requests. *)
Fixpoint serve_all (cmds : list (list bytes)) : CmdM (list CommandResult) :=
  match cmds with
  | [] => mret []
  | c :: cmds =>
      _ ← st_modify (on_metrics command_processed);
      r ← execute registry (request_ctx ss) c;
      rs ← serve_all cmds;
      mret (r :: rs)
  end.

Definition replies (rs : list CommandResult) : bytes := concat (response <$> rs).

Definition stays_open (rs : list CommandResult) : Prop := Forall (fun r => close_after_write r = false) rs.

Lemma serve_all_cons c cmds w :
  let '(r, w1) := execute registry (request_ctx ss) c (on_metrics command_processed w) in
  let '(rs, w2) := serve_all cmds w1 in
  serve_all (c :: cmds) w = (r :: rs, w2).
Proof.
  cbn [serve_all]. rewrite st_bind_eq. cbn [fst snd st_modify]. rewrite st_bind_eq.
  destruct (execute _ _ c _) as [r w1]. cbn [fst snd]. rewrite st_bind_eq. by destruct (serve_all cmds w1).
Qed.

Lemma serve_all_app c1 c2 w :
  let '(rs1, w1) := serve_all c1 w in
  let '(rs2, w2) := serve_all c2 w1 in
  serve_all (c1 ++ c2) w = (rs1 ++ rs2, w2).
Proof.
  revert w. induction c1 as [|c c1 IH]; intros w; [by cbn; destruct (serve_all c2 w)|].
  pose proof (serve_all_cons c c1 w) as H1. pose proof (serve_all_cons c (c1 ++ c2) w) as H2.
  destruct (execute _ _ c _) as [r w1]. specialize (IH w1). destruct (serve_all c1 w1) as [rs1 w2].
  rewrite H1. destruct (serve_all c2 w2) as [rs2 w3]. rewrite IH in H2. exact H2.
Qed.

Lemma replies_app rs1 rs2 : replies (rs1 ++ rs2) = replies rs1 ++ replies rs2.
Proof. unfold replies. by rewrite fmap_app, concat_app. Qed.

Lemma execute_config ctx c w : w_config (execute registry ctx c w).2 = w_config w.
Proof. apply (keeps_execute w_config). Qed.

Lemma serve_all_config cmds w : w_config (serve_all cmds w).2 = w_config w.
Proof.
  revert w. induction cmds as [|c cmds IH]; intros w; [done|]. pose proof (serve_all_cons c cmds w) as Hc.
  pose proof (execute_config (request_ctx ss) c (on_metrics command_processed w)) as He.
  destruct (execute _ _ c _) as [r w1]. specialize (IH w1). destruct (serve_all cmds w1) as [rs w2].
  rewrite Hc. cbn in *. congruence.
Qed.

(** Draining a buffer of complete commands and a cut one. *)
Lemma drain_served o cs part peer wb close fuel w :
  Forall (command_fits o) cs -> limits_fit o -> torn o part -> (length cs < fuel)%nat ->
  let '(rs, w') := serve_all cs w in
  stays_open rs -> bsize (wb ++ replies rs) <= max_output_buffer_bytes (protocol (w_config w)) ->
  drain_loop fuel (MkConn peer (MkParser o (log_bytes cs ++ part)) wb close) w
  = ((Some true, MkConn peer (MkParser o part) (wb ++ replies rs) close), w').
Proof.
  intros Hf Hl Ht. revert wb close fuel w. induction Hf as [|c cs Hc Hf IH]; intros wb close [|fuel] w Hfuel;
    cbn [length] in Hfuel; try lia.
  - intros _ _. cbn [Net.drain_loop c_parser]. change (log_bytes [] ++ part) with part.
    rewrite torn_needs_more by done. cbn. by rewrite app_nil_r.
  - pose proof (serve_all_cons c cs w) as Hs.
    pose proof (execute_config (request_ctx ss) c (on_metrics command_processed w)) as Hcfg.
    destruct (execute registry (request_ctx ss) c (on_metrics command_processed w)) as [r w1] eqn:He.
    specialize (IH (wb ++ response r) close fuel w1 ltac:(lia)).
    destruct (serve_all cs w1) as [rs w2]. rewrite Hs. intros Hopen Hsize.
    inversion Hopen as [|? ? Hr Hopen']; subst. cbn [snd w_config on_metrics] in Hcfg.
    change (replies (r :: rs)) with (response r ++ replies rs) in *.
    cbn [Net.drain_loop c_parser]. change (log_bytes (c :: cs)) with (encode_command c ++ log_bytes cs).
    rewrite <- app_assoc, next_command_encode by done.
    rewrite st_bind_eq. cbn [fst snd st_modify]. rewrite st_bind_eq, He. cbn [fst snd].
    rewrite st_bind_eq. cbn [fst snd asks c_peer c_write_buffer c_close_after_write]. rewrite Hr, Hcfg, orb_false_r.
    rewrite app_assoc in *. rewrite (proj2 (Z.ltb_ge _ _)).
    + apply IH; [done|]. by rewrite Hcfg.
    + rewrite bsize_app in Hsize. pose proof (bsize_nonneg (replies rs)). lia.
Qed.

(** The size of the buffer [read_from] reads into. *)
Definition kReadBuffer : Z := 16 * 1024.

(** A command that the parser can take together with what one more [read] may
    bring. *)
Definition roomy (o : ParserOptions) (c : list bytes) : Prop :=
  command_fits o c /\ bsize (encode_command c) + kReadBuffer <= opt_max_request_bytes o.

Definition chunk_ok (b : bytes) : Prop := b <> [] /\ bsize b <= kReadBuffer.

Lemma chunk_room o todo part b rest :
  Forall (roomy o) todo -> cut_at todo part -> chunk_ok b -> part ++ b ++ rest = log_bytes todo ->
  bsize (part ++ b) <= opt_max_request_bytes o.
Proof.
  intros Hr Hcut [Hne Hb] Heq. rewrite bsize_app. destruct Hcut as [->|(c & t & suf & -> & He & _)].
  - destruct todo as [|c todo]; [by destruct b|]. inversion Hr as [|? ? [_ Hc] _]; subst.
    pose proof (bsize_nonneg (encode_command c)). change (bsize []) with 0. lia.
  - inversion Hr as [|? ? [_ Hc] _]; subst. rewrite He, bsize_app in Hc. pose proof (bsize_nonneg suf). lia.
Qed.

(** What reading some chunks does to a connection that holds [part]: the
    commands [cs] are complete now, [part'] is left. *)
Definition reads_as (o : ParserOptions) (chunks : list bytes) (part : bytes) (cs : list (list bytes))
    (part' : bytes) (w : World) : Prop :=
  forall peer wb close,
  let '(rs, w') := serve_all cs w in
  stays_open rs -> bsize (wb ++ replies rs) <= max_output_buffer_bytes (protocol (w_config w)) ->
  read_from (RData <$> chunks) (MkConn peer (MkParser o part) wb close) w
  = ((Some true, MkConn peer (MkParser o part') (wb ++ replies rs) close), w').

Lemma reads_as_cons o b chunks part cs1 part1 cs2 part2 w :
  Forall (command_fits o) cs1 -> limits_fit o -> torn o part1 -> b <> [] ->
  bsize (part ++ b) <= opt_max_request_bytes o -> part ++ b = log_bytes cs1 ++ part1 ->
  reads_as o chunks part1 cs2 part2 (serve_all cs1 w).2 ->
  reads_as o (b :: chunks) part (cs1 ++ cs2) part2 w.
Proof.
  intros Hf Hl Ht Hne Hb Heq IH peer wb close.
  pose proof (serve_all_app cs1 cs2 w) as Happ. pose proof (serve_all_config cs1 w) as Hcfg.
  pose proof (drain_served o cs1 part1 peer wb close (S (length (log_bytes cs1 ++ part1))) w Hf Hl Ht) as Hd.
  destruct (serve_all cs1 w) as [rs1 w1]. cbn [snd] in *.
  specialize (IH peer (wb ++ replies rs1) close). destruct (serve_all cs2 w1) as [rs2 w2]. rewrite Happ.
  rewrite replies_app, app_assoc. intros [Ho1 Ho2]%Forall_app Hsize. cbn [fmap list_fmap].
  destruct b as [|a b]; [done|]. cbn [Net.read_from c_parser]. rewrite append_ok by done.
  change (negb (ok_status status_ok)) with false. cbv iota. rewrite st_bind_eq. unfold Net.drain_commands.
  cbn [c_parser buffer_ c_peer c_write_buffer c_close_after_write]. rewrite Heq, Hd.
  - cbn [fst snd]. apply IH; [done|]. by rewrite Hcfg.
  - rewrite length_app. pose proof (log_bytes_length cs1). lia.
  - done.
  - rewrite bsize_app in Hsize. pose proof (bsize_nonneg (replies rs2)). lia.
Qed.

Lemma read_served o chunks todo part rest w :
  Forall (roomy o) todo -> limits_fit o -> Forall chunk_ok chunks -> cut_at todo part ->
  part ++ concat chunks ++ rest = log_bytes todo ->
  exists cs todo' part', todo = cs ++ todo' /\ part ++ concat chunks = log_bytes cs ++ part' /\
    part' ++ rest = log_bytes todo' /\ cut_at todo' part' /\ reads_as o chunks part cs part' w.
Proof.
  intros Hr Hl Hok. revert todo part w Hr. induction Hok as [|b chunks Hb Hok IH]; intros todo part w Hr Hcut Heq.
  { exists [], todo, part. rewrite app_nil_r. repeat (split; [done|]). intros peer wb close _ _. cbn.
    by rewrite app_nil_r. }
  cbn [concat] in *. rewrite <- app_assoc in Heq.
  pose proof (chunk_room o todo part b _ Hr Hcut Hb Heq) as Hroom. rewrite app_assoc in Heq.
  destruct (split_stream todo (part ++ b) _ Heq) as (cs1 & todo1 & part1 & -> & Hp1 & Heq1 & Hcut1).
  apply Forall_app in Hr as [Hr1 Hr2].
  destruct (IH todo1 part1 (serve_all cs1 w).2 Hr2 Hcut1 Heq1)
    as (cs2 & todo2 & part2 & -> & Hp2 & Heq2 & Hcut2 & Hreads).
  exists (cs1 ++ cs2), todo2, part2. split; [by rewrite app_assoc|].
  split; [by rewrite app_assoc, Hp1, <- app_assoc, Hp2, log_bytes_app, app_assoc|].
  split; [done|]. split; [done|].
  assert (Hfit : forall l, Forall (roomy o) l -> Forall (command_fits o) l).
  { intros l Hl'. eapply Forall_impl; [|exact Hl']. by intros c [? _]. }
  eapply reads_as_cons; [by apply Hfit|done|by eapply cut_torn; [apply Hfit, Hr2|]|apply Hb|done|done|done].
Qed.

(** * Writing *)

(** No error and no empty write. *)
Definition write_ok (e : WriteEvent) : Prop := match e with WError | WSent O => False | _ => True end.

(** Whatever is sent comes off the front of the buffer, and the rest stays. *)
Lemma write_to_prefix evs c :
  let '(_, sent, c') := write_to evs c in
  c_write_buffer c = sent ++ c_write_buffer c' /\ c_parser c' = c_parser c /\ c_peer c' = c_peer c /\
  c_close_after_write c' = c_close_after_write c.
Proof.
  revert c. induction evs as [|e evs IH]; intros [peer p buf close]; cbn [write_to c_write_buffer];
    (destruct buf as [|a buf]; [done|]); [done|].
  destruct e as [[|n]| | |]; [done| |done|apply IH|done].
  specialize (IH (MkConn peer p (drop (S n) (a :: buf)) close)).
  cbn [c_peer c_parser c_close_after_write] in *.
  destruct (write_to evs _) as [[o sent] c']. destruct IH as (Hb & ? & ? & ?). cbn [c_write_buffer] in *.
  split; [|done]. rewrite <- app_assoc, <- Hb. by rewrite take_drop.
Qed.

Lemma write_to_open evs c :
  Forall write_ok evs -> c_close_after_write c = false -> (write_to evs c).1.1 = true.
Proof.
  intros Hok. revert c. induction Hok as [|e evs He Hok IH]; intros [peer p buf close] Hc; cbn in Hc; subst close;
    cbn [write_to c_write_buffer]; (destruct buf as [|a buf]; [done|]); [done|].
  destruct e as [[|n]| | |]; try done; [|by apply IH].
  specialize (IH (MkConn peer p (drop (S n) (a :: buf)) false) eq_refl). cbn [c_peer c_parser c_close_after_write] in *.
  by destruct (write_to evs _) as [[o sent] c'].
Qed.

(** * Whole conversations *)

(** What happens to a connection: the loop finds it readable or writable. *)
Inductive ConnStep := Reads (chunks : list bytes) | Writes (evs : list WriteEvent).

Definition step_ok (st : ConnStep) : Prop :=
  match st with Reads chunks => Forall chunk_ok chunks | Writes evs => Forall write_ok evs end.

Definition step_input (st : ConnStep) : bytes := match st with Reads chunks => concat chunks | Writes _ => [] end.

Definition input (steps : list ConnStep) : bytes := concat (step_input <$> steps).

(** The bytes sent and the connection, unless it closed. *)
Fixpoint conn_run (steps : list ConnStep) (c : Connection) : CmdM (option (bytes * Connection)) :=
  match steps with
  | [] => mret (Some ([], c))
  | Reads chunks :: steps =>
      '(ok, c) ← read_from (RData <$> chunks) c;
      match ok with Some true => conn_run steps c | _ => mret None end
  | Writes evs :: steps =>
      match write_to evs c with
      | (false, _, _) => mret None
      | (true, sent, c) =>
          r ← conn_run steps c;
          mret ((fun '(more, c) => (sent ++ more, c)) <$> r)
      end
  end.

(** What a conversation does to an open connection that holds [part] and owes
    the bytes [wb]. *)
Definition runs_as (o : ParserOptions) (steps : list ConnStep) (part : bytes) (cs : list (list bytes))
    (part' : bytes) (w : World) : Prop :=
  forall peer wb,
  let '(rs, w') := serve_all cs w in
  stays_open rs -> bsize (wb ++ replies rs) <= max_output_buffer_bytes (protocol (w_config w)) ->
  exists sent left, conn_run steps (MkConn peer (MkParser o part) wb false) w
                    = (Some (sent, MkConn peer (MkParser o part') left false), w') /\
    sent ++ left = wb ++ replies rs.

Lemma runs_as_reads o chunks steps part cs1 part1 cs2 part2 w :
  reads_as o chunks part cs1 part1 w -> runs_as o steps part1 cs2 part2 (serve_all cs1 w).2 ->
  runs_as o (Reads chunks :: steps) part (cs1 ++ cs2) part2 w.
Proof.
  intros Hreads IH peer wb. specialize (Hreads peer wb false).
  pose proof (serve_all_app cs1 cs2 w) as Happ. pose proof (serve_all_config cs1 w) as Hcfg.
  destruct (serve_all cs1 w) as [rs1 w1]. cbn [snd] in *. specialize (IH peer (wb ++ replies rs1)).
  destruct (serve_all cs2 w1) as [rs2 w2]. rewrite Happ, replies_app, app_assoc.
  intros [Ho1 Ho2]%Forall_app Hsize. cbn [conn_run]. rewrite st_bind_eq, Hreads.
  - cbn [fst snd]. apply IH; [done|by rewrite Hcfg].
  - done.
  - rewrite bsize_app in Hsize. pose proof (bsize_nonneg (replies rs2)). lia.
Qed.

Lemma runs_as_writes o evs steps part cs part' w :
  Forall write_ok evs -> runs_as o steps part cs part' w -> runs_as o (Writes evs :: steps) part cs part' w.
Proof.
  intros Hev IH peer wb.
  pose proof (write_to_prefix evs (MkConn peer (MkParser o part) wb false)) as Hp.
  pose proof (write_to_open evs (MkConn peer (MkParser o part) wb false) Hev eq_refl) as Ho.
  cbn [conn_run]. destruct (write_to evs _) as [[open_ sent] [peer' p' left close']]. cbn in Hp, Ho.
  destruct Hp as (-> & -> & -> & ->). subst open_. specialize (IH peer left).
  destruct (serve_all cs w) as [rs w']. intros Hopen Hsize. rewrite <- app_assoc in *.
  destruct IH as (sent2 & left2 & Hrun & Heq); [done| |].
  { rewrite bsize_app in Hsize. pose proof (bsize_nonneg sent). lia. }
  exists (sent ++ sent2), left2. rewrite st_bind_eq, Hrun. cbn. by rewrite <- app_assoc, Heq.
Qed.

Lemma conn_served o steps todo part rest w :
  Forall (roomy o) todo -> limits_fit o -> Forall step_ok steps -> cut_at todo part ->
  part ++ input steps ++ rest = log_bytes todo ->
  exists cs todo' part', todo = cs ++ todo' /\ part ++ input steps = log_bytes cs ++ part' /\
    cut_at todo' part' /\ runs_as o steps part cs part' w.
Proof.
  intros Hr Hl Hok. revert todo part w Hr. induction Hok as [|st steps Hst Hok IH]; intros todo part w Hr Hcut Heq.
  { exists [], todo, part. cbn. rewrite app_nil_r. repeat (split; [done|]). intros peer wb _ _. exists [], wb. cbn.
    by rewrite app_nil_r. }
  change (input (st :: steps)) with (step_input st ++ input steps) in *. rewrite <- app_assoc in Heq.
  destruct st as [chunks|evs]; cbn [step_input] in *.
  - destruct (read_served o chunks todo part _ w Hr Hl Hst Hcut Heq)
      as (cs1 & todo1 & part1 & -> & Hp1 & Heq1 & Hcut1 & Hreads).
    apply Forall_app in Hr as [Hr1 Hr2].
    destruct (IH todo1 part1 (serve_all cs1 w).2 Hr2 Hcut1 Heq1) as (cs2 & todo2 & part2 & -> & Hp2 & Hcut2 & Hrun).
    exists (cs1 ++ cs2), todo2, part2. split; [by rewrite app_assoc|].
    split; [by rewrite app_assoc, Hp1, <- app_assoc, Hp2, log_bytes_app, app_assoc|].
    split; [done|]. by eapply runs_as_reads.
  - destruct (IH todo part w Hr Hcut Heq) as (cs & todo' & part' & ? & ? & ? & ?).
    exists cs, todo', part'. repeat (split; [done|]). by apply runs_as_writes.
Qed.
End Serve.
