(* ===== verification/NetInv.v ===== *)
(** Workers: the invariants of connections and of the event loop. *)
From stdpp Require Import gmultiset.
From S2P Require Import Prelude Util Config Resp RespFacts Storage Fs Aof Snapshot Metrics Commands.
From S2P Require Import Frames Net NetFacts.

(** * Invariants *)

Definition clients (w : World) : Z := m_connected_clients (w_metrics w).

(** Limits under which a connection is well behaved. *)
Definition net_config (config : Config) : Prop :=
  limits_fit (parser_options_from_config (protocol config)) /\
  0 <= max_output_buffer_bytes (protocol config).

(** A connection's parser has the configured limits and holds no more than a
    request may have; the replies of a connection that is not about to close
    are within the output limit. *)
Definition conn_ok (config : Config) (c : Connection) : Prop :=
  options_ (c_parser c) = parser_options_from_config (protocol config) /\
  bsize (buffer_ (c_parser c)) <= max_request_bytes (protocol config) /\
  (c_close_after_write c = false -> bsize (c_write_buffer c) <= max_output_buffer_bytes (protocol config)).

(** File descriptors are non-negative [int]s. *)
Definition kDescriptors : Z := 2 ^ 31.

Definition is_fd (fd : Z) : Prop := 0 <= fd < kDescriptors.

Record worker_ok (config : Config) (wk : Worker) : Prop := MkWorkerOk {
  wok_pending : Forall (fun fp => is_fd fp.1) (wk_pending wk);
  wok_connections : map_Forall (fun fd c => is_fd fd /\ conn_ok config c) (wk_connections wk)
}.

Definition open_clients (wk : Worker) : Z := Z.of_nat (size (wk_connections wk)).

(** A worker among others that have [others] clients. *)
Record among (config : Config) (others : Z) (wk : Worker) (w : World) : Prop := MkAmong {
  am_config : w_config w = config;
  am_worker : worker_ok config wk;
  am_clients : clients w = others + open_clients wk
}.

(** Every connection of [wk] but those of [closing] waits for its socket to be
    writable exactly while it has replies to send. *)
Definition armed (closing : list Z) (wk : Worker) : Prop :=
  forall fd c, wk_connections wk !! fd = Some c -> fd ∉ closing ->
    (fd ∈ wk_write_interest wk <-> c_write_buffer c <> []).

(** A worker never has more connections than there are descriptors. *)
Lemma open_clients_bound config wk : worker_ok config wk -> 0 <= open_clients wk <= kDescriptors.
Proof.
  intros [_ Hc]. unfold open_clients. split; [lia|]. rewrite <- size_dom.
  assert (Hsub : dom (wk_connections wk) ⊆ (list_to_set (seqZ 0 kDescriptors) : gset Z)).
  { intros fd [c Hfd]%elem_of_dom. apply elem_of_list_to_set, elem_of_seqZ. destruct (Hc fd c Hfd). unfold is_fd in *. lia. }
  apply subseteq_size in Hsub. rewrite size_list_to_set in Hsub by apply NoDup_seqZ.
  rewrite length_seqZ in Hsub. unfold kDescriptors in *. lia.
Qed.

(** * Connections *)

Section Connections.
Context `{Platform}.
Variables (clock : nat -> Z) (steady : nat -> Z) (pid : Z) (ss : option SnapshotStore).
Variable config : Config.
Hypothesis Hconfig : net_config config.

Abbreviation drain_loop := (drain_loop clock steady pid ss).
Abbreviation drain_commands := (drain_commands clock steady pid ss).
Abbreviation read_from := (read_from clock steady pid ss).
Abbreviation serve_connection := (serve_connection clock steady pid ss).

(** What serving a connection does not change. *)
Definition kept (w w' : World) : Prop := w_config w' = w_config w /\ clients w' = clients w.

Lemma kept_refl w : kept w w.
Proof. done. Qed.

Lemma kept_trans w1 w2 w3 : kept w1 w2 -> kept w2 w3 -> kept w1 w3.
Proof. intros [] []. split; congruence. Qed.

Lemma kept_command args w :
  kept w (execute (default_registry clock steady pid) (request_ctx ss) args (on_metrics command_processed w)).2.
Proof.
  split; [by rewrite (keeps_execute w_config)|]. unfold clients.
  rewrite (keeps_execute (fun w => m_connected_clients (w_metrics w))). cbn. unfold command_processed.
  by destruct (m_enabled _).
Qed.

Lemma drain_loop_ok fuel c w :
  w_config w = config -> conn_ok config c -> (length (buffer_ (c_parser c)) < fuel)%nat ->
  wp (drain_loop fuel c) (fun r w' => is_Some r.1 /\ conn_ok config r.2 /\ kept w w') w.
Proof.
  destruct Hconfig as [Hl Hm]. revert c w.
  induction fuel as [|fuel IH]; intros [peer [o buf] wb close] w Hw (Ho & Hb & Hwb) Hf; cbn in Ho, Hb, Hwb, Hf; [lia|].
  subst o. cbn [Net.drain_loop c_parser].
  destruct (next_command_cases _ buf Hl Hb) as [->|(r & k & -> & Hs & Hk & Hpos & _)].
  { apply wp_ret. split; [done|]. split; [done|apply kept_refl]. }
  assert (Hdrop : bsize (drop k buf) <= max_request_bytes (protocol config))
    by (unfold bsize in *; rewrite length_drop; lia).
  destruct r as [args raw| |e|]; try done.
  apply wp_bind. cbn. apply wp_bind. unfold wp at 1. apply wp_bind. cbn [wp asks fst snd].
  pose proof (kept_command args w) as Hkept. destruct (execute _ _ _ _) as [res w1]. cbn [fst snd] in *.
  unfold asks, wp at 1. cbn [fst snd c_peer c_write_buffer c_close_after_write].
  destruct (close_after_write res); [apply wp_ret; split; [done|]; split; [|done]|].
  { split; [done|]. split; [done|]. cbn. by rewrite orb_true_r. }
  rewrite orb_false_r. destruct Hkept as [Hc1 Hc2]. rewrite Hc1, Hw.
  destruct (Z.ltb_spec (max_output_buffer_bytes (protocol config)) (bsize (wb ++ response res))).
  { apply wp_ret. split; [done|]. by split. }
  eapply wp_mono; [apply IH|].
  - congruence.
  - split; [done|]. by split.
  - cbn. rewrite length_drop. destruct (Hpos _ _ eq_refl). lia.
  - intros [b c'] w2 (? & ? & ?). split; [done|]. split; [done|]. eapply kept_trans; [|done]. done.
Qed.

Lemma append_cases p b :
  (exists m, Resp.append p b = (MkStatus ResourceExhausted m, p)) \/
  Resp.append p b = (status_ok, MkParser (options_ p) (buffer_ p ++ b)) /\
  bsize (buffer_ p ++ b) <= opt_max_request_bytes (options_ p).
Proof.
  unfold Resp.append. destruct (_ || _) eqn:E; [left; by eexists|right]. split; [done|]. bool_to_prop.
  rewrite bsize_app. lia.
Qed.

Lemma read_from_ok events c w :
  w_config w = config -> conn_ok config c ->
  wp (read_from events c) (fun r w' => is_Some r.1 /\ conn_ok config r.2 /\ kept w w') w.
Proof.
  revert c w. induction events as [|[b| | |] events IH]; intros c w Hw Hc; cbn [Net.read_from];
    try (apply wp_ret; split; [done|]; split; [done|apply kept_refl]); [|by apply IH].
  destruct b as [|a b]; [apply wp_ret; split; [done|]; split; [done|apply kept_refl]|].
  destruct Hc as (Ho & Hb & Hwb).
  destruct (append_cases (c_parser c) (a :: b)) as [[m ->]|[-> Hsize]]; [by apply wp_ret|].
  change (negb (ok_status status_ok)) with false. cbv iota. apply wp_bind.
  eapply wp_mono; [apply drain_loop_ok|].
  - done.
  - split; [done|]. split; [|done]. cbn. by rewrite Ho in Hsize.
  - cbn. lia.
  - intros [[[]|] c'] w1 (Hsome & Hc' & Hk); [|apply wp_ret; by split|by destruct Hsome].
    eapply wp_mono; [apply IH; [|done]|].
    + destruct Hk. congruence.
    + intros [r c2] w2 (? & ? & ?). split; [done|]. split; [done|]. by eapply kept_trans.
Qed.

Lemma write_to_ok evs c : conn_ok config c -> conn_ok config (write_to evs c).2.
Proof.
  intros (Ho & Hb & Hwb). pose proof (write_to_prefix evs c) as Hp.
  destruct (write_to evs c) as [[o sent] c']. destruct Hp as (Hs & Hpar & _ & Hcl). cbn.
  split; [congruence|]. split; [congruence|]. rewrite Hcl. intros Hf. specialize (Hwb Hf).
  rewrite Hs, bsize_app in Hwb. pose proof (bsize_nonneg sent). lia.
Qed.

Lemma serve_connection_ok r c w :
  w_config w = config -> conn_ok config c ->
  wp (serve_connection r c) (fun x w' => is_Some x.1.1 /\ conn_ok config x.2 /\ kept w w') w.
Proof.
  intros Hw Hc. unfold Net.serve_connection. destruct (rd_error r); [by apply wp_ret|].
  apply wp_bind. eapply wp_mono with (P := fun x w' => is_Some x.1 /\ conn_ok config x.2 /\ kept w w').
  { destruct (rd_in r); [by apply read_from_ok|by apply wp_ret]. }
  intros [[[]|] c1] w1 (Hsome & Hc1 & Hk); [|by apply wp_ret|by destruct Hsome]. cbn [snd] in Hc1.
  pose proof (write_to_ok (rd_writes r) c1 Hc1) as Hc2.
  destruct (rd_out r); [destruct (write_to _ _) as [[[] sent] c2]|]; cbn [negb]; by apply wp_ret.
Qed.
End Connections.

(** * Workers *)

Lemma worker_ok_put config fd c wk :
  worker_ok config wk -> is_fd fd -> conn_ok config c -> worker_ok config (put_conn fd c wk).
Proof. intros [Hp Hc] Hfd Hok. split; [done|]. by apply map_Forall_insert_2. Qed.

Lemma worker_ok_drop config fd wk : worker_ok config wk -> worker_ok config (drop_conn fd wk).
Proof. intros [Hp Hc]. split; [done|]. by apply map_Forall_delete. Qed.

Lemma worker_ok_close config fd wk : worker_ok config wk -> worker_ok config (close_client fd wk).
Proof. by intros [? ?]. Qed.

Lemma open_put fd c c' wk :
  wk_connections wk !! fd = Some c -> open_clients (put_conn fd c' wk) = open_clients wk.
Proof. intros Hfd. unfold open_clients. cbn. by rewrite map_size_insert_Some by eauto. Qed.

Lemma open_new fd c wk :
  wk_connections wk !! fd = None -> open_clients (put_conn fd c wk) = open_clients wk + 1.
Proof. intros Hfd. unfold open_clients. cbn. rewrite map_size_insert_None by done. lia. Qed.

Lemma open_drop fd c wk :
  wk_connections wk !! fd = Some c -> open_clients (drop_conn fd wk) = open_clients wk - 1.
Proof.
  intros Hfd. unfold open_clients. cbn. rewrite map_size_delete_Some by eauto.
  assert (size (wk_connections wk) <> 0%nat) by (eapply map_size_ne_0_lookup_2; eauto). lia.
Qed.

Section Workers.
Context `{Platform}.
Variables (clock : nat -> Z) (steady : nat -> Z) (pid : Z) (ss : option SnapshotStore).
Variables (config : Config) (others : Z).
Hypothesis Hconfig : net_config config.
(** The clients of the other workers leave room in the counter. *)
Hypothesis Hothers : 0 <= others <= u64_max - kDescriptors.

Abbreviation among := (among config others).

Lemma conn_ok_new peer : conn_ok config (new_connection peer (protocol config)).
Proof. destruct Hconfig as [[? ?] ?]. by split. Qed.

Lemma among_opened fd c wk w :
  among wk w -> wk_connections wk !! fd = None -> is_fd fd -> conn_ok config c ->
  among (put_conn fd c wk) (on_metrics connection_opened w).
Proof.
  intros [Hw Hok Hn] Hfd Hf Hc. pose proof (worker_ok_put config fd c wk Hok Hf Hc) as Hok'.
  pose proof (open_clients_bound config _ Hok'). split; [done|done|]. rewrite open_new in * by done.
  unfold clients in *. cbn. rewrite u64_small; [lia|]. unfold u64_max in *. lia.
Qed.

Lemma among_closed fd c wk w :
  among wk w -> wk_connections wk !! fd = Some c ->
  among (drop_conn fd (close_client fd wk)) (on_metrics connection_closed w).
Proof.
  intros [Hw Hok Hn] Hfd. apply (worker_ok_close config fd) in Hok. change (open_clients wk) with (open_clients (close_client fd wk)) in Hn.
  change (wk_connections wk) with (wk_connections (close_client fd wk)) in Hfd. revert Hok Hn Hfd.
  generalize (close_client fd wk). clear wk. intros wk Hok Hn Hfd. pose proof (worker_ok_drop config fd wk Hok) as Hok'.
  pose proof (open_clients_bound config _ Hok') as Hb. rewrite (open_drop fd c wk) in Hb by done.
  split; [done|done|]. rewrite (open_drop fd c wk) by done. unfold clients in *. cbn. unfold connection_closed.
  destruct (Z.eqb_spec (m_connected_clients (w_metrics w)) 0); cbn; lia.
Qed.

(** Only the connections matter for the invariant, not the interest or what was
    closed before. *)
Lemma among_interest pending conns i i' cl cl' w :
  among (MkWorker pending conns i cl) w -> among (MkWorker pending conns i' cl') w.
Proof. intros [? [? ?] ?]. split; [done|by split|done]. Qed.

Lemma drop_put fd c wk :
  wk_connections wk !! fd = None -> wk_connections (drop_conn fd (put_conn fd c wk)) = wk_connections wk.
Proof. intros Hfd. cbn. by apply delete_insert_id. Qed.

Lemma install_all_ok added pending wk w :
  among wk w -> Forall (fun fp => is_fd fp.1) pending ->
  wp (install_all added pending wk) among w.
Proof.
  intros Ha Hp. revert added wk w Ha. induction Hp as [|[fd peer] pending Hfd Hp IH]; intros added wk w Ha;
    cbn [install_all]; [by apply wp_ret|].
  destruct (wk_connections wk !! fd) as [c|] eqn:Hl.
  { apply IH. destruct wk as [wp wc wi cl]. by apply (among_interest _ _ wi wi cl). }
  apply wp_bind. unfold asks, wp at 1. cbn [fst snd]. destruct Ha as [Hw Hok Hn]. rewrite Hw.
  unfold register_connection. destruct (hd true added); cbn [negb].
  - apply wp_bind. unfold wp at 1, st_modify. cbn [fst snd]. apply IH.
    apply (among_interest _ _ (wk_write_interest wk) _ (wk_closed wk)). apply (among_opened fd _ wk w); try done. apply conn_ok_new.
  - apply IH. destruct wk as [wp wc wi cl]. cbn in Hl.
    apply (among_interest _ _ wi _ cl). cbn. rewrite delete_insert_id by done. by split.
Qed.

Lemma install_pending_ok added wk w : among wk w -> wp (install_pending added wk) among w.
Proof.
  intros Ha. pose proof Ha as [Hw [Hp Hc] Hn]. apply install_all_ok; [|done].
  split; [done| |done]. split; [apply List.Forall_nil|done].
Qed.

Lemma close_connection_ok fd wk w : among wk w -> wp (close_connection fd wk) among w.
Proof.
  intros Ha. unfold close_connection. destruct (wk_connections wk !! fd) as [c|] eqn:Hl; [|by apply wp_ret].
  apply wp_bind. unfold wp, st_modify. cbn [fst snd]. by eapply among_closed.
Qed.

Lemma close_list_ok fds wk w : among wk w -> wp (close_list fds wk) among w.
Proof.
  revert wk w. induction fds as [|fd fds IH]; intros wk w Ha; cbn [close_list]; [by apply wp_ret|].
  apply wp_bind. eapply wp_mono; [by apply close_connection_ok|]. exact IH.
Qed.

(** Serving a connection of the worker. *)
Lemma serve_ok r c wk w :
  among wk w -> wk_connections wk !! rd_fd r = Some c ->
  wp (serve_connection clock steady pid ss r c)
    (fun x w' => is_Some x.1.1 /\ among (put_conn (rd_fd r) x.2 wk) w') w.
Proof.
  intros [Hw Hok Hn] Hl. pose proof Hok as [Hp Hc]. destruct (Hc _ _ Hl) as [Hfd Hcok].
  eapply wp_mono; [by apply (serve_connection_ok _ _ _ _ config)|].
  intros x w' (Hs & Hx & [Hk1 Hk2]). split; [done|]. split; [congruence|by apply worker_ok_put|].
  rewrite Hk2, Hn. by rewrite (open_put _ c).
Qed.

Lemma epoll_event_ok ev wk w :
  among wk w -> wp (epoll_event clock steady pid ss ev wk) (fun x w' => is_Some x.1 /\ among x.2 w') w.
Proof.
  intros Ha. destruct ev as [added|r]; cbn [epoll_event].
  - apply wp_bind. eapply wp_mono; [by apply install_pending_ok|]. intros wk' w' Ha'. by apply wp_ret.
  - destruct (wk_connections wk !! rd_fd r) as [c|] eqn:Hl; [|by apply wp_ret].
    apply wp_bind. eapply wp_mono; [by eapply serve_ok|]. intros [[close sent] c'] w' [Hs Ha']. cbn [fst snd] in *.
    destruct close as [[]|]; [by apply wp_ret| |by destruct Hs]. apply wp_ret. split; [done|]. cbn [snd].
    unfold update_connection_interest. destruct (rd_modified r); [|done].
    by apply (among_interest _ _ (wk_write_interest wk) _ (wk_closed wk)).
Qed.

Lemma epoll_events_ok evs wk w :
  among wk w -> wp (epoll_events clock steady pid ss evs wk) (fun x w' => is_Some x.1 /\ among x.2 w') w.
Proof.
  revert wk w. induction evs as [|ev evs IH]; intros wk w Ha; cbn [epoll_events]; [by apply wp_ret|].
  apply wp_bind. eapply wp_mono; [by apply epoll_event_ok|]. intros [[close|] wk1] w1 [Hs Ha1]; [|by destruct Hs].
  apply wp_bind. eapply wp_mono; [by apply IH|]. intros [rest wk2] w2 [Hr Ha2]. apply wp_ret. split; [|done].
  cbn. by rewrite fmap_is_Some.
Qed.

(** A turn of either loop ends and keeps the invariant. *)
Lemma epoll_turn_ok evs wk w :
  among wk w -> wp (epoll_turn clock steady pid ss evs wk) (fun x w' => exists wk', x = Some wk' /\ among wk' w') w.
Proof.
  intros Ha. unfold epoll_turn. apply wp_bind. eapply wp_mono; [by apply epoll_events_ok|].
  intros [[fds|] wk1] w1 [Hs Ha1]; [|by destruct Hs]. apply wp_bind. eapply wp_mono; [by apply close_list_ok|].
  intros wk2 w2 Ha2. apply wp_ret. by eexists.
Qed.

Lemma poll_clients_ok rs wk w :
  among wk w -> wp (poll_clients clock steady pid ss rs wk) (fun x w' => is_Some x.1 /\ among x.2 w') w.
Proof.
  revert wk w. induction rs as [|r rs IH]; intros wk w Ha; cbn [poll_clients]; [by apply wp_ret|].
  destruct (wk_connections wk !! rd_fd r) as [c|] eqn:Hl; [|by apply IH].
  apply wp_bind. eapply wp_mono; [by eapply serve_ok|]. intros [[[close|] sent] c'] w' [Hs Ha']; [|by destruct Hs].
  apply wp_bind. eapply wp_mono; [by apply IH|]. intros [rest wk2] w2 [Hr Ha2]. apply wp_ret. split; [|done].
  cbn. by rewrite fmap_is_Some.
Qed.

Lemma poll_turn_ok wakeup rs wk w :
  among wk w ->
  wp (poll_turn clock steady pid ss wakeup rs wk) (fun x w' => exists wk', x = Some wk' /\ among wk' w') w.
Proof.
  intros Ha. unfold poll_turn. apply wp_bind. eapply wp_mono with (P := among).
  { destruct wakeup; [by apply install_pending_ok|by apply wp_ret]. }
  intros wk1 w1 Ha1. apply wp_bind. eapply wp_mono; [by apply poll_clients_ok|].
  intros [[fds|] wk2] w2 [Hs Ha2]; [|by destruct Hs]. apply wp_bind. eapply wp_mono; [by apply close_list_ok|].
  intros wk3 w3 Ha3. apply wp_ret. by eexists.
Qed.

Lemma close_each_ok fds wk w :
  w_config w = config -> clients w = others + Z.of_nat (length fds) ->
  wp (close_each fds wk) (fun wk' w' => wk_pending wk' = wk_pending wk /\ w_config w' = config /\ clients w' = others) w.
Proof.
  revert wk w. induction fds as [|fd fds IH]; intros wk w Hw Hn; cbn [close_each length] in *.
  { apply wp_ret. split; [done|]. split; [done|lia]. }
  apply wp_bind. unfold wp at 1, st_modify. cbn [fst snd]. apply (IH (close_client fd wk)); [done|]. unfold clients in *. cbn.
  unfold connection_closed. destruct (Z.eqb_spec (m_connected_clients (w_metrics w)) 0); cbn; lia.
Qed.

Lemma close_all_ok wk w : among wk w -> wp (close_all_connections wk) among w.
Proof.
  intros [Hw [Hp Hc] Hn]. unfold close_all_connections. apply wp_bind. eapply wp_mono; [apply close_each_ok|].
  - done.
  - by rewrite Hn, length_fmap, length_map_to_list.
  - intros wk' w' (Hpd & Hw' & Hn'). apply wp_ret. split; [done| |unfold open_clients; cbn [wk_connections]; rewrite map_size_empty; lia].
    split; [cbn; by rewrite Hpd|apply map_Forall_empty].
Qed.
End Workers.

(** * Write interest *)

Section Interest.
Context `{Platform}.
Variables (clock : nat -> Z) (steady : nat -> Z) (pid : Z) (ss : option SnapshotStore).

(** [EPOLL_CTL_MOD] succeeds for the connections of the batch. *)
Definition modifies (ev : LoopEvent) : Prop := match ev with Wakeup _ => True | Client r => rd_modified r = true end.

Lemma armed_mono closing closing' wk :
  (forall fd, fd ∈ closing -> fd ∈ closing') -> armed closing wk -> armed closing' wk.
Proof. intros Hsub Ha fd c Hl Hn. apply (Ha fd c Hl). auto. Qed.

Lemma armed_install_all added pending closing wk w :
  armed closing wk -> wp (install_all added pending wk) (fun wk' _ => armed closing wk') w.
Proof.
  revert added wk w. induction pending as [|[fd peer] pending IH]; intros added wk w Ha; cbn [install_all];
    [by apply wp_ret|].
  destruct (wk_connections wk !! fd) as [c|] eqn:Hl; [by apply IH|].
  apply wp_bind. unfold asks, wp at 1. cbn [fst snd]. unfold register_connection.
  destruct (hd true added); cbn [negb].
  - apply wp_bind. unfold wp at 1, st_modify. cbn [fst snd]. apply IH. intros fd' c'. cbn.
    destruct (decide (fd' = fd)) as [->|Hne].
    + rewrite lookup_insert_eq. intros [= <-] _. cbn. set_solver.
    + rewrite lookup_insert_ne by done. intros Hl' Hn. specialize (Ha fd' c' Hl' Hn). set_solver.
  - apply IH. intros fd' c'. cbn. rewrite delete_insert_id by done. intros Hl' Hn.
    specialize (Ha fd' c' Hl' Hn). assert (fd' <> fd) by congruence. set_solver.
Qed.

Lemma armed_event ev closing wk w :
  modifies ev -> armed closing wk ->
  wp (epoll_event clock steady pid ss ev wk)
    (fun x _ => forall close, x.1 = Some close -> armed (closing ++ option_list close) x.2) w.
Proof.
  intros Hm Ha. destruct ev as [added|r]; cbn [epoll_event].
  - apply wp_bind. eapply wp_mono; [apply (armed_install_all _ _ closing); exact Ha|]. intros wk' w' Ha'.
    apply wp_ret. intros close [= <-]. by rewrite app_nil_r.
  - destruct (wk_connections wk !! rd_fd r) as [c|] eqn:Hl.
    2: { apply wp_ret. intros close [= <-]. by rewrite app_nil_r. }
    apply wp_bind, wp_any. intros [[[[]|] sent] c'] w'; apply wp_ret; [intros ? [= <-]|intros ? [= <-]|done];
      cbn [option_list snd].
    + intros fd c1 Hl1 Hn. assert (fd <> rd_fd r /\ fd ∉ closing) as [Hne Hn'] by set_solver. cbn in Hl1.
      rewrite lookup_insert_ne in Hl1 by done. apply (Ha fd c1 Hl1 Hn').
    + rewrite app_nil_r. unfold update_connection_interest. cbn in Hm. rewrite Hm. intros fd c1. cbn.
      destruct (decide (fd = rd_fd r)) as [->|Hne].
      * rewrite lookup_insert_eq. intros [= <-] _. destruct (c_write_buffer c'); cbn; [set_solver|].
        rewrite (proj2 (Z.eqb_neq _ _)) by (unfold bsize; cbn; lia). set_solver.
      * rewrite lookup_insert_ne by done. intros Hl1 Hn. specialize (Ha fd c1 Hl1 Hn). case_match; set_solver.
Qed.

Lemma armed_events evs closing wk w :
  Forall modifies evs -> armed closing wk ->
  wp (epoll_events clock steady pid ss evs wk)
    (fun x _ => forall fds, x.1 = Some fds -> armed (closing ++ fds) x.2) w.
Proof.
  intros Hm. revert closing wk w. induction Hm as [|ev evs Hev Hm IH]; intros closing wk w Ha; cbn [epoll_events].
  { apply wp_ret. intros fds [= <-]. by rewrite app_nil_r. }
  apply wp_bind. eapply wp_mono; [by apply armed_event|]. intros [[close|] wk1] w1 Ha1; [|by apply wp_ret].
  apply wp_bind. eapply wp_mono; [apply (IH (closing ++ option_list close)), Ha1; done|].
  intros [rest wk2] w2 Ha2. apply wp_ret. intros fds. cbn [fst snd] in *. intros Hf.
  destruct rest as [rest|]; [|done]. injection Hf as <-. rewrite app_assoc. by apply Ha2.
Qed.

(** Closing takes the connections off the list one by one. *)
Lemma armed_close_list fds wk w :
  armed fds wk -> wp (close_list fds wk) (fun wk' _ => armed [] wk') w.
Proof.
  revert wk w. induction fds as [|fd fds IH]; intros wk w Ha; cbn [close_list]; [by apply wp_ret|].
  apply wp_bind. unfold close_connection. destruct (wk_connections wk !! fd) as [c|] eqn:Hl.
  - apply wp_bind. unfold wp at 1, st_modify. cbn [fst snd]. apply wp_ret, IH. intros fd' c'. cbn.
    intros Hl'. apply lookup_delete_Some in Hl' as [Hne Hl']. intros Hn.
    specialize (Ha fd' c' Hl' ltac:(set_solver)). set_solver.
  - apply wp_ret, IH. intros fd' c' Hl' Hn. apply (Ha fd' c' Hl'). assert (fd' <> fd) by congruence. set_solver.
Qed.

Lemma armed_turn evs wk w :
  Forall modifies evs -> armed [] wk ->
  wp (epoll_turn clock steady pid ss evs wk) (fun x _ => forall wk', x = Some wk' -> armed [] wk') w.
Proof.
  intros Hm Ha. unfold epoll_turn. apply wp_bind. eapply wp_mono; [by apply (armed_events evs [])|].
  intros [[fds|] wk1] w1 Ha1; [|by apply wp_ret]. apply wp_bind. eapply wp_mono.
  { apply armed_close_list. by apply Ha1. }
  intros wk2 w2 Ha2. apply wp_ret. by intros wk' [= <-].
Qed.
End Interest.

(** * Client sockets *)

(** The descriptors a worker holds: those of its connections, and with those
    that wait to be installed. *)
Definition installed (wk : Worker) : gmultiset Z := list_to_set_disj (map_to_list (wk_connections wk)).*1.

Definition waiting (wk : Worker) : gmultiset Z := list_to_set_disj (wk_pending wk).*1.

(** Every descriptor the worker was ever given: closed, installed or waiting. *)
Definition account (wk : Worker) : gmultiset Z := wk_closed wk ⊎ installed wk ⊎ waiting wk.

(** Reduces the fields of workers, and no operation on multisets. *)
Ltac fields :=
  cbn [close_client add_connection put_conn drop_conn wk_pending wk_connections wk_closed fst snd] in *;
  rewrite ?fmap_cons, ?fmap_nil, ?list_to_set_disj_cons, ?list_to_set_disj_nil; cbn [fst].

Ltac balance := unfold account, installed, waiting in *; fields; multiset_solver.

Lemma installed_new fd c wk :
  wk_connections wk !! fd = None -> installed (put_conn fd c wk) = {[+ fd +]} ⊎ installed wk.
Proof.
  intros Hfd. unfold installed. cbn [put_conn wk_connections].
  rewrite (list_to_set_disj_perm _ _ (fmap_Permutation fst _ _ (map_to_list_insert _ fd c Hfd))). done.
Qed.

Lemma installed_drop fd c wk :
  wk_connections wk !! fd = Some c -> installed wk = {[+ fd +]} ⊎ installed (drop_conn fd wk).
Proof.
  intros Hfd. unfold installed. cbn [drop_conn wk_connections].
  rewrite <- (list_to_set_disj_perm _ _ (fmap_Permutation fst _ _ (map_to_list_delete _ fd c Hfd))). done.
Qed.

Lemma installed_put fd c c' wk :
  wk_connections wk !! fd = Some c -> installed (put_conn fd c' wk) = installed wk.
Proof.
  intros Hfd. rewrite (installed_drop fd c wk Hfd), <- (installed_new fd c' (drop_conn fd wk)).
  - unfold installed. cbn. by rewrite insert_delete_eq.
  - cbn. apply lookup_delete_eq.
Qed.

Lemma account_add fd peer wk : account (add_connection fd peer wk) = {[+ fd +]} ⊎ account wk.
Proof.
  unfold account, waiting. fields. rewrite fmap_app, list_to_set_disj_app. balance.
Qed.

(** Serving clients closes what it does not keep. *)
Section Sockets.
Context `{Platform}.
Variables (clock : nat -> Z) (steady : nat -> Z) (pid : Z) (ss : option SnapshotStore).

Lemma account_install added pending wk w :
  wp (install_all added pending wk) (fun wk' _ => account wk' = account wk ⊎ list_to_set_disj pending.*1) w.
Proof.
  revert added wk w. induction pending as [|[fd peer] pending IH]; intros added wk w; cbn [install_all].
  { apply wp_ret. balance. }
  destruct (wk_connections wk !! fd) as [c|] eqn:Hl.
  { eapply wp_mono; [apply IH|]. cbv beta. intros wk' w' ->. balance. }
  apply wp_bind. unfold asks, wp at 1. cbn [fst snd]. unfold register_connection.
  destruct (hd true added); cbn [negb].
  - apply wp_bind. unfold wp at 1, st_modify. cbn [fst snd]. eapply wp_mono; [apply IH|]. cbv beta. intros wk' w' ->.
    pose proof (installed_new fd (new_connection peer (protocol (w_config w))) wk Hl) as Hn.
    unfold account, installed in *. fields. rewrite Hn. balance.
  - eapply wp_mono; [apply IH|]. cbv beta. intros wk' w' ->.
    unfold account, installed. fields. rewrite delete_insert_id by done. balance.
Qed.

Lemma account_install_pending added wk w :
  wp (install_pending added wk) (fun wk' _ => account wk' = account wk) w.
Proof.
  eapply wp_mono; [apply account_install|]. cbv beta. intros wk' w' ->.
  balance.
Qed.

Lemma account_close_connection fd wk w :
  wp (close_connection fd wk) (fun wk' _ => account wk' = account wk) w.
Proof.
  unfold close_connection. destruct (wk_connections wk !! fd) as [c|] eqn:Hl; [|by apply wp_ret].
  apply wp_bind. unfold wp, st_modify. cbn [fst snd]. unfold account.
  rewrite (installed_drop fd c wk Hl). balance.
Qed.

Lemma account_close_list fds wk w : wp (close_list fds wk) (fun wk' _ => account wk' = account wk) w.
Proof.
  revert wk w. induction fds as [|fd fds IH]; intros wk w; cbn [close_list]; [by apply wp_ret|].
  apply wp_bind. eapply wp_mono; [apply account_close_connection|]. cbv beta. intros wk1 w1 <-. apply IH.
Qed.

Lemma account_put fd c c' wk :
  wk_connections wk !! fd = Some c -> account (put_conn fd c' wk) = account wk.
Proof. intros Hl. unfold account. by rewrite (installed_put fd c). Qed.

Lemma account_event ev wk w :
  wp (epoll_event clock steady pid ss ev wk) (fun x _ => account x.2 = account wk) w.
Proof.
  destruct ev as [added|r]; cbn [epoll_event].
  - apply wp_bind. eapply wp_mono; [apply account_install_pending|]. intros wk' w' ?. by apply wp_ret.
  - destruct (wk_connections wk !! rd_fd r) as [c|] eqn:Hl; [|by apply wp_ret].
    apply wp_bind, wp_any. intros [[[[]|] sent] c'] w'; apply wp_ret; cbn [snd].
    1, 3: by eapply account_put.
    rewrite <- (account_put _ c c' wk Hl). unfold update_connection_interest. by destruct (rd_modified r).
Qed.

Lemma account_events evs wk w :
  wp (epoll_events clock steady pid ss evs wk) (fun x _ => account x.2 = account wk) w.
Proof.
  revert wk w. induction evs as [|ev evs IH]; intros wk w; cbn [epoll_events]; [by apply wp_ret|].
  apply wp_bind. eapply wp_mono; [apply account_event|]. intros [[close|] wk1] w1 H1; [|by apply wp_ret].
  apply wp_bind. eapply wp_mono; [apply IH|]. intros [rest wk2] w2 H2. apply wp_ret. cbn in *. congruence.
Qed.

Lemma account_turn evs wk w :
  wp (epoll_turn clock steady pid ss evs wk) (fun x _ => forall wk', x = Some wk' -> account wk' = account wk) w.
Proof.
  unfold epoll_turn. apply wp_bind. eapply wp_mono; [apply account_events|].
  intros [[fds|] wk1] w1 H1; [|by apply wp_ret]. apply wp_bind. eapply wp_mono; [apply account_close_list|].
  intros wk2 w2 H2. apply wp_ret. intros wk' [= <-]. cbn in *. congruence.
Qed.

Lemma closed_each fds wk w :
  wp (close_each fds wk) (fun wk' _ => wk_pending wk' = wk_pending wk /\
                                       wk_closed wk' = wk_closed wk ⊎ list_to_set_disj fds) w.
Proof.
  revert wk w. induction fds as [|fd fds IH]; intros wk w; cbn [close_each].
  { apply wp_ret. split; [done|]. balance. }
  apply wp_bind. unfold wp at 1, st_modify. cbn [fst snd]. eapply wp_mono; [apply IH|]. cbv beta.
  intros wk' w' [-> ->]. split; [done|]. balance.
Qed.

(** A thread that ends has closed everything but what was never installed. *)
Lemma account_close_all wk w :
  wp (close_all_connections wk) (fun wk' _ => account wk' = account wk /\ installed wk' = ∅) w.
Proof.
  unfold close_all_connections. apply wp_bind. eapply wp_mono; [apply closed_each|]. cbv beta.
  intros wk' w' [Hp Hc]. apply wp_ret. unfold account, installed, waiting. fields. rewrite Hp, Hc, map_to_list_empty.
  split; [|done]. balance.
Qed.
End Sockets.
