(* ===== verification/NetProps.v ===== *)
(** The TCP server as a whole: its reachable states, and the properties of
    connections, workers and conversations. *)
From stdpp Require Import gmultiset.
From S2P Require Import Prelude Util Config Resp RespFacts Storage Fs Aof Snapshot Metrics Commands.
From S2P Require Import Recovery PersistFacts RecoveryProps Frames Durability Net NetFacts NetInv.

(** * The transition system *)

Record NetState := MkNet { n_workers : list Worker; n_acceptor : Acceptor; n_world : World }.

(** The accept loop finds connections, a worker's loop has a batch of events
    (with [epoll] or with [poll]), a worker's loop ends, or another thread
    (expiration, log writer) changes the world. *)
Inductive NetEvent :=
  | EAccept (evs : list AcceptEvent)
  | EEpoll (i : nat) (evs : list LoopEvent)
  | EPoll (i : nat) (wakeup : bool) (rs : list Ready)
  | EStop (i : nat)
  | EOther (w : World).

(** * Client sockets *)

(** The descriptors given to the workers. *)
Fixpoint accounts_of (ws : list Worker) : gmultiset Z :=
  match ws with [] => ∅ | wk :: ws => account wk ⊎ accounts_of ws end.

(** Every descriptor [accept] returned was closed at once or given to a worker;
    [base] are those the workers had before. *)
Definition balanced (base : gmultiset Z) (ws : list Worker) (ac : Acceptor) : Prop :=
  base ⊎ ac_accepted ac = ac_closed ac ⊎ accounts_of ws.

Lemma accounts_of_app ws1 ws2 : accounts_of (ws1 ++ ws2) = accounts_of ws1 ⊎ accounts_of ws2.
Proof. induction ws1 as [|wk ws1 IH]; cbn [accounts_of app]; [multiset_solver|]. rewrite IH. multiset_solver. Qed.

Lemma accounts_of_insert i wk wk' ws :
  ws !! i = Some wk -> account wk' = account wk -> accounts_of (<[i := wk']> ws) = accounts_of ws.
Proof.
  intros Hi Ha. rewrite <- (take_drop_middle ws i wk Hi) at 2. rewrite (insert_take_drop ws i wk') by (by eapply lookup_lt_Some).
  rewrite !accounts_of_app. cbn [accounts_of]. by rewrite Ha.
Qed.

Lemma accounts_of_hand_over i fd peer ws :
  (i < length ws)%nat -> accounts_of (hand_over i fd peer ws) = {[+ fd +]} ⊎ accounts_of ws.
Proof.
  unfold hand_over. revert i. induction ws as [|wk ws IH]; intros i Hi; [cbn in Hi; lia|]. destruct i as [|i].
  - change (alter ?f 0%nat (wk :: ws)) with (f wk :: ws). cbn [accounts_of]. rewrite account_add. multiset_solver.
  - change (alter ?f (S i) (wk :: ws)) with (wk :: alter f i ws). cbn [accounts_of].
    rewrite IH by (cbn in Hi; lia). multiset_solver.
Qed.

Lemma accept_ready_balanced base evs ws ac w :
  balanced base ws ac -> wp (accept_ready evs ws ac) (fun x _ => balanced base x.1 x.2) w.
Proof.
  unfold balanced. revert ws ac w. induction evs as [|[fd peer|] evs IH]; intros ws ac w Hb; cbn [accept_ready]; try by apply wp_ret.
  apply wp_bind, wp_any. intros st w1. destruct (negb (ok_status st)).
  { apply IH. cbn [refuse note_accepted ac_accepted ac_closed]. revert Hb. multiset_solver. }
  apply wp_bind, wp_any. intros m w2. apply wp_bind, wp_any. intros config w3.
  destruct (_ || bool_decide (ws = [])) eqn:Hfull.
  { apply IH. cbn [refuse note_accepted ac_accepted ac_closed]. revert Hb. multiset_solver. }
  apply orb_false_iff in Hfull as [_ Hne]. apply bool_decide_eq_false in Hne. apply IH.
  cbn [advance note_accepted ac_accepted ac_closed]. rewrite accounts_of_hand_over; [revert Hb; multiset_solver|].
  assert (0 < Z.of_nat (length ws)) as Hpos by (destruct ws; [done|cbn; lia]).
  pose proof (Z.mod_pos_bound (next_worker ac) _ Hpos). cbn [note_accepted next_worker]. lia.
Qed.

Section System.
Context `{Platform}.
Variables (clock : nat -> Z) (steady : nat -> Z) (pid : Z) (ss : option SnapshotStore).

(** Runs a worker's operation. *)
Definition at_worker (i : nat) (op : Worker -> CmdM (option Worker)) (st : NetState) : option NetState :=
  wk ← n_workers st !! i;
  let '(r, w) := op wk (n_world st) in
  wk' ← r;
  Some (MkNet (<[i := wk']> (n_workers st)) (n_acceptor st) w).

Definition net_do (ev : NetEvent) (st : NetState) : option NetState :=
  match ev with
  | EAccept evs =>
      let '(ws, ac, w) := accept_ready evs (n_workers st) (n_acceptor st) (n_world st) in
      Some (MkNet ws ac w)
  | EEpoll i evs => at_worker i (epoll_turn clock steady pid ss evs) st
  | EPoll i wakeup rs => at_worker i (poll_turn clock steady pid ss wakeup rs) st
  | EStop i => at_worker i (fun wk => Some <$> close_all_connections wk) st
  | EOther w => Some (MkNet (n_workers st) (n_acceptor st) w)
  end.

Definition accept_ok (e : AcceptEvent) : Prop :=
  match e with Accepted fd _ => is_fd fd | AcceptFailed => True end.

(** Descriptors are descriptors, and the other threads leave the configuration
    and the number of clients alone. *)
Definition event_ok (ev : NetEvent) (st : NetState) : Prop :=
  match ev with
  | EAccept evs => Forall accept_ok evs
  | EOther w => kept (n_world st) w
  | _ => True
  end.

Inductive net_step : NetState -> NetState -> Prop :=
  | net_step_intro ev st st' : event_ok ev st -> net_do ev st = Some st' -> net_step st st'.

(** A server that has just started its workers. *)
Definition net_start (config : Config) (st : NetState) : Prop :=
  w_config (n_world st) = config /\ clients (n_world st) = 0 /\
  Forall (fun wk => wk = new_worker) (n_workers st) /\ Z.of_nat (length (n_workers st)) <= 2 ^ 32.

(** * The invariant *)

Fixpoint total_clients (ws : list Worker) : Z :=
  match ws with [] => 0 | wk :: ws => open_clients wk + total_clients ws end.

Record net_inv (config : Config) (st : NetState) : Prop := MkNetInv {
  ni_config : w_config (n_world st) = config;
  ni_workers : Forall (worker_ok config) (n_workers st);
  ni_clients : clients (n_world st) = total_clients (n_workers st);
  ni_count : Z.of_nat (length (n_workers st)) <= 2 ^ 32
}.

Lemma total_clients_app ws1 ws2 : total_clients (ws1 ++ ws2) = total_clients ws1 + total_clients ws2.
Proof. induction ws1 as [|wk ws1 IH]; cbn [total_clients app]; lia. Qed.

Lemma total_clients_bound config ws :
  Forall (worker_ok config) ws -> 0 <= total_clients ws <= Z.of_nat (length ws) * kDescriptors.
Proof.
  induction 1 as [|wk ws Hwk _ IH]; cbn [total_clients length]; [lia|].
  pose proof (open_clients_bound config wk Hwk). lia.
Qed.

(** A worker's operation, seen among the other workers. *)
Lemma at_worker_ok config i op st :
  (forall others wk w, 0 <= others <= u64_max - kDescriptors -> among config others wk w ->
     wp (op wk) (fun x w' => exists wk', x = Some wk' /\ among config others wk' w') w) ->
  net_inv config st -> (i < length (n_workers st))%nat ->
  exists st', at_worker i op st = Some st' /\ net_inv config st'.
Proof.
  intros Hop [Hw Hws Hn Hlen] Hi. destruct (lookup_lt_is_Some_2 _ _ Hi) as [wk Hwk].
  unfold at_worker. rewrite Hwk. cbn [mbind option_bind].
  pose proof (take_drop_middle _ _ _ Hwk) as Hsplit. rewrite <- Hsplit, Forall_app, list.Forall_cons in Hws.
  destruct Hws as (Hws1 & Hwkok & Hws2). rewrite <- Hsplit, total_clients_app in Hn. cbn [total_clients] in Hn.
  pose proof (total_clients_bound config _ Hws1) as Hb1. pose proof (total_clients_bound config _ Hws2) as Hb2.
  pose proof (f_equal length Hsplit) as Hl. rewrite length_app in Hl. cbn [length] in Hl.
  specialize (Hop (total_clients (take i (n_workers st)) + total_clients (drop (S i) (n_workers st))) wk (n_world st)).
  destruct (op wk (n_world st)) as [r w'] eqn:Hr.
  eapply wp_run in Hr; [|apply Hop; [unfold kDescriptors, u64_max in *; lia|split; [done|done|lia]]].
  destruct Hr as (wk' & -> & [Hw' Hok' Hn']). eexists. split; [done|].
  assert (Hins : <[i := wk']> (n_workers st) = take i (n_workers st) ++ wk' :: drop (S i) (n_workers st))
    by (by apply insert_take_drop).
  split; cbn [n_workers n_world]; [done| | |by rewrite length_insert].
  - rewrite Hins, Forall_app, list.Forall_cons. done.
  - rewrite Hins, total_clients_app. cbn [total_clients]. lia.
Qed.

Lemma hand_over_ok config i fd peer ws :
  is_fd fd -> Forall (worker_ok config) ws ->
  Forall (worker_ok config) (hand_over i fd peer ws) /\ total_clients (hand_over i fd peer ws) = total_clients ws /\
  length (hand_over i fd peer ws) = length ws.
Proof.
  intros Hfd Hws. unfold hand_over. split; [|split; [|apply length_alter]].
  - apply Forall_alter; [done|]. intros wk Hl [Hp Hc]. split; [|done]. cbn. apply Forall_app. by split; [|apply List.Forall_cons].
  - clear Hws. revert i. induction ws as [|wk ws IH]; intros [|i]; cbn; [done..|]. by rewrite IH.
Qed.

Lemma accept_ready_ok config evs ws ac w :
  Forall accept_ok evs -> Forall (worker_ok config) ws ->
  wp (accept_ready evs ws ac)
    (fun x w' => kept w w' /\ Forall (worker_ok config) x.1 /\ total_clients x.1 = total_clients ws /\
                 length x.1 = length ws) w.
Proof.
  intros Hev. revert ws ac w. induction Hev as [|e evs He Hev IH]; intros ws ac w Hws; cbn [accept_ready].
  { apply wp_ret. done. }
  destruct e as [fd peer|]; [|by apply wp_ret]. apply wp_bind. unfold wp at 1.
  assert (Hk : kept w (lift_sys set_nonblocking w).2)
    by (split; [apply (keeps_lift w_config)|apply (keeps_lift (fun w => m_connected_clients (w_metrics w)))]).
  assert (Hmono : forall x w1 w2, kept w w1 ->
    kept w1 w2 /\ Forall (worker_ok config) x.1 /\ total_clients x.1 = total_clients ws /\ length x.1 = length ws ->
    kept w w2 /\ Forall (worker_ok config) x.1 /\ total_clients x.1 = total_clients ws /\
    length (x : list Worker * Acceptor).1 = length ws)
    by (intros x w1 w2 H1 (H2 & H3); split; [by eapply kept_trans|done]).
  destruct (lift_sys set_nonblocking w) as [st w1]. cbn [fst snd] in *.
  destruct (negb (ok_status st)).
  { eapply wp_mono; [by apply IH|]. intros x w2. by apply Hmono. }
  apply wp_bind. unfold asks at 1, wp at 1. cbn [fst snd]. apply wp_bind. unfold asks, wp at 1. cbn [fst snd].
  destruct (_ || _).
  { eapply wp_mono; [by apply IH|]. intros x w2. by apply Hmono. }
  destruct (hand_over_ok config (Z.to_nat (next_worker (note_accepted fd ac) mod Z.of_nat (length ws))) fd peer ws He Hws) as (H1 & H2 & H3).
  eapply wp_mono; [by apply IH|]. intros x w2. rewrite H2, H3. by apply Hmono.
Qed.

Section Config.
Variable config : Config.
Hypothesis Hconfig : net_config config.

(** Every worker's turn ends. *)
Lemma turn_ok ev st :
  net_inv config st ->
  (exists i, (i < length (n_workers st))%nat /\
     ((exists evs, ev = EEpoll i evs) \/ (exists wakeup rs, ev = EPoll i wakeup rs) \/ ev = EStop i)) ->
  exists st', net_do ev st = Some st' /\ net_inv config st'.
Proof.
  intros Hinv (i & Hi & [[evs ->]|[(wakeup & rs & ->)| ->]]); cbn [net_do]; apply at_worker_ok; try done;
    intros others wk w Ho Ha.
  - by apply epoll_turn_ok.
  - by apply poll_turn_ok.
  - pose proof (close_all_ok config others Ho wk w Ha) as Hc. unfold wp in *. unfold fmap, St_fmap.
    destruct (close_all_connections wk w). cbn in *. by eexists.
Qed.

Lemma net_step_ok st st' : net_inv config st -> net_step st st' -> net_inv config st'.
Proof.
  intros Hinv Hstep. destruct Hstep as [ev s s' Hok Hdo].
  assert (Hturn : forall i op, at_worker i op s = Some s' -> (i < length (n_workers s))%nat).
  { unfold at_worker. intros i op Hat. apply lookup_lt_is_Some. by destruct (n_workers s !! i). }
  pose proof (turn_ok ev s Hinv) as Hok'. destruct ev as [evs|i evs|i wakeup rs|i|w]; cbn [net_do] in Hdo, Hok'.
  2-4: destruct Hok' as (s2 & Hs2 & Hinv2); [exists i; split; [by eapply Hturn|by eauto 6]|congruence].
  - destruct Hinv as [Hw Hws Hn Hlen]. cbn in Hok.
    pose proof (accept_ready_ok config evs (n_workers s) (n_acceptor s) (n_world s) Hok Hws) as Ha.
    unfold wp in Ha. destruct (accept_ready evs _ _ _) as [[ws ac] w]. cbn in Ha. destruct Ha as ([? ?] & ? & ? & Hl).
    injection Hdo as <-. split; cbn [n_world n_workers]; [congruence|done|congruence|by rewrite Hl].
  - injection Hdo as <-. destruct Hinv, Hok as [? ?]. split; cbn [n_world n_workers]; [congruence|done|congruence|done].
Qed.

Lemma reachable_ok st st' : net_start config st -> rtc net_step st st' -> net_inv config st'.
Proof.
  intros (Hw & Hn & Hws & Hlen) Hr. assert (Hinv : net_inv config st).
  { assert (Forall (worker_ok config) (n_workers st) /\ total_clients (n_workers st) = 0) as [? ?]; [|by split; [done..|congruence|done]].
    clear Hlen. induction Hws as [|wk ws -> _ [IH1 IH2]]; [done|]. cbn [total_clients]. split; [|by rewrite IH2].
    apply List.Forall_cons; [|done]. split; [by apply List.Forall_nil|apply map_Forall_empty]. }
  clear Hw Hn Hws Hlen. induction Hr as [|st1 st2 st3 Hstep _ IH]; [done|]. eapply IH, net_step_ok; eauto.
Qed.
End Config.

(** A sequence of events. *)
Fixpoint net_run (evs : list NetEvent) (st : NetState) : option NetState :=
  match evs with [] => Some st | ev :: evs => st ← net_do ev st; net_run evs st end.

Lemma net_run_reaches evs st st' :
  Forall (fun ev => forall s, event_ok ev s) evs -> net_run evs st = Some st' -> rtc net_step st st'.
Proof.
  intros Hev. revert st. induction Hev as [|ev evs He _ IH]; intros st; cbn [net_run]; [by intros [= <-]|].
  destruct (net_do ev st) as [st1|] eqn:E; [|done]. intros Hr. eapply rtc_l; [by eapply net_step_intro|by apply IH].
Qed.

(** * A worker and its poller *)

(** What happens to a worker that uses [epoll], in any world. *)
Inductive worker_step : Worker -> Worker -> Prop :=
  | worker_add fd peer wk : worker_step wk (add_connection fd peer wk)
  | worker_turn evs wk wk' w w' : Forall modifies evs ->
      epoll_turn clock steady pid ss evs wk w = (Some wk', w') -> worker_step wk wk'.

Lemma armed_reachable wk : rtc worker_step new_worker wk -> armed [] wk.
Proof.
  intros Hr. assert (Ha : armed [] new_worker) by done. revert Ha.
  induction Hr as [|wk1 wk2 wk3 Hstep _ IH]; [done|]. intros Ha. apply IH.
  destruct Hstep as [fd peer wk|evs wk wk' w w' Hm Ht]; [done|].
  eapply wp_run in Ht; [|by apply armed_turn]. by apply Ht.
Qed.

(** The bytes sent over several turns in which the socket is writable. *)
Fixpoint write_turns (turns : list (list WriteEvent)) (c : Connection) : bytes :=
  match turns with
  | [] => []
  | evs :: turns =>
      let '(open_, sent, c) := write_to evs c in
      sent ++ (if (open_ : bool) then write_turns turns c else [])
  end.

(** The socket takes at least one byte, and nothing fails. *)
Fixpoint takes_some (evs : list WriteEvent) : Prop :=
  match evs with
  | WIntr :: evs => takes_some evs
  | WSent (S _) :: evs => Forall write_ok evs
  | _ => False
  end.

Lemma write_to_ends evs c :
  Forall write_ok evs -> (write_to evs c).1.1 = false -> c_write_buffer (write_to evs c).2 = [].
Proof.
  intros Hok. revert c. induction Hok as [|e evs He _ IH]; intros [peer p buf close]; cbn [write_to c_write_buffer];
    (destruct buf as [|a buf]; [done|]); [done|].
  destruct e as [[|n]| | |]; try done; [|apply IH].
  specialize (IH (MkConn peer p (drop (S n) (a :: buf)) close)). cbn [c_peer c_parser c_close_after_write] in *.
  by destruct (write_to evs _) as [[o sent] c'].
Qed.

Lemma write_to_takes evs c :
  takes_some evs -> c_write_buffer c <> [] ->
  let '(open_, _, c') := write_to evs c in
  (length (c_write_buffer c') < length (c_write_buffer c))%nat /\ (open_ = false -> c_write_buffer c' = []).
Proof.
  induction evs as [|[[|n]| | |] evs IH]; intros Ht Hne; try done.
  - clear IH. destruct c as [peer p [|a buf] close]; [done|]. cbn [write_to c_write_buffer c_peer c_parser c_close_after_write].
    pose proof (write_to_ends evs (MkConn peer p (drop (S n) (a :: buf)) close) Ht) as He.
    pose proof (write_to_prefix evs (MkConn peer p (drop (S n) (a :: buf)) close)) as Hp.
    destruct (write_to evs _) as [[o sent] c']. destruct Hp as [Hp _]. cbn [c_write_buffer fst snd] in *.
    apply (f_equal length) in Hp. rewrite length_drop, length_app in Hp. cbn [length] in *. split; [lia|done].
  - cbn [write_to]. destruct (c_write_buffer c) as [|a buf] eqn:Hb; [done|]. by apply IH.
Qed.

Lemma write_turns_all turns c :
  Forall takes_some turns -> (length (c_write_buffer c) <= length turns)%nat ->
  write_turns turns c = c_write_buffer c.
Proof.
  intros Ht. revert c. induction Ht as [|evs turns Hevs Ht IH]; intros c Hl; cbn [write_turns length] in *.
  { by destruct (c_write_buffer c); [|cbn in Hl; lia]. }
  pose proof (write_to_prefix evs c) as Hp. pose proof (write_to_takes evs c Hevs) as Htk.
  destruct (write_to evs c) as [[o sent] c']. destruct Hp as [Hp _]. rewrite Hp. f_equal.
  destruct (c_write_buffer c) as [|a buf] eqn:Hb.
  - symmetry in Hp. apply app_nil in Hp as [-> Hp]. destruct o; [|done]. apply IH. rewrite Hp. cbn. lia.
  - destruct Htk as [Hlt Hend]; [done|]. destruct o; [apply IH; cbn in *; lia|by rewrite Hend].
Qed.
End System.

(** * The properties *)

(** C7. Pipelining: a client may send its commands back to back, and the network
    may cut requests and replies anywhere and interleave reading and writing in
    any way.  As long as the commands, in the form [encode_command] writes, leave
    room for one read in [max_request_bytes], none of them closes the connection
    and the replies fit the output limit, the bytes sent to the client and those
    still in its output buffer are together exactly the replies of the commands
    received in full, executed one after the other in the order sent; only the
    cut command at the end stays buffered. *)
Theorem pipelining `{Platform} clock steady pid ss cmds rest steps peer w :
  let o := parser_options_from_config (protocol (w_config w)) in
  Forall (roomy o) cmds -> limits_fit o -> Forall step_ok steps -> input steps ++ rest = log_bytes cmds ->
  exists done todo part, cmds = done ++ todo /\ input steps = log_bytes done ++ part /\ cut_at todo part /\
    let '(rs, w') := serve_all clock steady pid ss done w in
    stays_open rs -> bsize (replies rs) <= max_output_buffer_bytes (protocol (w_config w)) ->
    exists sent left,
      conn_run clock steady pid ss steps (new_connection peer (protocol (w_config w))) w
      = (Some (sent, MkConn peer (MkParser o part) left false), w') /\ sent ++ left = replies rs.
Proof.
  intros o Hr Hl Hok Heq.
  destruct (conn_served clock steady pid ss o steps cmds [] rest w Hr Hl Hok (or_introl eq_refl) Heq)
    as (cs & todo & part & -> & Hp & Hcut & Hrun).
  exists cs, todo, part. split; [done|]. split; [done|]. split; [done|]. exact (Hrun peer []).
Qed.

(** C16. The client count: in every state the server can reach, whatever its
    workers, the accept loop and the other threads do in whatever order,
    [connected_clients] is the number of connections the workers hold. *)
Theorem clients_counted `{Platform} clock steady pid ss config st st' :
  net_config config -> net_start config st -> rtc (net_step clock steady pid ss) st st' ->
  clients (n_world st') = total_clients (n_workers st').
Proof. intros Hc Hs Hr. by destruct (reachable_ok clock steady pid ss config Hc st st' Hs Hr). Qed.

(** C23. Bounded buffers: in every reachable state, a connection buffers at most
    [max_request_bytes] of input, and unless it is about to close at most
    [max_output_buffer_bytes] of replies. *)
Theorem connections_bounded `{Platform} clock steady pid ss config st st' i wk fd c :
  net_config config -> net_start config st -> rtc (net_step clock steady pid ss) st st' ->
  n_workers st' !! i = Some wk -> wk_connections wk !! fd = Some c ->
  bsize (buffer_ (c_parser c)) <= max_request_bytes (protocol config) /\
  (c_close_after_write c = false -> bsize (c_write_buffer c) <= max_output_buffer_bytes (protocol config)).
Proof.
  intros Hc Hs Hr Hi Hfd. destruct (reachable_ok clock steady pid ss config Hc st st' Hs Hr) as [_ Hws _ _].
  rewrite Forall_lookup in Hws. destruct (Hws i wk Hi) as [_ Hconns]. by destruct (Hconns fd c Hfd) as (_ & _ & ?).
Qed.

(** C22. No turn hangs: in every reachable state, whatever the sockets deliver
    (finitely many deliveries per event), a worker's turn over a batch of events
    ends, with [epoll] and with [poll]; a request cannot make the command loop
    run forever. *)
Theorem turns_terminate `{Platform} clock steady pid ss config st st' i evs wakeup rs :
  net_config config -> net_start config st -> rtc (net_step clock steady pid ss) st st' ->
  (i < length (n_workers st'))%nat ->
  is_Some (net_do clock steady pid ss (EEpoll i evs) st') /\
  is_Some (net_do clock steady pid ss (EPoll i wakeup rs) st').
Proof.
  intros Hc Hs Hr Hi. pose proof (reachable_ok clock steady pid ss config Hc st st' Hs Hr) as Hinv.
  split; (edestruct (turn_ok clock steady pid ss config Hc) as (? & ? & _);
    [exact Hinv| |by eexists]; exists i; split; [done|by eauto 6]).
Qed.

(** C21. Replies are delivered: whatever a worker did before, a connection with
    unsent replies is registered for [EPOLLOUT], as long as [epoll_ctl] works;
    and when its socket takes at least one byte each time it is reported
    writable, every byte is sent, in order, within as many turns as there are
    bytes. *)
Theorem replies_delivered `{Platform} clock steady pid ss wk fd c turns :
  rtc (worker_step clock steady pid ss) new_worker wk -> wk_connections wk !! fd = Some c ->
  Forall takes_some turns -> (length (c_write_buffer c) <= length turns)%nat ->
  (fd ∈ wk_write_interest wk <-> c_write_buffer c <> []) /\ write_turns turns c = c_write_buffer c.
Proof.
  intros Hr Hfd Ht Hl. split; [|by apply write_turns_all].
  apply (armed_reachable clock steady pid ss wk Hr fd c Hfd). apply not_elem_of_nil.
Qed.

(** * Examples *)

Definition demo_world : World := boot (fun _ => 0) kv_config (MkSys empty_fs [] 0).

Definition demo_commands : list (list bytes) :=
  [[lit "SET"; lit "k"; lit "v"]; [lit "GET"; lit "k"]; [lit "PING"]].

(** The three commands in chunks of 11 bytes, the last one cut, with replies
    written in between. *)
Definition demo_steps : list ConnStep :=
  let bs := log_bytes demo_commands in
  [Reads [take 11 bs; take 11 (drop 11 bs)]; Writes [WSent 2]; Reads [take 40 (drop 22 bs)];
   Writes [WIntr; WSent 1; WSent 2; WAgain]].

Definition roomy_check (o : ParserOptions) (c : list bytes) : bool :=
  fits_check o c && (bsize (encode_command c) + kReadBuffer <=? opt_max_request_bytes o).

Lemma roomy_check_ok o cmds : forallb (roomy_check o) cmds = true -> Forall (roomy o) cmds.
Proof.
  intros Hc. apply List.Forall_forall. intros c Hin. rewrite forallb_forall in Hc. specialize (Hc c Hin).
  unfold roomy_check in Hc. bool_to_prop. split; [|done].
  apply (List.Forall_inv (fits_check_ok o [c] ltac:(cbn; by rewrite andb_true_r))).
Qed.

Lemma pipelining_witness :
  let o := parser_options_from_config default_protocol in
  exists done todo part, demo_commands = done ++ todo /\ input demo_steps = log_bytes done ++ part /\
    cut_at todo part /\
    let '(rs, w') := serve_all demo_clock (fun _ => 0) 7 None done demo_world in
    stays_open rs -> bsize (replies rs) <= max_output_buffer_bytes default_protocol ->
    exists sent left,
      conn_run demo_clock (fun _ => 0) 7 None demo_steps (new_connection (lit "peer") default_protocol) demo_world
      = (Some (sent, MkConn (lit "peer") (MkParser o part) left false), w') /\ sent ++ left = replies rs.
Proof.
  apply (pipelining demo_clock (fun _ => 0) 7 None demo_commands (drop 62 (log_bytes demo_commands)) demo_steps
           (lit "peer") demo_world).
  - apply roomy_check_ok. vm_compute. reflexivity.
  - split; vm_compute; discriminate.
  - repeat (apply List.Forall_cons; [cbn [step_ok]; repeat (apply List.Forall_cons; [vm_compute; split; discriminate || exact I|]);
      apply List.Forall_nil|]). apply List.Forall_nil.
  - vm_compute. reflexivity.
Defined.

(** Two workers; two clients connect, the first sends a command. *)
Definition demo_start : NetState := MkNet [new_worker; new_worker] new_acceptor demo_world.

Definition demo_ready (fd : Z) (reads : list ReadEvent) (writes : list WriteEvent) : Ready :=
  MkReady fd false true true false reads writes true.

Definition demo_batch : list LoopEvent :=
  [Wakeup []; Client (demo_ready 7 [RData (encode_command [lit "PING"])] [WSent 3])].

Definition demo_events : list NetEvent :=
  [EAccept [Accepted 7 (lit "a"); Accepted 8 (lit "b"); AcceptFailed]; EEpoll 0 demo_batch; EPoll 1 true []].

Definition demo_end : NetState :=
  default demo_start (net_run demo_clock (fun _ => 0) 7 None demo_events demo_start).

Lemma demo_reaches : rtc (net_step demo_clock (fun _ => 0) 7 None) demo_start demo_end.
Proof.
  apply (net_run_reaches _ _ _ _ demo_events); [|vm_compute; reflexivity].
  repeat (apply List.Forall_cons; [intros s; cbn [event_ok]|]); [|exact I|exact I|apply List.Forall_nil].
  repeat (apply List.Forall_cons; [cbn; unfold is_fd, kDescriptors; lia || exact I|]). apply List.Forall_nil.
Qed.

Lemma demo_net_config : net_config kv_config.
Proof. split; [split|]; vm_compute; discriminate. Qed.

Lemma demo_net_start : net_start kv_config demo_start.
Proof.
  split; [done|]. split; [done|]. split; [|done]. repeat (apply List.Forall_cons; [done|]). apply List.Forall_nil.
Qed.

Lemma clients_counted_witness :
  clients (n_world demo_end) = 2 /\ clients (n_world demo_end) = total_clients (n_workers demo_end).
Proof.
  split; [vm_compute; reflexivity|].
  apply (clients_counted demo_clock (fun _ => 0) 7 None kv_config demo_start demo_end);
    [exact demo_net_config|exact demo_net_start|exact demo_reaches].
Defined.

(** The first client's connection, with a part of its reply unsent. *)
Definition demo_worker : Worker := default new_worker (n_workers demo_end !! 0%nat).

Definition demo_conn : Connection :=
  default (new_connection [] default_protocol) (wk_connections demo_worker !! 7).

Lemma connections_bounded_witness :
  bsize (buffer_ (c_parser demo_conn)) <= max_request_bytes default_protocol /\
  (c_close_after_write demo_conn = false ->
   bsize (c_write_buffer demo_conn) <= max_output_buffer_bytes default_protocol).
Proof.
  apply (connections_bounded demo_clock (fun _ => 0) 7 None kv_config demo_start demo_end 0%nat demo_worker 7);
    [exact demo_net_config|exact demo_net_start|exact demo_reaches|vm_compute; reflexivity|vm_compute; reflexivity].
Defined.

Lemma turns_terminate_witness :
  is_Some (net_do demo_clock (fun _ => 0) 7 None (EEpoll 0 demo_batch) demo_end) /\
  is_Some (net_do demo_clock (fun _ => 0) 7 None (EPoll 0 false []) demo_end).
Proof.
  apply (turns_terminate demo_clock (fun _ => 0) 7 None kv_config demo_start demo_end);
    [exact demo_net_config|exact demo_net_start|exact demo_reaches|vm_compute; lia].
Defined.

Lemma demo_worker_reachable : rtc (worker_step demo_clock (fun _ => 0) 7 None) new_worker demo_worker.
Proof.
  eapply rtc_l; [apply (worker_add _ _ _ _ 7 (lit "a"))|]. eapply rtc_l; [|apply rtc_refl].
  apply (worker_turn _ _ _ _ demo_batch _ _ demo_world
           (epoll_turn demo_clock (fun _ => 0) 7 None demo_batch (add_connection 7 (lit "a") new_worker) demo_world).2).
  - repeat (apply List.Forall_cons; [done|]). apply List.Forall_nil.
  - vm_compute. reflexivity.
Qed.

Lemma replies_delivered_witness :
  (7 ∈ wk_write_interest demo_worker <-> c_write_buffer demo_conn <> []) /\
  write_turns [[WSent 1]; [WIntr; WSent 1]; [WSent 1]; [WSent 5]] demo_conn = c_write_buffer demo_conn.
Proof.
  apply (replies_delivered demo_clock (fun _ => 0) 7 None demo_worker 7 demo_conn
           [[WSent 1]; [WIntr; WSent 1]; [WSent 1]; [WSent 5]]).
  - exact demo_worker_reachable.
  - vm_compute. reflexivity.
  - repeat (apply List.Forall_cons; [apply List.Forall_nil|]). apply List.Forall_nil.
  - vm_compute. lia.
Defined.
