(* ===== verification/Clients.v ===== *)
(** Many clients at once: however their traffic interleaves, there is one order
    in which all commands were executed, each client's commands in the order it
    sent them, and each client receives exactly the replies of its own. *)
From stdpp Require Import functions.
From S2P Require Import Prelude Util Config Resp RespFacts Storage Fs Aof Snapshot Metrics Commands.
From S2P Require Import Recovery PersistFacts RecoveryProps Frames Durability Net NetFacts NetProps.

(** * Histories *)

(** The commands of client [i] in a history of commands and their clients. *)
Definition own (i : nat) (hist : list (nat * list bytes)) : list (list bytes) :=
  snd <$> filter (fun h => h.1 = i) hist.

(** The replies to client [i]. *)
Definition own_replies (i : nat) (hist : list (nat * list bytes)) (rs : list CommandResult) : bytes :=
  replies (snd <$> filter (fun h => h.1.1 = i) (zip hist rs)).

(** The bytes client [i] sent. *)
Definition input_of (i : nat) (steps : list (nat * ConnStep)) : bytes :=
  input (snd <$> filter (fun st => st.1 = i) steps).

Lemma own_app i h1 h2 : own i (h1 ++ h2) = own i h1 ++ own i h2.
Proof. unfold own. by rewrite list.filter_app, fmap_app. Qed.

Lemma own_same i cs : own i ((i,.) <$> cs) = cs.
Proof.
  unfold own. induction cs as [|c cs IH]; [done|]. cbn [fmap list_fmap]. rewrite filter_cons_True by done.
  cbn [fmap list_fmap snd]. f_equal. exact IH.
Qed.

Lemma own_other i j cs : j <> i -> own j ((i,.) <$> cs) = [].
Proof.
  intros Hne. unfold own. induction cs as [|c cs IH]; [done|]. cbn [fmap list_fmap]. by rewrite filter_cons_False.
Qed.

Lemma own_replies_app i h1 h2 rs1 rs2 :
  length h1 = length rs1 ->
  own_replies i (h1 ++ h2) (rs1 ++ rs2) = own_replies i h1 rs1 ++ own_replies i h2 rs2.
Proof.
  intros Hl. unfold own_replies. rewrite zip_with_app by done. by rewrite list.filter_app, fmap_app, replies_app.
Qed.

Lemma own_replies_same i (cs : list (list bytes)) rs :
  length cs = length rs -> own_replies i ((i,.) <$> cs) rs = replies rs.
Proof.
  unfold own_replies. revert rs. induction cs as [|c cs IH]; intros [|r rs] Hl; try done.
  cbn [fmap list_fmap zip_with]. rewrite filter_cons_True by done. cbn [fmap list_fmap snd].
  change (replies (r :: ?l)) with (response r ++ replies l). f_equal. apply IH. by injection Hl.
Qed.

Lemma own_replies_other i j (cs : list (list bytes)) rs : j <> i -> own_replies j ((i,.) <$> cs) rs = [].
Proof.
  intros Hne. unfold own_replies. revert rs. induction cs as [|c cs IH]; intros [|r rs]; try done.
  cbn [fmap list_fmap zip_with]. rewrite filter_cons_False by done. apply IH.
Qed.

Lemma input_of_cons i j st steps :
  input_of j ((i, st) :: steps) = (if decide (i = j) then step_input st else []) ++ input_of j steps.
Proof. unfold input_of. rewrite filter_cons. cbn [fst]. by case_decide. Qed.

Section Clients.
Context `{Platform}.
Variables (clock : nat -> Z) (steady : nat -> Z) (pid : Z) (ss : option SnapshotStore).

Abbreviation serve_all := (serve_all clock steady pid ss).
Abbreviation read_from := (read_from clock steady pid ss).
Abbreviation reads_as := (reads_as clock steady pid ss).

Lemma serve_all_length cmds w : length (serve_all cmds w).1 = length cmds.
Proof.
  revert w. induction cmds as [|c cmds IH]; intros w; [done|]. pose proof (serve_all_cons clock steady pid ss c cmds w) as Hc.
  destruct (execute _ _ c _) as [r w1]. specialize (IH w1). destruct (serve_all cmds w1) as [rs w2]. rewrite Hc.
  cbn in *. by rewrite IH.
Qed.

(** Traffic on several connections; the bytes sent to each, unless one
    closed. *)
Fixpoint clients_run (steps : list (nat * ConnStep)) (conns : nat -> Connection)
    : CmdM (option ((nat -> bytes) * (nat -> Connection))) :=
  match steps with
  | [] => mret (Some (fun _ => [], conns))
  | (i, Reads chunks) :: steps =>
      '(ok, c) ← read_from (RData <$> chunks) (conns i);
      match ok with Some true => clients_run steps (<[i := c]> conns) | _ => mret None end
  | (i, Writes evs) :: steps =>
      match write_to evs (conns i) with
      | (false, _, _) => mret None
      | (true, sent, c) =>
          r ← clients_run steps (<[i := c]> conns);
          mret ((fun '(more, conns) => (<[i := sent ++ more i]> more, conns)) <$> r)
      end
  end.

(** Connections that hold the input [part] and the output [wb]. *)
Definition conns_at (o : ParserOptions) (peer : nat -> bytes) (part wb : nat -> bytes) (conns : nat -> Connection)
    : Prop :=
  forall i, conns i = MkConn (peer i) (MkParser o (part i)) (wb i) false.

Definition all_serve (o : ParserOptions) (steps : list (nat * ConnStep)) (part : nat -> bytes)
    (hist : list (nat * list bytes)) (part' : nat -> bytes) (w : World) : Prop :=
  forall peer wb conns, conns_at o peer part wb conns ->
  let '(rs, w') := serve_all (snd <$> hist) w in
  stays_open rs ->
  (forall i, bsize (wb i ++ own_replies i hist rs) <= max_output_buffer_bytes (protocol (w_config w))) ->
  exists sent left conns', clients_run steps conns w = (Some (sent, conns'), w') /\
    conns_at o peer part' left conns' /\ forall i, sent i ++ left i = wb i ++ own_replies i hist rs.

Lemma all_serve_reads o i chunks steps part cs part1 hist part2 w :
  reads_as o chunks (part i) cs part1 w ->
  all_serve o steps (<[i := part1]> part) hist part2 (serve_all cs w).2 ->
  all_serve o ((i, Reads chunks) :: steps) part (((i,.) <$> cs) ++ hist) part2 w.
Proof.
  intros Hreads IH peer wb conns Hconns. rewrite fmap_app, <- list_fmap_compose.
  assert (Hsnd : (snd ∘ (i,.)) <$> cs = cs) by (clear; induction cs; [done|cbn; by f_equal]). rewrite Hsnd.
  pose proof (serve_all_app clock steady pid ss cs (snd <$> hist) w) as Happ.
  pose proof (serve_all_config clock steady pid ss cs w) as Hcfg. pose proof (serve_all_length cs w) as Hlen.
  specialize (Hreads (peer i) (wb i) false). destruct (serve_all cs w) as [rs1 w1]. cbn [fst snd] in *.
  assert (Hown : forall j rs2, own_replies j (((i,.) <$> cs) ++ hist) (rs1 ++ rs2)
                               = (if decide (i = j) then replies rs1 else []) ++ own_replies j hist rs2).
  { intros j rs2. rewrite own_replies_app by (by rewrite length_fmap). f_equal.
    case_decide as Hd; [subst; by apply own_replies_same|by apply own_replies_other]. }
  specialize (IH peer (<[i := wb i ++ replies rs1]> wb) (<[i := MkConn (peer i) (MkParser o part1) (wb i ++ replies rs1) false]> conns)).
  destruct (serve_all (snd <$> hist) w1) as [rs2 w2]. rewrite Happ. intros [Ho1 Ho2]%Forall_app Hsize.
  assert (Hwb : forall j, <[i := wb i ++ replies rs1]> wb j ++ own_replies j hist rs2
                          = wb j ++ own_replies j (((i,.) <$> cs) ++ hist) (rs1 ++ rs2)).
  { intros j. rewrite Hown. case_decide as Hd; [subst; rewrite fn_lookup_insert; by rewrite app_assoc|].
    by rewrite fn_lookup_insert_ne. }
  destruct IH as (sent & left & conns' & Hrun & Hc' & Heq).
  - intros j. destruct (decide (i = j)) as [<-|Hne]; [by rewrite !fn_lookup_insert|].
    rewrite !fn_lookup_insert_ne by done. apply Hconns.
  - done.
  - intros j. by rewrite Hwb, Hcfg.
  - exists sent, left, conns'. split; [|split; [done|intros j; by rewrite Heq, Hwb]].
    cbn [clients_run]. rewrite st_bind_eq, Hconns, Hreads; [exact Hrun|done|].
    specialize (Hsize i). rewrite Hown, decide_True, app_assoc, bsize_app in Hsize by done.
    pose proof (bsize_nonneg (own_replies i hist rs2)). lia.
Qed.

Lemma all_serve_writes o i evs steps part hist part' w :
  Forall write_ok evs -> all_serve o steps part hist part' w ->
  all_serve o ((i, Writes evs) :: steps) part hist part' w.
Proof.
  intros Hev IH peer wb conns Hconns. cbn [clients_run].
  pose proof (write_to_prefix evs (conns i)) as Hp. pose proof (write_to_open evs (conns i) Hev) as Ho.
  rewrite (Hconns i) in *. specialize (Ho eq_refl).
  destruct (write_to evs _) as [[open_ sent] [peer' p' left close']]. cbn in Hp, Ho. destruct Hp as (Hwb & -> & -> & ->).
  subst open_. specialize (IH peer (<[i := left]> wb) (<[i := MkConn (peer i) (MkParser o (part i)) left false]> conns)).
  destruct (serve_all (snd <$> hist) w) as [rs w']. intros Hopen Hsize.
  destruct IH as (sent2 & left2 & conns2 & Hrun & Hc2 & Heq).
  - intros j. destruct (decide (i = j)) as [<-|Hne]; [by rewrite !fn_lookup_insert|].
    rewrite !fn_lookup_insert_ne by done. apply Hconns.
  - done.
  - intros j. specialize (Hsize j). destruct (decide (i = j)) as [<-|Hne].
    + rewrite fn_lookup_insert. rewrite Hwb, <- app_assoc, bsize_app in Hsize. pose proof (bsize_nonneg sent). lia.
    + by rewrite fn_lookup_insert_ne.
  - exists (<[i := sent ++ sent2 i]> sent2), left2, conns2. rewrite st_bind_eq, Hrun. split; [done|]. split; [done|].
    intros j. specialize (Heq j). destruct (decide (i = j)) as [<-|Hne].
    + rewrite fn_lookup_insert in *. by rewrite <- app_assoc, Heq, app_assoc, <- Hwb.
    + by rewrite !fn_lookup_insert_ne in * by done.
Qed.

(** What a history accounts for: the commands each client got done, the rest of
    what it sent, and what it did not send yet. *)
Definition accounts (steps : list (nat * ConnStep)) (todo : nat -> list (list bytes)) (part : nat -> bytes)
    (hist : list (nat * list bytes)) (part' : nat -> bytes) : Prop :=
  forall i, exists todo', todo i = own i hist ++ todo' /\
    part i ++ input_of i steps = log_bytes (own i hist) ++ part' i /\ cut_at todo' (part' i).

Lemma clients_served o steps todo part rest w :
  (forall i, Forall (roomy o) (todo i)) -> limits_fit o -> Forall (fun st => step_ok st.2) steps ->
  (forall i, cut_at (todo i) (part i)) -> (forall i, part i ++ input_of i steps ++ rest i = log_bytes (todo i)) ->
  exists hist part', accounts steps todo part hist part' /\ all_serve o steps part hist part' w.
Proof.
  intros Hr Hl Hok. revert todo part w Hr.
  induction Hok as [|[i st] steps Hst _ IH]; intros todo part w Hr Hcut Heq.
  { exists [], part. split.
    - intros i. exists (todo i). cbn. by rewrite app_nil_r.
    - intros peer wb conns Hconns _ _. exists (fun _ => []), wb, conns. split; [done|]. split; [done|].
      intros i. cbn. by rewrite app_nil_r. }
  destruct st as [chunks|evs]; cbn [snd step_ok] in Hst.
  - assert (Heqi : part i ++ concat chunks ++ input_of i steps ++ rest i = log_bytes (todo i)).
    { rewrite <- Heq, input_of_cons, decide_True by done. by rewrite <- app_assoc. }
    destruct (read_served clock steady pid ss o chunks (todo i) (part i) (input_of i steps ++ rest i) w (Hr i) Hl Hst (Hcut i) Heqi)
      as (cs & todo1 & part1 & Htodo & Hp1 & Heq1 & Hcut1 & Hreads).
    destruct (IH (<[i := todo1]> todo) (<[i := part1]> part) (serve_all cs w).2) as (hist & part2 & Hacc & Hserve).
    + intros j. destruct (decide (i = j)) as [<-|Hne]; [|by rewrite fn_lookup_insert_ne].
      rewrite fn_lookup_insert. specialize (Hr i). rewrite Htodo in Hr. by apply Forall_app in Hr as [_ ?].
    + intros j. destruct (decide (i = j)) as [<-|Hne]; [by rewrite !fn_lookup_insert|by rewrite !fn_lookup_insert_ne].
    + intros j. destruct (decide (i = j)) as [<-|Hne]; [by rewrite !fn_lookup_insert|]. rewrite !fn_lookup_insert_ne by done.
      rewrite <- Heq, input_of_cons, decide_False by done. done.
    + exists (((i,.) <$> cs) ++ hist), part2. split; [|by eapply all_serve_reads].
      intros j. destruct (Hacc j) as (todo2 & Ht2 & Hp2 & Hcut2). exists todo2. rewrite own_app, input_of_cons.
      destruct (decide (i = j)) as [<-|Hne].
      * rewrite fn_lookup_insert in Ht2. rewrite (fn_lookup_insert part i part1) in Hp2. rewrite own_same, <- app_assoc, <- Ht2. split; [done|]. split; [|done].
        cbn [step_input]. by rewrite app_assoc, Hp1, <- app_assoc, Hp2, log_bytes_app, app_assoc.
      * rewrite (fn_lookup_insert_ne todo i j todo1) in Ht2 by done.
        rewrite (fn_lookup_insert_ne part i j part1) in Hp2 by done. by rewrite own_other by done.
  - destruct (IH todo part w Hr Hcut) as (hist & part2 & Hacc & Hserve).
    + intros j. rewrite <- Heq, input_of_cons. by case_decide.
    + exists hist, part2. split; [|by apply all_serve_writes]. intros j. rewrite input_of_cons.
      destruct (Hacc j) as (todo2 & ? & ? & ?). exists todo2. by case_decide.
Qed.
End Clients.
