(* ===== verification/EndToEnd.v ===== *)
(** The whole server seen by its clients: many connections, one database, and
    what is left of it after a crash. *)
From S2P Require Import Prelude Util Config Resp RespFacts Storage StorageFacts StorageSpec Fs FsFacts Aof Snapshot Metrics Commands.
From S2P Require Import Recovery PersistFacts CommandFacts RecoveryFacts RecoveryProps KvSpec KvFacts KvRefine Durability.
From S2P Require Import Net NetFacts NetProps Clients.

Import Kv.

(** * Commands on data *)

(** Commands whose reply and effect depend on the data alone: everything but
    deadlines, persistence and the state of the server. *)
Definition any_args (_ : list bytes) : bool := true.
Definition no_args (_ : list bytes) : bool := false.

Definition set_plain (args : list bytes) : bool :=
  match args with
  | _ :: _ :: _ :: opts =>
      match set_options opts Always None None with inl _ | inr (_, None, None) => true | _ => false end
  | _ => true
  end.

Definition data_table : list (string * (list bytes -> bool)) :=
  [("PING", any_args); ("ECHO", any_args); ("GET", any_args); ("SET", set_plain); ("DEL", any_args);
   ("EXISTS", any_args); ("MGET", any_args); ("MSET", any_args); ("INCR", any_args); ("DECR", any_args);
   ("APPEND", any_args); ("STRLEN", any_args); ("EXPIRE", no_args); ("PEXPIRE", no_args); ("PEXPIREAT", no_args);
   ("TTL", any_args); ("PTTL", any_args); ("PERSIST", any_args); ("DBSIZE", any_args); ("FLUSHDB", any_args);
   ("INFO", no_args); ("CONFIG", no_args); ("SAVE", no_args); ("BGSAVE", no_args);
   ("BGREWRITEAOF", no_args); ("SHUTDOWN", no_args); ("COMMAND", no_args)]%string.

Definition data_command (args : list bytes) : bool :=
  match args with
  | [] => true
  | name :: _ => match assoc (to_upper_ascii name) data_table with Some f => f args | None => true end
  end.

(** The specification of a sequence of data commands: the replies, the final
    map, and the log. *)
Fixpoint dialogue (lim : ProtocolConfig) (cmds : list (list bytes)) (m : kv)
    : option (list bytes * kv * list (list bytes)) :=
  match cmds with
  | [] => Some ([], m, [])
  | c :: cmds =>
      o ← exec lim c m;
      r ← reply o;
      '(rs, m', l) ← dialogue lim cmds (result o);
      Some (r :: rs, m', logged o ++ l)
  end.

Definition specified (f : list bytes -> kv -> option Outcome) (k : list bytes -> bool) : Prop :=
  forall args m, k args = true -> exists o r, f args m = Some o /\ reply o = Some r.

Lemma data_table_specified lim :
  Forall2 (fun x y => x.1 = y.1 /\ specified x.2 y.2) (table lim) data_table.
Proof.
  unfold table, data_table.
  repeat (apply List.Forall2_cons; [split; [reflexivity|]; intros args m; cbn [snd]; intros Hk|]);
    [..|apply List.Forall2_nil].
  all: try discriminate Hk.
  all: unfold Kv.ping, Kv.echo, Kv.get, Kv.set, Kv.del, Kv.exists_, Kv.mget, Kv.mset, Kv.incr, Kv.append, Kv.strlen,
    Kv.ttl, Kv.persist, Kv.dbsize, Kv.flushdb, wrong, fails, says, writes.
  4: { destruct args as [|? [|? [|? opts]]]; try (by eauto). cbn in Hk.
       destruct (set_options opts Always None None) as [e|[[c [ttl|]] [pxat|]]]; try discriminate Hk; [by eauto|].
       repeat case_match; by eauto. }
  all: repeat case_match; by eauto.
Qed.

Lemma data_command_specified lim c m : data_command c = true -> exists o r, exec lim c m = Some o /\ reply o = Some r.
Proof.
  intros Hd. destruct c as [|name rest]; [by eexists _, _|]. unfold data_command in Hd. unfold exec.
  pose proof (assoc_related specified _ _ (to_upper_ascii name) (data_table_specified lim)) as Hr.
  destruct (assoc _ (table lim)) as [f|], (assoc _ data_table) as [k|]; try done; [by apply Hr|]. by eexists _, _.
Qed.

Lemma dialogue_total lim cmds m :
  Forall (fun c => data_command c = true) cmds -> exists rs m' l, dialogue lim cmds m = Some (rs, m', l).
Proof.
  intros Hd. revert m. induction Hd as [|c cmds Hc _ IH]; intros m; cbn [dialogue]; [by eauto|].
  destruct (data_command_specified lim c m Hc) as (o & r & -> & Hr). cbn [mbind option_bind]. rewrite Hr.
  destruct (IH (result o)) as (rs & m' & l & ->). by eexists _, _, _.
Qed.

(** * Serving *)

Section EndToEnd.
Context `{Platform}.
Variables (clock : nat -> Z) (steady : nat -> Z) (pid : Z) (config : Config).
Hypothesis clock_mono : forall i, clock i <= clock (S i).
Hypothesis Hconfig : durable_config config.

Abbreviation lim := (protocol config).
Abbreviation options := (parser_options_from_config (protocol config)).
Abbreviation serve_all := (serve_all clock steady pid (Some (store_of config))).

(** Requests that can be served in full. *)
Definition servable (c : list bytes) : Prop :=
  data_command c = true /\ mset_whole lim c = true /\ roomy options c.

Lemma serve_all_serving cmds l m w rs m' l' :
  serving clock config l m w -> dialogue lim cmds m = Some (rs, m', l') -> Forall servable cmds ->
  (serve_all cmds w).1 = done_ <$> rs /\ serving clock config (l ++ l') m' (serve_all cmds w).2.
Proof.
  intros Hs Hd Hc. revert l m w rs l' Hs Hd. induction Hc as [|c cmds (_ & Hw & Hf & _) _ IH]; intros l m w rs l' Hs Hd.
  { injection Hd as <- <- <-. by rewrite app_nil_r. }
  cbn [dialogue] in Hd. destruct (exec lim c m) as [o|] eqn:He; [|done]. cbn [mbind option_bind] in Hd.
  destruct (reply o) as [r|] eqn:Hr; [|done]. cbn [mbind option_bind] in Hd.
  destruct (dialogue lim cmds (result o)) as [[[rs1 m1] l1]|] eqn:Hd1; [|done]. injection Hd as <- <- <-.
  destruct (execute_serving clock steady pid config clock_mono Hconfig c l m (on_metrics command_processed w) o Hs He Hw Hf)
    as [Hres Hs1].
  specialize (Hres r Hr). specialize (IH _ _ _ _ _ Hs1 Hd1).
  pose proof (serve_all_cons clock steady pid (Some (store_of config)) c cmds w) as Hcons.
  change (client_ctx config) with (request_ctx (Some (store_of config))) in *.
  destruct (execute _ _ c _) as [r0 w1]. cbn [fst snd] in *. destruct (serve_all cmds w1) as [rs2 w2].
  rewrite Hcons. cbn [fst snd] in *. destruct IH as [-> IH]. rewrite app_assoc. split; [by rewrite Hres|exact IH].
Qed.

Lemma stays_open_done rs : stays_open (done_ <$> rs).
Proof. apply Forall_fmap. apply List.Forall_forall. done. Qed.

(** The commands of a history are commands of its clients. *)
Lemma accounts_servable steps (cmds : nat -> list (list bytes)) part hist part' :
  (forall i, Forall servable (cmds i)) -> accounts steps cmds part hist part' -> Forall servable (snd <$> hist).
Proof.
  intros Hc Ha. apply Forall_fmap, List.Forall_forall. intros [i c] Hin. destruct (Ha i) as (todo & Hcmds & _).
  specialize (Hc i). rewrite Hcmds in Hc. apply Forall_app in Hc as [Hc _]. rewrite Forall_forall in Hc. apply Hc, list_elem_of_In.
  unfold own. apply list_elem_of_fmap. exists (i, c). split; [done|]. apply list_elem_of_filter. split; [done|].
  by apply list_elem_of_In.
Qed.

Lemma started_empty sys :
  s_io sys = [] -> fs_wf (s_fs sys) -> file_at (s_fs sys) (aof_path (persistence config)) = None ->
  file_at (s_fs sys) (ss_manifest_path (store_of config)) = None ->
  exists w, restart clock steady pid config sys = (Started, w) /\ serving clock config [] ∅ w.
Proof.
  intros Hio Hwf Hlog Hman. pose proof (empty_recoverable config sys Hio Hwf Hlog Hman) as Hr.
  destruct (restart_serving clock steady pid config clock_mono Hconfig [] [] ∅ sys Hr) as (w & Hs & _ & Hserve).
  - destruct Hconfig as (_ & _ & _ & _ & _ & _ & [? _] & _). done.
  - exists w. split; [done|by apply Hserve].
Qed.
End EndToEnd.

(** C1. The whole server: start it on an empty data directory and let any number
    of clients send it commands, their traffic cut and interleaved in any way,
    each delivery to a connection being processed without another connection in
    between.  Then there is one order in which the commands that arrived in full
    were executed, each client's in the order it sent them, such that every
    client is sent exactly the replies that the specification of a single
    key-value map gives in that order; and if the server is killed, even in the
    middle of writing a record, the next one shows exactly the map that order
    leads to.  This holds with the log on, without a memory limit and under a
    clock that does not go back; for commands on data ([data_command]: no
    deadlines, nothing about persistence or the server) within the configured
    limits, every pair of an [MSET] included; while no system call or allocation
    fails, the log fits [max_request_bytes], and the replies to a client its
    output limit.  When workers do execute at the same time, the recovered map
    can differ from the one shown (see [log_order_differs]); what then holds is
    in [Linear]. *)
Theorem end_to_end `{Platform} clock steady pid config sys steps cmds rest peer :
  (forall i, clock i <= clock (S i)) -> durable_config config -> s_io sys = [] -> fs_wf (s_fs sys) ->
  file_at (s_fs sys) (aof_path (persistence config)) = None ->
  file_at (s_fs sys) (ss_manifest_path (store_of config)) = None ->
  (forall i, Forall (servable config) (cmds i)) -> Forall (fun st => step_ok st.2) steps ->
  (forall i, input_of i steps ++ rest i = log_bytes (cmds i)) ->
  exists w hist part rs m l,
    restart clock steady pid config sys = (Started, w) /\
    accounts steps cmds (fun _ => []) hist part /\
    dialogue (protocol config) (snd <$> hist) ∅ = Some (rs, m, l) /\
    forall tail,
    (forall i, bsize (own_replies i hist (done_ <$> rs)) <= max_output_buffer_bytes (protocol config)) ->
    torn (parser_options_from_config (protocol config)) tail ->
    bsize (log_bytes l ++ tail) <= max_request_bytes (protocol config) ->
    exists sent left conns w',
      clients_run clock steady pid (Some (store_of config)) steps
        (fun i => new_connection (peer i) (protocol config)) w = (Some (sent, conns), w') /\
      (forall i, conns i = MkConn (peer i) (MkParser (parser_options_from_config (protocol config)) (part i)) (left i) false) /\
      (forall i, sent i ++ left i = own_replies i hist (done_ <$> rs)) /\
      let '(out, w2) := restart clock steady pid config (crash_write config tail (w_sys w')) in
      out = Started /\ forall t, clock (ticks w2) <= t -> live (w_storage w2) t = plain m.
Proof.
  intros Hclk Hconf Hio Hwf Hlog Hman Hc Hst Hin.
  destruct (started_empty clock steady pid config Hclk Hconf sys Hio Hwf Hlog Hman) as (w & Hs & Hserve).
  pose proof Hconf as (_ & _ & _ & _ & _ & _ & Hl & _).
  assert (Hroomy : forall i, Forall (roomy (parser_options_from_config (protocol config))) (cmds i)).
  { intros i. eapply Forall_impl; [|apply Hc]. by intros c (_ & _ & ?). }
  destruct (clients_served clock steady pid (Some (store_of config)) _ steps cmds (fun _ => []) rest w
    Hroomy Hl Hst (fun i => or_introl eq_refl) Hin) as (hist & part & Hacc & Hall).
  pose proof (accounts_servable config steps cmds _ hist part Hc Hacc) as Hsv.
  destruct (dialogue_total (protocol config) (snd <$> hist) ∅) as (rs & m & l & Hd).
  { eapply Forall_impl; [|exact Hsv]. by intros c [? _]. }
  exists w, hist, part, rs, m, l. split; [done|]. split; [done|]. split; [done|]. intros tail Hsize Ht Hb.
  destruct (serve_all_serving clock steady pid config Hclk Hconf _ [] ∅ w rs m l Hserve Hd Hsv) as [Hrs Hs'].
  specialize (Hall peer (fun _ => []) (fun i => new_connection (peer i) (protocol config)) (fun i => eq_refl)).
  assert (Hcfg : w_config w = config) by (by destruct Hserve as (_ & (_ & ? & _) & _)). rewrite Hcfg in Hall.
  destruct (serve_all _ _ _ _ (snd <$> hist) w) as [rs' w']. cbn [fst snd] in *. subst rs'.
  destruct Hall as (sent & left & conns & Hrun & Hconns & Heq); [apply stays_open_done|done|].
  exists sent, left, conns, w'. split; [done|]. split; [done|]. split; [done|].
  apply (crash_restart clock steady pid config Hclk Hconf l m tail); [|done|done]. by eapply serving_recoverable.
Qed.

(** * Example: two clients *)

Definition two_clients (i : nat) : list (list bytes) :=
  match i with
  | 0%nat => [[lit "SET"; lit "a"; lit "1"]; [lit "incr"; lit "a"]]
  | 1%nat => [[lit "GET"; lit "a"]; [lit "APPEND"; lit "a"; lit "0"]]
  | _ => []
  end.

(** The first sends its commands in two pieces; the second sends its own in
    between, the last one not to the end. *)
Definition two_streams : list (nat * ConnStep) :=
  let s0 := log_bytes (two_clients 0) in
  let s1 := log_bytes (two_clients 1) in
  [(0%nat, Reads [take 30 s0]); (1%nat, Reads [take 9 s1; take 31 (drop 9 s1)]); (0%nat, Writes [WSent 3]);
   (0%nat, Reads [drop 30 s0]); (1%nat, Writes [WIntr; WSent 1; WAgain])].

Definition two_rest (i : nat) : bytes := match i with 1%nat => drop 40 (log_bytes (two_clients 1)) | _ => [] end.

Definition servable_check (config : Config) (c : list bytes) : bool :=
  data_command c && mset_whole (protocol config) c && roomy_check (parser_options_from_config (protocol config)) c.

Lemma servable_check_ok config cmds : forallb (servable_check config) cmds = true -> Forall (servable config) cmds.
Proof.
  intros Hc. apply List.Forall_forall. intros c Hin. rewrite forallb_forall in Hc. specialize (Hc c Hin).
  unfold servable_check in Hc. bool_to_prop. split; [done|]. split; [done|].
  apply (List.Forall_inv (roomy_check_ok _ [c] ltac:(cbn; by rewrite andb_true_r))).
Qed.

Lemma end_to_end_witness :
  exists w hist part rs m l,
    restart demo_clock (fun _ => 0) 7 kv_config (MkSys empty_fs [] 0) = (Started, w) /\
    accounts two_streams two_clients (fun _ => []) hist part /\
    dialogue default_protocol (snd <$> hist) ∅ = Some (rs, m, l) /\
    forall tail,
    (forall i, bsize (own_replies i hist (done_ <$> rs)) <= max_output_buffer_bytes default_protocol) ->
    torn (parser_options_from_config default_protocol) tail ->
    bsize (log_bytes l ++ tail) <= max_request_bytes default_protocol ->
    exists sent left conns w',
      clients_run demo_clock (fun _ => 0) 7 (Some (store_of kv_config)) two_streams
        (fun i => new_connection (lit "peer") default_protocol) w = (Some (sent, conns), w') /\
      (forall i, conns i
         = MkConn (lit "peer") (MkParser (parser_options_from_config default_protocol) (part i)) (left i) false) /\
      (forall i, sent i ++ left i = own_replies i hist (done_ <$> rs)) /\
      let '(out, w2) := restart demo_clock (fun _ => 0) 7 kv_config (crash_write kv_config tail (w_sys w')) in
      out = Started /\ forall t, demo_clock (ticks w2) <= t -> live (w_storage w2) t = plain m.
Proof.
  apply (end_to_end demo_clock (fun _ => 0) 7 kv_config (MkSys empty_fs [] 0) two_streams two_clients two_rest
           (fun _ => lit "peer")).
  - intros i. unfold demo_clock. lia.
  - exact kv_config_durable.
  - reflexivity.
  - exact empty_fs_wf.
  - reflexivity.
  - reflexivity.
  - intros [|[|i]]; [apply servable_check_ok; vm_compute; reflexivity..|apply List.Forall_nil].
  - repeat (apply List.Forall_cons; [cbn [snd step_ok]; repeat (apply List.Forall_cons;
      [vm_compute; first [exact I | split; discriminate]|]); apply List.Forall_nil|]). apply List.Forall_nil.
  - intros [|[|i]]; [vm_compute; reflexivity..|]. reflexivity.
Defined.
