(* ===== verification/Server.v ===== *)
(** The life of the process: the listening socket, the worker threads and the
    accept loop of [src/net/tcp_server.cpp], [src/server/server.cpp], and the
    whole of [main] in [src/main.cpp].

    Descriptors are numbers the system hands out and takes back.  The threads
    run between the turns of the accept loop; what they do there, and what the
    system reports to the loop, are arguments. *)
From stdpp Require Import gmultiset.
From S2P Require Import Prelude Util Config Resp Storage Fs Aof Snapshot ConfigLoader Metrics Commands.
From S2P Require Import Recovery Net.

(** * Descriptors *)

(** The clients' sockets, each as often as it occurred: those [accept] returned,
    those passed to [close], and those that were waiting in a worker's queue
    when the worker was destroyed. *)
Record Sockets := MkSockets {
  sk_accepted : gmultiset Z;
  sk_closed : gmultiset Z;
  sk_lost : gmultiset Z
}.

Definition no_sockets : Sockets := MkSockets ∅ ∅ ∅.

(** The world; the descriptors of the listener, the pipes and the [epoll]
    instances: those open and the next one the system will hand out; and the
    clients' sockets.  The log's descriptor is in the world. *)
Record Host := MkHost { h_world : World; h_open : gset Z; h_next : Z; h_clients : Sockets }.

Abbreviation HostM := (St Host).

Definition on_world {A} (m : CmdM A) : HostM A :=
  fun h => let '(a, w) := m (h_world h) in (a, MkHost w (h_open h) (h_next h) (h_clients h)).

Definition on_sys {A} (m : SysM A) : HostM A := on_world (lift_sys m).

(** The system hands out a descriptor. *)
Definition new_fd : HostM Z :=
  fun h => (h_next h, MkHost (h_world h) (h_open h ∪ {[h_next h]}) (h_next h + 1) (h_clients h)).

(** [close_fd]: the error of [close], if any, and the variable's new value. *)
Definition close_fd (fd : Z) : HostM (option bytes * Z) :=
  if 0 <=? fd then
    e ← on_sys syscall;
    _ ← st_modify (fun h => MkHost (h_world h) (h_open h ∖ {[fd]}) (h_next h) (h_clients h));
    mret (e, -1)
  else mret (None, fd).

Definition on_sockets (f : Sockets -> Sockets) : HostM unit :=
  st_modify (fun h => MkHost (h_world h) (h_open h) (h_next h) (f (h_clients h))).

Definition io_error (what m : bytes) : Status := MkStatus IOError (what ++ lit ": " ++ m).

(** * A worker's thread *)

(** A [Worker]'s pipe and [epoll] descriptors, -1 when closed, and whether its
    thread runs. *)
Record Thread := MkThread { t_read : Z; t_write : Z; t_epoll : Z; t_running : bool }.

Definition no_thread : Thread := MkThread (-1) (-1) (-1) false.

(** [close_fd(wakeup_pipe_[0]); close_fd(wakeup_pipe_[1]);]: the last error. *)
Definition close_pipe (t : Thread) : HostM (option bytes * Thread) :=
  '(e0, r) ← close_fd (t_read t);
  '(e1, w) ← close_fd (t_write t);
  mret (match e1 with Some _ => e1 | None => e0 end, MkThread r w (t_epoll t) (t_running t)).

Definition close_epoll (t : Thread) : HostM Thread :=
  '(_, e) ← close_fd (t_epoll t);
  mret (MkThread (t_read t) (t_write t) e (t_running t)).

(** A failed [start] closes what it opened. *)
Definition abandon (st : Status) (t : Thread) : HostM (Status * Thread) :=
  '(_, t) ← close_pipe t;
  mret (st, t).

(** The part of [start] that sets up [epoll]; [errno] is read after the pipe is
    closed when [epoll_create1] fails. *)
Definition start_epoll (t : Thread) : HostM (Status * Thread) :=
  e ← on_sys syscall;
  match e with
  | Some m =>
      '(e, t) ← close_pipe t;
      mret (io_error (lit "epoll_create1") (default m e), t)
  | None =>
      fd ← new_fd;
      let t := MkThread (t_read t) (t_write t) fd false in
      e ← on_sys syscall;
      match e with
      | Some m =>
          t ← close_epoll t;
          abandon (io_error (lit "epoll_ctl wakeup") m) t
      | None => mret (status_ok, MkThread (t_read t) (t_write t) fd true)
      end
  end.

(** [Worker::start]. *)
Definition start : HostM (Status * Thread) :=
  e ← on_sys syscall;
  match e with
  | Some m => mret (io_error (lit "pipe") m, no_thread)
  | None =>
      r ← new_fd;
      w ← new_fd;
      let t := MkThread r w (-1) false in
      st ← on_sys set_nonblocking;
      if negb (ok_status st) then abandon st t
      else
        st ← on_sys set_nonblocking;
        if negb (ok_status st) then abandon st t else start_epoll t
  end.

(** [Worker::stop]: the thread sees [stopping_] and closes its connections
    before it ends; then the descriptors are closed. *)
Definition stop (t : Thread) (wk : Worker) : HostM (Thread * Worker) :=
  wk ← (if t_running t then on_world (close_all_connections wk) else mret wk);
  t ← close_epoll (MkThread (t_read t) (t_write t) (t_epoll t) false);
  '(_, t) ← close_pipe t;
  mret (t, wk).

(** * The server *)

(** [listen_fd_] and [workers_], each with its thread; [stopping_] is
    [w_stop]. *)
Record TcpServer := MkTcp { ts_listen_fd : Z; ts_workers : list (Thread * Worker) }.

Definition request_stop_tcp : HostM unit := on_world (st_modify request_stop).

Definition close_listener (ts : TcpServer) : HostM TcpServer :=
  '(_, fd) ← close_fd (ts_listen_fd ts);
  mret (MkTcp fd (ts_workers ts)).

(** A decimal number of at most 255 without a leading zero. *)
Definition is_octet (b : bytes) : bool :=
  match b with
  | [] => false
  | c :: rest =>
      forallb isdigit b && (length b <=? 3)%nat && (digits_value b <=? 255) &&
      (negb (Ascii.eqb c "0"%char) || bool_decide (rest = []))
  end.

(** The pieces of a text between dots. *)
Fixpoint split_dots (b : bytes) : list bytes :=
  match b with
  | [] => [[]]
  | c :: b =>
      if Ascii.eqb c "."%char then [] :: split_dots b
      else match split_dots b with [] => [[c]] | p :: ps => (c :: p) :: ps end
  end.

(** [inet_pton(AF_INET, ...) == 1]: four octets separated by dots.  [c_str]
    ends at the first zero byte. *)
Definition inet_pton_ok (host : bytes) : bool :=
  let parts := split_dots (span (fun c => negb (code c =? 0)) host).1 in
  (length parts =? 4)%nat && forallb is_octet parts.

(** [setup_listener]; the status of [setsockopt] is ignored. *)
Definition setup_listener (ts : TcpServer) : HostM (Status * TcpServer) :=
  e ← on_sys syscall;
  match e with
  | Some m => mret (io_error (lit "socket") m, MkTcp (-1) (ts_workers ts))
  | None =>
      fd ← new_fd;
      let ts := MkTcp fd (ts_workers ts) in
      _ ← on_sys syscall;
      st ← on_sys set_nonblocking;
      if negb (ok_status st) then mret (st, ts)
      else
        config ← on_world (asks w_config);
        if negb (inet_pton_ok (host (server config))) then
          ts ← close_listener ts;
          mret (MkStatus InvalidArgument (lit "server.host must be an IPv4 address for the MVP"), ts)
        else
          e ← on_sys syscall;
          match e with
          | Some m => ts ← close_listener ts; mret (io_error (lit "bind") m, ts)
          | None =>
              e ← on_sys syscall;
              match e with
              | Some m => ts ← close_listener ts; mret (io_error (lit "listen") m, ts)
              | None => mret (status_ok, ts)
              end
          end
  end.

(** [for (auto& worker : workers_) worker->stop();] *)
Fixpoint stop_all (ws : list (Thread * Worker)) : HostM (list (Thread * Worker)) :=
  match ws with
  | [] => mret []
  | (t, wk) :: ws =>
      tw ← stop t wk;
      rest ← stop_all ws;
      mret (tw :: rest)
  end.

Definition stop_workers (ts : TcpServer) : HostM TcpServer :=
  ws ← stop_all (ts_workers ts);
  mret (MkTcp (ts_listen_fd ts) ws).

(** What destroying a worker leaves of the sockets it was given: [~Worker] does
    not look at the queue. *)
Definition forget_worker (sk : Sockets) (wk : Worker) : Sockets :=
  MkSockets (sk_accepted sk) (sk_closed sk ⊎ wk_closed wk)
    (sk_lost sk ⊎ list_to_set_disj (wk_pending wk).*1).

(** [workers_.clear();], or the end of [workers_] with its server. *)
Definition clear_workers (ts : TcpServer) : HostM TcpServer :=
  _ ← on_sockets (fun sk => foldl forget_worker sk (ts_workers ts).*2);
  mret (MkTcp (ts_listen_fd ts) []).

(** The loop of [run] that starts the workers. *)
Fixpoint start_workers (n : nat) (ts : TcpServer) : HostM (Status * TcpServer) :=
  match n with
  | O => mret (status_ok, ts)
  | S n =>
      '(st, t) ← start;
      if negb (ok_status st) then
        _ ← request_stop_tcp;
        ts ← stop_workers ts;
        ts ← close_listener ts;
        mret (st, ts)
      else start_workers n (MkTcp (ts_listen_fd ts) (ts_workers ts ++ [(t, new_worker)]))
  end.

(** * The accept loop *)

(** What [epoll_wait] returned: interrupted, an error, or events of the
    listening socket, each with what [accept] then returns. *)
Inductive Wait := WaitIntr | WaitError (m : bytes) | WaitReady (accepts : list (list AcceptEvent)).

(** Between two tests of [should_stop]: what a worker's loop or the expiration
    thread does in the meantime, whether a signal arrives, and the wait. *)
Inductive ThreadEvent := TWorker (i : nat) (evs : list LoopEvent) | TExpire.

Record Turn := MkTurn { tn_threads : list ThreadEvent; tn_signal : bool; tn_wait : Wait }.

Section Run.
Context `{Platform}.
Variables (clock : nat -> TimePoint) (steady : nat -> Z) (pid : Z).
Variable snapshot_store : option SnapshotStore.

(** One round of the expiration thread, if there is one, after its sleep. *)
Definition expiration_round : CmdM unit :=
  config ← asks w_config;
  if negb (active_enabled (expiration config)) then mret tt
  else
    _ ← storage_op clock (Storage.active_expire (sample_per_shard (expiration config)));
    mret tt.

(** [None] stands for fuel that ran out. *)
Definition thread_event (ev : ThreadEvent) (ws : list (Thread * Worker))
    : CmdM (option (list (Thread * Worker))) :=
  match ev with
  | TExpire => _ ← expiration_round; mret (Some ws)
  | TWorker i evs =>
      match ws !! i with
      | None => mret (Some ws)
      | Some (t, wk) =>
          r ← epoll_turn clock steady pid snapshot_store evs wk;
          mret ((fun wk => <[i := (t, wk)]> ws) <$> r)
      end
  end.

Fixpoint thread_events (evs : list ThreadEvent) (ws : list (Thread * Worker))
    : CmdM (option (list (Thread * Worker))) :=
  match evs with
  | [] => mret (Some ws)
  | ev :: evs =>
      r ← thread_event ev ws;
      match r with None => mret None | Some ws => thread_events evs ws end
  end.

(** [accept_ready] on the workers of the server. *)
Definition accept_into (evs : list AcceptEvent) (ws : list (Thread * Worker)) (ac : Acceptor)
    : CmdM (list (Thread * Worker) * Acceptor) :=
  '(wks, ac) ← accept_ready evs ws.*2 ac;
  mret (zip ws.*1 wks, ac).

Fixpoint accept_each (accepts : list (list AcceptEvent)) (ws : list (Thread * Worker)) (ac : Acceptor)
    : CmdM (list (Thread * Worker) * Acceptor) :=
  match accepts with
  | [] => mret (ws, ac)
  | evs :: accepts =>
      '(ws, ac) ← accept_into evs ws ac;
      accept_each accepts ws ac
  end.

(** How far the loop came: it ended with a status, is still running when the
    turns are used up, or the fuel ran out. *)
Inductive LoopEnd := Ended (st : Status) | Running | Stuck.

(** The loop of [accept_loop]; [signalled] is [g_stop_requested]. *)
Fixpoint accept_turns (turns : list Turn) (signalled : bool) (ws : list (Thread * Worker)) (ac : Acceptor)
    : CmdM (LoopEnd * list (Thread * Worker) * Acceptor) :=
  match turns with
  | [] => mret (Running, ws, ac)
  | turn :: turns =>
      r ← thread_events (tn_threads turn) ws;
      match r with
      | None => mret (Stuck, ws, ac)
      | Some ws =>
          stopping ← asks w_stop;
          let signalled := signalled || tn_signal turn in
          if stopping || signalled then mret (Ended status_ok, ws, ac)
          else
            match tn_wait turn with
            | WaitIntr => accept_turns turns signalled ws ac
            | WaitError m => mret (Ended (io_error (lit "accept epoll_wait failed") m), ws, ac)
            | WaitReady accepts =>
                '(ws, ac) ← accept_each accepts ws ac;
                accept_turns turns signalled ws ac
            end
      end
  end.

Definition count_sockets (ac : Acceptor) (sk : Sockets) : Sockets :=
  MkSockets (sk_accepted sk ⊎ ac_accepted ac) (sk_closed sk ⊎ ac_closed ac) (sk_lost sk).

Definition accept_loop (turns : list Turn) (ts : TcpServer) : HostM (LoopEnd * TcpServer) :=
  e ← on_sys syscall;
  match e with
  | Some m => mret (Ended (io_error (lit "accept epoll_create1") m), ts)
  | None =>
      fd ← new_fd;
      e ← on_sys syscall;
      match e with
      | Some m =>
          _ ← close_fd fd;
          mret (Ended (io_error (lit "accept epoll_ctl") m), ts)
      | None =>
          '(r, ws, ac) ← on_world (accept_turns turns false (ts_workers ts) new_acceptor);
          _ ← on_sockets (count_sockets ac);
          _ ← (match r with Ended _ => _ ← close_fd fd; mret tt | _ => mret tt end);
          mret (r, MkTcp (ts_listen_fd ts) ws)
      end
  end.

(** [TcpServer::run]. *)
Definition run_tcp (turns : list Turn) (ts : TcpServer) : HostM (LoopEnd * TcpServer) :=
  '(st, ts) ← setup_listener ts;
  if negb (ok_status st) then mret (Ended st, ts)
  else
    config ← on_world (asks w_config);
    '(st, ts) ← start_workers (Z.to_nat (workers (server config))) ts;
    if negb (ok_status st) then mret (Ended st, ts)
    else
      '(r, ts) ← accept_loop turns ts;
      match r with
      | Ended _ =>
          _ ← request_stop_tcp;
          ts ← stop_workers ts;
          ts ← clear_workers ts;
          ts ← close_listener ts;
          mret (r, ts)
      | _ => mret (r, ts)
      end.

(** [~TcpServer]. *)
Definition destroy_tcp (ts : TcpServer) : HostM unit :=
  _ ← request_stop_tcp;
  ts ← stop_workers ts;
  ts ← close_listener ts;
  _ ← clear_workers ts;
  mret tt.

(** [Server::run]: the expiration thread runs while [stopping_] is false. *)
Definition run_server (turns : list Turn) : HostM LoopEnd :=
  _ ← on_world (st_modify (fun w => MkWorld (w_sys w) (w_storage w) (w_metrics w) (w_config w) (w_aof w)
                                     (w_log_level w) false));
  '(r, ts) ← run_tcp turns (MkTcp (-1) []);
  match r with
  | Ended _ => _ ← request_stop_tcp; _ ← destroy_tcp ts; mret r
  | _ => mret r
  end.
End Run.

(** * main *)

(** How [main] ends: it returns an exit code, the server is still running, or
    the fuel ran out. *)
Inductive MainEnd := Exit (exit_code : Z) | Serving | NoFuel.

Section Main.
Context `{Platform}.
Variables (clock : nat -> TimePoint) (steady : nat -> Z) (pid : Z).
Variable getenv : bytes -> option bytes.

(** [aof.close()], and [~Aof]. *)
Definition close_aof : CmdM unit :=
  aof ← asks w_aof;
  match aof with
  | None => mret tt
  | Some a => a ← lift_sys (close_ a); st_modify (put_aof a)
  end.

(** [main] once the configuration is loaded. *)
Definition serve_main (turns : list Turn) : HostM MainEnd :=
  config ← on_world (asks w_config);
  let ss := new_store (snapshot_path (persistence config)) (protocol config)
              (manifest_path (persistence config)) in
  outcome ← on_world (startup clock steady pid);
  match outcome with
  | Exited code => _ ← on_world close_aof; mret (Exit code)
  | OutOfFuel => mret NoFuel
  | Started =>
      r ← run_server clock steady pid (Some ss) turns;
      match r with
      | Running => mret Serving
      | Stuck => mret NoFuel
      | Ended st =>
          _ ← on_world close_aof;
          mret (Exit (if ok_status st then 0 else 1))
      end
  end.

(** The descriptors of a process: those of its own, the log's, and its clients'
    sockets. *)
Record Descriptors := MkDescriptors { d_own : gset Z; d_log : option nat; d_clients : Sockets }.

Definition no_descriptors : Descriptors := MkDescriptors ∅ None no_sockets.

Definition log_descriptor (w : World) : option nat := a ← w_aof w; fd_ a.

(** [main]: the end, the system and the descriptors it leaves; [args] are the
    arguments after the program's name. *)
Definition main (args : list bytes) (turns : list Turn) (sys : Sys) : MainEnd * Sys * Descriptors :=
  let '(loaded, sys) := load getenv args sys in
  if lr_show_help loaded then (Exit 0, sys, no_descriptors)
  else if negb (ok_status (lr_status loaded)) then (Exit 2, sys, no_descriptors)
  else
    let '(r, h) := serve_main turns (MkHost (boot steady (lr_config loaded) sys) ∅ 3 no_sockets) in
    (r, w_sys (h_world h), MkDescriptors (h_open h) (log_descriptor (h_world h)) (h_clients h)).
End Main.
