(* ===== verification/ServerFacts.v ===== *)
(** The process releases what it acquires: descriptors, threads and clients,
    whatever the system calls return. *)
From stdpp Require Import gmultiset.
From S2P Require Import Prelude Util Config Resp RespFacts Storage Fs Aof Snapshot ConfigLoader Metrics Commands.
From S2P Require Import Recovery Frames Net NetFacts NetInv NetProps Server.

(** * Descriptors held by variables *)

Definition fds (fd : Z) : gset Z := if 0 <=? fd then {[fd]} else ∅.

Definition thread_fds (t : Thread) : gset Z := fds (t_read t) ∪ fds (t_write t) ∪ fds (t_epoll t).

Fixpoint threads_fds (ts : list Thread) : gset Z :=
  match ts with [] => ∅ | t :: ts => thread_fds t ∪ threads_fds ts end.

Definition tcp_fds (ts : TcpServer) : gset Z := fds (ts_listen_fd ts) ∪ threads_fds (ts_workers ts).*1.

Lemma threads_fds_app ts1 ts2 : threads_fds (ts1 ++ ts2) = threads_fds ts1 ∪ threads_fds ts2.
Proof. induction ts1 as [|t ts1 IH]; cbn [threads_fds app]; [set_solver|]. rewrite IH. set_solver. Qed.

(** The configuration, the clients' sockets accounted for, that every open
    descriptor is one of [X], and the number of clients. *)
Record srv (config : Config) (sk : Sockets) (X : gset Z) (n : Z) (h : Host) : Prop := MkSrv {
  srv_config : w_config (h_world h) = config;
  srv_clients : clients (h_world h) = n;
  srv_open : h_open h ⊆ X;
  srv_next : 0 <= h_next h;
  srv_sockets : h_clients h = sk
}.

Lemma srv_mono config sk X Y n h : X ⊆ Y -> srv config sk X n h -> srv config sk Y n h.
Proof. intros Hs [? ? ? ? ?]. split; [done..|set_solver|done|done]. Qed.

Lemma wp_on_world {A} (m : CmdM A) (Q : A -> Host -> Prop) h :
  wp m (fun a w => Q a (MkHost w (h_open h) (h_next h) (h_clients h))) (h_world h) -> wp (on_world m) Q h.
Proof. unfold wp, on_world. by destruct (m (h_world h)). Qed.

(** The next operation of a sequence, by its specification. *)
Tactic Notation "op_by" uconstr(H) :=
  apply wp_bind; eapply wp_mono; [eapply H; eassumption|]; cbv beta zeta.

Section Release.
Variables (config : Config) (sk : Sockets).

Lemma srv_world {A} (m : CmdM A) X n h :
  (forall w, kept w (m w).2) -> srv config sk X n h -> wp (on_world m) (fun _ h' => srv config sk X n h') h.
Proof.
  intros Hm [Hc Hn Ho Hx Hk]. apply wp_on_world. unfold wp. destruct (Hm (h_world h)) as [H1 H2].
  split; cbn; [congruence|congruence|done|done|done].
Qed.

Lemma srv_sys {A} (m : SysM A) X n h :
  srv config sk X n h -> wp (on_sys m) (fun _ h' => srv config sk X n h') h.
Proof.
  apply srv_world. intros w. split; [apply (keeps_lift w_config)|].
  apply (keeps_lift (fun w => m_connected_clients (w_metrics w))).
Qed.

Lemma srv_request_stop X n h : srv config sk X n h -> wp request_stop_tcp (fun _ h' => srv config sk X n h') h.
Proof. by apply srv_world. Qed.

Lemma srv_new_fd X n h :
  srv config sk X n h -> wp new_fd (fun fd h' => srv config sk (X ∪ fds fd) n h') h.
Proof.
  intros [Hc Hn Ho Hx Hk]. unfold wp, new_fd. cbn. split; cbn; [done|done| |lia|done]. unfold fds.
  rewrite (proj2 (Z.leb_le _ _)) by done. set_solver.
Qed.

Lemma srv_close_fd fd X n h :
  srv config sk (X ∪ fds fd) n h -> wp (close_fd fd) (fun r h' => fds r.2 = ∅ /\ srv config sk X n h') h.
Proof.
  unfold close_fd. destruct (0 <=? fd) eqn:Hfd; unfold fds at 1; rewrite Hfd; intros Hs.
  - op_by srv_sys. intros e h1 [Hc Hn Ho Hx Hk]. apply wp_bind.
    unfold wp at 1, st_modify. cbn [fst snd]. apply wp_ret. split; [done|]. split; cbn; [done|done|set_solver|done|done].
  - apply wp_ret. unfold fds. cbn. rewrite Hfd. split; [done|]. eapply srv_mono; [|exact Hs]. set_solver.
Qed.

Lemma srv_close_pipe t X n h :
  srv config sk (X ∪ thread_fds t) n h ->
  wp (close_pipe t) (fun r h' => thread_fds r.2 = fds (t_epoll t) /\ t_running r.2 = t_running t /\
                                 srv config sk (X ∪ fds (t_epoll t)) n h') h.
Proof.
  intros Hs. unfold close_pipe. apply wp_bind. eapply wp_mono.
  { apply (srv_close_fd _ (X ∪ fds (t_epoll t) ∪ fds (t_write t))). eapply srv_mono; [|exact Hs]. unfold thread_fds. set_solver. }
  intros [e0 r] h1 [Hr H1]. op_by srv_close_fd. intros [e1 w] h2 [Hw H2].
  apply wp_ret. cbn [snd] in *. split; [|done]. unfold thread_fds. cbn [t_read t_write t_epoll]. rewrite Hr, Hw. set_solver.
Qed.

Lemma srv_close_epoll t X n h :
  srv config sk (X ∪ thread_fds t) n h ->
  wp (close_epoll t) (fun t' h' => fds (t_epoll t') = ∅ /\ t_running t' = t_running t /\
                                   srv config sk (X ∪ thread_fds t') n h') h.
Proof.
  intros Hs. unfold close_epoll. apply wp_bind. eapply wp_mono.
  { apply (srv_close_fd _ (X ∪ fds (t_read t) ∪ fds (t_write t))). eapply srv_mono; [|exact Hs]. unfold thread_fds. set_solver. }
  intros [e0 e] h1 [He H1]. apply wp_ret. cbn [snd] in He. split; [done|]. split; [done|].
  eapply srv_mono; [|exact H1]. unfold thread_fds. cbn [t_read t_write t_epoll]. set_solver.
Qed.

(** A failed start leaves nothing open. *)
Definition started (X : gset Z) (n : Z) (r : Status * Thread) (h : Host) : Prop :=
  if ok_status r.1 then t_running r.2 = true /\ srv config sk (X ∪ thread_fds r.2) n h else srv config sk X n h.

Lemma srv_abandon st t X n h :
  ok_status st = false -> fds (t_epoll t) = ∅ -> srv config sk (X ∪ thread_fds t) n h -> wp (abandon st t) (started X n) h.
Proof.
  intros Hst He Hs. unfold abandon. op_by srv_close_pipe.
  intros [e t'] h' (_ & _ & Hs'). apply wp_ret. unfold started. cbn [fst]. rewrite Hst.
  eapply srv_mono; [|exact Hs']. set_solver.
Qed.

Lemma srv_start_epoll t X n h :
  t_epoll t = -1 -> srv config sk (X ∪ thread_fds t) n h -> wp (start_epoll t) (started X n) h.
Proof.
  intros He Hs. assert (Hf : fds (t_epoll t) = ∅) by (by rewrite He). unfold start_epoll. op_by srv_sys. intros [m|] h1 H1.
  - op_by srv_close_pipe. intros [e t'] h2 (_ & _ & H2). apply wp_ret.
    unfold started. cbn. rewrite He in H2. eapply srv_mono; [|exact H2]. unfold fds. cbn. set_solver.
  - op_by srv_new_fd. intros fd h2 H2. op_by srv_sys. intros [m|] h3 H3.
    + apply wp_bind. eapply wp_mono.
      { apply (srv_close_epoll _ X). eapply srv_mono; [|exact H3]. unfold thread_fds. cbn [t_read t_write t_epoll]. rewrite Hf. set_solver. }
      intros t' h4 (He' & _ & H4). by apply srv_abandon.
    + apply wp_ret. split; [done|]. eapply srv_mono; [|exact H3]. unfold thread_fds. cbn [t_read t_write t_epoll]. rewrite Hf. set_solver.
Qed.

Lemma srv_start X n h : srv config sk X n h -> wp start (started X n) h.
Proof.
  intros Hs. unfold start. op_by srv_sys. intros [m|] h1 H1; [by apply wp_ret|].
  op_by srv_new_fd. intros r h2 H2.
  op_by srv_new_fd. intros w h3 H3.
  assert (H4 : srv config sk (X ∪ thread_fds (MkThread r w (-1) false)) n h3)
    by (eapply srv_mono; [|exact H3]; unfold thread_fds; cbn [t_read t_write t_epoll]; set_solver).
  op_by srv_sys. intros st h4 H5.
  destruct (ok_status st) eqn:Hst; cbn [negb]; [|by apply srv_abandon].
  op_by srv_sys. intros st2 h5 H6.
  destruct (ok_status st2) eqn:Hst2; cbn [negb]; [by apply srv_start_epoll|by apply srv_abandon].
Qed.

(** * Stopping *)

(** A worker that does not run has no connections. *)
Definition pair_ok (tw : Thread * Worker) : Prop :=
  worker_ok config tw.2 /\ (t_running tw.1 = false -> wk_connections tw.2 = ∅).

Definition stopped (tw : Thread * Worker) : Prop :=
  pair_ok tw /\ t_running tw.1 = false /\ thread_fds tw.1 = ∅.

Lemma stopped_clients tw : stopped tw -> open_clients tw.2 = 0.
Proof. intros ([_ He] & Hr & _). unfold open_clients. by rewrite He, map_size_empty. Qed.

Lemma stopped_installed tw : stopped tw -> installed tw.2 = ∅.
Proof. intros ([_ He] & Hr & _). unfold installed. by rewrite He, map_to_list_empty. Qed.

(** The thread's last act. *)
Lemma finish_ok t wk others X h :
  0 <= others <= u64_max - kDescriptors -> pair_ok (t, wk) -> srv config sk X (others + open_clients wk) h ->
  wp (if t_running t then on_world (close_all_connections wk) else mret wk)
    (fun wk' h' => (worker_ok config wk' /\ account wk' = account wk) /\ wk_connections wk' = ∅ /\
                   srv config sk X others h') h.
Proof.
  intros Ho [Hok He] Hs. cbn [fst snd] in *. destruct (t_running t).
  - destruct Hs as [Hc Hn Hopen Hnext Hsk]. apply wp_on_world.
    pose proof (close_all_ok config others Ho wk (h_world h) (MkAmong _ _ _ _ Hc Hok Hn)) as Ha.
    pose proof (account_close_all wk (h_world h)) as Hb.
    assert (Hz : wk_connections (close_all_connections wk (h_world h)).1 = ∅)
      by (unfold close_all_connections; by rewrite st_bind_eq).
    unfold wp in *. destruct (close_all_connections wk (h_world h)) as [wk' w']. cbn [fst snd] in *.
    destruct Ha as [Hc' Hok' Hn'], Hb as [Hb _]. split; [done|]. split; [done|]. split; cbn; [done| |done|done|done].
    rewrite Hn'. unfold open_clients. rewrite Hz, map_size_empty. lia.
  - apply wp_ret. rewrite He by done. split; [done|]. split; [done|]. destruct Hs as [Hc Hn Hopen Hnext Hsk].
    split; [done| |done|done|done]. rewrite Hn. unfold open_clients. rewrite He, map_size_empty by done. lia.
Qed.

Lemma stop_ok t wk others X h :
  0 <= others <= u64_max - kDescriptors -> pair_ok (t, wk) ->
  srv config sk (X ∪ thread_fds t) (others + open_clients wk) h ->
  wp (stop t wk) (fun tw h' => (stopped tw /\ account tw.2 = account wk) /\ srv config sk X others h') h.
Proof.
  intros Ho Hp Hs. unfold stop. apply wp_bind. eapply wp_mono; [by eapply finish_ok|]. cbv beta.
  intros wk' h1 ([Hok Ha] & He & H1). apply wp_bind. eapply wp_mono.
  { apply (srv_close_epoll _ X). exact H1. }
  cbv beta. intros t1 h2 (He1 & Hr1 & H2). apply wp_bind. eapply wp_mono; [by apply srv_close_pipe|]. cbv beta.
  intros [e t2] h3 (Hf & Hr2 & H3). apply wp_ret. cbn [snd] in *. rewrite He1 in *. split.
  - split; [|done]. split; [done|]. split; [|done]. cbn [fst]. by rewrite Hr2, Hr1.
  - eapply srv_mono; [|exact H3]. set_solver.
Qed.

Lemma stop_all_ok ws others X h :
  0 <= others -> others + Z.of_nat (length ws) * kDescriptors <= u64_max -> Forall pair_ok ws ->
  srv config sk (X ∪ threads_fds ws.*1) (others + total_clients ws.*2) h ->
  wp (stop_all ws) (fun ws' h' => (Forall stopped ws' /\ accounts_of ws'.*2 = accounts_of ws.*2) /\
                                  length ws' = length ws /\ srv config sk X others h') h.
Proof.
  intros Ho Hb Hp. revert X h. induction Hp as [|[t wk] ws Hp Hps IH]; intros X h Hs.
  { apply wp_ret. split; [by split; [apply List.Forall_nil|]|]. split; [done|]. cbn in Hs. rewrite Z.add_0_r in Hs.
    eapply srv_mono; [|exact Hs]. set_solver. }
  cbn [stop_all length fmap list_fmap threads_fds total_clients fst snd] in *.
  assert (Hws : Forall (worker_ok config) ws.*2)
    by (apply Forall_fmap; eapply Forall_impl; [|exact Hps]; by intros ? [? _]).
  pose proof (total_clients_bound config ws.*2 Hws) as Ht. rewrite length_fmap in Ht.
  apply wp_bind. eapply wp_mono.
  { apply (stop_ok t wk (others + total_clients ws.*2) (X ∪ threads_fds ws.*1)); [lia|done|].
    replace (others + total_clients ws.*2 + open_clients wk)
      with (others + (open_clients wk + total_clients ws.*2)) by lia.
    eapply srv_mono; [|exact Hs]. set_solver. }
  cbv beta. intros tw h1 [[Hst Ha] H1]. apply wp_bind.
  eapply wp_mono; [apply IH; [unfold kDescriptors in *; lia|exact H1]|].
  cbv beta. intros rest h2 ([Hr Has] & Hl & H2). apply wp_ret. split; [|split; [cbn; by rewrite Hl|done]].
  split; [by apply List.Forall_cons|]. cbn [accounts_of fmap list_fmap snd]. congruence.
Qed.

Lemma stopped_fds ws : Forall stopped ws -> threads_fds ws.*1 = ∅.
Proof.
  induction 1 as [|tw ws (_ & _ & Ht) _ IH]; [done|]. cbn [fmap list_fmap threads_fds]. rewrite Ht, IH. set_solver.
Qed.

Lemma stopped_pairs ws : Forall stopped ws -> Forall pair_ok ws.
Proof. intros Hs. eapply Forall_impl; [|exact Hs]. by intros ? [? _]. Qed.

Lemma stopped_total ws : Forall stopped ws -> total_clients ws.*2 = 0.
Proof.
  induction 1 as [|tw ws Hs _ IH]; [done|]. cbn [fmap list_fmap total_clients]. rewrite IH. pose proof (stopped_clients tw Hs). lia.
Qed.

(** Every client's socket is closed, was lost, or is with one of the workers. *)
Definition books (sk : Sockets) (ws : list Worker) : Prop :=
  sk_accepted sk = sk_closed sk ⊎ sk_lost sk ⊎ accounts_of ws.

Lemma books_clear sk' ws :
  Forall (fun wk => installed wk = ∅) ws -> books sk' ws -> books (foldl forget_worker sk' ws) [].
Proof.
  intros Hi. revert sk'. induction Hi as [|wk ws Hwk _ IH]; intros sk' Hb; [done|]. cbn [foldl]. apply IH.
  unfold books in *. cbn [forget_worker sk_accepted sk_closed sk_lost accounts_of] in *. rewrite Hb.
  unfold account, waiting. rewrite Hwk. multiset_solver.
Qed.

(** A server whose workers may still be running: its descriptors are those of
    its variables, its clients are counted and their sockets accounted for. *)
Definition tcp_ok (X : gset Z) (ts : TcpServer) (h : Host) : Prop :=
  Forall pair_ok (ts_workers ts) /\ Z.of_nat (length (ts_workers ts)) <= 2 ^ 32 /\
  srv config sk (X ∪ tcp_fds ts) (total_clients (ts_workers ts).*2) h /\ books sk (ts_workers ts).*2.

Lemma stop_workers_ok X ts h :
  tcp_ok X ts h ->
  wp (stop_workers ts) (fun ts' h' => ts_listen_fd ts' = ts_listen_fd ts /\
                                      (Forall stopped (ts_workers ts') /\ books sk (ts_workers ts').*2) /\
                                      length (ts_workers ts') = length (ts_workers ts) /\
                                      srv config sk (X ∪ fds (ts_listen_fd ts)) 0 h') h.
Proof.
  intros (Hp & Hl & Hs & Hb). unfold stop_workers. apply wp_bind. eapply wp_mono.
  { apply (stop_all_ok _ 0 (X ∪ fds (ts_listen_fd ts))); [lia|unfold kDescriptors, u64_max; lia|done|].
    eapply srv_mono; [|exact Hs]. unfold tcp_fds. set_solver. }
  cbv beta. intros ws' h' ([Hst Ha] & ? & ?). apply wp_ret. cbn [ts_listen_fd ts_workers]. unfold books.
  by rewrite Ha.
Qed.

(** Clearing stopped workers accounts for their sockets. *)
Lemma clear_workers_ok X n ts h :
  Forall stopped (ts_workers ts) -> books sk (ts_workers ts).*2 -> srv config sk X n h ->
  wp (clear_workers ts) (fun ts' h' => ts' = MkTcp (ts_listen_fd ts) [] /\
    exists sk', srv config sk' X n h' /\ books sk' []) h.
Proof.
  intros Hst Hb [? ? ? ? Hk]. unfold clear_workers. apply wp_bind. unfold on_sockets, st_modify, wp at 1. cbn [fst snd].
  apply wp_ret. split; [done|]. eexists. split; [by split|]. cbn [h_clients]. rewrite Hk. apply books_clear; [|done].
  apply Forall_fmap. eapply Forall_impl; [|exact Hst]. intros tw. apply stopped_installed.
Qed.

Lemma close_listener_ok X ts n h :
  srv config sk (X ∪ fds (ts_listen_fd ts)) n h ->
  wp (close_listener ts) (fun ts' h' => fds (ts_listen_fd ts') = ∅ /\ ts_workers ts' = ts_workers ts /\
                                        srv config sk X n h') h.
Proof.
  intros Hs. unfold close_listener. op_by srv_close_fd. intros [e fd] h' [? ?]. by apply wp_ret.
Qed.

Lemma tcp_ok_stopped X ts h :
  Forall stopped (ts_workers ts) -> books sk (ts_workers ts).*2 -> Z.of_nat (length (ts_workers ts)) <= 2 ^ 32 ->
  srv config sk (X ∪ fds (ts_listen_fd ts)) 0 h -> tcp_ok X ts h.
Proof.
  intros Hst Hb Hl Hs. split; [by apply stopped_pairs|]. split; [done|]. split; [|done]. rewrite stopped_total by done.
  eapply srv_mono; [|exact Hs]. unfold tcp_fds. set_solver.
Qed.

(** * Starting *)

Lemma setup_listener_ok X n ts h :
  srv config sk X n h ->
  wp (setup_listener ts) (fun r h' => ts_workers r.2 = ts_workers ts /\
                                      srv config sk (X ∪ fds (ts_listen_fd r.2)) n h') h.
Proof.
  intros Hs. unfold setup_listener. op_by srv_sys. intros [m|] h1 H1.
  { apply wp_ret. split; [done|]. eapply srv_mono; [|exact H1]. set_solver. }
  op_by srv_new_fd. intros fd h2 H2. op_by srv_sys. intros _ h3 H3. op_by srv_sys. intros st h4 H4.
  destruct (negb (ok_status st)); [by apply wp_ret|].
  assert (Hclose : forall st h, srv config sk (X ∪ fds fd) n h ->
    wp (ts0 ← close_listener (MkTcp fd (ts_workers ts)); mret (st : Status, ts0))
      (fun r h' => ts_workers r.2 = ts_workers ts /\ srv config sk (X ∪ fds (ts_listen_fd r.2)) n h') h).
  { intros st' h' Hh'. apply wp_bind. eapply wp_mono; [apply close_listener_ok; exact Hh'|]. cbv beta.
    intros ts' h'' (_ & Hw & Hs''). apply wp_ret. split; [done|]. eapply srv_mono; [|exact Hs'']. set_solver. }
  apply wp_bind. eapply wp_mono; [apply srv_world; [done|exact H4]|]. cbv beta. intros cfg h5 H5.
  destruct (negb (inet_pton_ok _)); [by apply Hclose|].
  op_by srv_sys. intros [m|] h6 H6; [by apply Hclose|].
  op_by srv_sys. intros [m|] h7 H7; [by apply Hclose|]. by apply wp_ret.
Qed.

Lemma start_workers_ok X n ts h :
  Z.of_nat (length (ts_workers ts)) + Z.of_nat n <= 2 ^ 32 ->
  tcp_ok X ts h -> Forall (fun tw => t_running tw.1 = true) (ts_workers ts) ->
  wp (start_workers n ts) (fun r h' => tcp_ok X r.2 h' /\
    (ok_status r.1 = true -> Forall (fun tw => t_running tw.1 = true) (ts_workers r.2))) h.
Proof.
  revert ts h. induction n as [|n IH]; intros ts h Hn Hok Hrun; cbn [start_workers]; [by apply wp_ret|].
  pose proof Hok as (Hp & Hl & Hs & Hb). op_by srv_start. intros [st t] h1 Hst. unfold started in Hst. cbn [fst snd] in Hst.
  destruct (ok_status st) eqn:Est; cbn [negb].
  - destruct Hst as [Hr Hst]. apply IH; cbn [ts_workers].
    + rewrite length_app. cbn [length]. lia.
    + split; [|split; [|split]]; cbn [ts_workers].
      * apply Forall_app. split; [done|]. apply List.Forall_cons; [|apply List.Forall_nil].
        split; [split; [by apply List.Forall_nil|apply map_Forall_empty]|done].
      * rewrite length_app. cbn [length]. lia.
      * unfold tcp_fds. cbn [ts_workers ts_listen_fd]. rewrite !fmap_app, threads_fds_app, total_clients_app.
        change (total_clients [(t, new_worker)].*2) with 0. rewrite Z.add_0_r.
        eapply srv_mono; [|exact Hst]. unfold tcp_fds. cbn. set_solver.
      * unfold books. rewrite fmap_app, accounts_of_app. change (accounts_of _ ⊎ accounts_of _) with (accounts_of (ts_workers ts).*2 ⊎ ∅).
        rewrite Hb. multiset_solver.
    + apply Forall_app. split; [done|]. by apply List.Forall_cons; [|apply List.Forall_nil].
  - op_by srv_request_stop. intros _ h2 H2. apply wp_bind. eapply wp_mono; [by apply (stop_workers_ok X)|]. cbv beta.
    intros ts1 h3 (He & [Hst1 Hb1] & Hl1 & H3). rewrite <- He in H3. op_by close_listener_ok. intros ts2 h4 (_ & Hw & H4).
    apply wp_ret. split; [|cbn; congruence]. apply tcp_ok_stopped; cbn [snd].
    + by rewrite Hw.
    + by rewrite Hw.
    + rewrite Hw, Hl1. lia.
    + eapply srv_mono; [|exact H4]. set_solver.
Qed.
End Release.

(** * Running *)

Lemma keeps_expiration `{Platform} {X} (f : World -> X) `{!Aside f} clock : keeps f (expiration_round clock).
Proof.
  unfold expiration_round. apply keeps_bind; [apply keeps_asks|]. intros cfg. destruct (negb _); [apply keeps_ret|].
  apply keeps_bind; [by apply keeps_storage_op|]. intros _. apply keeps_ret.
Qed.

Section Running.
Context `{Platform}.
Variables (clock : nat -> Z) (steady : nat -> Z) (pid : Z) (ss : option SnapshotStore).
Variable config : Config.
Hypothesis Hconfig : net_config config.

Definition wait_ok (wt : Wait) : Prop :=
  match wt with WaitReady accepts => Forall (Forall accept_ok) accepts | _ => True end.

(** The workers between turns. *)
Definition workers_ok (ws : list (Thread * Worker)) (w : World) : Prop :=
  net_inv config (MkNet ws.*2 new_acceptor w).

Lemma thread_event_ok ev ws w :
  workers_ok ws w ->
  wp (thread_event clock steady pid ss ev ws)
    (fun r w' => exists ws', r = Some ws' /\ ws'.*1 = ws.*1 /\ workers_ok ws' w') w.
Proof.
  intros Hok. destruct ev as [i evs|]; cbn [thread_event].
  - destruct (ws !! i) as [[t wk]|] eqn:Hi; [|apply wp_ret; by eauto].
    assert (Hi2 : ws.*2 !! i = Some wk) by (by rewrite list_lookup_fmap, Hi).
    destruct (at_worker_ok config i (epoll_turn clock steady pid ss evs) (MkNet ws.*2 new_acceptor w)) as (st' & Hat & Hinv).
    + intros others wk0 w0 Ho Ha. by apply epoll_turn_ok.
    + done.
    + by eapply lookup_lt_Some.
    + unfold at_worker in Hat. cbn [n_workers n_world n_acceptor] in Hat. rewrite Hi2 in Hat. cbn in Hat.
      apply wp_bind. unfold wp at 1. destruct (epoll_turn clock steady pid ss evs wk w) as [[wk'|] w']; [|done].
      cbn in Hat |- *. injection Hat as <-. apply wp_ret. eexists. split; [done|].
      unfold workers_ok. rewrite !list_fmap_insert. cbn [fst snd]. split; [|done].
      apply list_insert_id. by rewrite list_lookup_fmap, Hi.
  - apply wp_bind. unfold wp at 1. apply wp_ret. exists ws. split; [done|]. split; [done|].
    assert (Hk : kept w (expiration_round clock w).2).
    { split; [apply (keeps_expiration w_config)|apply (keeps_expiration (fun w => m_connected_clients (w_metrics w)))]. }
    destruct Hok as [H1 H2 H3 H4], Hk as [K1 K2]. split; cbn [n_workers n_world] in *; [congruence|done|congruence|done].
Qed.

Lemma thread_events_ok evs ws w :
  workers_ok ws w ->
  wp (thread_events clock steady pid ss evs ws)
    (fun r w' => exists ws', r = Some ws' /\ ws'.*1 = ws.*1 /\ workers_ok ws' w') w.
Proof.
  revert ws w. induction evs as [|ev evs IH]; intros ws w Hok; cbn [thread_events]; [apply wp_ret; by eauto|].
  apply wp_bind. eapply wp_mono; [by apply thread_event_ok|]. cbv beta. intros r w1 (ws1 & -> & H1 & Hok1).
  eapply wp_mono; [by apply IH|]. cbv beta. intros r w2 (ws2 & -> & H2 & Hok2). exists ws2. by rewrite H2.
Qed.

Lemma accept_ready_stop evs ws ac w : w_stop (accept_ready evs ws ac w).2 = w_stop w.
Proof.
  revert ws ac w. induction evs as [|[fd peer|] evs IH]; intros ws ac w; cbn [accept_ready]; try done.
  rewrite st_bind_eq.
  assert (Hs : w_stop (lift_sys set_nonblocking w).2 = w_stop w)
    by (unfold lift_sys; by destruct (set_nonblocking (w_sys w))).
  destruct (negb _); [by rewrite IH|]. rewrite !st_bind_eq. cbn [asks fst snd].
  destruct (_ || _); by rewrite IH.
Qed.

Lemma accept_each_ok accepts ws ac w :
  Forall (Forall accept_ok) accepts -> workers_ok ws w ->
  wp (accept_each accepts ws ac)
    (fun r w' => r.1.*1 = ws.*1 /\ workers_ok r.1 w' /\ w_stop w' = w_stop w) w.
Proof.
  intros Ha. revert ws ac w. induction Ha as [|evs accepts He _ IH]; intros ws ac w Hok; cbn [accept_each].
  { by apply wp_ret. }
  apply wp_bind. unfold accept_into. apply wp_bind. pose proof Hok as [H1 H2 H3 H4]. cbn [n_workers n_world] in *.
  pose proof (accept_ready_ok config evs ws.*2 ac w He H2) as Hr. pose proof (accept_ready_stop evs ws.*2 ac w) as Hs.
  unfold wp at 1. unfold wp in Hr. destruct (accept_ready evs ws.*2 ac w) as [[wks ac'] w1]. cbn [fst snd] in *.
  destruct Hr as ([K1 K2] & Hw & Ht & Hl). apply wp_ret. rewrite length_fmap in Hl.
  assert (Hf : (zip ws.*1 wks).*1 = ws.*1) by (apply fst_zip; rewrite length_fmap; lia).
  assert (Hs2 : (zip ws.*1 wks).*2 = wks) by (apply snd_zip; rewrite length_fmap; lia).
  eapply wp_mono; [apply IH|].
  - unfold workers_ok. rewrite Hs2. split; cbn [n_workers n_world]; [congruence|done|congruence|].
    by rewrite Hl, <- (length_fmap snd ws).
  - cbv beta. intros r w2 (? & ? & ?). split; [congruence|]. split; [done|congruence].
Qed.

(** The accept loop never gets stuck; while it runs no stop was requested, and
    it ends well only when one was. *)
Definition loop_result (turns : list Turn) (w : World) (r : LoopEnd) (w' : World) : Prop :=
  match r with
  | Stuck => False
  | Running => Forall (fun turn => tn_signal turn = false) turns /\ (w_stop w = false -> w_stop w' = false)
  | Ended st => ok_status st = true -> w_stop w' = true \/ Exists (fun turn => tn_signal turn = true) turns
  end.

Lemma loop_result_cons turn turns w w1 r w' :
  tn_signal turn = false -> w_stop w1 = false -> loop_result turns w1 r w' -> loop_result (turn :: turns) w r w'.
Proof.
  intros Hsig Hs. destruct r as [st| |]; [| |done]; cbn.
  - intros Hr Hst. destruct (Hr Hst); [by left|right; by apply Exists_cons_tl].
  - intros [? ?]. split; [by apply List.Forall_cons|auto].
Qed.

Lemma accept_turns_ok turns ws ac w :
  Forall (fun turn => wait_ok (tn_wait turn)) turns -> workers_ok ws w ->
  wp (accept_turns clock steady pid ss turns false ws ac)
    (fun r w' => r.1.2.*1 = ws.*1 /\ workers_ok r.1.2 w' /\ loop_result turns w r.1.1 w') w.
Proof.
  intros Ht. revert ws ac w. induction Ht as [|turn turns Hturn _ IH]; intros ws ac w Hok; cbn [accept_turns].
  { by apply wp_ret. }
  apply wp_bind. eapply wp_mono; [by apply thread_events_ok|]. cbv beta. intros r w1 (ws1 & -> & Hf1 & Hok1).
  apply wp_bind. unfold asks, wp at 1. cbn [fst snd orb].
  destruct (w_stop w1) eqn:Hs1; [apply wp_ret; split; [done|]; split; [done|]; by left|]. cbn [orb].
  destruct (tn_signal turn) eqn:Hsig.
  { apply wp_ret. split; [done|]. split; [done|]. intros _. right. by apply Exists_cons_hd. }
  assert (Hrest : forall ws2 ac2 w2, ws2.*1 = ws.*1 -> workers_ok ws2 w2 -> w_stop w2 = false ->
    wp (accept_turns clock steady pid ss turns false ws2 ac2)
      (fun r w' => r.1.2.*1 = ws.*1 /\ workers_ok r.1.2 w' /\ loop_result (turn :: turns) w r.1.1 w') w2).
  { intros ws2 ac2 w2 Hf2 Hok2 Hs2. eapply wp_mono; [by apply IH|]. cbv beta. intros [[r ws3] ac3] w3 (Hf3 & Hok3 & Hr).
    cbn [fst snd] in *. split; [congruence|]. split; [done|]. by eapply loop_result_cons. }
  destruct (tn_wait turn) as [|m|accepts].
  - by apply Hrest.
  - by apply wp_ret.
  - apply wp_bind. eapply wp_mono; [by apply accept_each_ok|]. cbv beta. intros [ws2 ac2] w2 (Hf2 & Hok2 & Hs2).
    cbn [fst snd] in *. apply Hrest; [congruence|done|congruence].
Qed.

(** * Sockets while the server runs *)

Lemma accounts_thread_event ev ws w :
  wp (thread_event clock steady pid ss ev ws)
    (fun r _ => forall ws', r = Some ws' -> accounts_of ws'.*2 = accounts_of ws.*2) w.
Proof.
  destruct ev as [i evs|]; cbn [thread_event].
  - destruct (ws !! i) as [[t wk]|] eqn:Hi; [|by apply wp_ret; intros ? [= <-]].
    apply wp_bind. eapply wp_mono; [apply account_turn|]. cbv beta. intros [wk'|] w' Ha; apply wp_ret; [|done].
    intros ws' [= <-]. rewrite list_fmap_insert. apply (accounts_of_insert i wk); [by rewrite list_lookup_fmap, Hi|by apply Ha].
  - apply wp_bind, wp_any. intros u w'. by apply wp_ret; intros ? [= <-].
Qed.

Lemma accounts_thread_events evs ws w :
  wp (thread_events clock steady pid ss evs ws)
    (fun r _ => forall ws', r = Some ws' -> accounts_of ws'.*2 = accounts_of ws.*2) w.
Proof.
  revert ws w. induction evs as [|ev evs IH]; intros ws w; cbn [thread_events]; [by apply wp_ret; intros ? [= <-]|].
  apply wp_bind. eapply wp_mono; [apply accounts_thread_event|]. cbv beta. intros [ws1|] w1 H1; [|by apply wp_ret].
  eapply wp_mono; [apply IH|]. cbv beta. intros r w2 H2 ws' ->. by rewrite (H2 ws' eq_refl), (H1 ws1 eq_refl).
Qed.

Lemma accept_ready_length evs ws ac w : length (accept_ready evs ws ac w).1.1 = length ws.
Proof.
  revert ws ac w. induction evs as [|[fd peer|] evs IH]; intros ws ac w; cbn [accept_ready]; try done.
  rewrite st_bind_eq. destruct (negb _); [by rewrite IH|]. rewrite !st_bind_eq. cbn [asks fst snd].
  destruct (_ || _); rewrite IH; [done|]. apply length_alter.
Qed.

Lemma accept_each_balanced base accepts ws ac w :
  balanced base ws.*2 ac -> wp (accept_each accepts ws ac) (fun r _ => balanced base r.1.*2 r.2) w.
Proof.
  revert ws ac w. induction accepts as [|evs accepts IH]; intros ws ac w Hb; cbn [accept_each]; [by apply wp_ret|].
  apply wp_bind. unfold accept_into. apply wp_bind.
  pose proof (accept_ready_balanced base evs ws.*2 ac w Hb) as Hr. pose proof (accept_ready_length evs ws.*2 ac w) as Hl.
  unfold wp at 1. unfold wp in Hr. destruct (accept_ready evs ws.*2 ac w) as [[wks ac'] w1]. cbn [fst snd] in *.
  apply wp_ret. apply IH. rewrite length_fmap in Hl. rewrite snd_zip; [done|]. rewrite length_fmap. lia.
Qed.

Lemma accept_turns_balanced base turns sig ws ac w :
  balanced base ws.*2 ac -> wp (accept_turns clock steady pid ss turns sig ws ac) (fun r _ => balanced base r.1.2.*2 r.2) w.
Proof.
  revert sig ws ac w. induction turns as [|turn turns IH]; intros sig ws ac w Hb; cbn [accept_turns]; [by apply wp_ret|].
  apply wp_bind. eapply wp_mono; [apply accounts_thread_events|]. cbv beta. intros [ws1|] w1 H1; [|by apply wp_ret].
  assert (Hb1 : balanced base ws1.*2 ac) by (unfold balanced; by rewrite (H1 ws1 eq_refl)).
  apply wp_bind, wp_any. intros stopping w2. destruct (_ || _); [by apply wp_ret|].
  destruct (tn_wait turn) as [|m|accepts]; [by apply IH|by apply wp_ret|].
  apply wp_bind. eapply wp_mono; [by apply accept_each_balanced|]. cbv beta. intros [ws2 ac2] w3 Hb2. by apply IH.
Qed.

(** * The whole server *)

Definition all_running (ts : TcpServer) : Prop := Forall (fun tw => t_running tw.1 = true) (ts_workers ts).

Lemma running_pairs ws w : workers_ok ws w -> Forall (fun tw => t_running tw.1 = true) ws -> Forall (pair_ok config) ws.
Proof.
  intros [_ Hw _ _] Hr. cbn [n_workers] in Hw. rewrite Forall_fmap in Hw. apply List.Forall_forall. intros tw Hin.
  rewrite List.Forall_forall in Hw, Hr. split; [exact (Hw tw Hin)|]. by rewrite (Hr tw Hin).
Qed.

Lemma workers_of_tcp sk X ts h : tcp_ok config sk X ts h -> workers_ok (ts_workers ts) (h_world h).
Proof.
  intros (Hp & Hl & [Hc Hn _ _ _] & _). split; cbn [n_workers n_world]; [done| |done|by rewrite length_fmap].
  apply Forall_fmap. eapply Forall_impl; [|exact Hp]. by intros ? [? _].
Qed.

(** Running workers keep their threads. *)
Lemma same_threads (ws ws' : list (Thread * Worker)) :
  ws'.*1 = ws.*1 -> Forall (fun tw => t_running tw.1 = true) ws -> Forall (fun tw => t_running tw.1 = true) ws'.
Proof.
  intros Hf Hr. apply (Forall_fmap fst (fun t => t_running t = true)). rewrite Hf. by apply Forall_fmap.
Qed.

(** When the server has ended. *)
Definition at_end {A : Type} (P : A -> Host -> Sockets -> Prop) (r : LoopEnd * A) (h : Host) : Prop :=
  r.1 <> Stuck /\ forall st, r.1 = Ended st -> exists sk, P r.2 h sk.

Lemma books_counted sk ac ws ws' :
  books sk ws -> balanced (accounts_of ws) ws' ac -> books (count_sockets ac sk) ws'.
Proof.
  unfold books, balanced. cbn [count_sockets sk_accepted sk_closed sk_lost]. intros -> Hb.
  replace (_ ⊎ ac_accepted ac) with (sk_closed sk ⊎ sk_lost sk ⊎ (accounts_of ws ⊎ ac_accepted ac)) by multiset_solver.
  rewrite Hb. multiset_solver.
Qed.

Lemma accept_loop_ok sk X turns ts h :
  Forall (fun turn => wait_ok (tn_wait turn)) turns -> tcp_ok config sk X ts h -> all_running ts ->
  wp (accept_loop clock steady pid ss turns ts) (at_end (fun ts' h' sk' => tcp_ok config sk' X ts' h')) h.
Proof.
  intros Ht (Hp & Hl & Hs & Hb) Hrun. unfold accept_loop.
  op_by srv_sys. intros [m|] h1 H1; [apply wp_ret; split; [done|]; by exists sk|].
  op_by srv_new_fd. intros fd h2 H2. op_by srv_sys. intros [m|] h3 H3.
  { op_by srv_close_fd. intros _ h4 [_ H4]. apply wp_ret. split; [done|]. by exists sk. }
  assert (Hw3 : workers_ok (ts_workers ts) (h_world h3)).
  { apply (workers_of_tcp sk (X ∪ fds fd)). do 2 (split; [done|]). split; [|done]. eapply srv_mono; [|exact H3]. set_solver. }
  apply wp_bind, wp_on_world. eapply wp_mono.
  { apply wp_and; [by apply accept_turns_ok|]. apply (accept_turns_balanced (accounts_of (ts_workers ts).*2)).
    unfold balanced. cbn [new_acceptor ac_accepted ac_closed]. multiset_solver. }
  cbv beta. intros [[r ws] ac] w4 [(Hf & Hw4 & Hr) Hbal]. cbn [fst snd] in *.
  apply wp_bind. unfold on_sockets, st_modify, wp at 1. cbn [fst snd h_world h_open h_next h_clients]. apply wp_bind.
  pose proof (books_counted sk ac _ _ Hb Hbal) as Hb4.
  assert (H4 : srv config (count_sockets ac sk) (X ∪ tcp_fds (MkTcp (ts_listen_fd ts) ws) ∪ fds fd) (total_clients ws.*2)
                 (MkHost w4 (h_open h3) (h_next h3) (count_sockets ac (h_clients h3)))).
  { destruct Hw4 as [? ? ? ?], H3 as [_ _ ? ? Hk]. split; cbn [h_world h_open h_next h_clients n_workers n_world] in *; try done.
    - unfold tcp_fds in *. cbn [ts_listen_fd ts_workers]. by rewrite Hf.
    - by rewrite Hk. }
  destruct r as [st| |]; [|by apply wp_ret|done].
  op_by srv_close_fd. intros _ h5 [_ H5]. apply wp_ret. apply wp_ret. cbn [fst snd]. split; [done|]. intros _ _.
  exists (count_sockets ac sk). cbn [snd].
  split; [by eapply running_pairs, same_threads|]. split; [|done]. cbn [ts_workers].
  by rewrite <- (length_fmap fst ws), Hf, length_fmap.
Qed.

Lemma run_tcp_ok sk X turns h :
  Forall (fun turn => wait_ok (tn_wait turn)) turns -> workers (server config) <= 2 ^ 32 ->
  srv config sk X 0 h -> books sk [] ->
  wp (run_tcp clock steady pid ss turns (MkTcp (-1) [])) (at_end (fun ts h' sk' => tcp_ok config sk' X ts h')) h.
Proof.
  intros Ht Hn Hs Hbooks. unfold run_tcp. op_by setup_listener_ok. intros [st ts] h1 [Hw H1]. cbn [fst snd] in *.
  assert (Hok1 : tcp_ok config sk X ts h1) by (by apply tcp_ok_stopped; rewrite ?Hw; [apply List.Forall_nil|..]).
  destruct (negb (ok_status st)); [apply wp_ret; split; [done|]; by exists sk|].
  apply wp_bind, wp_on_world. unfold asks, wp at 1. cbn [fst snd].
  pose proof (srv_config _ _ _ _ _ H1) as Hc. rewrite Hc.
  replace (MkHost (h_world h1) (h_open h1) (h_next h1) (h_clients h1)) with h1 by (by destruct h1).
  apply wp_bind. eapply wp_mono; [apply (start_workers_ok config sk X _ ts h1); [|done|]|].
  { rewrite Hw. cbn. lia. }
  { rewrite Hw. by apply List.Forall_nil. }
  cbv beta. intros [st2 ts2] h2 [Hok2 Hrun2]. cbn [fst snd] in *.
  destruct (ok_status st2) eqn:Est; cbn [negb]; [|apply wp_ret; split; [done|]; by exists sk].
  apply wp_bind. eapply wp_mono; [eapply accept_loop_ok; [done|exact Hok2|by apply Hrun2]|].
  intros [r ts3] h3 [Hr Hok3]. cbn [fst snd] in *. destruct r as [st3| |]; [|by apply wp_ret|done].
  destruct (Hok3 st3 eq_refl) as (sk3 & Hp3 & Hl3 & Hs3 & Hb3). op_by srv_request_stop. intros _ h4 H4.
  apply wp_bind. eapply wp_mono; [by apply (stop_workers_ok config sk3 X)|]. cbv beta.
  intros ts5 h5 (He & [Hst5 Hb5] & _ & H5). op_by clear_workers_ok. intros ts6 h6 (-> & sk6 & H6 & Hb6).
  apply wp_bind. eapply wp_mono; [apply (close_listener_ok config sk6 X _ 0); cbn [ts_listen_fd]; by rewrite He|].
  cbv beta. intros ts7 h7 (_ & Hw7 & H7). cbn [ts_workers] in Hw7. apply wp_ret. split; [done|].
  intros _ _. exists sk6. apply tcp_ok_stopped; cbn [snd]; rewrite ?Hw7; [apply List.Forall_nil|done|done|].
  eapply srv_mono; [|exact H7]. set_solver.
Qed.

(** Whatever happens, a server that ends has closed everything of its own, and
    every client's socket but those still waiting in a worker's queue. *)
Lemma run_server_ok sk X turns h :
  Forall (fun turn => wait_ok (tn_wait turn)) turns -> workers (server config) <= 2 ^ 32 ->
  srv config sk X 0 h -> books sk [] ->
  wp (run_server clock steady pid ss turns)
    (fun r h' => r <> Stuck /\ forall st, r = Ended st -> exists sk', srv config sk' X 0 h' /\ books sk' []) h.
Proof.
  intros Ht Hn Hs Hbooks. unfold run_server. apply wp_bind. eapply wp_mono; [apply srv_world; [done|exact Hs]|]. cbv beta.
  intros _ h1 H1. apply wp_bind. eapply wp_mono; [by eapply run_tcp_ok|]. intros [r ts] h2 [Hr Hok].
  cbn [fst snd] in *. destruct r as [st| |]; [|by apply wp_ret|done]. destruct (Hok st eq_refl) as (sk2 & Hp & Hl & H2 & Hb2).
  op_by srv_request_stop. intros _ h3 H3. apply wp_bind. unfold destroy_tcp. op_by srv_request_stop. intros _ h4 H4.
  apply wp_bind. eapply wp_mono; [by apply (stop_workers_ok config sk2 X)|]. cbv beta. intros ts5 h5 (He & [Hst5 Hb5] & _ & H5).
  rewrite <- He in H5. op_by close_listener_ok. intros ts6 h6 (_ & Hw6 & H6). rewrite <- Hw6 in Hst5, Hb5.
  op_by clear_workers_ok. intros ts7 h7 (_ & Hend). apply wp_ret. apply wp_ret. split; [done|]. by intros _ _.
Qed.
End Running.
