(* ===== verification/ServerProps.v ===== *)
(** The process from its first instruction to its last: how [main] ends, and
    what it leaves behind. *)
From stdpp Require Import gmultiset.
From S2P Require Import Prelude Util Config Resp RespFacts Storage Fs Aof Snapshot ConfigLoader ConfigFacts.
From S2P Require Import Metrics Commands Recovery RecoveryProps Frames Durability Net NetFacts NetInv NetProps.
From S2P Require Import Server ServerFacts.

(** * Startup changes neither the configuration nor the clients *)

Section StartupFrame.
Context `{Platform} {X : Type} (f : World -> X) `{!Aside f}.
Variables (clock : nat -> Z) (steady : nat -> Z) (pid : Z).

Abbreviation keeps := (keeps f).

#[local] Hint Resolve keeps_ret keeps_lift keeps_asks keeps_put_storage keeps_put_aof : velox.

Ltac walk :=
  repeat first
    [ progress auto with velox
    | apply keeps_bind; [|intros ?]
    | match goal with |- Frames.keeps _ (match ?x with _ => _ end) => destruct x end
    | match goal with |- Frames.keeps _ (if ?x then _ else _) => destruct x end ].

Lemma keeps_replay_command ss args : keeps (replay_command clock steady pid ss args).
Proof. unfold replay_command. apply keeps_bind; [by apply keeps_execute|]. intros r. apply keeps_ret. Qed.

#[local] Hint Resolve keeps_replay_command : velox.

Lemma keeps_replay_loop ss fuel p n : keeps (replay_loop (replay_command clock steady pid ss) fuel p n).
Proof. revert p n. induction fuel as [|fuel IH]; intros p n; cbn [replay_loop]; walk. Qed.

#[local] Hint Resolve keeps_replay_loop : velox.

Lemma keeps_startup : keeps (startup clock steady pid).
Proof.
  unfold startup, recover, load_for_recovery_world, load_world, replay_file, replay_bytes. walk.
Qed.
End StartupFrame.

Lemma kept_startup `{Platform} clock steady pid w : kept w (startup clock steady pid w).2.
Proof.
  split; [apply (keeps_startup w_config)|apply (keeps_startup (fun w => m_connected_clients (w_metrics w)))].
Qed.

Lemma kept_close_aof w : kept w (close_aof w).2.
Proof.
  unfold close_aof. rewrite st_bind_eq. cbn [asks fst snd]. destruct (w_aof w) as [a|]; [|done].
  rewrite st_bind_eq. unfold lift_sys. by destruct (close_ a (w_sys w)).
Qed.

(** Once the log is closed, its descriptor is. *)
Lemma log_released w : log_descriptor (close_aof w).2 = None.
Proof.
  unfold close_aof, log_descriptor. rewrite st_bind_eq. cbn [asks fst snd]. destruct (w_aof w) as [a|] eqn:Ha; [|by cbn; rewrite Ha].
  rewrite st_bind_eq. unfold lift_sys, close_. destruct a as [? ? ? [fd|] ? ? ? ? ?]; cbn [set_threads fd_]; [|done].
  rewrite !st_bind_eq. by destruct (syscall (w_sys w)).
Qed.

(** * From the loaded configuration on *)

(** Limits under which the server cannot get stuck. *)
Definition serve_config (config : Config) : Prop := net_config config /\ workers (server config) <= 2 ^ 32.

Lemma serve_main_ok `{Platform} clock steady pid config sys turns :
  serve_config config -> Forall (fun turn => wait_ok (tn_wait turn)) turns ->
  wp (serve_main clock steady pid turns)
    (fun r h => r <> NoFuel /\ forall code, r = Exit code -> code ∈ [0; 1; 3; 4] /\ h_open h = ∅ /\
                  log_descriptor (h_world h) = None /\ books (h_clients h) [])
    (MkHost (boot steady config sys) ∅ 3 no_sockets).
Proof.
  intros [Hc Hn] Ht. unfold serve_main. apply wp_bind, wp_on_world. unfold asks at 1, wp at 1. cbn [fst snd].
  apply wp_bind, wp_on_world. cbn [h_world h_open h_next h_clients].
  pose proof (kept_startup clock steady pid (boot steady config sys)) as [K1 K2].
  pose proof (startup_outcome clock steady pid config sys (proj1 Hc)) as Ho. unfold wp at 1. unfold wp in Ho.
  destruct (startup clock steady pid (boot steady config sys)) as [out w]. cbn [fst snd] in *.
  assert (Hnone : books no_sockets []) by (unfold books; cbn; multiset_solver).
  assert (Hclose : forall code h1, code ∈ [0; 1; 3; 4] -> h_open h1 = ∅ -> books (h_clients h1) [] ->
    wp (_ ← on_world close_aof; mret (Exit code))
      (fun r h => r <> NoFuel /\ forall code, r = Exit code -> code ∈ [0; 1; 3; 4] /\ h_open h = ∅ /\
                    log_descriptor (h_world h) = None /\ books (h_clients h) []) h1).
  { intros code h1 Hcode Hopen Hb. apply wp_bind, wp_on_world, wp_ret. split; [done|]. intros ? [= <-].
    cbn [h_open h_world h_clients]. by rewrite log_released. }
  destruct Ho as [-> | [-> | ->]]; [|apply Hclose; [set_solver|done|done]..].
  assert (Hs : srv config no_sockets ∅ 0 (MkHost w ∅ 3 no_sockets)) by (by split).
  apply wp_bind. eapply wp_mono; [by apply (run_server_ok _ _ _ _ config Hc no_sockets ∅)|]. cbv beta.
  intros [st| |] h1 [Hr He]; [|by apply wp_ret|done].
  destruct (He st eq_refl) as (sk & [_ _ Ho _ <-] & Hb). apply Hclose; [|set_solver|done].
  destruct (ok_status st); set_solver.
Qed.

(** * The properties *)

(** C19. Requests to stop are heeded: however turns, signals, worker threads and
    incoming connections interleave, the accept loop never gets stuck; once a
    signal arrived, or a client's [SHUTDOWN] was accepted, it has ended; and it
    reports success only when one of the two happened. *)
Theorem stop_heeded `{Platform} clock steady pid ss config turns ws ac w :
  net_config config -> workers_ok config ws w -> Forall (fun turn => wait_ok (tn_wait turn)) turns ->
  w_stop w = false ->
  let '(r, _, _, w') := accept_turns clock steady pid ss turns false ws ac w in
  r <> Stuck /\
  (Exists (fun turn => tn_signal turn = true) turns \/ w_stop w' = true -> exists st, r = Ended st) /\
  (forall st, r = Ended st -> ok_status st = true ->
     Exists (fun turn => tn_signal turn = true) turns \/ w_stop w' = true).
Proof.
  intros Hc Hok Ht Hs. pose proof (accept_turns_ok clock steady pid ss config Hc turns ws ac w Ht Hok) as Ha.
  unfold wp in Ha. destruct (accept_turns clock steady pid ss turns false ws ac w) as [[[r ws'] ac'] w'].
  cbn [fst snd] in Ha. destruct Ha as (_ & _ & Hr). destruct r as [st| |]; [| |done]; cbn in Hr.
  - split; [done|]. split; [by eauto|]. intros st' [= <-] Hst. destruct (Hr Hst); auto.
  - destruct Hr as [Hsig Hst]. split; [done|]. split; [|done]. intros [Hex|Hw'].
    + rewrite Exists_exists in Hex. destruct Hex as (turn & Hin & Hts). rewrite Forall_forall in Hsig.
      specialize (Hsig turn Hin). congruence.
    + rewrite Hst in Hw' by done. done.
Qed.

(** C18. What is acquired is released: whatever the system calls return, and
    whatever clients and threads do meanwhile, when the server ends (because it
    was stopped, or because starting it or waiting for connections failed) every
    descriptor of a listener, pipe or [epoll] instance it opened is closed, the
    metric of connected clients is 0, and every socket [accept] returned was
    passed to [close] exactly once, except for those that were still waiting in
    a worker's queue, which are not closed. *)
Theorem shutdown_releases `{Platform} clock steady pid ss turns h st h' :
  serve_config (w_config (h_world h)) -> Forall (fun turn => wait_ok (tn_wait turn)) turns ->
  clients (h_world h) = 0 -> 0 <= h_next h -> h_clients h = no_sockets ->
  run_server clock steady pid ss turns h = (Ended st, h') ->
  h_open h' ⊆ h_open h /\ clients (h_world h') = 0 /\
  sk_accepted (h_clients h') = sk_closed (h_clients h') ⊎ sk_lost (h_clients h').
Proof.
  intros [Hc Hn] Ht Hcl Hnext Hsk Hrun.
  eapply wp_run in Hrun; [|apply (run_server_ok _ _ _ _ _ Hc no_sockets (h_open h)); done].
  destruct Hrun as [_ Hs]. destruct (Hs st eq_refl) as (sk & [_ ? ? _ <-] & Hb). split; [done|]. split; [done|].
  rewrite Hb. cbn [accounts_of]. multiset_solver.
Qed.

(** C17. How [main] ends: for any arguments, environment, files, system call
    outcomes and network traffic, and for configured limits that fit their
    integer types and at most 2^32 workers, [main] does not hang in its own
    loops, exits with 2 exactly when the configuration is rejected and otherwise
    with 0, 1, 3 or 4.  When it exits, the descriptors of its listener, pipes,
    [epoll] instances and log are closed, and so are the sockets of its clients,
    except for those still waiting in a worker's queue. *)
Theorem main_ends `{Platform} clock steady pid getenv args turns sys :
  let loaded := (load getenv args sys).1 in
  limits_fit (parser_options_from_config (protocol (lr_config loaded))) ->
  workers (server (lr_config loaded)) <= 2 ^ 32 -> Forall (fun turn => wait_ok (tn_wait turn)) turns ->
  let '(r, _, ds) := main clock steady pid getenv args turns sys in
  r <> NoFuel /\
  (forall code, r = Exit code -> code ∈ [0; 1; 2; 3; 4] /\ d_own ds = ∅ /\ d_log ds = None /\
     sk_accepted (d_clients ds) = sk_closed (d_clients ds) ⊎ sk_lost (d_clients ds)) /\
  (r = Exit 2 <-> lr_show_help loaded = false /\ ok_status (lr_status loaded) = false).
Proof.
  intros loaded Hl Hn Ht. pose proof (loaded_usable getenv args sys) as Hu. cbv zeta in Hu. fold loaded in Hu.
  unfold main. destruct (load getenv args sys) as [loaded' sys1]. subst loaded. cbn [fst] in *.
  assert (Hnone : sk_accepted no_sockets = sk_closed no_sockets ⊎ sk_lost no_sockets) by (cbn; multiset_solver).
  destruct (lr_show_help loaded'); [split; [done|]; split; [intros ? [= <-]; split; [set_solver|done]|]; naive_solver|].
  destruct (ok_status (lr_status loaded')); cbn [negb].
  2: { split; [done|]. split; [intros ? [= <-]; split; [set_solver|done]|]. done. }
  specialize (Hu eq_refl eq_refl). assert (Hc : serve_config (lr_config loaded')).
  { split; [split; [done|]|done]. unfold usable, is_u64 in Hu. lia. }
  pose proof (serve_main_ok clock steady pid _ sys1 turns Hc Ht) as Hm. unfold wp in Hm.
  destruct (serve_main clock steady pid turns _) as [r h]. cbn [fst snd] in Hm. destruct Hm as [Hr He].
  split; [done|]. split.
  - intros code Hcode. destruct (He code Hcode) as (? & ? & ? & Hb). cbn [d_own d_log d_clients].
    split; [set_solver|]. split; [done|]. split; [done|]. rewrite Hb. cbn [accounts_of]. multiset_solver.
  - split; [|intros [_ [=]]]. intros Hcode. destruct (He 2 Hcode). set_solver.
Qed.

(** * Examples *)

(** A client connects, sends [PING], and the process gets a signal. *)
Definition demo_turns : list Turn :=
  [MkTurn [] false WaitIntr;
   MkTurn [TExpire] false (WaitReady [[Accepted 40 (lit "10.0.0.1:5000"); AcceptFailed]]);
   MkTurn [TWorker 0 [Wakeup []];
           TWorker 0 [Client (demo_ready 40 [RData (encode_command [lit "PING"])] [])]] false (WaitReady []);
   MkTurn [] true WaitIntr; MkTurn [] false WaitIntr].

Lemma demo_turns_ok : Forall (fun turn => wait_ok (tn_wait turn)) demo_turns.
Proof.
  repeat (apply List.Forall_cons; [cbn [wait_ok tn_wait]|]); try exact I; try apply List.Forall_nil.
  repeat (apply List.Forall_cons || apply List.Forall_nil); cbn; unfold is_fd, kDescriptors; lia || exact I.
Qed.

Lemma demo_workers_ok : workers_ok kv_config [(MkThread 4 5 6 true, new_worker)] demo_world.
Proof.
  split; cbn [n_workers n_world]; [done| |done|cbn; lia].
  apply List.Forall_cons; [|apply List.Forall_nil]. split; [by apply List.Forall_nil|apply map_Forall_empty].
Qed.

Lemma stop_heeded_witness :
  let '(r, _, _, w') := accept_turns demo_clock (fun _ => 0) 7 None demo_turns false
                       [(MkThread 4 5 6 true, new_worker)] new_acceptor demo_world in
  r <> Stuck /\
  (Exists (fun turn => tn_signal turn = true) demo_turns \/ w_stop w' = true -> exists st, r = Ended st) /\
  (forall st, r = Ended st -> ok_status st = true ->
     Exists (fun turn => tn_signal turn = true) demo_turns \/ w_stop w' = true).
Proof.
  pose proof (stop_heeded demo_clock (fun _ => 0) 7 None kv_config demo_turns
    [(MkThread 4 5 6 true, new_worker)] new_acceptor demo_world demo_net_config demo_workers_ok demo_turns_ok eq_refl) as Hs.
  destruct (accept_turns _ _ _ _ _ _ _ _ _) as [[[r ws'] ac'] w']. exact Hs.
Defined.

Definition demo_host : Host := MkHost demo_world {[0; 1; 2]} 3 no_sockets.

Lemma shutdown_releases_witness :
  let h' := (run_server demo_clock (fun _ => 0) 7 None demo_turns demo_host).2 in
  h_open h' ⊆ {[0; 1; 2]} /\ clients (h_world h') = 0 /\
  sk_accepted (h_clients h') = sk_closed (h_clients h') ⊎ sk_lost (h_clients h').
Proof.
  apply (shutdown_releases demo_clock (fun _ => 0) 7 None demo_turns demo_host status_ok).
  - split; [exact demo_net_config|]. vm_compute. discriminate.
  - exact demo_turns_ok.
  - reflexivity.
  - vm_compute. discriminate.
  - reflexivity.
  - vm_compute. reflexivity.
Defined.

Lemma main_ends_witness :
  let loaded := (load demo_env demo_args demo_disk).1 in
  let '(r, _, ds) := main demo_clock (fun _ => 0) 7 demo_env demo_args demo_turns demo_disk in
  r <> NoFuel /\
  (forall code, r = Exit code -> code ∈ [0; 1; 2; 3; 4] /\ d_own ds = ∅ /\ d_log ds = None /\
     sk_accepted (d_clients ds) = sk_closed (d_clients ds) ⊎ sk_lost (d_clients ds)) /\
  (r = Exit 2 <-> lr_show_help loaded = false /\ ok_status (lr_status loaded) = false).
Proof.
  pose proof (main_ends demo_clock (fun _ => 0) 7 demo_env demo_args demo_turns demo_disk) as Hm. cbv zeta in Hm |- *.
  destruct (main _ _ _ _ _ _ _) as [[r s] o]. apply Hm.
  - split; vm_compute; discriminate.
  - vm_compute. discriminate.
  - exact demo_turns_ok.
Defined.

(** The process ends with 0, having answered the client and closed its socket. *)
Example demo_main :
  let '(r, _, ds) := main demo_clock (fun _ => 0) 7 demo_env demo_args demo_turns demo_disk in
  r = Exit 0 /\ d_clients ds = MkSockets {[+ 40 +]} {[+ 40 +]} ∅.
Proof. vm_compute. split; reflexivity. Qed.
