(* ===== verification/CommandProps.v ===== *)
(** Requests that no command accepts: they are answered with an error and
    change nothing. *)
From S2P Require Import Prelude Util Config Resp Storage Fs Aof Snapshot Metrics Commands ConfigProps CommandFacts.

(** How many words a request of each command may have, the name included. *)
Definition exactly (n k : nat) : bool := (k =? n)%nat.
Definition at_least (n k : nat) : bool := (n <=? k)%nat.
Definition one_or_two (k : nat) : bool := exactly 1 k || exactly 2 k.

Definition arities : list (string * (nat -> bool)) :=
  [("PING", one_or_two); ("ECHO", exactly 2); ("GET", exactly 2); ("SET", at_least 3);
   ("DEL", at_least 2); ("EXISTS", at_least 2); ("MGET", at_least 2);
   ("MSET", fun k => at_least 3 k && negb (Nat.even k));
   ("INCR", exactly 2); ("DECR", exactly 2); ("APPEND", exactly 3); ("STRLEN", exactly 2);
   ("EXPIRE", exactly 3); ("PEXPIRE", exactly 3); ("PEXPIREAT", exactly 3);
   ("TTL", exactly 2); ("PTTL", exactly 2); ("PERSIST", exactly 2); ("DBSIZE", exactly 1); ("FLUSHDB", exactly 1);
   ("INFO", one_or_two); ("CONFIG", at_least 2); ("SAVE", exactly 1); ("BGSAVE", exactly 1);
   ("BGREWRITEAOF", exactly 1); ("SHUTDOWN", one_or_two); ("COMMAND", exactly 1)]%string.

(** Why a request is refused before any command runs, if it is. *)
Definition refusal (args : list bytes) : option bytes :=
  match args with
  | [] => Some (lit "empty command")
  | name :: _ =>
      match assoc (to_upper_ascii name) arities with
      | None => Some (lit "unknown command '" ++ name ++ lit "'")
      | Some accepts =>
          if accepts (length args) then None
          else Some (lit "wrong number of arguments for '" ++ to_lower_ascii name ++ lit "' command")
      end
  end.

Section Refusal.
Context `{Platform}.
Variables (clock : nat -> Z) (steady : nat -> Z) (pid : Z).

Definition refuses (accepts : nat -> bool) (h : Handler) : Prop :=
  forall names ctx args, accepts (length args) = false -> h names ctx args = mret (wrong_args (hd [] args)).

Lemma arities_refuse :
  Forall2 (fun a nh => a.1 = nh.1 /\ refuses a.2 nh.2) arities (default_commands clock steady pid).
Proof.
  unfold arities, default_commands.
  repeat (apply List.Forall2_cons; [split; [reflexivity|]; intros names ctx args|]); [..|apply List.Forall2_nil].
  all: cbn [fst snd]; unfold cmd; intros Ha.
  8: { unfold mset_cmd. destruct (length args <? 3)%nat eqn:E1; [done|]. destruct (Nat.even (length args)); [done|].
       unfold at_least in Ha. rewrite Nat.leb_antisym, E1 in Ha. done. }
  all: destruct args as [|a1 [|a2 [|a3 [|a4 args]]]]; done.
Qed.
End Refusal.

(** C29. Malformed requests: an empty request, an unknown command name and a wrong
    number of arguments (for each command, exactly the counts of [arities] are
    accepted, whatever the spelling of the name) are answered by the registry
    with an error that says so, keep the connection open, and change nothing at
    all: not the database, the log, the files, the metrics or the clock.  (The
    connection counts the command before it asks the registry.) *)
Theorem malformed_rejected `{Platform} clock steady pid ctx args w reason :
  refusal args = Some reason ->
  execute (default_registry clock steady pid) ctx args w = (MkResult (error reason) false, w).
Proof.
  unfold refusal, execute. destruct args as [|name args]; [by intros [= <-]|]. rewrite registry_assoc.
  pose proof (assoc_related _ _ _ (to_upper_ascii name) (arities_refuse clock steady pid)) as Hr.
  destruct (assoc _ arities) as [accepts|], (assoc _ (default_commands clock steady pid)) as [h|]; try done.
  - destruct (accepts _) eqn:Ha; [done|]. intros [= <-]. by rewrite (Hr _ _ (name :: args) Ha).
  - by intros [= <-].
Qed.

Lemma malformed_rejected_witness :
  execute (default_registry (fun _ => 0) (fun _ => 0) 7) (MkContext None true false)
    [lit "mset"; lit "a"; lit "1"; lit "b"] default_world
  = (MkResult (error (lit "wrong number of arguments for 'mset' command")) false, default_world).
Proof. apply malformed_rejected. vm_compute. reflexivity. Defined.
