(* ===== verification/LogProps.v ===== *)
(** The log under failures: whatever the system calls return, commands only
    ever append to it, and no acknowledged command leaves a torn record. *)
From S2P Require Import Prelude Util Config Resp Storage Fs FsFacts Aof Snapshot Metrics Commands.
From S2P Require Import Recovery PersistFacts WriterFacts CommandFacts RecoveryProps.

(** * Commands and the log *)

(** [m] touches neither the log object nor any file. *)
Definition quiet {A} (m : CmdM A) : Prop :=
  forall w, w_aof (m w).2 = w_aof w /\ s_fs (w_sys (m w).2) = s_fs (w_sys w).

(** The log is open, and the object knows its size. *)
Definition log_tracked (a : Aof) (w : World) : Prop :=
  w_aof w = Some a /\ aof_enabled (aof_config a) = true /\ fs_wf (s_fs (w_sys w)) /\
  aof_tracks a (s_fs (w_sys w)).

(** What a command may do to the log: append a prefix of one record, and unless
    it answers with an error the whole of it or nothing. *)
Definition log_grows (a : Aof) (w : World) (r : CommandResult) (w' : World) : Prop :=
  let path := aof_path (aof_config a) in
  let old := default [] (file_at (s_fs (w_sys w)) path) in
  exists record b, b `prefix_of` encode_command record /\
    file_at (s_fs (w_sys w')) path = Some (old ++ b) /\
    only_paths [path] (s_fs (w_sys w)) (s_fs (w_sys w')) /\
    (is_error_reply (response r) = false -> b = [] \/ b = encode_command record).

Definition appends (m : CmdM CommandResult) : Prop :=
  forall a w, log_tracked a w -> wp m (log_grows a w) w.

Lemma quiet_ret {A} (x : A) : quiet (mret x).
Proof. done. Qed.

Lemma quiet_bind {A B} (m : CmdM A) (f : A -> CmdM B) : quiet m -> (forall x, quiet (f x)) -> quiet (m ≫= f).
Proof.
  intros Hm Hf w. rewrite st_bind_eq. destruct (Hm w) as [M1 M2], (Hf (m w).1 (m w).2) as [F1 F2]. split; congruence.
Qed.

Lemma quiet_asks {A} (g : World -> A) : quiet (asks g).
Proof. done. Qed.

Lemma quiet_get : quiet st_get.
Proof. done. Qed.

Lemma quiet_put_storage e : quiet (st_modify (put_storage e)).
Proof. done. Qed.

Lemma quiet_flush : quiet (st_modify (fun w => put_storage (Storage.flushdb (w_storage w)) w)).
Proof. done. Qed.

Lemma quiet_level l : quiet (st_modify (put_log_level l)).
Proof. done. Qed.

Lemma quiet_stop : quiet (st_modify request_stop).
Proof. done. Qed.

Lemma quiet_metrics f : quiet (st_modify (on_metrics f)).
Proof. done. Qed.

Lemma quiet_lift {A} (m : SysM A) : (forall s, s_fs (m s).2 = s_fs s) -> quiet (lift_sys m).
Proof. intros Hm w. unfold lift_sys. pose proof (Hm (w_sys w)) as Hs. by destruct (m (w_sys w)). Qed.

Lemma quiet_clock clock : quiet (lift_sys (read_clock clock)).
Proof. by apply quiet_lift. Qed.

Lemma quiet_sync a : quiet (lift_sys (Aof.sync a)).
Proof.
  apply quiet_lift. intros s. unfold Aof.sync, sync_fd. destruct (fd_ a) as [fd|]; [|done].
  apply (wp_bind _ _ (fun _ s' => s_fs s' = s_fs s)), wp_syscall. intros [m|] s' [Hs _]; by apply wp_ret.
Qed.

Lemma quiet_storage_ops {A} (m : St (StorageEngine * nat) A) : quiet (storage_ops m).
Proof. intros w. unfold storage_ops. by destruct (m _) as [x [e t]]. Qed.

#[local] Hint Resolve quiet_ret quiet_asks quiet_get quiet_put_storage quiet_flush quiet_level quiet_stop quiet_metrics
  quiet_clock quiet_sync quiet_storage_ops : velox.

(** Walks through code without effects on files. *)
Ltac quietly :=
  repeat first
    [ progress auto with velox
    | apply quiet_bind; [|intros ?]
    | match goal with |- quiet (match ?x with _ => _ end) => destruct x end
    | match goal with |- quiet (if ?x then _ else _) => destruct x end ].

Lemma quiet_storage_op {A} clock (op : Z -> StorageEngine -> A * StorageEngine) : quiet (storage_op clock op).
Proof. unfold storage_op. quietly. Qed.

#[local] Hint Resolve quiet_storage_op : velox.

Lemma quiet_mset_loop `{Platform} clock pairs : quiet (mset_loop clock pairs).
Proof. induction pairs as [| |k v rest IH] using list_pair_ind; cbn [mset_loop]; quietly. Qed.

#[local] Hint Resolve quiet_mset_loop : velox.

(** * Appending *)

Lemma log_grows_none a w r w' :
  log_tracked a w -> s_fs (w_sys w') = s_fs (w_sys w) -> log_grows a w r w'.
Proof.
  intros (_ & _ & _ & (fd & _ & Hdir & _)) Hf. exists [], []. split; [apply prefix_nil|]. rewrite Hf.
  split; [|split; [done|by left]]. rewrite app_nil_r. unfold file_at. by rewrite Hdir.
Qed.

Lemma appends_quiet m : quiet m -> appends m.
Proof. intros Hm a w Ht. destruct (Hm w) as [_ Hf]. by apply log_grows_none. Qed.

Lemma appends_bind {A} (m : CmdM A) f : quiet m -> (forall x, appends (f x)) -> appends (m ≫= f).
Proof.
  intros Hm Hf a w Ht. apply wp_bind. unfold wp at 1. destruct (Hm w) as [Ha Hfs].
  assert (Ht' : log_tracked a (m w).2) by (unfold log_tracked; by rewrite Ha, Hfs).
  pose proof (Hf (m w).1 a (m w).2 Ht') as Hg. unfold wp, log_grows in *. by rewrite Hfs in Hg.
Qed.

(** The outcome of [persist]. *)
Lemma wp_persist ctx args a w :
  log_tracked a w ->
  wp (persist ctx args) (fun st w' => forall r, (ok_status st = false -> is_error_reply (response r) = true) ->
    log_grows a w r w') w.
Proof.
  intros Ht. pose proof Ht as (Ha & He & Hwf & Htr). unfold persist. apply wp_bind. unfold asks, wp at 1. cbn [fst snd].
  rewrite Ha. destruct (_ || _); [apply wp_ret; intros r _; by apply log_grows_none|].
  apply wp_bind. unfold wp at 1. pose proof (aof_append_result a args (w_sys w) Hwf He Htr) as Hr. unfold wp in Hr.
  unfold lift_sys. destruct (Aof.append a args (w_sys w)) as [[st a'] s']. cbn [fst snd] in *.
  apply wp_bind. unfold wp at 1. apply wp_ret. intros r Herr. destruct Hr as (b & Hp & Hf & Ho & Hok & _).
  exists args, b. split; [done|]. split; [done|]. split; [done|]. intros Hn. right. apply Hok. cbn [fst].
  destruct (ok_status st); [done|]. by rewrite Herr in Hn.
Qed.

Lemma append_failed_error st : is_error_reply (response (append_failed st)) = true.
Proof. reflexivity. Qed.

Lemma appends_persist ctx args (k : bool) result :
  appends (st ← persist ctx args;
           if negb (ok_status st) then
             _ ← st_modify (on_metrics aof_write_failed); mret (append_failed st)
           else _ ← (if k then st_modify (on_metrics aof_write_succeeded) else mret tt); mret result).
Proof.
  intros a w Ht. apply wp_bind. eapply wp_mono; [by apply wp_persist|]. cbv beta. intros st w1 Hg.
  destruct (ok_status st) eqn:Hst; cbn [negb]; [destruct k|]; apply wp_bind, wp_ret.
  - by apply (Hg result).
  - by apply (Hg result).
  - by apply (Hg (append_failed st)).
Qed.

Lemma appends_persist_or_ok ctx args r : appends (persist_or_ok ctx args r).
Proof. apply (appends_persist ctx args true). Qed.

Lemma appends_persist_if ctx b args r : appends (persist_if ctx b args r).
Proof.
  unfold persist_if. destruct (negb b); [apply appends_quiet; auto with velox|]. apply (appends_persist ctx args false).
Qed.

#[local] Hint Resolve appends_persist_or_ok appends_persist_if : velox.

(** Walks through a handler up to its last step. *)
Ltac appending :=
  repeat first
    [ progress auto with velox
    | apply appends_quiet; quietly; fail
    | apply appends_bind; [quietly; fail|intros ?]
    | match goal with |- appends (match ?x with _ => _ end) => destruct x end
    | match goal with |- appends (if ?x then _ else _) => destruct x end ].

(** The commands that replace files instead. *)
Definition replaces_files (name : string) : bool := (String.eqb name "SAVE" || String.eqb name "BGREWRITEAOF")%string.

Lemma appends_default `{Platform} clock steady pid :
  Forall (fun nh => replaces_files nh.1 = false -> forall names ctx args, appends (nh.2 names ctx args))
    (default_commands clock steady pid).
Proof.
  unfold default_commands.
  repeat (apply List.Forall_cons; [intros Hn; (discriminate Hn || clear Hn); intros names ctx args; cbn [snd]|]);
    [..|apply List.Forall_nil].
  all: unfold cmd, ping, echo, get_cmd, set_cmd, set_run, pxat_arg_from_ttl, del_cmd, exists_cmd, mget_cmd, mset_cmd,
    incr_decr, append_cmd, write_reply, strlen_cmd, expire_impl, storage_expire, pxat_arg_from_ttl, pexpireat,
    ttl_impl, persist_cmd, dbsize_cmd, flushdb_cmd, info_cmd, config_cmd, config_set, bgsave, shutdown_cmd,
    command_cmd; cbv beta zeta; appending.
Qed.

(** The name under which a request is looked up. *)
Definition command_of (args : list bytes) : bytes := to_upper_ascii (hd [] args).

(** C11. The log under failures: in a server whose log is open and whose object
    knows its size, whatever the system calls return, and whatever the request
    is, a command other than [SAVE] and [BGREWRITEAOF] leaves every file but the
    log alone and appends to the log at most a prefix of one record; unless the
    client is told of an error, the log gained the complete record or nothing.
    A torn record is always reported. *)
Theorem log_append_only `{Platform} clock steady pid ctx args a w :
  log_tracked a w -> command_of args <> lit "SAVE" -> command_of args <> lit "BGREWRITEAOF" ->
  let '(r, w') := execute (default_registry clock steady pid) ctx args w in log_grows a w r w'.
Proof.
  intros Ht Hs Hb. enough (wp (execute (default_registry clock steady pid) ctx args) (log_grows a w) w) as Hwp.
  { unfold wp in Hwp. by destruct (execute _ _ _ _). }
  revert a w Ht. change (appends (execute (default_registry clock steady pid) ctx args)). unfold execute.
  destruct args as [|name rest]; [apply appends_quiet; auto with velox|]. rewrite registry_assoc.
  destruct (assoc _ _) as [h|] eqn:Ha; [|apply appends_quiet; auto with velox].
  apply assoc_elem in Ha as (n & Hin & Hn). pose proof (appends_default clock steady pid) as Hd.
  rewrite List.Forall_forall in Hd. apply (Hd (n, h)); [by apply list_elem_of_In|]. cbn [fst]. unfold command_of in *.
  cbn [hd] in *. unfold replaces_files. apply orb_false_iff. rewrite !String.eqb_neq. rewrite Hn in *. split; congruence.
Qed.

(** A log holding one record, and a disk that takes five bytes of the next. *)
Definition short_disk : World :=
  MkWorld (MkSys demo_fs [IoShort 5; IoError (lit "No space left on device")] 0)
    (new_engine default_storage default_protocol) (new_metrics 0) default_config (Some demo_aof) Info false.

Lemma log_append_only_witness :
  let '(r, w') := execute (default_registry demo_clock (fun _ => 0) 7) (MkContext None false false)
                    [lit "set"; lit "k"; lit "v"] short_disk in
  log_grows demo_aof short_disk r w'.
Proof.
  pose proof (log_append_only demo_clock (fun _ => 0) 7 (MkContext None false false) [lit "set"; lit "k"; lit "v"]
    demo_aof short_disk) as Hl.
  destruct (execute _ _ _ _) as [r w']. apply Hl.
  - split; [reflexivity|]. split; [reflexivity|]. split; [exact demo_fs_wf|]. exists 0%nat. repeat split; reflexivity.
  - vm_compute. discriminate.
  - vm_compute. discriminate.
Defined.
