(* ===== verification/Wakeup.v ===== *)
(** How the accept thread hands connections to a worker's thread: the pending
    list, the flag [stopping_] and the wake-up pipe of [TcpServer::Worker] in
    [src/net/tcp_server.cpp], one system call or critical section at a time.

    [Net] lets a worker wake up at any time; here it wakes up only when the
    pipe is readable, so that a wake-up can be lost if the code lets it.  The
    time-out of [epoll_wait] never fires, and events of clients, which touch
    neither the pipe nor the list, are left out. *)
From S2P Require Import Prelude Util.

(** * Addresses *)

(** [sockaddr_in]: the four octets of the address, and the port in host order. *)
Record SockAddr := MkSockAddr { sa_a : Z; sa_b : Z; sa_c : Z; sa_d : Z; sa_port : Z }.

(** [inet_ntop] into [INET_ADDRSTRLEN] bytes, the terminator included. *)
Definition inet_ntop (addr : SockAddr) : option bytes :=
  let text := to_string (sa_a addr) ++ lit "." ++ to_string (sa_b addr) ++ lit "." ++
              to_string (sa_c addr) ++ lit "." ++ to_string (sa_d addr) in
  if (length text + 1 <=? 16)%nat then Some text else None.

Definition peer_string (addr : SockAddr) : bytes :=
  match inet_ntop addr with
  | None => lit "unknown"
  | Some host => host ++ lit ":" ++ to_string (sa_port addr)
  end.

(** * State *)

(** The calls that the accept thread makes to a worker. *)
Inductive Call := AddConnection (fd : Z) (peer : SockAddr) | Stop.

(** Where the accept thread is: between calls, in [wake], or in the rest of
    [stop], waiting for the worker's thread. *)
Inductive Caller := Idle | Waking (stops : bool) | Joining.

(** Where the worker's thread is: at the test of its loop, in [epoll_wait], in
    [drain_wakeup] before its first and a later [read], before the critical
    section of [install_pending], or in its loop. *)
Inductive Phase :=
  | Testing | Waiting | Woken | Draining | Taking | Installing (local : list (Z * bytes)) | Finished.

(** The pipe is the number of bytes in it; [sg_taken] are the connections that
    the loop of [install_pending] has been through. *)
Record Signal := MkSignal {
  sg_calls : list Call;
  sg_caller : Caller;
  sg_open : bool;
  sg_pipe : nat;
  sg_stopping : bool;
  sg_pending : list (Z * bytes);
  sg_phase : Phase;
  sg_taken : list (Z * bytes)
}.

(** * Steps *)

Section Steps.
(** The capacity of a pipe, at least one byte. *)
Variable capacity : nat.

(** A non-blocking [write] of one byte, whose result is ignored. *)
Definition wake (opened : bool) (pipe : nat) : nat :=
  if opened then (if (pipe <? capacity)%nat then S pipe else pipe) else pipe.

(** A non-blocking [read] of up to 64 bytes: how many it returned, where 0
    stands for [EAGAIN]. *)
Definition read_pipe (pipe : nat) : nat * nat :=
  let n := Nat.min 64 pipe in (n, (pipe - n)%nat).

Definition caller_step (s : Signal) : option Signal :=
  match sg_caller s with
  | Idle =>
      match sg_calls s with
      | [] => None
      | AddConnection fd peer :: calls =>
          Some (MkSignal calls (Waking false) (sg_open s) (sg_pipe s) (sg_stopping s)
                 (sg_pending s ++ [(fd, peer_string peer)]) (sg_phase s) (sg_taken s))
      | Stop :: calls =>
          Some (MkSignal calls (Waking true) (sg_open s) (sg_pipe s) true (sg_pending s) (sg_phase s) (sg_taken s))
      end
  | Waking stops =>
      Some (MkSignal (sg_calls s) (if stops then Joining else Idle) (sg_open s) (wake (sg_open s) (sg_pipe s))
             (sg_stopping s) (sg_pending s) (sg_phase s) (sg_taken s))
  | Joining =>
      match sg_phase s with
      | Finished =>
          Some (MkSignal (sg_calls s) Idle false (sg_pipe s) (sg_stopping s) (sg_pending s) Finished (sg_taken s))
      | _ => None
      end
  end.

(** The worker's thread in the phase [ph], with the connections [taken]. *)
Definition at_phase (s : Signal) (pipe : nat) (pending : list (Z * bytes)) (ph : Phase) (taken : list (Z * bytes))
    : Signal :=
  MkSignal (sg_calls s) (sg_caller s) (sg_open s) pipe (sg_stopping s) pending ph taken.

(** One round of the loop of [drain_wakeup]. *)
Definition drain_step (s : Signal) : Signal :=
  let '(n, pipe) := read_pipe (sg_pipe s) in
  at_phase s pipe (sg_pending s) (if (0 <? n)%nat then Draining else Taking) (sg_taken s).

Definition worker_step (s : Signal) : option Signal :=
  let go ph := Some (at_phase s (sg_pipe s) (sg_pending s) ph (sg_taken s)) in
  match sg_phase s with
  | Testing => go (if sg_stopping s then Finished else Waiting)
  | Waiting => if (0 <? sg_pipe s)%nat then go Woken else None
  | Woken | Draining => Some (drain_step s)
  | Taking => Some (at_phase s (sg_pipe s) [] (Installing (sg_pending s)) (sg_taken s))
  | Installing [] => go Testing
  | Installing (c :: local) => Some (at_phase s (sg_pipe s) (sg_pending s) (Installing local) (sg_taken s ++ [c]))
  | Finished => None
  end.

Inductive Who := TheCaller | TheWorker.

Definition step (who : Who) (s : Signal) : option Signal :=
  match who with TheCaller => caller_step s | TheWorker => worker_step s end.

Fixpoint run (sched : list Who) (s : Signal) : option Signal :=
  match sched with
  | [] => Some s
  | who :: sched => s ← step who s; run sched s
  end.

(** A worker just started. *)
Definition started (calls : list Call) : Signal := MkSignal calls Idle true 0 false [] Testing [].

(** * Every connection, once and in order *)

Definition call_adds (c : Call) : list (Z * bytes) :=
  match c with AddConnection fd peer => [(fd, peer_string peer)] | Stop => [] end.

Definition adds (calls : list Call) : list (Z * bytes) := concat (map call_adds calls).

Definition in_hand (ph : Phase) : list (Z * bytes) := match ph with Installing local => local | _ => [] end.

(** What was, is being and will be handed over. *)
Definition all_of (s : Signal) : list (Z * bytes) :=
  sg_taken s ++ in_hand (sg_phase s) ++ sg_pending s ++ adds (sg_calls s).

Definition stops (calls : list Call) : bool := existsb (fun c => match c with Stop => true | _ => false end) calls.

(** * The invariant *)

(** The worker will look at the pending list without being woken again. *)
Definition will_take (ph : Phase) : bool := match ph with Woken | Draining | Taking => true | _ => false end.

Definition waking (c : Caller) : bool := match c with Waking _ => true | _ => false end.

Record signalled (calls : list Call) (s : Signal) : Prop := MkSignalled {
  (** A connection that waits has a byte in the pipe, or will have one, or the
      worker is on its way; unless the worker has ended. *)
  si_pending : sg_pending s <> [] -> sg_phase s <> Finished ->
               (0 < sg_pipe s)%nat \/ waking (sg_caller s) = true \/ will_take (sg_phase s) = true;
  (** The same for a request to stop. *)
  si_stopping : sg_stopping s = true -> sg_phase s = Waiting -> (0 < sg_pipe s)%nat \/ waking (sg_caller s) = true;
  si_woken : sg_phase s = Woken -> (0 < sg_pipe s)%nat;
  si_finished : sg_phase s = Finished -> sg_stopping s = true;
  si_open : sg_open s = true \/ sg_phase s = Finished;
  si_joining : (sg_caller s = Joining \/ sg_caller s = Waking true) -> sg_stopping s = true;
  si_all : all_of s = adds calls;
  si_stops : sg_stopping s || stops (sg_calls s) = stops calls
}.

Hypothesis capacity_pos : (0 < capacity)%nat.

Lemma wake_pos p : (0 < wake true p)%nat.
Proof. unfold wake. destruct (Nat.ltb_spec p capacity); lia. Qed.

Lemma wake_le o p : (p <= wake o p <= S p)%nat.
Proof. unfold wake. destruct o; [destruct (Nat.ltb_spec p capacity)|]; lia. Qed.

Ltac split_signalled :=
  split; unfold all_of, adds in *; cbn in *; try done; try (intros; discriminate); try (intros; intuition congruence);
  try tauto.

Lemma started_signalled calls : signalled calls (started calls).
Proof. split_signalled. Qed.

Lemma caller_signalled calls s s' : signalled calls s -> caller_step s = Some s' -> signalled calls s'.
Proof.
  intros [Hp Hs Hw Hf Ho Hj Ha Ht] Hstep. destruct s as [cs ca o p st pe ph tk]. unfold caller_step in Hstep. cbn in *.
  destruct ca as [|b|].
  - destruct cs as [|[fd peer|] cs]; simplify_eq; split_signalled.
    + by rewrite <- Ha, <- !(assoc_L (++)).
    + by rewrite <- Ht, orb_true_r.
  - simplify_eq. pose proof (wake_le o p). assert (o = true -> 0 < wake o p)%nat by (intros ->; apply wake_pos).
    split_signalled; try (intros; destruct Ho; intuition congruence).
    intros Hc. apply Hj. destruct b; intuition congruence.
  - destruct ph; simplify_eq. split_signalled.
Qed.

Lemma worker_signalled calls s s' : signalled calls s -> worker_step s = Some s' -> signalled calls s'.
Proof.
  intros [Hp Hs Hw Hf Ho Hj Ha Ht] Hstep. destruct s as [cs ca o p st pe ph tk].
  unfold worker_step, drain_step, at_phase, read_pipe in Hstep. cbn [sg_phase sg_pipe sg_stopping sg_pending sg_taken sg_calls sg_caller sg_open] in *.
  destruct ph as [| | | | |[|c local]|]; simplify_eq.
  - destruct st; split_signalled.
  - destruct (Nat.ltb_spec 0 p); simplify_eq. split_signalled.
  - destruct (Nat.ltb_spec 0 (Nat.min 64 p)); split_signalled.
  - destruct (Nat.ltb_spec 0 (Nat.min 64 p)); split_signalled.
  - split_signalled.
  - split_signalled.
  - split_signalled. by rewrite <- Ha, <- !(assoc_L (++)).
Qed.

Lemma run_signalled calls sched s s' : signalled calls s -> run sched s = Some s' -> signalled calls s'.
Proof.
  revert s. induction sched as [|who sched IH]; intros s Hs Hr; cbn in Hr; [by simplify_eq|].
  destruct (step who s) as [s1|] eqn:Hstep; [|done]. eapply IH; [|exact Hr].
  destruct who; [by eapply caller_signalled|by eapply worker_signalled].
Qed.

(** * Runs end *)

Definition phase_rank (p : nat) (ph : Phase) : nat :=
  match ph with
  | Waiting => 8 * p
  | Woken => 8 * p - 1
  | Draining => 8 * p + 5
  | Taking => 8 * p + 4
  | Installing local => 8 * p + 3 + length local
  | Testing => 8 * p + 2
  | Finished => 8 * p
  end.

Definition caller_rank (c : Caller) : nat := match c with Idle => 0 | Waking _ => 10 | Joining => 1 end.

Definition rank (s : Signal) : nat :=
  12 * length (sg_calls s) + caller_rank (sg_caller s) + length (sg_pending s) + phase_rank (sg_pipe s) (sg_phase s).

Lemma phase_rank_wake p p' ph : (p <= p' <= S p)%nat -> (phase_rank p' ph <= phase_rank p ph + 8)%nat.
Proof. destruct ph; cbn [phase_rank]; lia. Qed.

Lemma rank_step calls who s s' : signalled calls s -> step who s = Some s' -> (rank s' < rank s)%nat.
Proof.
  intros [_ _ Hw _ _ _ _ _] Hstep. destruct s as [cs ca o p st pe ph tk]. destruct who; cbn [step] in Hstep.
  - unfold caller_step in Hstep. cbn in *. destruct ca as [|b|].
    + destruct cs as [|[fd peer|] cs]; simplify_eq; unfold rank; cbn [sg_calls sg_caller sg_pending sg_pipe sg_phase length caller_rank];
        rewrite ?length_app; cbn [length]; lia.
    + simplify_eq. unfold rank. cbn [sg_calls sg_caller sg_pending sg_pipe sg_phase].
      pose proof (phase_rank_wake p _ ph (wake_le o p)). destruct b; cbn [caller_rank]; lia.
    + destruct ph; simplify_eq. unfold rank. cbn. lia.
  - unfold worker_step, drain_step, at_phase, read_pipe in Hstep. cbn [sg_phase sg_pipe sg_stopping sg_pending sg_taken sg_calls sg_caller sg_open] in *.
    destruct ph as [| | | | |[|c local]|]; simplify_eq; unfold rank; cbn [sg_calls sg_caller sg_pending sg_pipe sg_phase].
    + destruct st; cbn [phase_rank]; lia.
    + destruct (Nat.ltb_spec 0 p); simplify_eq. cbn [phase_rank sg_calls sg_caller sg_pending sg_pipe sg_phase]. lia.
    + specialize (Hw eq_refl). destruct (Nat.ltb_spec 0 (Nat.min 64 p)); cbn [phase_rank]; lia.
    + destruct (Nat.ltb_spec 0 (Nat.min 64 p)); cbn [phase_rank]; lia.
    + cbn [phase_rank length]. lia.
    + cbn [phase_rank length]. lia.
    + cbn [phase_rank length]. lia.
Qed.

Lemma run_bounded calls sched s s' : signalled calls s -> run sched s = Some s' -> (length sched + rank s' <= rank s)%nat.
Proof.
  revert s. induction sched as [|who sched IH]; intros s Hs Hr; cbn in Hr; [by simplify_eq|].
  destruct (step who s) as [s1|] eqn:Hstep; [|done]. pose proof (rank_step _ _ _ _ Hs Hstep). cbn [length].
  enough (length sched + rank s' <= rank s1)%nat by lia. apply IH; [|done].
  by apply (run_signalled calls [who] s); [|cbn; rewrite Hstep].
Qed.

(** When neither thread can move, nothing is left to do. *)
Lemma stuck_settled calls s :
  signalled calls s -> caller_step s = None -> worker_step s = None ->
  sg_caller s = Idle /\ sg_calls s = [] /\
  if stops calls then sg_phase s = Finished else sg_phase s = Waiting /\ sg_pending s = [] /\ sg_taken s = adds calls.
Proof.
  intros [Hp Hs Hw Hf Ho Hj Ha Ht] Hc Hk. destruct s as [cs ca o p st pe ph tk].
  unfold caller_step, worker_step in *. cbn in *.
  assert (Hph : ph = Finished \/ ph = Waiting /\ p = 0%nat).
  { destruct ph as [| | | | |[|? ?]|]; try discriminate Hk; [|by left]. right. split; [done|].
    destruct p; [done|discriminate Hk]. }
  destruct ca as [|b|]; [|discriminate|].
  - destruct cs as [|[]]; try discriminate. split; [done|]. split; [done|]. cbn in Ht. rewrite orb_false_r in Ht. subst st.
    destruct Hph as [->|[-> ->]]; [by rewrite (Hf eq_refl)|].
    destruct (stops calls); [destruct (Hs eq_refl eq_refl); [lia|done]|].
    destruct pe as [|c pe]; [|destruct Hp as [?|[?|?]]; [done|done|lia|done|done]].
    unfold all_of, adds in *. cbn in Ha. rewrite app_nil_r in Ha. done.
  - destruct Hph as [->|[-> ->]]; [done|]. destruct (Hs (Hj (or_introl eq_refl)) eq_refl); [lia|done].
Qed.
End Steps.

(** C20. The handover of connections between the accept thread and a worker loses
    nothing: whatever connections are added, and whether the worker is
    stopped, however the two threads are interleaved and whatever the pipe
    holds, every connection added is at every moment in exactly one place,
    in order; the threads come to rest within a number of steps linear in
    the calls; and at rest the worker has taken every connection, without
    relying on the time-out of its wait, or has ended if it was asked to,
    so that [stop] returns. *)
Theorem handover capacity calls sched s :
  (0 < capacity)%nat -> run capacity sched (started calls) = Some s ->
  all_of s = adds calls /\ (length sched <= 12 * length calls + 2)%nat /\
  ((forall who, step capacity who s = None) ->
   sg_caller s = Idle /\ sg_calls s = [] /\
   if stops calls then sg_phase s = Finished else sg_phase s = Waiting /\ sg_pending s = [] /\ sg_taken s = adds calls).
Proof.
  intros Hcap Hr. pose proof (started_signalled calls) as H0.
  pose proof (run_signalled capacity Hcap _ _ _ _ H0 Hr) as Hs. split; [apply (si_all _ _ Hs)|]. split.
  - pose proof (run_bounded capacity Hcap _ _ _ _ H0 Hr) as Hb. change (rank (started calls)) with (12 * length calls + 0 + 0 + 2)%nat in Hb. lia.
  - intros Hstuck. eapply (stuck_settled capacity); [done|exact Hs|apply (Hstuck TheCaller)|apply (Hstuck TheWorker)].
Qed.

(** Two connections, the second added while the worker drains the pipe. *)
Definition two_calls : list Call :=
  [AddConnection 7 (MkSockAddr 127 0 0 1 50000); AddConnection 8 (MkSockAddr 10 0 0 2 50001)].

Definition racing : list Who :=
  replicate 2 TheCaller ++ replicate 4 TheWorker ++ replicate 2 TheCaller ++ replicate 11 TheWorker.

Lemma handover_witness :
  option_map sg_taken (run 16 racing (started two_calls))
  = Some [(7, lit "127.0.0.1:50000"); (8, lit "10.0.0.2:50001")].
Proof.
  destruct (run 16 racing (started two_calls)) as [s|] eqn:Hr; [|vm_compute in Hr; discriminate].
  destruct (handover 16 two_calls racing s) as (_ & _ & H); [lia|exact Hr|].
  destruct H as (_ & _ & _ & _ & H).
  - intros who. vm_compute in Hr. injection Hr as <-. destruct who; vm_compute; reflexivity.
  - cbn [option_map]. rewrite H. reflexivity.
Defined.
