(* ===== verification/Threads.v ===== *)
(** Threads: the commands at the grain at which workers interleave.

    [Commands] runs a command as one step.  Here a command is a program
    ([Prog]) whose actions are the critical sections, atomic loads and stores
    and system calls that the code makes one at a time, with the points at which
    it takes and drops the guard of the log ([rewrite_mu_] of
    [src/persistence/aof.cpp]): shared for a mutation, exclusive for a
    checkpoint or a rewrite.  A [Machine] is a pool of threads over one world
    and that lock; a schedule picks the thread that moves. *)
From S2P Require Import Prelude Util Config Resp Storage Fs Aof Snapshot Metrics Commands.

(** * The shared mutex *)

(** How a thread owns [rewrite_mu_]: through a [MutationGuard]'s [shared_lock],
    or through a [unique_lock]. *)
Inductive Mode := Shared | Exclusive.

Record SharedMutex := MkMutex { sm_readers : nat; sm_writer : bool }.

Definition free_mutex : SharedMutex := MkMutex 0 false.

(** Whether [lock_shared] or [lock] returns, and the state in which it does. *)
Definition try_lock (m : Mode) (l : SharedMutex) : option SharedMutex :=
  match m with
  | Shared => if sm_writer l then None else Some (MkMutex (S (sm_readers l)) false)
  | Exclusive =>
      if sm_writer l || negb (sm_readers l =? 0)%nat then None else Some (MkMutex 0 true)
  end.

Definition unlock (m : Mode) (l : SharedMutex) : SharedMutex :=
  match m with
  | Shared => MkMutex (pred (sm_readers l)) (sm_writer l)
  | Exclusive => MkMutex (sm_readers l) false
  end.

(** * Programs *)

Inductive Prog (A : Type) : Type :=
| Ret (a : A)
| Do {B : Type} (action : CmdM B) (k : B -> Prog A)
| Acquire (m : Mode) (k : Prog A)
| Release (m : Mode) (k : Prog A).
Arguments Ret {A} _.
Arguments Do {A B} _ _.
Arguments Acquire {A} _ _.
Arguments Release {A} _ _.

Fixpoint prog_bind {A B} (f : A -> Prog B) (p : Prog A) : Prog B :=
  match p with
  | Ret a => f a
  | Do action k => Do action (fun b => prog_bind f (k b))
  | Acquire m k => Acquire m (prog_bind f k)
  | Release m k => Release m (prog_bind f k)
  end.

#[export] Instance Prog_ret : MRet Prog := @Ret.
#[export] Instance Prog_bind : MBind Prog := @prog_bind.

Definition act {A} (m : CmdM A) : Prog A := Do m Ret.
Definition acquire (m : Mode) : Prog unit := Acquire m (Ret tt).
Definition release (m : Mode) : Prog unit := Release m (Ret tt).

(** Running a program with no other thread moving. *)
Fixpoint alone {A} (p : Prog A) : CmdM A :=
  match p with
  | Ret a => mret a
  | Do action k => fun w => let '(b, w') := action w in alone (k b) w'
  | Acquire _ k | Release _ k => alone k
  end.

(** * Actions *)

Definition sys_call {A} (m : SysM A) : Prog A := act (lift_sys m).

(** The body of a critical section of the storage engine. *)
Definition section {A} (op : StorageEngine -> A * StorageEngine) : Prog A :=
  act (fun w => let '(a, e) := op (w_storage w) in (a, put_storage e w)).

Definition count (f : Metrics -> Metrics) : Prog unit := act (st_modify (on_metrics f)).

(** [ctx.aof != nullptr && ctx.aof->enabled()]. *)
Definition aof_on (w : World) : bool :=
  match w_aof w with Some a => enabled a | None => false end.

Definition ask_enabled : Prog bool := act (asks aof_on).

(** A critical section of [mu_]; it is entered only when there is a log. *)
Definition on_log {A} (absent : A) (f : Aof -> SysM (A * Aof)) : Prog A :=
  act (fun w =>
    match w_aof w with
    | None => (absent, w)
    | Some a => let '((x, a'), s) := f a (w_sys w) in (x, put_aof a' (put_sys s w))
    end).

(** * Guards *)

Record MutationGuard := MkMutationGuard { mg_lock : bool }.

Definition mutation_guard (ctx : CommandContext) : Prog MutationGuard :=
  if ctx_replay ctx then mret (MkMutationGuard false)
  else
    on ← ask_enabled;
    if negb on then mret (MkMutationGuard false)
    else _ ← acquire Shared; mret (MkMutationGuard true).

Definition drop_mutation_guard (g : MutationGuard) : Prog unit :=
  if mg_lock g then release Shared else mret tt.

(** A handler's body from its [auto guard = mutation_guard(ctx)] on. *)
Definition guarded {A} (ctx : CommandContext) (body : Prog A) : Prog A :=
  g ← mutation_guard ctx;
  r ← body;
  _ ← drop_mutation_guard g;
  mret r.

Record CheckpointGuard := MkCheckpointGuard { cg_offset : Z }.

(** The constructor: the lock first, then the size of the log. *)
Definition checkpoint_guard : Prog CheckpointGuard :=
  _ ← acquire Exclusive;
  size ← act (asks (fun w => match w_aof w with Some a => current_size_ a | None => 0 end));
  mret (MkCheckpointGuard size).

Definition drop_checkpoint_guard : Prog unit := release Exclusive.

Section Programs.
Context `{Platform}.
Variables (clock : nat -> TimePoint) (steady : nat -> Z) (pid : Z).

(** * Storage *)

Definition now_ : Prog TimePoint := sys_call (read_clock clock).

(** A single-key operation: the clock is read before the shard is locked. *)
Definition locked {A} (op : TimePoint -> StorageEngine -> A * StorageEngine) : Prog A :=
  now ← now_;
  section (op now).

Fixpoint del_keys (keys : list bytes) : Prog Z :=
  match keys with
  | [] => mret 0
  | k :: rest =>
      n ← locked (fun now => Storage.del_one now k);
      m ← del_keys rest;
      mret (n + m)
  end.

Fixpoint exists_keys (keys : list bytes) : Prog Z :=
  match keys with
  | [] => mret 0
  | k :: rest =>
      v ← locked (fun now => Storage.get now k);
      m ← exists_keys rest;
      mret ((if bool_decide (is_Some v) then 1 else 0) + m)
  end.

Fixpoint get_keys (keys : list bytes) : Prog (list (option bytes)) :=
  match keys with
  | [] => mret []
  | k :: rest =>
      v ← locked (fun now => Storage.get now k);
      vs ← get_keys rest;
      mret (v :: vs)
  end.

Definition shards_here : Prog (list nat) := act (asks (fun w => shard_indices (w_storage w))).

(** The loops over the shards lock one shard after the other. *)
Fixpoint sweep {A} (visit : A -> bytes -> Entry -> A) (now : TimePoint) (is_ : list nat) (acc : A)
    : Prog A :=
  match is_ with
  | [] => mret acc
  | i :: rest =>
      acc ← section (fun e => sweep_entries visit now i (map_order (sh_map (shard_at e i))) acc e);
      sweep visit now rest acc
  end.

Definition sweep_all {A} (visit : A -> bytes -> Entry -> A) (acc : A) : Prog A :=
  now ← now_;
  is_ ← shards_here;
  sweep visit now is_ acc.

Definition dbsize : Prog Z := sweep_all (fun total _ _ => total + 1) 0.

Definition expires_count : Prog Z :=
  sweep_all (fun total _ entry => match e_expiry entry with Some _ => total + 1 | None => total end) 0.

Definition snapshot : Prog (list SnapshotEntry) :=
  sweep_all (fun entries k entry => entries ++ [snapshot_entry k entry]) [].

Fixpoint flush_shards (is_ : list nat) (released : Z) : Prog Z :=
  match is_ with
  | [] => mret released
  | i :: rest =>
      n ← section (fun e => let s := shard_at e i in (sh_memory_bytes s, put_shard e i (clear_shard s)));
      flush_shards rest (u64 (released + n))
  end.

Definition flushdb : Prog unit :=
  is_ ← shards_here;
  released ← flush_shards is_ 0;
  section (fun e => (tt, release_memory e released)).

Fixpoint expire_shards (sample : Z) (now : TimePoint) (is_ : list nat) (n : Z) : Prog Z :=
  match is_ with
  | [] => mret n
  | i :: rest =>
      n ← section (active_expire_shard sample now i n);
      expire_shards sample now rest n
  end.

Definition active_expire (sample : Z) : Prog Z :=
  now ← now_;
  is_ ← shards_here;
  n ← expire_shards sample now is_ 0;
  _ ← (if n =? 0 then mret tt else section (fun e => (tt, add_expired e n)));
  mret n.

(** * Persistence of commands *)

Definition persist (ctx : CommandContext) (args : list bytes) : Prog Status :=
  if ctx_replay ctx then mret status_ok
  else
    on ← ask_enabled;
    if negb on then mret status_ok else on_log status_ok (fun a => Aof.append a args).

Definition persist_or_ok (ctx : CommandContext) (args : list bytes) (result : CommandResult)
    : Prog CommandResult :=
  st ← persist ctx args;
  if negb (ok_status st) then _ ← count aof_write_failed; mret (append_failed st)
  else _ ← count aof_write_succeeded; mret result.

Definition persist_if (ctx : CommandContext) (changed : bool) (args : list bytes)
    (result : CommandResult) : Prog CommandResult :=
  if negb changed then mret result
  else
    st ← persist ctx args;
    if negb (ok_status st) then _ ← count aof_write_failed; mret (append_failed st)
    else mret result.

Definition pxat_arg_from_ttl (ttl : Z) : Prog bytes :=
  now ← now_;
  mret (to_string (unix_ms (add_ms now ttl))).

(** * Handlers *)

Definition ping (ctx : CommandContext) (args : list bytes) : Prog CommandResult :=
  match args with
  | [_] => mret (done_ (simple (lit "PONG")))
  | [_; message] => mret (done_ (bulk message))
  | _ => mret (wrong_args (hd [] args))
  end.

Definition echo (ctx : CommandContext) (args : list bytes) : Prog CommandResult :=
  match args with
  | [_; message] => mret (done_ (bulk message))
  | _ => mret (wrong_args (hd [] args))
  end.

Definition get_cmd (ctx : CommandContext) (args : list bytes) : Prog CommandResult :=
  match args with
  | [_; key] =>
      value ← locked (fun now => Storage.get now key);
      mret (done_ (match value with Some v => bulk v | None => null_bulk end))
  | _ => mret (wrong_args (hd [] args))
  end.

Definition set_guarded (ctx : CommandContext) (key value : bytes) (condition : SetCondition)
    (ttl pxat : option Z) : Prog CommandResult :=
  result ← locked (fun now => Storage.set now key value ttl condition);
  match w_code result with
  | NotSet => mret (done_ null_bulk)
  | WOk =>
      expiry_args ← (match ttl with
                     | None => mret []
                     | Some t =>
                         arg ← (match pxat with
                                | Some at_ => mret (to_string at_)
                                | None => pxat_arg_from_ttl t
                                end);
                         mret [lit "PXAT"; arg]
                     end);
      persist_or_ok ctx ([lit "SET"; key; value] ++ expiry_args) ok
  | code => mret (err (storage_write_error code))
  end.

(** An absolute expiry is turned into a relative one before the guard is
    taken. *)
Definition set_run (ctx : CommandContext) (key value : bytes) (condition : SetCondition)
    (ttl pxat : option Z) : Prog CommandResult :=
  ttl ← (match pxat with
         | None => mret ttl
         | Some at_ =>
             now ← now_;
             mret (Some (to_ms (i64 (timepoint_from_unix_ms at_ - now))))
         end);
  guarded ctx (set_guarded ctx key value condition ttl pxat).

Definition set_cmd (ctx : CommandContext) (args : list bytes) : Prog CommandResult :=
  match args with
  | _ :: key :: value :: opts =>
      match set_options opts Always None None with
      | inl message => mret (err message)
      | inr (condition, ttl, pxat) => set_run ctx key value condition ttl pxat
      end
  | _ => mret (wrong_args (hd [] args))
  end.

Definition del_cmd (ctx : CommandContext) (args : list bytes) : Prog CommandResult :=
  match args with
  | _ :: ((_ :: _) as keys) =>
      guarded ctx (
        deleted ← del_keys keys;
        persist_if ctx (negb (deleted =? 0)) args (done_ (integer (i64 deleted))))
  | _ => mret (wrong_args (hd [] args))
  end.

Definition exists_cmd (ctx : CommandContext) (args : list bytes) : Prog CommandResult :=
  match args with
  | _ :: ((_ :: _) as keys) => n ← exists_keys keys; mret (done_ (integer (i64 n)))
  | _ => mret (wrong_args (hd [] args))
  end.

Definition mget_cmd (ctx : CommandContext) (args : list bytes) : Prog CommandResult :=
  match args with
  | _ :: ((_ :: _) as keys) => values ← get_keys keys; mret (done_ (array_of_bulk values))
  | _ => mret (wrong_args (hd [] args))
  end.

Fixpoint mset_loop (pairs : list bytes) : Prog (option WriteCode) :=
  match pairs with
  | key :: value :: rest =>
      result ← locked (fun now => Storage.set now key value None Always);
      if bool_decide (w_code result = WOk) then mset_loop rest else mret (Some (w_code result))
  | _ => mret None
  end.

Definition mset_cmd (ctx : CommandContext) (args : list bytes) : Prog CommandResult :=
  if (length args <? 3)%nat || Nat.even (length args) then mret (wrong_args (hd [] args))
  else
    guarded ctx (
      failure ← mset_loop (tl args);
      match failure with
      | Some code => mret (err (storage_write_error code))
      | None => persist_or_ok ctx args ok
      end).

Definition write_reply (ctx : CommandContext) (args : list bytes) (result : WriteResult)
    : Prog CommandResult :=
  if bool_decide (w_code result = WOk)
  then persist_or_ok ctx args (done_ (integer (w_integer result)))
  else mret (err (storage_write_error (w_code result))).

Definition incr_decr (delta : Z) (ctx : CommandContext) (args : list bytes) : Prog CommandResult :=
  match args with
  | [_; key] =>
      guarded ctx (
        result ← locked (fun now => Storage.incr_by now key delta);
        write_reply ctx args result)
  | _ => mret (wrong_args (hd [] args))
  end.

Definition append_cmd (ctx : CommandContext) (args : list bytes) : Prog CommandResult :=
  match args with
  | [_; key; suffix] =>
      guarded ctx (
        result ← locked (fun now => Storage.append now key suffix);
        write_reply ctx args result)
  | _ => mret (wrong_args (hd [] args))
  end.

Definition strlen_cmd (ctx : CommandContext) (args : list bytes) : Prog CommandResult :=
  match args with
  | [_; key] => n ← locked (fun now => Storage.strlen now key); mret (done_ (integer (i64 n)))
  | _ => mret (wrong_args (hd [] args))
  end.

Definition storage_expire (key : bytes) (ttl : Z) : Prog bool :=
  if ttl <=? 0 then locked (fun now => Storage.expire 0 now key ttl)
  else
    now_ttl ← now_;
    locked (fun now => Storage.expire now_ttl now key ttl).

Definition expire_impl (multiplier : Z) (command_name : bytes) (ctx : CommandContext)
    (args : list bytes) : Prog CommandResult :=
  match args with
  | [_; key; value] =>
      match parse_ttl_ms value multiplier with
      | None => mret (err (lit "invalid expire time in " ++ command_name))
      | Some ttl =>
          guarded ctx (
            changed ← storage_expire key ttl;
            if negb changed then mret (bool_reply changed)
            else
              pxat ← pxat_arg_from_ttl ttl;
              persist_if ctx true [lit "PEXPIREAT"; key; pxat] (bool_reply changed))
      end
  | _ => mret (wrong_args (hd [] args))
  end.

Definition pexpireat (ctx : CommandContext) (args : list bytes) : Prog CommandResult :=
  match args with
  | [_; key; value] =>
      match parse_i64_arg value with
      | None => mret (err (lit "invalid expire time in PEXPIREAT"))
      | Some when =>
          guarded ctx (
            changed ← locked (fun now => Storage.expire_at now key (timepoint_from_unix_ms when));
            persist_if ctx changed args (bool_reply changed))
      end
  | _ => mret (wrong_args (hd [] args))
  end.

Definition ttl_impl (millis : bool) (ctx : CommandContext) (args : list bytes) : Prog CommandResult :=
  match args with
  | [_; key] =>
      r ← locked (fun now => Storage.ttl now key);
      mret (done_ (integer (ttl_reply millis r)))
  | _ => mret (wrong_args (hd [] args))
  end.

Definition persist_cmd (ctx : CommandContext) (args : list bytes) : Prog CommandResult :=
  match args with
  | [_; key] =>
      guarded ctx (
        changed ← locked (fun now => Storage.persist now key);
        persist_if ctx changed args (bool_reply changed))
  | _ => mret (wrong_args (hd [] args))
  end.

Definition dbsize_cmd (ctx : CommandContext) (args : list bytes) : Prog CommandResult :=
  match args with
  | [_] => n ← dbsize; mret (done_ (integer (i64 n)))
  | _ => mret (wrong_args (hd [] args))
  end.

Definition flushdb_cmd (ctx : CommandContext) (args : list bytes) : Prog CommandResult :=
  match args with
  | [_] => guarded ctx (_ ← flushdb; persist_or_ok ctx [lit "FLUSHDB"] ok)
  | _ => mret (wrong_args (hd [] args))
  end.

(** The counters before the keyspace section are read in one action, the state
    of the log after it in another. *)
Definition info_cmd (ctx : CommandContext) (args : list bytes) : Prog CommandResult :=
  match args with
  | [_] | [_; _] =>
      w ← act st_get;
      let uptime := uptime_seconds (steady (s_ticks (w_sys w))) (w_metrics w) in
      keys ← dbsize;
      expires ← expires_count;
      aof ← act (asks w_aof);
      let w := MkWorld (w_sys w) (w_storage w) (w_metrics w) (w_config w) aof (w_log_level w) (w_stop w) in
      mret (done_ (bulk (info_text w uptime keys expires)))
  | _ => mret (wrong_args (hd [] args))
  end.

Definition command_cmd (names : list bytes) (args : list bytes) : Prog CommandResult :=
  match args with
  | [_] => mret (done_ (array_of_bulk (Some <$> names)))
  | _ => mret (wrong_args (hd [] args))
  end.

Definition config_set (key value : bytes) : Prog CommandResult :=
  let key := to_lower_ascii key in
  if beq key (lit "logging.level") then
    _ ← act (st_modify (put_log_level (parse_log_level value))); mret ok
  else if beq key (lit "metrics.enabled") then
    match parse_bool value with
    | None => mret (err (lit "invalid bool value"))
    | Some b => _ ← count (set_enabled b); mret ok
    end
  else mret (err (lit "CONFIG SET only supports safe runtime values: logging.level, metrics.enabled")).

Definition config_cmd (ctx : CommandContext) (args : list bytes) : Prog CommandResult :=
  match args with
  | name :: sub :: rest =>
      let sub := to_upper_ascii sub in
      if beq sub (lit "GET") then
        match rest with
        | [pattern] =>
            matched ← act (asks (config_get (to_lower_ascii pattern)));
            mret (done_ (array_of_bulk (bulk_pairs matched)))
        | _ => mret (wrong_args name)
        end
      else if beq sub (lit "SET") then
        match rest with
        | [key; value] => config_set key value
        | _ => mret (wrong_args name)
        end
      else mret (err (lit "unsupported CONFIG subcommand"))
  | _ => mret (wrong_args (hd [] args))
  end.

(** * Checkpoints *)

Fixpoint put_entries (fd : nat) (entries : list SnapshotEntry) : Prog bool :=
  match entries with
  | [] => mret true
  | entry :: rest =>
      good ← sys_call (put_all fd true (map encode_command (entry_commands entry)));
      if negb good then mret false else put_entries fd rest
  end.

Definition save_snapshot_file (ss : SnapshotStore) : Prog Status :=
  let path := ss_path ss in
  if negb (path_is_safe path) then mret (MkStatus InvalidArgument (lit "invalid snapshot path"))
  else
    st ← sys_call (ensure_parent_dir snapshot_dir_failure path);
    if negb (ok_status st) then mret st
    else
      let tmp_path := path ++ lit ".tmp" in
      r ← sys_call (open_file true tmp_path);
      match r with
      | inl _ => mret (MkStatus IOError (lit "failed to open snapshot temp file"))
      | inr fd =>
          entries ← snapshot;
          good ← put_entries fd entries;
          if negb good then mret (MkStatus IOError (lit "failed writing snapshot"))
          else
            good ← sys_call (stream_close good);
            if negb good then mret (MkStatus IOError (lit "failed closing snapshot"))
            else sys_call (install (lit "failed to install snapshot: ") tmp_path path)
      end.

(** What [save] does while it owns its guard. *)
Definition save_checkpoint (ss : SnapshotStore) (g : CheckpointGuard) : Prog Status :=
  st ← on_log status_ok (fun a => st ← Aof.sync a; mret (st, a));
  if negb (ok_status st) then mret st
  else
    st ← save_snapshot_file ss;
    if negb (ok_status st) then mret st
    else
      path ← act (asks (fun w => match w_aof w with Some a => aof_path (aof_config a) | None => [] end));
      now ← now_;
      sys_call (write_manifest ss (MkManifest (ss_path ss) path (cg_offset g) (unix_ms now))).

Definition save (ss : SnapshotStore) : Prog Status :=
  on ← ask_enabled;
  if (on : bool) then
    g ← checkpoint_guard;
    st ← save_checkpoint ss g;
    _ ← drop_checkpoint_guard;
    mret st
  else
    st ← save_snapshot_file ss;
    _ ← (if ok_status st then sys_call (remove_manifest ss) else mret tt);
    mret st.

Definition save_cmd (ctx : CommandContext) (args : list bytes) : Prog CommandResult :=
  match args with
  | [_] =>
      match ctx_snapshot ctx with
      | None => mret (err (lit "snapshot store is not configured"))
      | Some ss => st ← save ss; mret (if ok_status st then ok else err (message st))
      end
  | _ => mret (wrong_args (hd [] args))
  end.

Definition bgsave (ctx : CommandContext) (args : list bytes) : Prog CommandResult :=
  match args with
  | [_] => mret (err (lit "BGSAVE is planned; use SAVE for the MVP snapshot path"))
  | _ => mret (wrong_args (hd [] args))
  end.

Fixpoint write_commands (fd : nat) (cmds : list (list bytes)) : Prog Status :=
  match cmds with
  | [] => mret status_ok
  | c :: cmds =>
      st ← sys_call (write_all fd (encode_command c));
      if negb (ok_status st) then mret st else write_commands fd cmds
  end.

(** [last_write_ok_ = false; last_error_ = status.message(); return status]. *)
Definition rewrite_fails (st : Status) : Prog Status :=
  on_log st (fun a => mret (st, failed a st)).

Definition install_rewrite (config : PersistenceConfig) (tmp_path : bytes) : Prog Status :=
  let path := aof_path config in
  e ← sys_call (rename tmp_path path);
  match e with
  | Some _ =>
      m ← sys_call (remove tmp_path);
      rewrite_fails (MkStatus IOError (lit "failed to install rewritten AOF: " ++ m))
  | None =>
      _ ← sys_call (sync_parent_dir_best_effort path);
      _ ← (if path_is_safe (manifest_path config) then sys_call (remove (manifest_path config)) else mret []);
      st ← on_log status_ok (fun a =>
        '(st, a) ← reopen_locked a;
        mret (st, if ok_status st then set_write a (last_write_ok_ a) [] else failed a st));
      if negb (ok_status st) then mret st
      else on_log status_ok (fun a => mret (status_ok, set_write a true (last_error_ a)))
  end.

(** [rewrite] while it owns the lock. *)
Definition rewrite_locked (config : PersistenceConfig) : Prog Status :=
  let path := aof_path config in
  st ← sys_call (ensure_parent_dir dir_failure path);
  if negb (ok_status st) then rewrite_fails st
  else
    let tmp_path := rewrite_tmp_path pid path in
    r ← sys_call (open_file true tmp_path);
    match r with
    | inl m => rewrite_fails (MkStatus IOError (lit "failed to open AOF rewrite temp file: " ++ m))
    | inr tmp_fd =>
        entries ← snapshot;
        st ← write_commands tmp_fd (flat_map entry_commands entries);
        if negb (ok_status st) then
          _ ← sys_call syscall; _ ← sys_call (remove tmp_path); rewrite_fails st
        else
          st ← sys_call (sync_fd tmp_path);
          close_status ← sys_call (close_fd tmp_path);
          let st := if ok_status st && negb (ok_status close_status) then close_status else st in
          if negb (ok_status st) then _ ← sys_call (remove tmp_path); rewrite_fails st
          else install_rewrite config tmp_path
    end.

Definition rewrite (config : PersistenceConfig) : Prog Status :=
  if negb (aof_enabled config) then mret (MkStatus InvalidArgument (lit "AOF is disabled"))
  else if negb (path_is_safe (aof_path config))
  then mret (MkStatus InvalidArgument (lit "invalid AOF path"))
  else
    _ ← acquire Exclusive;
    st ← rewrite_locked config;
    _ ← release Exclusive;
    mret st.

Definition bgrewriteaof (ctx : CommandContext) (args : list bytes) : Prog CommandResult :=
  match args with
  | [_] =>
      aof ← act (asks w_aof);
      match (a ← aof; if enabled a then Some a else None) with
      | None => mret (err (lit "AOF is disabled"))
      | Some a =>
          st ← rewrite (aof_config a);
          if negb (ok_status st) then
            _ ← count aof_write_failed; mret (err (lit "AOF rewrite failed: " ++ message st))
          else _ ← count aof_write_succeeded; mret ok
      end
  | _ => mret (wrong_args (hd [] args))
  end.

Definition shutdown_cmd (ctx : CommandContext) (args : list bytes) : Prog CommandResult :=
  match args with
  | [_] | [_; _] =>
      c ← act (asks w_config);
      if negb (admin_shutdown_enabled c) then mret (err (lit "SHUTDOWN is disabled by configuration"))
      else
        _ ← on_log status_ok (fun a => st ← Aof.sync a; mret (st, a));
        _ ← (if ctx_request_shutdown ctx then act (st_modify request_stop) else mret tt);
        mret (MkResult (simple (lit "OK")) true)
  | _ => mret (wrong_args (hd [] args))
  end.

(** * Dispatch *)

Definition Program : Type := list bytes -> CommandContext -> list bytes -> Prog CommandResult.

Definition prog (f : CommandContext -> list bytes -> Prog CommandResult) : Program := fun _ => f.

Definition programs : list (string * Program) :=
  [("PING", prog ping); ("ECHO", prog echo); ("GET", prog get_cmd); ("SET", prog set_cmd);
   ("DEL", prog del_cmd); ("EXISTS", prog exists_cmd); ("MGET", prog mget_cmd); ("MSET", prog mset_cmd);
   ("INCR", prog (incr_decr 1)); ("DECR", prog (incr_decr (-1)));
   ("APPEND", prog append_cmd); ("STRLEN", prog strlen_cmd);
   ("EXPIRE", prog (expire_impl 1000 (lit "EXPIRE")));
   ("PEXPIRE", prog (expire_impl 1 (lit "PEXPIRE")));
   ("PEXPIREAT", prog pexpireat);
   ("TTL", prog (ttl_impl false)); ("PTTL", prog (ttl_impl true));
   ("PERSIST", prog persist_cmd); ("DBSIZE", prog dbsize_cmd); ("FLUSHDB", prog flushdb_cmd);
   ("INFO", prog info_cmd); ("CONFIG", prog config_cmd); ("SAVE", prog save_cmd);
   ("BGSAVE", prog bgsave); ("BGREWRITEAOF", prog bgrewriteaof); ("SHUTDOWN", prog shutdown_cmd);
   ("COMMAND", fun names _ args => command_cmd names args)]%string.

Fixpoint find_program (name : bytes) (l : list (string * Program)) : option Program :=
  match l with
  | [] => None
  | (n, p) :: l => if beq name (lit n) then Some p else find_program name l
  end.

Definition execute (ctx : CommandContext) (args : list bytes) : Prog CommandResult :=
  match args with
  | [] => mret (err (lit "empty command"))
  | name :: _ =>
      match find_program (to_upper_ascii name) programs with
      | None => mret (err (lit "unknown command '" ++ name ++ lit "'"))
      | Some p => p (command_names (default_registry clock steady pid)) ctx args
      end
  end.

(** * Threads *)

(** What a thread is given to do: a worker a request, the expiration thread and
    the log's own thread one round each. *)
Inductive Job := Request (args : list bytes) | ExpireRound | SyncRound.

(** A request of a client, in [drain_commands]. *)
Definition request (ctx : CommandContext) (args : list bytes) : Prog (option CommandResult) :=
  _ ← count command_processed;
  r ← execute ctx args;
  mret (Some r).

(** A round of the expiration thread, after its sleep. *)
Definition expire_round : Prog (option CommandResult) :=
  config ← act (asks w_config);
  if negb (active_enabled (expiration config)) then mret None
  else _ ← active_expire (sample_per_shard (expiration config)); mret None.

(** A round of [sync_loop], after its sleep. *)
Definition sync_round : Prog (option CommandResult) :=
  st ← on_log status_ok (fun a => st ← Aof.sync a; mret (st, a));
  if ok_status st then mret None
  else _ ← on_log tt (fun a => mret (tt, failed a st)); mret None.

Definition job_prog (ctx : CommandContext) (j : Job) : Prog (option CommandResult) :=
  match j with
  | Request args => request ctx args
  | ExpireRound => expire_round
  | SyncRound => sync_round
  end.

(** A thread: the jobs to come, the one it is at with what is left of its
    program, how it owns the lock, and what it has done. *)
Record Task := MkTask {
  t_todo : list Job;
  t_current : option (Job * Prog (option CommandResult));
  t_held : option Mode;
  t_done : list (Job * option CommandResult)
}.

Definition new_task (jobs : list Job) : Task := MkTask jobs None None [].

Record Machine := MkMachine { mc_mutex : SharedMutex; mc_world : World; mc_tasks : list Task }.

(** One step of a thread; [None] when it has nothing to do or must wait. *)
Definition task_step (ctx : CommandContext) (l : SharedMutex) (w : World) (t : Task)
    : option (SharedMutex * World * Task) :=
  match t_current t with
  | None =>
      match t_todo t with
      | [] => None
      | j :: rest => Some (l, w, MkTask rest (Some (j, job_prog ctx j)) (t_held t) (t_done t))
      end
  | Some (j, Ret r) => Some (l, w, MkTask (t_todo t) None (t_held t) (t_done t ++ [(j, r)]))
  | Some (j, Do action k) =>
      let '(b, w) := action w in
      Some (l, w, MkTask (t_todo t) (Some (j, k b)) (t_held t) (t_done t))
  | Some (j, Acquire m k) =>
      (fun l => (l, w, MkTask (t_todo t) (Some (j, k)) (Some m) (t_done t))) <$> try_lock m l
  | Some (j, Release m k) =>
      Some (unlock m l, w, MkTask (t_todo t) (Some (j, k)) None (t_done t))
  end.

Definition step_at (ctx : CommandContext) (i : nat) (mc : Machine) : option Machine :=
  t ← mc_tasks mc !! i;
  '(l, w, t) ← task_step ctx (mc_mutex mc) (mc_world mc) t;
  Some (MkMachine l w (<[i := t]> (mc_tasks mc))).

Fixpoint run_schedule (ctx : CommandContext) (schedule : list nat) (mc : Machine) : option Machine :=
  match schedule with
  | [] => Some mc
  | i :: schedule => mc ← step_at ctx i mc; run_schedule ctx schedule mc
  end.

Definition start (w : World) (jobs : list (list Job)) : Machine :=
  MkMachine free_mutex w (new_task <$> jobs).
End Programs.
