(* ===== verification/ThreadFacts.v ===== *)
(** A program run with no other thread moving does what the handler of
    [Commands] does in one step. *)
From S2P Require Import Prelude Util Config Resp Storage StorageFacts StorageSweep Fs Aof Snapshot Metrics Commands.
From S2P Require Import CommandFacts Threads.

(** * Running alone *)

(** Run alone, [p] is the computation [m]. *)
Definition runs {A} (p : Prog A) (m : CmdM A) : Prop := forall w, alone p w = m w.

Infix "~>" := runs (at level 70) : velox_scope.
Local Open Scope velox_scope.

Create HintDb runs.

Lemma alone_bind {A B} (p : Prog A) (f : A -> Prog B) w :
  alone (p ≫= f) w = alone (f (alone p w).1) (alone p w).2.
Proof.
  revert w. induction p as [a|C action k IH|m k IH|m k IH]; intros w; [done| |apply IH..].
  cbn. destruct (action w) as [b w']. apply IH.
Qed.

Lemma runs_ret {A} (a : A) : (mret a : Prog A) ~> mret a.
Proof. done. Qed.

Lemma runs_bind {A B} (p : Prog A) (f : A -> Prog B) (m : CmdM A) (g : A -> CmdM B) :
  p ~> m -> (forall a, f a ~> g a) -> p ≫= f ~> m ≫= g.
Proof. intros Hp Hf w. by rewrite alone_bind, st_bind_eq, Hp, Hf. Qed.

Lemma runs_act {A} (m : CmdM A) : act m ~> m.
Proof. intros w. cbn. by destruct (m w). Qed.

Lemma runs_guarded {A} ctx (p : Prog A) m : p ~> m -> guarded ctx p ~> m.
Proof.
  intros Hp w. unfold guarded. rewrite alone_bind.
  assert (Hg : (alone (mutation_guard ctx) w).2 = w).
  { unfold mutation_guard. destruct (ctx_replay ctx); [done|]. rewrite alone_bind. cbn. by destruct (aof_on w). }
  rewrite Hg, alone_bind, !Hp. destruct (alone (mutation_guard ctx) w) as [[[|]] ?], (m w); done.
Qed.

#[export] Hint Resolve runs_ret runs_bind runs_act runs_guarded : runs.

Section Alone.
Context `{Platform}.
Variables (clock : nat -> Z) (steady : nat -> Z) (pid : Z).

Lemma runs_locked {A} (op : Z -> StorageEngine -> A * StorageEngine) : locked clock op ~> storage_op clock op.
Proof.
  intros w. rewrite storage_op_eq. unfold locked. rewrite alone_bind. cbn. unfold step_world, ticks, put_storage. cbn.
  destruct (op _ _). by destruct w.
Qed.

(** The loops over keys. *)
Lemma storage_ops_bind {A B} (m : St (StorageEngine * nat) A) (f : A -> St (StorageEngine * nat) B) w :
  storage_ops (m ≫= f) w = (storage_ops m ≫= fun a => storage_ops (f a)) w.
Proof.
  rewrite st_bind_eq. unfold storage_ops. rewrite st_bind_eq. destruct (m _) as [a [e t]]. cbn. by destruct (f a _) as [b [e' t']].
Qed.

Lemma storage_ops_timed {A} (op : Z -> StorageEngine -> A * StorageEngine) w :
  storage_ops (timed clock op) w = storage_op clock op w.
Proof. rewrite storage_op_eq. unfold storage_ops, timed, ticks. by destruct (op _ _). Qed.

Lemma runs_storage_ops {A B} (op : Z -> StorageEngine -> A * StorageEngine) (f : A -> Prog B) g :
  (forall a, f a ~> storage_ops (g a)) -> locked clock op ≫= f ~> storage_ops (timed clock op ≫= g).
Proof.
  intros Hf w. rewrite storage_ops_bind, alone_bind, st_bind_eq, storage_ops_timed, runs_locked. apply Hf.
Qed.

Lemma storage_ops_ret {A} (a : A) w : storage_ops (mret a) w = (mret a : CmdM A) w.
Proof. unfold storage_ops. destruct w as [[] ???? ??]. done. Qed.

Lemma runs_storage_map {A B} (p : Prog A) m (f : A -> B) :
  p ~> storage_ops m -> (a ← p; mret (f a)) ~> storage_ops (a ← m; mret (f a)).
Proof. intros Hp w. by rewrite storage_ops_bind, alone_bind, st_bind_eq, Hp, storage_ops_ret. Qed.

Lemma runs_del keys : del_keys clock keys ~> storage_ops (Storage.del clock keys).
Proof.
  induction keys as [|k keys IH]; [intros w; symmetry; apply storage_ops_ret|].
  apply runs_storage_ops. intros n. by apply runs_storage_map.
Qed.

Lemma runs_exists keys : exists_keys clock keys ~> storage_ops (Storage.exists_ clock keys).
Proof.
  induction keys as [|k keys IH]; [intros w; symmetry; apply storage_ops_ret|].
  apply runs_storage_ops. intros n. by apply runs_storage_map.
Qed.

Lemma runs_mget keys : get_keys clock keys ~> storage_ops (Storage.mget clock keys).
Proof.
  induction keys as [|k keys IH]; [intros w; symmetry; apply storage_ops_ret|].
  apply runs_storage_ops. intros n. by apply runs_storage_map.
Qed.

(** * Loops over shards *)

Lemma alone_section {A} (op : StorageEngine -> A * StorageEngine) w :
  alone (section op) w = ((op (w_storage w)).1, put_storage (op (w_storage w)).2 w).
Proof. cbn. by destruct (op _). Qed.

Lemma alone_sweep {A} (visit : A -> bytes -> Entry -> A) now is_ acc w :
  alone (sweep visit now is_ acc) w
  = let '(a, e) := sweep_shards visit now is_ acc (w_storage w) in (a, put_storage e w).
Proof.
  revert acc w. induction is_ as [|i is_ IH]; intros acc w; [cbn; by rewrite put_storage_same|].
  cbn [sweep sweep_shards]. rewrite alone_bind, alone_section. cbn [fst snd]. rewrite IH. cbn [w_storage put_storage].
  by destruct (sweep_entries _ _ _ _ _ _) as [a e].
Qed.

Lemma runs_sweep {A} (visit : A -> bytes -> Entry -> A) acc :
  sweep_all clock visit acc ~> storage_op clock (fun now e => sweep_shards visit now (shard_indices e) acc e).
Proof.
  intros w. rewrite storage_op_eq. unfold sweep_all. rewrite !alone_bind. cbn [alone now_ sys_call act shards_here].
  rewrite alone_sweep. cbn. unfold step_world, ticks. by destruct (sweep_shards _ _ _ _ _).
Qed.

(** Clearing the shards from [length l1] on. *)
Lemma alone_flush_shards c li l1 l2 u x n w :
  w_storage w = MkEngine c li (l1 ++ l2) u x ->
  alone (flush_shards (seq (length l1) (length l2)) n) w
  = (fold_left (fun acc s => u64 (acc + sh_memory_bytes s)) l2 n,
     put_storage (MkEngine c li (l1 ++ (clear_shard <$> l2)) u x) w).
Proof.
  revert l1 n w. induction l2 as [|s l2 IH]; intros l1 n w Hw.
  { cbn. rewrite <- Hw. by rewrite put_storage_same. }
  cbn [length seq flush_shards fold_left]. rewrite alone_bind, alone_section. cbn [fst snd].
  assert (Hs : shard_at (w_storage w) (length l1) = s).
  { unfold shard_at. rewrite Hw. cbn [shards_]. by rewrite list_lookup_middle. }
  assert (Hput : put_shard (w_storage w) (length l1) (clear_shard s)
                 = MkEngine c li ((l1 ++ [clear_shard s]) ++ l2) u x).
  { unfold put_shard. rewrite Hw. cbn [shards_ config_ limits_ used_memory_ expired_keys_]. f_equal.
    rewrite insert_app_r_alt by lia. rewrite Nat.sub_diag. cbn. by rewrite <- app_assoc. }
  rewrite Hs, Hput. specialize (IH (l1 ++ [clear_shard s]) (u64 (n + sh_memory_bytes s))
    (put_storage (MkEngine c li ((l1 ++ [clear_shard s]) ++ l2) u x) w) eq_refl).
  rewrite length_app, Nat.add_1_r in IH. rewrite IH. by rewrite <- app_assoc.
Qed.

Lemma runs_flushdb : flushdb ~> st_modify (fun w => put_storage (Storage.flushdb (w_storage w)) w).
Proof.
  intros w. unfold flushdb. rewrite !alone_bind. cbn [alone act shards_here asks fst snd].
  destruct (w_storage w) as [c li l u x] eqn:Hw. unfold shard_indices. cbn [shards_].
  cbn [mret St_ret fst snd]. pose proof (alone_flush_shards c li [] l u x 0 w Hw) as Hf. cbn [length] in Hf. rewrite Hf. cbn [fst snd]. rewrite alone_section. unfold st_modify. by rewrite Hw.
Qed.

Lemma alone_expire_shards sample now is_ n w :
  alone (expire_shards sample now is_ n) w
  = let '(a, e) := active_expire_shards sample now is_ n (w_storage w) in (a, put_storage e w).
Proof.
  revert n w. induction is_ as [|i is_ IH]; intros n w; [cbn; by rewrite put_storage_same|].
  cbn [expire_shards active_expire_shards]. rewrite alone_bind, alone_section. cbn [fst snd]. rewrite IH.
  cbn [w_storage put_storage]. by destruct (active_expire_shard _ _ _ _ _) as [a e].
Qed.

Lemma runs_active_expire sample : active_expire clock sample ~> storage_op clock (Storage.active_expire sample).
Proof.
  intros w. rewrite storage_op_eq. unfold active_expire, Storage.active_expire. rewrite !alone_bind.
  cbn [alone now_ sys_call act shards_here]. rewrite alone_expire_shards. cbn. unfold step_world, ticks.
  destruct (active_expire_shards _ _ _ _ _) as [n e]. cbn. by destruct (n =? 0).
Qed.

(** * Persistence of commands *)

Lemma runs_persist ctx args : persist ctx args ~> Commands.persist ctx args.
Proof.
  intros w. unfold persist, Commands.persist. rewrite st_bind_eq. cbn [asks fst snd].
  destruct (ctx_replay ctx); [by destruct (w_aof w)|]. rewrite alone_bind. cbn. unfold aof_on.
  destruct (w_aof w) as [a|] eqn:Ha; [|done]. cbn [orb]. destruct (enabled a); [|done]. cbn [negb]. cbn.
  rewrite Ha. unfold lift_sys, mbind, St_bind. by destruct (Aof.append a args _) as [[st a'] s].
Qed.

Lemma runs_count f : count f ~> st_modify (on_metrics f).
Proof. apply runs_act. Qed.

Lemma runs_now : now_ clock ~> lift_sys (read_clock clock).
Proof. apply runs_act. Qed.

Lemma runs_sys {A} (m : SysM A) : sys_call m ~> lift_sys m.
Proof. apply runs_act. Qed.
End Alone.

#[export] Hint Resolve runs_locked runs_del runs_exists runs_mget runs_sweep runs_flushdb runs_active_expire
  runs_persist runs_count runs_now runs_sys : runs.

(** Follows the common structure of a program and a computation. *)
Ltac runs_tac :=
  repeat (intros; lazymatch goal with
  | |- runs (_ ≫= _) (_ ≫= _) => apply runs_bind
  | |- runs (guarded _ _) _ => apply runs_guarded
  | |- runs (match ?x with _ => _ end) _ => destruct x
  | |- runs _ _ => solve [eauto with runs nocore]
  end).

Section Checkpoints.
Context `{Platform}.
Variables (clock : nat -> Z) (steady : nat -> Z) (pid : Z).

(** * Snapshots *)

(** A computation on files that is handed the engine. *)
Definition on_engine {A} (f : StorageEngine -> SysM (A * StorageEngine)) : CmdM A :=
  fun w => let '((a, e), s) := f (w_storage w) (w_sys w) in (a, put_storage e (put_sys s w)).

Lemma engine_ret {A} (a : A) : (mret a : Prog A) ~> on_engine (fun e => mret (a, e)).
Proof. intros w. unfold on_engine. by destruct w. Qed.

Lemma engine_sys {A B} (p : Prog A) m (k : A -> Prog B) g :
  p ~> lift_sys m -> (forall a, k a ~> on_engine (g a)) -> p ≫= k ~> on_engine (fun e => a ← m; g a e).
Proof.
  intros Hp Hk w. rewrite alone_bind, Hp. unfold on_engine, lift_sys. rewrite st_bind_eq. destruct (m _) as [a s].
  cbn [fst snd]. rewrite Hk. unfold on_engine. cbn. by destruct (g a _ _) as [[b e] s'].
Qed.

Lemma engine_last {A} (p : Prog A) m : p ~> lift_sys m -> p ~> on_engine (fun e => a ← m; mret (a, e)).
Proof.
  intros Hp w. rewrite Hp. unfold on_engine, lift_sys. rewrite st_bind_eq. destruct (m _) as [a s]. by destruct w.
Qed.

Lemma engine_take {B} (k : list SnapshotEntry -> Prog B) g :
  (forall a, k a ~> on_engine (g a)) ->
  snapshot clock ≫= k ~> on_engine (fun e => '(a, e) ← take_snapshot clock e; g a e).
Proof.
  intros Hk w. unfold snapshot. rewrite alone_bind, runs_sweep, storage_op_eq. unfold on_engine. rewrite st_bind_eq.
  unfold take_snapshot. rewrite st_bind_eq. cbn [read_clock fst snd mret St_ret].
  change (sweep_shards _ _ _ [] ?e) with (Storage.snapshot (clock (ticks w)) e).
  unfold ticks. destruct (Storage.snapshot _ _) as [a e]. cbn [fst snd]. rewrite Hk. unfold on_engine, step_world. cbn.
  by destruct (g a _ _) as [[b e'] s'].
Qed.

Lemma sys_ret {A} (a : A) : (mret a : Prog A) ~> lift_sys (mret a).
Proof. intros w. unfold lift_sys. by destruct w. Qed.

Lemma sys_bind {A B} (p : Prog A) m (k : A -> Prog B) g :
  p ~> lift_sys m -> (forall a, k a ~> lift_sys (g a)) -> p ≫= k ~> lift_sys (m ≫= g).
Proof.
  intros Hp Hk w. rewrite alone_bind, !Hp, Hk. unfold lift_sys. rewrite st_bind_eq. destruct (m _) as [a s]. cbn.
  by destruct (g a s).
Qed.

Lemma runs_put_entries fd entries : put_entries fd entries ~> lift_sys (Snapshot.put_entries fd entries).
Proof.
  induction entries as [|x entries IH]; [apply sys_ret|]. cbn [put_entries Snapshot.put_entries].
  apply sys_bind; [apply runs_sys|]. intros [|]; [apply IH|apply sys_ret].
Qed.

Lemma runs_save_file ss : save_snapshot_file clock ss ~> on_engine (Snapshot.save_snapshot_file clock ss).
Proof.
  unfold save_snapshot_file, Snapshot.save_snapshot_file.
  destruct (negb (path_is_safe _)); [apply engine_ret|]. apply engine_sys; [apply runs_sys|]. intros st.
  destruct (negb (ok_status st)); [apply engine_ret|]. apply engine_sys; [apply runs_sys|]. intros [m|fd]; [apply engine_ret|].
  apply engine_take. intros entries. apply engine_sys; [apply runs_put_entries|]. intros good.
  destruct (negb good); [apply engine_ret|]. apply engine_sys; [apply runs_sys|]. intros good'.
  destruct (negb good'); [apply engine_ret|]. apply engine_last, runs_sys.
Qed.

Lemma alone_sync w a :
  w_aof w = Some a ->
  alone (on_log status_ok (fun a => st ← Aof.sync a; mret (st, a))) w
  = let '(st, s) := Aof.sync a (w_sys w) in (st, put_sys s w).
Proof.
  intros Ha. cbn. rewrite Ha. unfold mbind, St_bind. destruct (Aof.sync a _) as [st s]. cbn. unfold put_aof, put_sys. cbn.
  by rewrite <- Ha.
Qed.

Lemma alone_save_checkpoint ss a w :
  w_aof w = Some a -> enabled a = true ->
  alone (save_checkpoint clock ss (MkCheckpointGuard (current_size_ a))) w
  = on_engine (fun e => Snapshot.save clock ss e (Some a)) w.
Proof.
  intros Ha He. unfold save_checkpoint, Snapshot.save, on_engine. cbn [mbind option_bind]. rewrite He.
  rewrite alone_bind, (alone_sync w a Ha), st_bind_eq. destruct (Aof.sync a _) as [st s]. cbn [fst snd].
  destruct (negb (ok_status st)); [by destruct w|]. rewrite alone_bind.
  rewrite !runs_save_file. unfold on_engine. rewrite st_bind_eq. cbn [w_storage put_sys w_sys].
  destruct (Snapshot.save_snapshot_file _ _ _ _) as [[st2 e2] s2]. cbn [fst snd].
  destruct (negb (ok_status st2)); [done|]. rewrite !alone_bind. cbn. rewrite Ha. unfold mbind, St_bind, lift_sys. cbn.
  by destruct (write_manifest _ _ _).
Qed.

Lemma runs_save ss : save clock ss ~> (fun w => on_engine (fun e => Snapshot.save clock ss e (w_aof w)) w).
Proof.
  intros w. unfold save. rewrite alone_bind. cbn [alone ask_enabled act asks fst snd mret St_ret]. unfold aof_on.
  assert (Hoff : alone (st ← save_snapshot_file clock ss;
                        _ ← (if ok_status st then sys_call (remove_manifest ss) else mret tt); mret st) w
                 = on_engine (fun e => '(st, e) ← Snapshot.save_snapshot_file clock ss e;
                        _ ← (if ok_status st then remove_manifest ss else mret tt); mret (st, e)) w).
  { rewrite alone_bind, !runs_save_file. unfold on_engine. rewrite st_bind_eq.
    destruct (Snapshot.save_snapshot_file _ _ _ _) as [[st e] s]. cbn [fst snd]. destruct (ok_status st); [|by destruct w].
    rewrite alone_bind. cbn. unfold mbind, St_bind, lift_sys. cbn. by destruct (remove_manifest ss s). }
  destruct (w_aof w) as [a|] eqn:Ha; [|exact Hoff]. destruct (enabled a) eqn:He.
  - unfold checkpoint_guard. rewrite !alone_bind. cbn [alone acquire act asks fst snd mret St_ret Prog_ret]. rewrite Ha.
    rewrite (alone_save_checkpoint ss a w Ha He). clear Hoff. by destruct (on_engine _ w).
  - unfold Snapshot.save. cbn [mbind option_bind]. by rewrite He.
Qed.

(** * Rewriting *)

Lemma runs_write_commands fd cmds : write_commands fd cmds ~> lift_sys (Aof.write_commands fd cmds).
Proof.
  induction cmds as [|c cmds IH]; [apply sys_ret|]. cbn [write_commands Aof.write_commands].
  apply sys_bind; [apply runs_sys|]. intros st. destruct (negb (ok_status st)); [apply sys_ret|apply IH].
Qed.

(** With the log object [a], [p] does what [f] does on the object and the
    engine. *)
Definition alone_rewrites (p : Prog Status) (a : Aof) (f : StorageEngine -> SysM (Status * Aof * StorageEngine)) : Prop :=
  forall w, w_aof w = Some a ->
    alone p w = let '((st, a', e), s) := f (w_storage w) (w_sys w) in (st, put_aof a' (put_storage e (put_sys s w))).

Lemma alone_rewrites_fail a st : alone_rewrites (rewrite_fails st) a (fun e => mret (st, failed a st, e)).
Proof. intros w Ha. unfold rewrite_fails. cbn. rewrite Ha. by destruct w. Qed.

Lemma alone_rewrites_sys {A} a (p : Prog A) m (k : A -> Prog Status) g :
  p ~> lift_sys m -> (forall x, alone_rewrites (k x) a (g x)) -> alone_rewrites (p ≫= k) a (fun e => x ← m; g x e).
Proof.
  intros Hp Hk w Ha. rewrite alone_bind, !Hp, st_bind_eq. unfold lift_sys. destruct (m _) as [x s]. cbn [fst snd].
  rewrite Hk by done. cbn. by destruct (g x _ _) as [[[st a'] e] s'].
Qed.

Lemma alone_rewrites_take a (k : list SnapshotEntry -> Prog Status) g :
  (forall x, alone_rewrites (k x) a (g x)) ->
  alone_rewrites (snapshot clock ≫= k) a (fun e => '(x, e) ← take_snapshot clock e; g x e).
Proof.
  intros Hk w Ha. unfold snapshot. rewrite alone_bind, !runs_sweep, storage_op_eq, st_bind_eq.
  unfold take_snapshot. rewrite st_bind_eq. cbn [read_clock fst snd mret St_ret].
  change (sweep_shards _ _ _ [] ?e) with (Storage.snapshot (clock (ticks w)) e).
  unfold ticks. destruct (Storage.snapshot _ _) as [x e]. cbn [fst snd]. rewrite Hk by done. unfold step_world. cbn.
  by destruct (g x _ _) as [[[st a'] e'] s'].
Qed.

Lemma alone_rewrites_ext p a f g : alone_rewrites p a f -> (forall e s, f e s = g e s) -> alone_rewrites p a g.
Proof. intros Hp Hf w Ha. by rewrite Hp, Hf. Qed.

Lemma alone_rewrites_reopen a :
  alone_rewrites (st ← on_log status_ok (fun a =>
              '(st, a) ← reopen_locked a;
              mret (st, if ok_status st then set_write a (last_write_ok_ a) [] else failed a st));
            if negb (ok_status st) then mret st
            else on_log status_ok (fun a => mret (status_ok, set_write a true (last_error_ a)))) a
    (fun e => '(st, a) ← reopen_locked a;
              mret (if negb (ok_status st) then (st, failed a st, e) else (status_ok, set_write a true [], e))).
Proof.
  intros w Ha. rewrite alone_bind. cbn. rewrite Ha. unfold mbind, St_bind. destruct (reopen_locked a _) as [[st a'] s].
  cbn. destruct (ok_status st); cbn; by destruct w.
Qed.

Lemma alone_rewrites_install a tmp :
  alone_rewrites (install_rewrite (aof_config a) tmp) a (fun e => '(st, a) ← Aof.install_rewrite a tmp; mret (st, a, e)).
Proof.
  unfold install_rewrite. apply (alone_rewrites_ext _ a (fun e =>
    r ← rename tmp (aof_path (aof_config a));
    match r with
    | Some _ =>
        m ← remove tmp;
        let st := MkStatus IOError (lit "failed to install rewritten AOF: " ++ m) in
        mret (st, failed a st, e)
    | None =>
        _ ← sync_parent_dir_best_effort (aof_path (aof_config a));
        _ ← (if path_is_safe (manifest_path (aof_config a))
             then remove (manifest_path (aof_config a)) else mret []);
        '(st, a) ← reopen_locked a;
        mret (if negb (ok_status st) then (st, failed a st, e) else (status_ok, set_write a true [], e))
    end)).
  - apply alone_rewrites_sys; [apply runs_sys|]. intros [m|].
    + apply alone_rewrites_sys; [apply runs_sys|]. intros m'. apply alone_rewrites_fail.
    + apply alone_rewrites_sys; [apply runs_sys|]. intros []. apply alone_rewrites_sys.
      { destruct (path_is_safe _); [apply runs_sys|apply sys_ret]. }
      intros m'. apply alone_rewrites_reopen.
  - intros e s. unfold Aof.install_rewrite. rewrite !st_bind_eq. destruct (rename _ _ s) as [[m|] s1]; cbn [fst snd].
    + rewrite !st_bind_eq. by destruct (remove _ s1).
    + rewrite !st_bind_eq. destruct (reopen_locked _ _) as [[st a'] s2]. cbn [fst snd]. by destruct (ok_status st).
Qed.

Lemma alone_rewrites_locked a :
  alone_rewrites (rewrite_locked clock pid (aof_config a)) a (fun e =>
    st ← ensure_parent_dir dir_failure (aof_path (aof_config a));
    if negb (ok_status st) then mret (st, failed a st, e)
    else
      let tmp_path := rewrite_tmp_path pid (aof_path (aof_config a)) in
      r ← open_file true tmp_path;
      match r with
      | inl m =>
          let st := MkStatus IOError (lit "failed to open AOF rewrite temp file: " ++ m) in
          mret (st, failed a st, e)
      | inr tmp_fd =>
          '(entries, e) ← take_snapshot clock e;
          st ← Aof.write_commands tmp_fd (flat_map entry_commands entries);
          if negb (ok_status st) then
            _ ← syscall; _ ← remove tmp_path; mret (st, failed a st, e)
          else
            st ← sync_fd tmp_path;
            close_status ← close_fd tmp_path;
            let st := if ok_status st && negb (ok_status close_status) then close_status else st in
            if negb (ok_status st) then
              _ ← remove tmp_path; mret (st, failed a st, e)
            else
              '(st, a) ← Aof.install_rewrite a tmp_path;
              mret (st, a, e)
      end).
Proof.
  unfold rewrite_locked. apply alone_rewrites_sys; [apply runs_sys|]. intros st.
  destruct (negb (ok_status st)); [apply alone_rewrites_fail|]. cbv zeta. apply alone_rewrites_sys; [apply runs_sys|].
  intros [m|fd]; [apply alone_rewrites_fail|]. apply alone_rewrites_take. intros entries.
  apply alone_rewrites_sys; [apply runs_write_commands|]. intros st2. destruct (negb (ok_status st2)).
  - do 2 (apply alone_rewrites_sys; [apply runs_sys|intros _]). apply alone_rewrites_fail.
  - do 2 (apply alone_rewrites_sys; [apply runs_sys|intros ?]). destruct (negb _); [|apply alone_rewrites_install].
    apply alone_rewrites_sys; [apply runs_sys|intros _]. apply alone_rewrites_fail.
Qed.

Lemma alone_rewrites_rewrite a : alone_rewrites (rewrite clock pid (aof_config a)) a (fun e => Aof.rewrite clock pid a e).
Proof.
  intros w Ha. unfold rewrite, Aof.rewrite. destruct (negb (aof_enabled _)).
  { cbn. destruct w. cbn in *. by subst. }
  destruct (negb (path_is_safe _)). { cbn. destruct w. cbn in *. by subst. }
  pose proof (alone_rewrites_locked a w Ha) as Hl. rewrite !alone_bind. cbn [alone acquire fst snd Prog_ret mret St_ret].
  destruct (alone (rewrite_locked clock pid (aof_config a)) w) as [st w']. exact Hl.
Qed.
End Checkpoints.
