(* ===== verification/ThreadProps.v ===== *)
(** What holds of every schedule: a command alone is the handler, threads never
    block each other for ever, and a checkpoint runs with no mutation in
    flight. *)
From S2P Require Import Prelude Util Config Resp Storage StorageFacts StorageSweep Fs Aof Snapshot Metrics Commands.
From S2P Require Import Recovery RecoveryProps CommandFacts Durability Net Server Threads ThreadFacts.

Local Open Scope velox_scope.

(** * Handlers run alone *)

Section Handlers.
Context `{Platform}.
Variables (clock : nat -> Z) (steady : nat -> Z) (pid : Z).

Lemma runs_persist_or_ok ctx args r : persist_or_ok ctx args r ~> Commands.persist_or_ok ctx args r.
Proof. unfold persist_or_ok, Commands.persist_or_ok. runs_tac. Qed.

Lemma runs_persist_if ctx b args r : persist_if ctx b args r ~> Commands.persist_if ctx b args r.
Proof. unfold persist_if, Commands.persist_if. runs_tac. Qed.

Lemma runs_pxat t : pxat_arg_from_ttl clock t ~> Commands.pxat_arg_from_ttl clock t.
Proof. unfold pxat_arg_from_ttl, Commands.pxat_arg_from_ttl. runs_tac. Qed.

Hint Resolve runs_persist_or_ok runs_persist_if runs_pxat : runs.

Lemma runs_set ctx args : set_cmd clock ctx args ~> Commands.set_cmd clock ctx args.
Proof.
  unfold set_cmd, Commands.set_cmd, set_run, Commands.set_run, set_guarded.
  destruct args as [|n [|k [|v opts]]]; [runs_tac..|].
  destruct (set_options opts Always None None) as [m|[[c ttl] pxat]]; [runs_tac|].
  apply runs_bind; [destruct pxat; runs_tac|]. intros ttl'. apply runs_guarded, runs_bind; [runs_tac|]. intros r.
  destruct (w_code r); [|runs_tac..]. apply runs_bind; [|runs_tac]. destruct ttl'; [|runs_tac].
  apply runs_bind; [destruct pxat; runs_tac|runs_tac].
Qed.

Lemma runs_mset_loop pairs : mset_loop clock pairs ~> Commands.mset_loop clock pairs.
Proof.
  induction pairs as [| |k v rest IH] using list_pair_ind; [done..|]. cbn [mset_loop Commands.mset_loop].
  apply runs_bind; [runs_tac|]. intros r. by case_bool_decide.
Qed.

Lemma runs_storage_expire k t : storage_expire clock k t ~> Commands.storage_expire clock k t.
Proof. unfold storage_expire, Commands.storage_expire. runs_tac. Qed.

Lemma runs_write_reply ctx args r : write_reply ctx args r ~> Commands.write_reply ctx args r.
Proof. unfold write_reply, Commands.write_reply. runs_tac. Qed.

Hint Resolve runs_mset_loop runs_storage_expire runs_write_reply : runs.

Lemma runs_info ctx args : info_cmd clock steady ctx args ~> Commands.info_cmd clock steady ctx args.
Proof.
  intros w. unfold info_cmd, Commands.info_cmd.
  assert (Hi : forall (u : Z) w0, alone (
      keys ← dbsize clock; expires ← expires_count clock; aof ← act (asks w_aof);
      mret (done_ (bulk (info_text (MkWorld (w_sys w0) (w_storage w0) (w_metrics w0) (w_config w0) aof
        (w_log_level w0) (w_stop w0)) u keys expires)))) w0
    = (keys ← storage_op clock Storage.dbsize; expires ← storage_op clock Storage.expires_count;
       mret (done_ (bulk (info_text w0 u keys expires)))) w0).
  { intros u w0. rewrite !alone_bind, !st_bind_eq. unfold dbsize, expires_count. rewrite !runs_sweep.
    fold (Storage.dbsize). rewrite !storage_op_eq. unfold Storage.dbsize, Storage.expires_count.
    destruct (sweep_shards _ _ _ _ _) as [x e]. cbn [fst snd].
    destruct (sweep_shards _ _ _ _ _) as [x' e']. cbn. by destruct w0. }
  destruct args as [|a [|b [|c args]]]; [done|apply Hi..|done].
Qed.

Lemma runs_config ctx args : config_cmd ctx args ~> Commands.config_cmd ctx args.
Proof. unfold config_cmd, Commands.config_cmd, config_set, Commands.config_set. runs_tac. Qed.

Lemma runs_save_cmd ctx args : save_cmd clock ctx args ~> Commands.save_cmd clock ctx args.
Proof.
  unfold save_cmd, Commands.save_cmd. destruct args as [|n [|]]; [done| |done]. destruct (ctx_snapshot ctx) as [ss|]; [|done].
  intros w. rewrite alone_bind, !runs_save. unfold on_engine. rewrite !st_bind_eq. cbn [st_get fst snd]. unfold lift_sys.
  destruct (Snapshot.save _ _ _ _ _) as [[st e] s]. done.
Qed.

Lemma runs_bgrewriteaof ctx args : bgrewriteaof clock pid ctx args ~> Commands.bgrewriteaof clock pid ctx args.
Proof.
  unfold bgrewriteaof, Commands.bgrewriteaof. destruct args as [|n [|]]; [done| |done]. intros w.
  rewrite alone_bind, st_bind_eq. cbn [alone act asks st_get fst snd mret St_ret].
  destruct (w_aof w) as [a|] eqn:Ha; [|done]. cbn [mbind option_bind]. destruct (enabled a); [|done].
  rewrite alone_bind, !(alone_rewrites_rewrite clock pid a w Ha), st_bind_eq. unfold lift_sys.
  destruct (Aof.rewrite clock pid a (w_storage w) (w_sys w)) as [[[st a'] e] s]. cbn. by destruct (ok_status st).
Qed.

Lemma runs_shutdown ctx args : shutdown_cmd ctx args ~> Commands.shutdown_cmd ctx args.
Proof.
  assert (Hs : on_log status_ok (fun a => st ← Aof.sync a; mret (st, a))
               ~> (aof ← asks w_aof; match aof with Some a => lift_sys (Aof.sync a) | None => mret status_ok end)).
  { intros w. rewrite st_bind_eq. cbn [asks fst snd]. destruct (w_aof w) as [a|] eqn:Ha; [|cbn; by rewrite Ha].
    rewrite (alone_sync w a Ha). done. }
  assert (Hb : forall c : Config, (if negb (admin_shutdown_enabled c) then mret (err (lit "SHUTDOWN is disabled by configuration"))
      else _ ← on_log status_ok (fun a => st ← Aof.sync a; mret (st, a));
           _ ← (if ctx_request_shutdown ctx then act (st_modify request_stop) else mret tt);
           mret (MkResult (simple (lit "OK")) true)) ~>
     (if negb (admin_shutdown_enabled c) then mret (err (lit "SHUTDOWN is disabled by configuration"))
      else aof ← asks w_aof;
           _ ← (match aof with Some a => lift_sys (Aof.sync a) | None => mret status_ok end);
           _ ← (if ctx_request_shutdown ctx then st_modify request_stop else mret tt);
           mret (MkResult (simple (lit "OK")) true))).
  { intros c w. destruct (negb _); [done|]. rewrite alone_bind, !Hs, !st_bind_eq. by destruct (ctx_request_shutdown ctx). }
  unfold shutdown_cmd, Commands.shutdown_cmd.
  destruct args as [|a [|b [|c args]]]; [done|apply runs_bind; [apply runs_act|exact Hb]..|done].
Qed.

Definition same_handler (x : string * Program) (y : string * Handler) : Prop :=
  x.1 = y.1 /\ forall names ctx args, x.2 names ctx args ~> y.2 names ctx args.

Lemma programs_run : Forall2 same_handler (programs clock steady pid) (default_commands clock steady pid).
Proof.
  unfold programs, default_commands.
  repeat (apply List.Forall2_cons; [split; [reflexivity|]; intros names ctx args; cbn [snd]; unfold prog, cmd|]);
    [..|apply List.Forall2_nil].
  all: first [apply runs_set | apply runs_info | apply runs_config | apply runs_save_cmd
             | apply runs_bgrewriteaof | apply runs_shutdown | idtac].
  all: unfold ping, Commands.ping, echo, Commands.echo, get_cmd, Commands.get_cmd, del_cmd, Commands.del_cmd,
    exists_cmd, Commands.exists_cmd, mget_cmd, Commands.mget_cmd, mset_cmd, Commands.mset_cmd, incr_decr, Commands.incr_decr,
    append_cmd, Commands.append_cmd, strlen_cmd, Commands.strlen_cmd, expire_impl, Commands.expire_impl,
    pexpireat, Commands.pexpireat, ttl_impl, Commands.ttl_impl, persist_cmd, Commands.persist_cmd, dbsize_cmd,
    Commands.dbsize_cmd, flushdb_cmd, Commands.flushdb_cmd, bgsave, Commands.bgsave, command_cmd, Commands.command_cmd.
  all: runs_tac.
Qed.

Lemma find_program_assoc name l : find_program name l = assoc name l.
Proof. induction l as [|[n p] l IH]; [done|]. cbn. by rewrite IH. Qed.

Lemma runs_execute ctx args :
  execute clock steady pid ctx args ~> Commands.execute (default_registry clock steady pid) ctx args.
Proof.
  unfold execute, Commands.execute. destruct args as [|name args]; [done|].
  rewrite find_program_assoc, registry_assoc.
  pose proof (assoc_related (fun (p : Program) (h : Handler) => forall names ctx args, p names ctx args ~> h names ctx args) _ _
    (to_upper_ascii name) programs_run) as Hr.
  destruct (assoc _ (programs _ _ _)) as [p|], (assoc _ (default_commands _ _ _)) as [h|]; done.
Qed.
End Handlers.

(** * The guard is dropped by whoever took it *)

(** Run from owning [h], the program takes the lock only when it owns nothing,
    drops only what it owns, and ends with [Q]. *)
Fixpoint brackets {A} (h : option Mode) (p : Prog A) (Q : A -> option Mode -> Prop) : Prop :=
  match p with
  | Ret a => Q a h
  | Do action k => forall b, brackets h (k b) Q
  | Acquire m k => h = None /\ brackets (Some m) k Q
  | Release m k => h = Some m /\ brackets None k Q
  end.

Lemma brackets_bind {A B} h (p : Prog A) (f : A -> Prog B) Q :
  brackets h p (fun a h => brackets h (f a) Q) -> brackets h (p ≫= f) Q.
Proof.
  revert h. induction p as [a|C action k IH|m k IH|m k IH]; intros h Hp; [done| | |].
  - intros b. apply IH, Hp.
  - destruct Hp as [-> Hp]. split; [done|]. apply IH, Hp.
  - destruct Hp as [-> Hp]. split; [done|]. apply IH, Hp.
Qed.

Lemma brackets_mono {A} h (p : Prog A) (Q R : A -> option Mode -> Prop) :
  brackets h p Q -> (forall a h, Q a h -> R a h) -> brackets h p R.
Proof.
  intros Hp HQ. revert h Hp. induction p as [a|C action k IH|m k IH|m k IH]; intros h Hp; [by apply HQ| | |].
  - intros b. apply IH, Hp.
  - destruct Hp as [-> Hp]. split; [done|]. apply IH, Hp.
  - destruct Hp as [-> Hp]. split; [done|]. apply IH, Hp.
Qed.

(** A program that never touches the lock. *)
Definition unlocked {A} (p : Prog A) : Prop := forall h, brackets h p (fun _ h' => h' = h).

(** A program that gives back what it takes. *)
Definition balanced {A} (p : Prog A) : Prop := brackets None p (fun _ h => h = None).

Create HintDb locks.

Lemma unlocked_ret {A} (a : A) : unlocked (mret a).
Proof. done. Qed.

Lemma unlocked_act {A} (m : CmdM A) : unlocked (act m).
Proof. done. Qed.

Lemma unlocked_bind {A B} (p : Prog A) (f : A -> Prog B) :
  unlocked p -> (forall a, unlocked (f a)) -> unlocked (p ≫= f).
Proof.
  intros Hp Hf h. apply brackets_bind. apply (brackets_mono _ _ _ _ (Hp h)). intros a h' ->. apply Hf.
Qed.

Lemma unlocked_balanced {A} (p : Prog A) : unlocked p -> balanced p.
Proof. intros Hp. apply Hp. Qed.

Lemma balanced_bind {A B} (p : Prog A) (f : A -> Prog B) :
  balanced p -> (forall a, balanced (f a)) -> balanced (p ≫= f).
Proof.
  intros Hp Hf. apply brackets_bind. apply (brackets_mono _ _ _ _ Hp). intros a h' ->. apply Hf.
Qed.

Lemma guarded_balanced {A} ctx (p : Prog A) : unlocked p -> balanced (guarded ctx p).
Proof.
  intros Hp. unfold balanced, guarded. apply brackets_bind.
  apply (brackets_mono _ _ (fun g h => h = if mg_lock g then Some Shared else None)).
  - unfold mutation_guard. destruct (ctx_replay ctx); [done|]. intros on. by destruct on.
  - intros g h ->. apply brackets_bind, (brackets_mono _ _ _ _ (Hp _)). intros a h ->.
    unfold drop_mutation_guard. by destruct (mg_lock g).
Qed.

(** What runs between taking and dropping the lock. *)
Lemma exclusive_balanced {A} (p : Prog A) :
  unlocked p -> balanced (_ ← acquire Exclusive; st ← p; _ ← release Exclusive; mret st).
Proof.
  intros Hp. split; [done|]. apply (brackets_bind _ p), (brackets_mono _ _ _ _ (Hp _)). by intros a h ->.
Qed.

Hint Resolve unlocked_ret unlocked_act unlocked_bind unlocked_balanced balanced_bind guarded_balanced : locks.

(** Goes through the tests of a program. *)
Ltac locks_tac :=
  repeat (intros; lazymatch goal with
  | |- unlocked (_ ≫= _) => apply unlocked_bind
  | |- balanced (guarded _ _) => apply guarded_balanced
  | |- balanced (match ?x with _ => _ end) => destruct x
  | |- unlocked (match ?x with _ => _ end) => destruct x
  | |- _ => solve [eauto with locks nocore]
  end).

Section Brackets.
Context `{Platform}.
Variables (clock : nat -> Z) (steady : nat -> Z) (pid : Z).

Lemma unlocked_locked {A} (op : Z -> StorageEngine -> A * StorageEngine) : unlocked (locked clock op).
Proof. unfold locked. locks_tac. Qed.

Lemma unlocked_del keys : unlocked (del_keys clock keys).
Proof. induction keys; [apply unlocked_ret|]. cbn [del_keys]. apply unlocked_bind; [apply unlocked_locked|locks_tac]. Qed.

Lemma unlocked_exists keys : unlocked (exists_keys clock keys).
Proof. induction keys; [apply unlocked_ret|]. cbn [exists_keys]. apply unlocked_bind; [apply unlocked_locked|locks_tac]. Qed.

Lemma unlocked_get keys : unlocked (get_keys clock keys).
Proof. induction keys; [apply unlocked_ret|]. cbn [get_keys]. apply unlocked_bind; [apply unlocked_locked|locks_tac]. Qed.

Lemma unlocked_sweep {A} (visit : A -> bytes -> Entry -> A) now is_ acc : unlocked (sweep visit now is_ acc).
Proof. revert acc. induction is_ as [|i is_ IH]; intros acc; [apply unlocked_ret|]. cbn [sweep]. locks_tac. Qed.

Lemma unlocked_flush is_ n : unlocked (flush_shards is_ n).
Proof. revert n. induction is_ as [|i is_ IH]; intros n; [apply unlocked_ret|]. cbn [flush_shards]. locks_tac. Qed.

Lemma unlocked_expire sample now is_ n : unlocked (expire_shards sample now is_ n).
Proof. revert n. induction is_ as [|i is_ IH]; intros n; [apply unlocked_ret|]. cbn [expire_shards]. locks_tac. Qed.

Lemma unlocked_put_entries fd l : unlocked (put_entries fd l).
Proof. induction l as [|x l IH]; [apply unlocked_ret|]. cbn [put_entries]. apply unlocked_bind; [apply unlocked_act|locks_tac]. Qed.

Lemma unlocked_write_commands fd l : unlocked (write_commands fd l).
Proof. induction l as [|x l IH]; [apply unlocked_ret|]. cbn [write_commands]. apply unlocked_bind; [apply unlocked_act|locks_tac]. Qed.

Lemma unlocked_mset pairs : unlocked (mset_loop clock pairs).
Proof.
  induction pairs as [| |k v rest IH] using list_pair_ind; [apply unlocked_ret..|]. cbn [mset_loop].
  apply unlocked_bind; [apply unlocked_locked|locks_tac].
Qed.

Hint Resolve unlocked_locked unlocked_del unlocked_exists unlocked_get unlocked_sweep unlocked_flush unlocked_expire
  unlocked_put_entries unlocked_write_commands unlocked_mset : locks.

Lemma unlocked_dbsize : unlocked (dbsize clock).
Proof. unfold dbsize, sweep_all. locks_tac. Qed.

Lemma unlocked_expires : unlocked (expires_count clock).
Proof. unfold expires_count, sweep_all. locks_tac. Qed.

Lemma unlocked_snapshot : unlocked (snapshot clock).
Proof. unfold snapshot, sweep_all. locks_tac. Qed.

Lemma unlocked_flushdb : unlocked flushdb.
Proof. unfold flushdb. locks_tac. Qed.

Lemma unlocked_persist_or_ok ctx args r : unlocked (persist_or_ok ctx args r).
Proof. unfold persist_or_ok, persist. locks_tac. Qed.

Lemma unlocked_persist_if ctx b args r : unlocked (persist_if ctx b args r).
Proof. unfold persist_if, persist. locks_tac. Qed.

Hint Resolve unlocked_dbsize unlocked_expires unlocked_snapshot unlocked_flushdb unlocked_persist_or_ok
  unlocked_persist_if : locks.

Lemma unlocked_save_file ss : unlocked (save_snapshot_file clock ss).
Proof. unfold save_snapshot_file. locks_tac. Qed.

Lemma unlocked_rewrite c : unlocked (rewrite_locked clock pid c).
Proof. unfold rewrite_locked, install_rewrite, rewrite_fails. locks_tac. Qed.

Hint Resolve unlocked_save_file unlocked_rewrite : locks.

Lemma unlocked_save_checkpoint ss g : unlocked (save_checkpoint clock ss g).
Proof. unfold save_checkpoint. locks_tac. Qed.

Lemma balanced_save ss : balanced (save clock ss).
Proof.
  unfold save. apply balanced_bind; [apply unlocked_balanced, unlocked_act|]. intros [|].
  - split; [done|]. intros n. apply (brackets_bind _ (save_checkpoint clock ss _)).
    apply (brackets_mono _ _ _ _ (unlocked_save_checkpoint _ _ _)). by intros a h ->.
  - apply unlocked_balanced. locks_tac.
Qed.

Lemma balanced_rewrite c : balanced (rewrite clock pid c).
Proof.
  unfold rewrite. destruct (negb _); [apply unlocked_balanced, unlocked_ret|].
  destruct (negb _); [apply unlocked_balanced, unlocked_ret|]. apply exclusive_balanced, unlocked_rewrite.
Qed.

Hint Resolve balanced_save balanced_rewrite : locks.

Lemma unlocked_pxat t : unlocked (pxat_arg_from_ttl clock t).
Proof. unfold pxat_arg_from_ttl. locks_tac. Qed.

Lemma unlocked_storage_expire k t : unlocked (storage_expire clock k t).
Proof. unfold storage_expire. locks_tac. Qed.

Hint Resolve unlocked_pxat unlocked_storage_expire : locks.

Lemma balanced_set ctx args : balanced (set_cmd clock ctx args).
Proof.
  unfold set_cmd. destruct args as [|n [|k [|v opts]]]; [apply unlocked_balanced; locks_tac..|].
  destruct (set_options opts Always None None) as [m|[[c ttl] pxat]]; [apply unlocked_balanced; locks_tac|].
  unfold set_run, set_guarded. apply balanced_bind; [apply unlocked_balanced; locks_tac|]. locks_tac.
Qed.

Lemma balanced_bgrewriteaof ctx args : balanced (bgrewriteaof clock pid ctx args).
Proof.
  unfold bgrewriteaof. destruct args as [|n [|]]; [apply unlocked_balanced; locks_tac| |apply unlocked_balanced; locks_tac].
  apply balanced_bind; [apply unlocked_balanced, unlocked_act|]. intros aof.
  destruct (aof ≫= _); [|apply unlocked_balanced; locks_tac].
  apply balanced_bind; [apply balanced_rewrite|]. intros st. apply unlocked_balanced. locks_tac.
Qed.

Lemma programs_balanced :
  Forall (fun x : string * Program => forall names ctx args, balanced (x.2 names ctx args)) (programs clock steady pid).
Proof.
  unfold programs. repeat (apply List.Forall_cons; [intros names ctx args; cbn [snd]; unfold prog|]); [..|apply List.Forall_nil].
  all: first [apply balanced_set | apply balanced_bgrewriteaof | idtac].
  all: unfold ping, echo, get_cmd, del_cmd, exists_cmd, mget_cmd, mset_cmd, incr_decr, append_cmd, strlen_cmd, expire_impl,
    pexpireat, ttl_impl, persist_cmd, dbsize_cmd, flushdb_cmd, info_cmd, config_cmd, config_set, save_cmd, bgsave,
    shutdown_cmd, command_cmd, write_reply.
  all: repeat lazymatch goal with |- balanced (match ?x with _ => _ end) => destruct x end.
  all: solve [apply guarded_balanced; locks_tac | apply unlocked_balanced; locks_tac
             | apply balanced_bind; [apply balanced_save|intros; apply unlocked_balanced; locks_tac]].
Qed.

Lemma balanced_execute ctx args : balanced (execute clock steady pid ctx args).
Proof.
  unfold execute. destruct args as [|name args]; [apply unlocked_balanced; locks_tac|]. rewrite find_program_assoc.
  destruct (assoc _ _) as [p|] eqn:Hp; [|apply unlocked_balanced; locks_tac].
  apply assoc_elem in Hp as (n & Hin & _). pose proof programs_balanced as Hb. rewrite List.Forall_forall in Hb.
  apply list_elem_of_In in Hin. exact (Hb _ Hin _ _ _).
Qed.

Lemma balanced_job ctx j : balanced (job_prog clock steady pid ctx j).
Proof.
  destruct j as [args| |]; cbn [job_prog]; unfold request, expire_round, sync_round.
  - apply balanced_bind; [apply unlocked_balanced; unfold count; locks_tac|]. intros _.
    apply balanced_bind; [apply balanced_execute|]. intros r. apply unlocked_balanced. locks_tac.
  - apply unlocked_balanced. unfold active_expire. locks_tac.
  - apply unlocked_balanced. locks_tac.
Qed.
End Brackets.

(** * Who owns the lock *)

Definition owns (m : Mode) (t : Task) : nat :=
  match t_held t, m with Some Shared, Shared | Some Exclusive, Exclusive => 1 | _, _ => 0 end%nat.

Definition owners (m : Mode) (ts : list Task) : nat := sum_list_with (owns m) ts.

Lemma owners_insert m ts i t t' :
  ts !! i = Some t -> (owners m (<[i := t']> ts) + owns m t = owners m ts + owns m t')%nat.
Proof.
  unfold owners. revert i. induction ts as [|x ts IH]; intros [|i] Hi; [done|done| |]; simpl in *.
  - simplify_eq. lia.
  - specialize (IH _ Hi). lia.
Qed.

Lemma owners_lookup m ts i t : ts !! i = Some t -> (owns m t <= owners m ts)%nat.
Proof. intros Hi. pose proof (owners_insert m ts i t (new_task []) Hi). change (owns m (new_task [])) with 0%nat in *. lia. Qed.

Lemma owners_lookup_2 m ts i j ti tj :
  ts !! i = Some ti -> ts !! j = Some tj -> i <> j -> (owns m ti + owns m tj <= owners m ts)%nat.
Proof.
  intros Hi Hj Hne. pose proof (owners_insert m ts i ti (new_task []) Hi).
  pose proof (owners_lookup m (<[i := new_task []]> ts) j tj) as Hl. rewrite list_lookup_insert_ne in Hl by done.
  specialize (Hl Hj). change (owns m (new_task [])) with 0%nat in *. lia.
Qed.

(** What is left of a thread's program fits what it owns. *)
Definition task_ok (t : Task) : Prop :=
  match t_current t with
  | None => t_held t = None
  | Some (_, p) => brackets (t_held t) p (fun _ h => h = None)
  end.

(** The state of the lock is the number of its owners, and an exclusive owner is
    the only one. *)
Record locking (mc : Machine) : Prop := {
  lk_tasks : Forall task_ok (mc_tasks mc);
  lk_readers : sm_readers (mc_mutex mc) = owners Shared (mc_tasks mc);
  lk_writer : owners Exclusive (mc_tasks mc) = if sm_writer (mc_mutex mc) then 1%nat else 0%nat;
  lk_apart : sm_writer (mc_mutex mc) = true -> sm_readers (mc_mutex mc) = 0%nat
}.

Section Schedules.
Context `{Platform}.
Variables (clock : nat -> Z) (steady : nat -> Z) (pid : Z) (ctx : CommandContext).

Abbreviation task_step := (task_step clock steady pid ctx).
Abbreviation step_at := (step_at clock steady pid ctx).
Abbreviation run_schedule := (run_schedule clock steady pid ctx).

Lemma step_at_inv i mc mc' :
  step_at i mc = Some mc' ->
  exists t l w t', mc_tasks mc !! i = Some t /\ task_step (mc_mutex mc) (mc_world mc) t = Some (l, w, t') /\
    mc' = MkMachine l w (<[i := t']> (mc_tasks mc)).
Proof.
  unfold Threads.step_at. destruct (mc_tasks mc !! i) as [t|]; [|done]. cbn [mbind option_bind].
  destruct (task_step _ _ t) as [[[l w] t']|] eqn:Hs; [|done]. intros [= <-]. by exists t, l, w, t'.
Qed.

Lemma task_step_ok l w t l' w' t' : task_ok t -> task_step l w t = Some (l', w', t') -> task_ok t'.
Proof.
  unfold task_ok, Threads.task_step. destruct t as [todo [[j [r|B action k|m k|m k]]|] h dn]; cbn.
  - by intros -> [= <- <- <-].
  - destruct (action w) as [b w1]. intros Hb [= <- <- <-]. apply Hb.
  - intros [-> Hb] Hl. by destruct (try_lock m l); simplify_eq/=.
  - intros [-> Hb] [= <- <- <-]. done.
  - intros ->. destruct todo as [|j todo]; [done|]. intros [= <- <- <-]. apply balanced_job.
Qed.

Lemma step_locking i mc mc' : locking mc -> step_at i mc = Some mc' -> locking mc'.
Proof.
  intros [Hok Hr Hw Ha] (t & l & w & t' & Hi & Hs & ->)%step_at_inv.
  pose proof (Forall_lookup_1 _ _ _ _ Hok Hi) as Ht.
  assert (Hok' : Forall task_ok (<[i := t']> (mc_tasks mc))) by (apply Forall_insert; [done|]; by eapply task_step_ok).
  pose proof (owners_insert Shared _ _ _ t' Hi) as HS. pose proof (owners_insert Exclusive _ _ _ t' Hi) as HE.
  pose proof (owners_lookup Shared _ _ _ Hi) as HS'. pose proof (owners_lookup Exclusive _ _ _ Hi) as HE'.
  unfold task_ok in Ht. unfold Threads.task_step in Hs. unfold owns in *.
  destruct t as [todo [[j [r|B action k|m k|m k]]|] h dn]; cbn in *.
  - simplify_eq/=. split; cbn [mc_tasks mc_mutex sm_readers sm_writer]; [done|lia|lia|done].
  - destruct (action _) as [b w1]. simplify_eq/=. split; cbn [mc_tasks mc_mutex sm_readers sm_writer]; [done|lia|lia|done].
  - destruct Ht as [-> Ht]. destruct (mc_mutex mc) as [n b]; destruct m; cbn in *.
    + destruct b; simplify_eq/=. split; cbn [mc_tasks mc_mutex sm_readers sm_writer]; [done|lia|lia|done].
    + destruct b; [done|]. destruct n; simplify_eq/=. split; cbn [mc_tasks mc_mutex sm_readers sm_writer]; [done|lia|lia|done].
  - destruct Ht as [-> Ht]. destruct (mc_mutex mc) as [n b]; destruct m; simplify_eq/=.
    + split; cbn [mc_tasks mc_mutex sm_readers sm_writer]; [done|lia|lia|]. intros ->. specialize (Ha eq_refl). lia.
    + destruct b; cbn in *; [|lia]. split; cbn [mc_tasks mc_mutex sm_readers sm_writer]; [done|lia|lia|done].
  - subst h. destruct todo; simplify_eq/=. split; cbn [mc_tasks mc_mutex sm_readers sm_writer]; [done|lia|lia|done].
Qed.

Lemma run_locking sched mc mc' : locking mc -> run_schedule sched mc = Some mc' -> locking mc'.
Proof.
  revert mc. induction sched as [|i sched IH]; intros mc Hl Hr; [by injection Hr as <-|]. cbn in Hr.
  destruct (step_at i mc) as [mc1|] eqn:Hs; [|done]. eapply IH; [|exact Hr]. by eapply step_locking.
Qed.

Lemma exclusive_alone mc i j ti tj :
  locking mc -> mc_tasks mc !! i = Some ti -> mc_tasks mc !! j = Some tj -> i <> j ->
  t_held ti = Some Exclusive -> t_held tj = None.
Proof.
  intros [_ Hr Hw Ha] Hi Hj Hne Hheld.
  pose proof (owners_lookup_2 Exclusive _ _ _ _ _ Hi Hj Hne). pose proof (owners_lookup Shared _ _ _ Hj).
  unfold owns in *. rewrite Hheld in *. destruct (sm_writer _); [specialize (Ha eq_refl)|];
    destruct (t_held tj) as [[]|]; [lia|lia|done|lia..].
Qed.

Lemma start_locking w jobs : locking (start w jobs).
Proof.
  assert (Ho : forall m, owners m (new_task <$> jobs) = 0%nat).
  { intros m. unfold owners. induction jobs as [|j jobs IH]; [done|]. cbn. exact IH. }
  split; cbn [mc_tasks mc_mutex start free_mutex sm_readers sm_writer]; [|by rewrite Ho..|done]. apply Forall_fmap, List.Forall_forall. done.
Qed.

(** * Nobody waits for ever *)

(** A thread that owns the lock can move, and so can any thread with work left
    while nobody owns it. *)
Lemma held_moves l w t m : task_ok t -> t_held t = Some m -> is_Some (task_step l w t).
Proof.
  unfold task_ok, Threads.task_step. destruct t as [todo [[j [r|B action k|m' k|m' k]]|] h dn]; cbn; intros Ht ->; try done.
  - destruct (action w). by eexists.
  - by destruct Ht.
Qed.

Lemma free_moves w t :
  t_todo t <> [] \/ t_current t <> None -> is_Some (task_step free_mutex w t).
Proof.
  unfold Threads.task_step. destruct t as [todo [[j [r|B action k|[] k|m k]]|] h dn]; cbn; intros Hw; try by eexists.
  - destruct (action w). by eexists.
  - destruct todo; [naive_solver|by eexists].
Qed.

Lemma step_at_some i mc t :
  mc_tasks mc !! i = Some t -> is_Some (task_step (mc_mutex mc) (mc_world mc) t) -> is_Some (step_at i mc).
Proof.
  intros Hi [[[l w] t'] Ht]. unfold Threads.step_at. rewrite Hi. cbn. rewrite Ht. by eexists.
Qed.

Lemma owners_pos m ts : (0 < owners m ts)%nat -> exists i t, ts !! i = Some t /\ t_held t = Some m.
Proof.
  unfold owners. induction ts as [|t ts IH]; cbn; [lia|]. intros Hp.
  destruct (owns m t) as [|n] eqn:Ho.
  - destruct IH as (i & t' & Hi & Ht); [lia|]. by exists (S i), t'.
  - exists 0%nat, t. split; [done|]. unfold owns in Ho. destruct (t_held t) as [[]|], m; done.
Qed.

(** No thread can move only when all are done. *)
Lemma stuck_done mc :
  locking mc -> (forall i, step_at i mc = None) ->
  forall i t, mc_tasks mc !! i = Some t -> t_todo t = [] /\ t_current t = None.
Proof.
  intros [Hok Hr Hw Ha] Hstuck.
  assert (Hnone : forall m, owners m (mc_tasks mc) = 0%nat).
  { intros m. destruct (owners m (mc_tasks mc)) as [|n] eqn:Ho; [done|].
    destruct (owners_pos m (mc_tasks mc)) as (i & t & Hi & Ht); [lia|].
    destruct (step_at_some i mc t Hi) as [mc' Hs]; [|by rewrite Hstuck in Hs].
    eapply held_moves; [|done]. by eapply Forall_lookup_1. }
  assert (Hfree : mc_mutex mc = free_mutex).
  { rewrite !Hnone in *. destruct (mc_mutex mc) as [n []]; [done|]. cbn in *. by subst. }
  intros i t Hi. destruct (decide (t_todo t = [] /\ t_current t = None)) as [Hd|Hd]; [done|].
  destruct (step_at_some i mc t Hi) as [mc' Hs]; [|by rewrite Hstuck in Hs].
  rewrite Hfree. apply free_moves. destruct (t_todo t); [|by left]. right. naive_solver.
Qed.

(** * Every schedule ends *)

(** The jobs a thread was given, in the order it takes them. *)
Definition task_jobs (t : Task) : list Job :=
  (t_done t).*1 ++ (match t_current t with Some (j, _) => [j] | None => [] end) ++ t_todo t.

Lemma task_step_jobs l w t l' w' t' : task_step l w t = Some (l', w', t') -> task_jobs t' = task_jobs t.
Proof.
  unfold task_jobs, Threads.task_step. destruct t as [todo [[j [r|B action k|m k|m k]]|] h dn]; cbn.
  - intros [= <- <- <-]. cbn. rewrite fmap_app. cbn. by rewrite <- app_assoc.
  - destruct (action w). by intros [= <- <- <-].
  - destruct (try_lock m l); [|done]. by intros [= <- <- <-].
  - by intros [= <- <- <-].
  - destruct todo; [done|]. by intros [= <- <- <-].
Qed.

Lemma run_jobs sched mc mc' :
  run_schedule sched mc = Some mc' -> task_jobs <$> mc_tasks mc' = task_jobs <$> mc_tasks mc.
Proof.
  revert mc. induction sched as [|i sched IH]; intros mc Hr; [by injection Hr as <-|]. cbn in Hr.
  destruct (step_at i mc) as [mc1|] eqn:Hs; [|done]. rewrite (IH _ Hr).
  apply step_at_inv in Hs as (t & l & w & t' & Hi & Hs & ->). cbn [mc_tasks]. rewrite list_fmap_insert.
  rewrite (task_step_jobs _ _ _ _ _ _ Hs). apply list_insert_id. by rewrite list_lookup_fmap, Hi.
Qed.

(** [t'] is one step further than [t]. *)
Definition task_after (t' t : Task) : Prop := exists l w l' w', task_step l w t = Some (l', w', t').

Lemma running_acc todo :
  (forall h dn, Acc task_after (MkTask todo None h dn)) ->
  forall p j h dn, Acc task_after (MkTask todo (Some (j, p)) h dn).
Proof.
  intros Hidle p. induction p as [r|B action k IH|m k IH|m k IH]; intros j h dn;
    constructor; intros t' (l & w & l' & w' & Hs); cbn in Hs.
  - injection Hs as <- <- <-. apply Hidle.
  - destruct (action w). injection Hs as <- <- <-. apply IH.
  - destruct (try_lock m l); [|done]. injection Hs as <- <- <-. apply IH.
  - injection Hs as <- <- <-. apply IH.
Qed.

Lemma idle_acc todo : forall h dn, Acc task_after (MkTask todo None h dn).
Proof.
  induction todo as [|j todo IH]; intros h dn; constructor; intros t' (l & w & l' & w' & Hs); cbn in Hs; [done|].
  injection Hs as <- <- <-. by apply running_acc.
Qed.

Lemma task_acc t : Acc task_after t.
Proof. destruct t as [todo [[j p]|] h dn]; [apply running_acc|]; apply idle_acc. Qed.

(** One task of the list is one step further. *)
Definition tasks_after (ts' ts : list Task) : Prop :=
  exists i t t', ts !! i = Some t /\ ts' = <[i := t']> ts /\ task_after t' t.

Lemma tasks_acc ts : Acc tasks_after ts.
Proof.
  induction ts as [|t ts IH]; [constructor; by intros ? (? & ? & ? & ? & _)|].
  revert ts IH. induction (task_acc t) as [t _ IHt]. intros ts Hts. induction Hts as [ts Hts IHts].
  constructor. intros ts' ([|i] & t1 & t2 & Hi & -> & Ha); simpl in *.
  - simplify_eq. apply IHt; [done|]. by constructor.
  - apply IHts. by exists i, t1, t2.
Qed.

Definition machine_after (mc' mc : Machine) : Prop := exists i, step_at i mc = Some mc'.

Lemma machine_acc mc : Acc machine_after mc.
Proof.
  remember (mc_tasks mc) as ts eqn:Hts. revert mc Hts. induction (tasks_acc ts) as [ts _ IH]. intros mc ->.
  constructor. intros mc' [i (t & l & w & t' & Hi & Hs & ->)%step_at_inv].
  eapply IH; [|reflexivity]. exists i, t, t'. split; [done|]. split; [done|]. by eexists _, _, _, _.
Qed.

(** * One thread at a time *)

(** The lock when its only owner is this thread. *)
Definition mutex_of (h : option Mode) : SharedMutex :=
  match h with None => free_mutex | Some Shared => MkMutex 1 false | Some Exclusive => MkMutex 0 true end.

Lemma prog_alone i p j todo h dn mc w ts :
  brackets h p (fun _ h => h = None) -> mc = MkMachine (mutex_of h) w (<[i := MkTask todo (Some (j, p)) h dn]> ts) ->
  (i < length ts)%nat ->
  exists n, run_schedule (replicate n i) mc
    = Some (MkMachine free_mutex (alone p w).2 (<[i := MkTask todo None None (dn ++ [(j, (alone p w).1)])]> ts)).
Proof.
  intros Hp -> Hi. revert h w Hp.
  assert (Hstep : forall l w t, is_Some (task_step l w t) ->
    step_at i (MkMachine l w (<[i := t]> ts))
    = (fun x => MkMachine x.1.1 x.1.2 (<[i := x.2]> ts)) <$> task_step l w t).
  { intros l w t [[[l' w'] t'] Ht]. unfold Threads.step_at. cbn [mc_tasks mc_mutex mc_world].
    rewrite list_lookup_insert_eq by done. cbn. rewrite Ht. cbn. by rewrite list_insert_insert_eq. }
  induction p as [r|B action k IH|m k IH|m k IH]; intros h w Hp; cbn in Hp.
  - subst h. exists 1%nat. cbn [replicate Threads.run_schedule]. rewrite Hstep by done. done.
  - cbn [alone]. destruct (action w) as [b w1] eqn:Ha. destruct (IH b h w1 (Hp b)) as [n Hn]. exists (S n).
    cbn [replicate Threads.run_schedule]. rewrite Hstep; cbn; rewrite Ha; [exact Hn|by eexists].
  - destruct Hp as [-> Hp]. destruct (IH (Some m) w Hp) as [n Hn]. exists (S n).
    cbn [replicate Threads.run_schedule]. rewrite Hstep; destruct m; try by eexists. all: exact Hn.
  - destruct Hp as [-> Hp]. destruct (IH None w Hp) as [n Hn]. exists (S n).
    cbn [replicate Threads.run_schedule]. rewrite Hstep; destruct m; try by eexists. all: exact Hn.
Qed.

(** A job as one step: the handlers of [Commands], and the rounds of the two
    background threads. *)
Definition job_atomic (j : Job) : CmdM (option CommandResult) :=
  match j with
  | Request args =>
      _ ← st_modify (on_metrics command_processed);
      r ← Commands.execute (default_registry clock steady pid) ctx args;
      mret (Some r)
  | ExpireRound => _ ← expiration_round clock; mret None
  | SyncRound => fun w =>
      match w_aof w with
      | None => (None, w)
      | Some a => let '(a', s) := sync_tick a (w_sys w) in (None, put_aof a' (put_sys s w))
      end
  end.

Lemma runs_job j : job_prog clock steady pid ctx j ~> job_atomic j.
Proof.
  destruct j as [args| |]; cbn [job_prog job_atomic]; unfold request, expire_round, sync_round.
  - apply runs_bind; [apply runs_act|]. intros _. apply runs_bind; [apply runs_execute|]. runs_tac.
  - intros w. unfold expiration_round. rewrite alone_bind, !st_bind_eq. cbn [alone act asks fst snd mret St_ret].
    destruct (negb _); [done|]. by rewrite alone_bind, !runs_active_expire, st_bind_eq.
  - intros w. rewrite alone_bind. unfold sync_tick. destruct (w_aof w) as [a|] eqn:Ha; [|cbn; by rewrite Ha].
    rewrite !(alone_sync w a Ha). rewrite st_bind_eq. destruct (Aof.sync a _) as [st s]. cbn [fst snd].
    destruct (ok_status st); cbn; rewrite ?Ha; destruct w; cbn in *; by subst.
Qed.
End Schedules.

(** C9. The model of a command as one step is sound: in a machine in which nobody owns
    the log's lock, a thread that moves until it has finished its next job (a
    request, or a round of the expiration or the log's thread) leaves the
    world and gives the result that the handlers of [Commands] give, and
    leaves the lock free again. *)
Theorem job_alone `{Platform} clock steady pid ctx mc i j todo dn :
  mc_mutex mc = free_mutex -> mc_tasks mc !! i = Some (MkTask (j :: todo) None None dn) ->
  let '(r, w) := job_atomic clock steady pid ctx j (mc_world mc) in
  exists n, run_schedule clock steady pid ctx (replicate n i) mc
    = Some (MkMachine free_mutex w (<[i := MkTask todo None None (dn ++ [(j, r)])]> (mc_tasks mc))).
Proof.
  intros Hm Hi. rewrite <- (runs_job clock steady pid ctx j (mc_world mc)).
  destruct (prog_alone clock steady pid ctx i (job_prog clock steady pid ctx j) j todo None dn _ (mc_world mc) (mc_tasks mc)
    (balanced_job _ _ _ _ _) eq_refl) as [n Hn]; [by eapply lookup_lt_Some|].
  destruct (alone _ _) as [r w]. exists (S n). cbn [replicate run_schedule]. unfold step_at at 1. rewrite Hi. cbn.
  rewrite Hm. exact Hn.
Qed.

(** A server started on an empty disk, and a client that writes. *)
Lemma job_alone_witness :
  let w := (restart demo_clock (fun _ => 0) 7 kv_config (MkSys empty_fs [] 0)).2 in
  let jobs := [[ExpireRound]; [Request [lit "INCR"; lit "k"]]] in
  let '(r, w') := job_atomic demo_clock (fun _ => 0) 7 (MkContext None false false) (Request [lit "INCR"; lit "k"]) w in
  exists n, run_schedule demo_clock (fun _ => 0) 7 (MkContext None false false) (replicate n 1%nat) (start w jobs)
    = Some (MkMachine free_mutex w'
        [MkTask [ExpireRound] None None []; MkTask [] None None [(Request [lit "INCR"; lit "k"], r)]]).
Proof.
  intros w jobs.
  pose proof (job_alone demo_clock (fun _ => 0) 7 (MkContext None false false) (start w jobs) 1
    (Request [lit "INCR"; lit "k"]) [] [] eq_refl eq_refl) as Hrun.
  change (mc_world (start w jobs)) with w in Hrun. destruct (job_atomic _ _ _ _ _ w) as [r w']. exact Hrun.
Defined.

(** C8. Threads never block each other for ever, whatever they are given to do and
    however they are scheduled: no schedule is infinite; when no thread can
    move, every thread has finished all its jobs in order; and while a
    thread owns the lock exclusively (a checkpoint or a rewrite), no other
    thread owns it at all, so no mutation guard is held. *)
Theorem schedules_end `{Platform} clock steady pid ctx w jobs :
  Acc (machine_after clock steady pid ctx) (start w jobs) /\
  forall sched mc, run_schedule clock steady pid ctx sched (start w jobs) = Some mc ->
    (forall i j ti tj, mc_tasks mc !! i = Some ti -> mc_tasks mc !! j = Some tj -> i <> j ->
       t_held ti = Some Exclusive -> t_held tj = None) /\
    ((forall i, step_at clock steady pid ctx i mc = None) ->
     forall i js, jobs !! i = Some js ->
       exists t, mc_tasks mc !! i = Some t /\ t_current t = None /\ t_held t = None /\ (t_done t).*1 = js).
Proof.
  split; [apply machine_acc|]. intros sched mc Hrun.
  pose proof (run_locking _ _ _ _ _ _ _ (start_locking w jobs) Hrun) as Hl. split.
  - intros i j ti tj. by apply exclusive_alone.
  - intros Hstuck i js Hi. pose proof (run_jobs _ _ _ _ _ _ _ Hrun) as Hjobs.
    apply (f_equal (fun l => l !! i)) in Hjobs. cbn [start mc_tasks] in Hjobs. rewrite !list_lookup_fmap, Hi in Hjobs. cbn in Hjobs.
    destruct (mc_tasks mc !! i) as [t|] eqn:Ht; [|done]. exists t. split; [done|].
    destruct (stuck_done _ _ _ _ _ Hl Hstuck i t Ht) as [Htodo Hcur]. split; [done|].
    pose proof (Forall_lookup_1 _ _ _ _ (lk_tasks _ Hl) Ht) as Hok. unfold task_ok in Hok. rewrite Hcur in Hok. split; [done|].
    cbn in Hjobs. injection Hjobs as Hjobs. unfold task_jobs in Hjobs. rewrite Hcur, Htodo in Hjobs.
    by rewrite app_nil_r in Hjobs.
Qed.
