(* ===== verification/Undated.v ===== *)
(** Databases without deadlines under any clock: an engine none of whose entries
    has a deadline answers the same whatever the clock shows, so operations
    whose clock readings are out of order (a thread reads the clock before it
    locks the shard) still agree with the plain map. *)
From S2P Require Import Prelude Util Config Resp Storage StorageFacts StorageSpec StorageSweep StorageRefine.
From S2P Require Import Fs Aof Snapshot Metrics Commands CommandFacts KvSpec KvFacts KvRefine.

Abbreviation kv := Kv.kv.

Section Undated.
Context `{Platform}.
Variable lim : ProtocolConfig.

Definition undated (e : StorageEngine) : Prop :=
  forall k x, find e (shard_for_key e k) k = Some x -> e_expiry x = None.

(** A step that leaves the engine without deadlines, and of the same shape. *)
Definition ageless (e e' : StorageEngine) : Prop := undated e' /\ same_shape e e'.

Lemma ageless_refl e : undated e -> ageless e e.
Proof. by split. Qed.

Lemma ageless_point e e' k o :
  undated e -> point_update e e' k o -> (forall x, o = Some x -> e_expiry x = None) -> ageless e e'.
Proof.
  intros Hu [Hs Hp] Ho. split; [|done]. intros k' x. rewrite (same_shape_route _ _ _ Hs), Hp. case_decide; [by apply Ho|apply Hu].
Qed.

Lemma undated_live e now k :
  undated e -> find_live e (shard_for_key e k) k now = (find e (shard_for_key e k) k, e).
Proof.
  intros Hu. unfold find_live. destruct (find e _ k) as [x|] eqn:Hf; [|done]. unfold expired. by rewrite (Hu _ _ Hf).
Qed.

(** An operation that gives no entry a deadline. *)
Definition timeless (o : Op) : Prop :=
  match o with
  | OSet _ _ (Some _) _ | OExpireAt _ _ | OExpire _ _ _ | ODbsize | OExpiresCount | OFlushdb | OActiveExpire _ => False
  | _ => True
  end.

Lemma ageless_store e k entry res :
  wf e -> undated e -> key_valid e k = true -> value_valid e (e_value entry) = true -> e_expiry entry = None ->
  ageless e (store_entry e (shard_for_key e k) k (find e (shard_for_key e k) k) entry res).2.
Proof.
  intros Hwf Hu Hk Hv Hx. pose proof (store_entry_wf e k entry res Hwf Hk Hv) as Hs. cbv zeta in Hs.
  destruct (store_entry _ _ _ _ _ _) as [r e']. destruct Hs as [_ [(_ & _ & Hp)|(_ & -> & _)]]; [|by apply ageless_refl].
  eapply ageless_point; [done|exact Hp|]. by intros x [= <-].
Qed.

Lemma rewritten_undated o v now : e_expiry (rewritten_entry o v now) = None.
Proof. by destruct o. Qed.

Lemma rewritten_value o v now : e_value (rewritten_entry o v now) = v.
Proof. by destruct o. Qed.

Lemma ageless_get e now k : wf e -> undated e -> ageless e (Storage.get now k e).2.
Proof.
  intros Hwf Hu. unfold Storage.get. rewrite undated_live by done. destruct (find e _ k) as [x|] eqn:Hf; [|by apply ageless_refl]. cbn [snd].
  destruct (update_entry_wf e k x (MkEntry (e_value x) (e_expiry x) (e_version x) now) Hwf Hf eq_refl) as [_ Hp].
  eapply ageless_point; [done|exact Hp|]. intros y [= <-]. by apply (Hu _ _ Hf).
Qed.

Lemma ageless_step now o e : wf e -> undated e -> timeless o -> ageless e (engine_step now o e).2.
Proof.
  intros Hwf Hu Ho. destruct o as [k v [ttl|] c|k|k|k d|k s|k| | |k|k| | | |]; try done; cbn [engine_step].
  - assert (Hs : ageless e (Storage.set now k v None c e).2).
    { unfold Storage.set. destruct (key_valid e k) eqn:Hk; [|by apply ageless_refl]. destruct (value_valid e v) eqn:Hv; [|by apply ageless_refl]. cbn [negb].
      rewrite erase_if_expired_eq, undated_live by done. cbn [snd]. destruct (_ || _); [by apply ageless_refl|].
      by apply ageless_store. }
    by destruct (Storage.set now k v None c e).
  - pose proof (ageless_get e now k Hwf Hu) as Hg. by destruct (Storage.get now k e).
  - unfold Storage.del_one. rewrite undated_live by done. destruct (find e _ k) as [x|] eqn:Hf; [|by apply ageless_refl]. cbn [snd].
    destruct (erase_entry_wf e k x Hwf Hf) as [_ Hp]. eapply ageless_point; [done|exact Hp|done].
  - assert (Hs : ageless e (Storage.incr_by now k d e).2).
    { unfold Storage.incr_by. destruct (key_valid e k) eqn:Hk; [|by apply ageless_refl]. cbn [negb]. rewrite undated_live by done.
      destruct (match find _ _ _ with Some _ => _ | None => _ end) as [n|]; [|by apply ageless_refl].
      destruct (_ || _); [by apply ageless_refl|]. destruct (value_valid e _) eqn:Hv; [|by apply ageless_refl]. cbn [negb].
      apply ageless_store; [done..|by rewrite rewritten_value|apply rewritten_undated]. }
    by destruct (Storage.incr_by now k d e).
  - assert (Hs : ageless e (Storage.append now k s e).2).
    { unfold Storage.append. destruct (key_valid e k) eqn:Hk; [|by apply ageless_refl]. cbn [negb]. rewrite undated_live by done.
      destruct (value_valid e _) eqn:Hv; [|by apply ageless_refl]. cbn [negb].
      apply ageless_store; [done..|by rewrite rewritten_value|apply rewritten_undated]. }
    by destruct (Storage.append now k s e).
  - unfold Storage.strlen. pose proof (ageless_get e now k Hwf Hu) as Hg. by destruct (Storage.get now k e).
  - unfold Storage.ttl. rewrite undated_live by done. destruct (find e _ k) as [x|]; [|by apply ageless_refl]. by destruct (e_expiry x); apply ageless_refl.
  - unfold Storage.persist. rewrite undated_live by done. destruct (find e _ k) as [x|] eqn:Hf; [|by apply ageless_refl].
    rewrite (Hu _ _ Hf). by apply ageless_refl.
Qed.

(** * Agreement with the plain map *)

(** The engine holds exactly [m], whenever it is asked, and cannot run out of
    memory. *)
Definition stores (e : StorageEngine) (m : kv) : Prop :=
  unlimited e /\ undated e /\ wf e /\ limits_ e = lim /\ forall t, live e t = plain m.

Lemma undated_live_any e t t' : wf e -> undated e -> live e t = live e t'.
Proof.
  intros Hwf Hu. apply map_eq. intros k. rewrite !fresh_live by done. f_equal. unfold fresh.
  destruct (find e _ k) as [x|] eqn:Hf; [|done]. cbn. unfold expired. by rewrite (Hu _ _ Hf).
Qed.

Lemma stores_simulates e m now : stores e m -> simulates lim now e (plain m).
Proof. intros (_ & _ & Hwf & Hl & Hm). split; [done|]. split; [done|]. intros t _. by rewrite plain_view. Qed.

Lemma holds_stores clock w m : holds clock lim w m -> undated (w_storage w) -> stores (w_storage w) m.
Proof.
  intros (Hun & t & _ & Hwf & Hl & Hlive) Hu. split; [done|]. split; [done|]. split; [done|]. split; [done|].
  intros t'. rewrite (undated_live_any _ t' t), Hlive by done. apply plain_view.
Qed.

(** An operation that the plain map answers with [a] and [m'] does so on the
    engine, whatever the clock shows. *)
Lemma stores_step {A} (wrap : A -> Reply) `{!Inj eq eq wrap} (op : Z -> StorageEngine -> A * StorageEngine)
    o a m m' now e :
  (forall now e, engine_step now o e = let '(a, e') := op now e in (wrap a, e')) -> op_ok o -> timeless o ->
  stores e m -> (forall now, Map.step lim false now o (plain m) = (wrap a, plain m')) ->
  exists e', op now e = (a, e') /\ stores e' m' /\ same_shape e e'.
Proof.
  intros Hop Hok Hto Hs Hstep. pose proof (stores_simulates e m now Hs) as Hsim.
  destruct Hs as (Hun & Hu & Hwf & Hl & Hm).
  pose proof (step_agrees lim now now e (plain m) Hsim (Z.le_refl _) o Hok) as Ha. unfold agrees in Ha.
  pose proof (ageless_step now o e Hwf Hu Hto) as Hu'.
  rewrite Hop in Ha, Hu'. destruct (op now e) as [a1 e1]. destruct Ha as (Hc & oom & Ha). cbn [snd] in Hu'. destruct Hu' as [Hu' Hsh].
  assert (oom = false) as -> by (destruct (Map.step lim oom now o (plain m)); by apply Ha).
  rewrite Hstep in Ha. destruct Ha as (Ha & (Hwf' & Hl' & Hlive) & _). apply (inj wrap) in Ha. subst a1.
  exists e1. split; [done|]. split; [|done]. split; [unfold unlimited in *; by rewrite Hc|]. split; [done|]. split; [done|].
  split; [done|]. intros t. rewrite (undated_live_any e1 t now Hwf' Hu'), Hlive by done. apply plain_view.
Qed.

(** * Expiry finds nothing *)

Lemma stores_find e e' m :
  stores e m -> wf e' -> same_shape e e' -> (forall j k, find e' j k = find e j k) -> stores e' m.
Proof.
  intros (Hun & Hu & Hwf & Hl & Hm) Hwf' Hsh Hf. pose proof Hsh as (Hc & Hli & _).
  split; [unfold unlimited in *; by rewrite Hc|]. split.
  { intros k x. rewrite Hf, (same_shape_route _ _ _ Hsh). apply Hu. }
  split; [done|]. split; [by rewrite Hli|]. intros t. rewrite <- (Hm t). apply map_eq. intros k.
  rewrite !live_lookup by done. by rewrite Hf, (same_shape_route _ _ _ Hsh).
Qed.

Lemma expire_shard_outside sample now i c e :
  (length (shards_ e) <= i)%nat -> active_expire_shard sample now i c e = (c, e).
Proof.
  intros Hi. unfold active_expire_shard, set_cursor, put_shard, shard_at. rewrite (lookup_ge_None_2 _ _ Hi). cbn.
  rewrite list_insert_ge by done. by destruct e.
Qed.

Lemma stores_expire_shard e m sample now i c :
  stores e m -> 0 <= sample ->
  let '(c', e') := active_expire_shard sample now i c e in c' = c /\ stores e' m /\ same_shape e e'.
Proof.
  intros Hs Hsample. pose proof Hs as (_ & Hu & Hwf & _).
  destruct (decide (i < length (shards_ e))%nat) as [Hi|Hi]; [|by rewrite expire_shard_outside by lia].
  pose proof (active_expire_shard_spec sample now i c e Hwf Hi Hsample) as Ha.
  destruct (active_expire_shard sample now i c e) as [c' e']. destruct Ha as (due & -> & (He & Hlist & Hf & _)).
  destruct He as (Hwf' & Hsh & Hlive).
  assert (due = []) as ->.
  { destruct due as [|[k x] due]; [done|]. exfalso. destruct Hlist as [_ Hin].
    assert (Hfx : find e i k = Some x) by (apply Hin; by left).
    assert (Hr : shard_for_key e k = i) by (by eapply wf_find_route).
    specialize (Hlive now (Z.le_refl _)). apply (f_equal (fun d => d !! k)) in Hlive.
    rewrite !live_lookup in Hlive by done. rewrite (same_shape_route _ _ _ Hsh), Hr, Hf, Hfx in Hlive.
    rewrite decide_True in Hlive by (cbn; by left). cbn in Hlive. unfold alive, expired in Hlive.
    rewrite <- Hr in Hfx. by rewrite (Hu _ _ Hfx) in Hlive. }
  split; [cbn; lia|]. split; [|done]. apply (stores_find e); [done..|]. intros j k. rewrite Hf. by rewrite decide_False by (cbn; set_solver).
Qed.
End Undated.
