(* ===== verification/KvLocal.v ===== *)
(** Commands on a single key: which they are, and that their reply, their
    effect and their record depend on the value of that key alone. *)
From S2P Require Import Prelude Util Config Resp Storage StorageFacts StorageSpec StorageRefine Fs Aof Snapshot Metrics Commands.
From S2P Require Import Recovery CommandFacts KvSpec KvFacts Durability.

Import Kv.

(** * The key of a command *)

(** [Some (Some k)]: the command is about the key [k].  [Some None]: it is
    about no data (a malformed or unknown command, [PING], [ECHO]).  [None]: it
    is about more, or about deadlines, files or the server. *)
Abbreviation Subject := (option (option bytes)).

Definition no_data (args : list bytes) : Subject := Some None.
Definition more (args : list bytes) : Subject := None.

Definition one_key (args : list bytes) : Subject :=
  match args with [_; k] => Some (Some k) | _ => Some None end.

Definition only_key (args : list bytes) : Subject :=
  match args with [_; k] => Some (Some k) | _ :: _ :: _ :: _ => None | _ => Some None end.

Definition set_subject (args : list bytes) : Subject :=
  match args with
  | _ :: k :: _ :: opts =>
      match set_options opts Always None None with
      | inl _ => Some None
      | inr (_, None, None) => Some (Some k)
      | inr _ => None
      end
  | _ => Some None
  end.

Definition append_subject (args : list bytes) : Subject :=
  match args with [_; k; _] => Some (Some k) | _ => Some None end.

Definition mset_subject (args : list bytes) : Subject :=
  match args with
  | [_; k; _] => Some (Some k)
  | _ => if (length args <? 3)%nat || Nat.even (length args) then Some None else None
  end.

Definition subject_table : list (string * (list bytes -> Subject)) :=
  [("PING", no_data); ("ECHO", no_data); ("GET", one_key); ("SET", set_subject); ("DEL", only_key);
   ("EXISTS", only_key); ("MGET", only_key); ("MSET", mset_subject); ("INCR", one_key); ("DECR", one_key);
   ("APPEND", append_subject); ("STRLEN", one_key); ("EXPIRE", more); ("PEXPIRE", more); ("PEXPIREAT", more);
   ("TTL", one_key); ("PTTL", one_key); ("PERSIST", one_key); ("DBSIZE", more); ("FLUSHDB", more);
   ("INFO", more); ("CONFIG", more); ("SAVE", more); ("BGSAVE", more);
   ("BGREWRITEAOF", more); ("SHUTDOWN", more); ("COMMAND", more)]%string.

Definition subject (args : list bytes) : Subject :=
  match args with
  | [] => Some None
  | name :: _ => match assoc (to_upper_ascii name) subject_table with Some f => f args | None => Some None end
  end.

(** * Locality *)

(** The map with [x] at [k]. *)
Definition put (k : bytes) (x : option bytes) (m : kv) : kv := partial_alter (fun _ => x) k m.

Lemma put_same k m : put k (m !! k) m = m.
Proof. apply partial_alter_self. Qed.

Lemma put_lookup k x m : put k x m !! k = x.
Proof. apply lookup_partial_alter_eq. Qed.

Lemma put_lookup_ne k k' x m : k <> k' -> put k x m !! k' = m !! k'.
Proof. apply lookup_partial_alter_ne. Qed.

(** The outcome with the value [x] for [k]. *)
Definition sets (k : bytes) (r : bytes) (x : option bytes) (l : list (list bytes)) (m : kv) : option Outcome :=
  Some (MkOutcome (Some r) (put k x m) l).

(** What [F] does depends on the value of [k], and is confined to it. *)
Definition local (F : kv -> option Outcome) (k : bytes) : Prop :=
  forall m1 m2, m1 !! k = m2 !! k -> exists r x l, F m1 = sets k r x l m1 /\ F m2 = sets k r x l m2.

(** [F] gives the same reply to every map and changes nothing. *)
Definition constant (F : kv -> option Outcome) : Prop :=
  exists r, forall m, F m = Some (MkOutcome (Some r) m []).

Definition confined (f : list bytes -> kv -> option Outcome) (s : list bytes -> Subject) : Prop :=
  forall args, match s args with
    | None => True
    | Some None => constant (f args)
    | Some (Some k) => local (f args) k
    end.

Lemma says_local (k : bytes) (r : CommandResult) (m1 m2 : kv) :
  m1 !! k = m2 !! k -> exists r' x l, says r m1 = sets k r' x l m1 /\ says r m2 = sets k r' x l m2.
Proof.
  intros Hk. exists (response r), (m1 !! k), []. unfold sets, says. split; [by rewrite put_same|].
  by rewrite Hk, put_same.
Qed.

Lemma writes_local (k : bytes) (r : CommandResult) (v : bytes) (c : list bytes) (m1 m2 : kv) :
  exists r' x l, writes r (<[k := v]> m1) c = sets k r' x l m1 /\ writes r (<[k := v]> m2) c = sets k r' x l m2.
Proof. by exists (response r), (Some v), [c]. Qed.

Lemma has_eq (m1 m2 : kv) (k : bytes) : m1 !! k = m2 !! k -> has m1 k = has m2 k.
Proof. unfold has. by intros ->. Qed.

Section Confined.
Variable lim : ProtocolConfig.

Lemma get_confined : confined Kv.get one_key.
Proof.
  intros [|n [|k [|a args]]]; cbn [one_key]; [by eexists..| |by eexists].
  intros m1 m2 Hk. unfold Kv.get. rewrite <- Hk. by apply says_local.
Qed.

Lemma set_confined : confined (Kv.set lim) set_subject.
Proof.
  intros [|n [|k [|v opts]]]; cbn [set_subject]; [by eexists..|]. unfold Kv.set.
  destruct (set_options opts Always None None) as [msg|[[c [ttl|]] [pxat|]]]; [by eexists|done..|].
  intros m1 m2 Hk. rewrite (has_eq m1 m2 k Hk). destruct (too_large lim k v); [by apply says_local|].
  destruct (Spec.condition_holds c (has m2 k)); [apply writes_local|by apply says_local].
Qed.

Lemma del_confined : confined Kv.del only_key.
Proof.
  intros [|n [|k [|a args]]]; cbn [only_key]; [by eexists..| |done]. unfold Kv.del. cbn [remove_keys].
  intros m1 m2 Hk. rewrite (has_eq m1 m2 k Hk). unfold has. destruct (m2 !! k) as [v|] eqn:Hv.
  - by exists (integer (i64 1)), None, [[n; k]].
  - exists (integer (i64 0)), None, []. done.
Qed.

Lemma exists_confined : confined Kv.exists_ only_key.
Proof.
  intros [|n [|k [|a args]]]; cbn [only_key]; [by eexists..| |done]. unfold Kv.exists_. cbn [count_keys foldr].
  intros m1 m2 Hk. rewrite (has_eq m1 m2 k Hk). by apply says_local.
Qed.

Lemma mget_confined : confined Kv.mget only_key.
Proof.
  intros [|n [|k [|a args]]]; cbn [only_key]; [by eexists..| |done]. unfold Kv.mget. cbn [fmap list_fmap].
  intros m1 m2 Hk. rewrite Hk. by apply says_local.
Qed.

Lemma mset_confined : confined (mset lim) mset_subject.
Proof.
  intros args. unfold mset_subject.
  assert (Hbad : (length args <? 3)%nat || Nat.even (length args) = true -> constant (mset lim args)).
  { intros Hb. unfold mset. rewrite Hb. by eexists. }
  destruct args as [|n [|k [|v [|x args]]]]; try by (destruct (_ || _); [apply Hbad|]).
  unfold mset. cbn. intros m1 m2 Hk. destruct (too_large lim k v); [by apply says_local|apply writes_local].
Qed.

Lemma incr_confined d : confined (incr lim d) one_key.
Proof.
  intros [|n [|k [|a args]]]; cbn [one_key]; [by eexists..| |by eexists]. unfold incr, counter.
  intros m1 m2 Hk. rewrite Hk. destruct (negb _); [by apply says_local|].
  destruct (match m2 !! k with None => _ | Some _ => _ end) as [z|]; [|by apply says_local].
  case_bool_decide; [|by apply says_local]. destruct (too_large lim k _); [by apply says_local|apply writes_local].
Qed.

Lemma append_confined : confined (Kv.append lim) append_subject.
Proof.
  intros [|n [|k [|v [|a args]]]]; cbn [append_subject]; [by eexists..| |by eexists]. unfold Kv.append.
  intros m1 m2 Hk. rewrite Hk. destruct (too_large lim k _); [by apply says_local|apply writes_local].
Qed.

Lemma strlen_confined : confined Kv.strlen one_key.
Proof.
  intros [|n [|k [|a args]]]; cbn [one_key]; [by eexists..| |by eexists]. unfold Kv.strlen.
  intros m1 m2 Hk. rewrite Hk. by apply says_local.
Qed.

Lemma ttl_confined : confined Kv.ttl one_key.
Proof.
  intros [|n [|k [|a args]]]; cbn [one_key]; [by eexists..| |by eexists]. unfold Kv.ttl.
  intros m1 m2 Hk. rewrite (has_eq m1 m2 k Hk). by apply says_local.
Qed.

Lemma persist_confined : confined Kv.persist one_key.
Proof.
  intros [|n [|k [|a args]]]; cbn [one_key]; [by eexists..| |by eexists]. intros m1 m2 Hk. by apply says_local.
Qed.

Lemma ping_confined : confined ping no_data.
Proof. intros [|n [|a [|b args]]]; by eexists. Qed.

Lemma echo_confined : confined echo no_data.
Proof. intros [|n [|a [|b args]]]; by eexists. Qed.

Lemma table_confined :
  Forall2 (fun x y => x.1 = y.1 /\ confined x.2 y.2) (table lim) subject_table.
Proof.
  unfold table, subject_table.
  repeat (apply List.Forall2_cons; [split; [reflexivity|cbn [snd]]|]); [..|apply List.Forall2_nil].
  all: first [done | apply ping_confined | apply echo_confined | apply get_confined | apply set_confined
    | apply del_confined | apply exists_confined | apply mget_confined | apply mset_confined | apply incr_confined
    | apply append_confined | apply strlen_confined | apply ttl_confined | apply persist_confined].
Qed.

Lemma exec_confined : confined (exec lim) subject.
Proof.
  intros [|name args]; [by eexists|]. unfold subject, exec.
  pose proof (assoc_related confined _ _ (to_upper_ascii name) table_confined) as Hr.
  destruct (assoc _ (table lim)) as [f|], (assoc _ subject_table) as [s|]; try done; [apply Hr|by eexists].
Qed.

(** * Records *)

(** The record of a command on a key is a command on that key. *)
Definition keeps_subject (f : list bytes -> kv -> option Outcome) (s : list bytes -> Subject) : Prop :=
  forall args k m o rec, s args = Some (Some k) -> f args m = Some o -> logged o = [rec] ->
    rec = args \/ exists v, rec = [lit "SET"; k; v].

Lemma table_keeps : Forall2 (fun x y => x.1 = y.1 /\ keeps_subject x.2 y.2) (table lim) subject_table.
Proof.
  unfold table, subject_table.
  repeat (apply List.Forall2_cons; [split; [reflexivity|cbn [snd]; intros args k m o rec Hs He Hl]|]); [..|apply List.Forall2_nil].
  all: try discriminate Hs.
  2: { destruct args as [|n [|k' [|v opts]]]; try discriminate Hs. cbn in Hs.
       unfold Kv.set in He. destruct (set_options opts Always None None) as [msg|[[c [ttl|]] [pxat|]]]; try discriminate Hs.
       injection Hs as ->. spec_cases He; try discriminate Hl. injection Hl as <-. right. by eexists. }
  all: spec_cases He; try discriminate Hl; injection Hl as <-; by left.
Qed.

Lemma record_subject args k m o rec :
  subject args = Some (Some k) -> exec lim args m = Some o -> logged o = [rec] -> subject rec = Some (Some k).
Proof.
  intros Hs He Hl. assert (Hs' := Hs). destruct args as [|name args]; [done|]. unfold subject in Hs. unfold exec in He.
  pose proof (assoc_related keeps_subject _ _ (to_upper_ascii name) table_keeps) as Hr.
  destruct (assoc _ (table lim)) as [f|], (assoc _ subject_table) as [s|]; try done.
  destruct (Hr _ _ _ _ _ Hs He Hl) as [->|[v ->]]; [exact Hs'|]. reflexivity.
Qed.

Lemma subject_replays args k m o :
  subject args = Some (Some k) -> exec lim args m = Some o -> replays_as lim m o.
Proof.
  intros Hs He. destruct (mset_whole lim args) eqn:Hw; [by apply (exec_record lim args)|]. left.
  destruct args as [|name args]; [done|]. cbn [mset_whole] in Hw. apply orb_false_elim in Hw as [Hn Hp].
  apply negb_false_iff in Hn. unfold beq in Hn. apply bool_decide_eq_true in Hn.
  unfold subject in Hs. rewrite Hn in Hs. unfold exec in He. rewrite Hn in He.
  change (mset_subject (name :: args) = Some (Some k)) in Hs. change (mset lim (name :: args) m = Some o) in He.
  destruct args as [|k' [|v [|x args]]]; cbn in Hs; try discriminate Hs; [|by destruct (Nat.even _)].
  unfold mset in He. cbn in He, Hp. destruct (too_large lim k' v); [by injection He as <-|done].
Qed.
End Confined.
