(* ===== verification/Follow.v ===== *)
(** Programs follow the specification: at the grain of [Threads], a command on a
    single key takes effect in exactly one of its actions, logs its record in
    exactly one later action, and leaves database and log alone in all others. *)
From S2P Require Import Prelude Util Config Resp Storage StorageFacts StorageSpec StorageSweep StorageRefine.
From S2P Require Import Fs FsFacts Aof Snapshot Metrics Commands Recovery CommandFacts KvSpec KvFacts KvRefine.
From S2P Require Import RecoveryProps PersistFacts Durability Threads ThreadFacts Undated KvLocal.

Import Kv.

(** Where a thread is with its command: it has not taken effect yet, or it has,
    with the reply to give and the records still to be logged. *)
Inductive Stage := Before | After (r : bytes) (pending : list (list bytes)).

Definition pending (s : Stage) : list (list bytes) :=
  match s with Before => [] | After _ l => l end.

Section Follow.
Context `{Platform}.
Variables (clock : nat -> Z) (steady : nat -> Z) (pid : Z) (config : Config).
Variable ctx : CommandContext.
Hypothesis Hconfig : durable_config config.
Hypothesis Hctx : ctx_replay ctx = false.

Abbreviation lim := (protocol config).

(** The number of shards, which never changes. *)
Variable size : nat.

(** The log file holds the records [l]; the log's object is open. *)
Definition log_at (l : list (list bytes)) (w : World) : Prop :=
  s_io (w_sys w) = [] /\ w_config w = config /\ fs_wf (s_fs (w_sys w)) /\
  file_at (s_fs (w_sys w)) (ss_manifest_path (store_of config)) = None /\
  file_at (s_fs (w_sys w)) (aof_path (persistence config)) = Some (log_bytes l) /\
  exists a fd, w_aof w = Some a /\ aof_config a = persistence config /\ fd_ a = Some fd.

(** Its descriptor is that of the file at the log's path. *)
Definition linked (fs : Fs) (aof : option Aof) : Prop :=
  exists a fd, aof = Some a /\ fd_ a = Some fd /\ fs_dir fs !! aof_path (persistence config) = Some fd.

Definition attached (w : World) : Prop := linked (s_fs (w_sys w)) (w_aof w).

(** The log file holds the records [l] and the engine the map [m]. *)
Definition state (l : list (list bytes)) (m : kv) (w : World) : Prop :=
  log_at l w /\ stores lim (w_storage w) m /\ length (shards_ (w_storage w)) = size.

(** The program [p], at stage [s], goes on to do what [F] says, and returns
    [ret] of the reply.  It changes files only by logging its record; and it
    owns the log's lock ([h]) from a write that is to be logged until the
    record is. *)
Fixpoint follows {A : Type} (F : kv -> option Outcome) (ret : bytes -> A) (h : bool) (s : Stage) (p : Prog A) : Prop :=
  match p with
  | Ret a =>
      match s with
      | Before => exists r, a = ret r /\ forall m, F m = Some (MkOutcome (Some r) m [])
      | After r l => l = [] /\ a = ret r
      end
  | Acquire Shared k => follows F ret true s k
  | Release Shared k => pending s = [] /\ follows F ret false s k
  | Acquire Exclusive _ | Release Exclusive _ => False
  | Do action k =>
      forall l m w, state l m w -> (h = true -> attached w) ->
        let '(b, w') := action w in
        (same_files w w' /\ state l m w' /\ follows F ret h s (k b)) \/
        (s = Before /\ exists o r, F m = Some o /\ reply o = Some r /\ (h = false -> logged o = []) /\
           same_files w w' /\ state l (result o) w' /\ follows F ret h (After r (logged o)) (k b)) \/
        (exists r rec, s = After r [rec] /\ state (l ++ [rec]) m w' /\ attached w' /\ follows F ret h (After r []) (k b))
  end.

(** A program that leaves database and files alone. *)
Fixpoint idles {A} (p : Prog A) : Prop :=
  match p with
  | Ret _ => True
  | Acquire _ _ | Release _ _ => False
  | Do action k =>
      forall l m w, state l m w -> let '(b, w') := action w in same_files w w' /\ state l m w' /\ idles (k b)
  end.

Lemma follows_bind {A B : Type} F (ret : bytes -> A) (ret' : bytes -> B) h s p f :
  follows F ret h s p -> (forall h r, follows F ret' h (After r []) (f (ret r))) ->
  (forall h r, (forall m, F m = Some (MkOutcome (Some r) m [])) -> follows F ret' h Before (f (ret r))) ->
  follows F ret' h s (p ≫= f).
Proof.
  intros Hp Ha Hb. revert h s Hp. induction p as [a|C action k IH|[] k IH|[] k IH]; intros h s Hp; cbn in *; try done.
  - destruct s as [|r l]; [destruct Hp as (r & -> & Hr); by apply Hb|]. destruct Hp as [-> ->]. apply Ha.
  - intros l m w Hw Hatt. specialize (Hp l m w Hw Hatt). destruct (action w) as [b w']. destruct Hp as [(? & ? & ?)|[Hp|Hp]].
    + left. split; [done|]. split; [done|by apply IH].
    + right. left. destruct Hp as (-> & o & r & ? & ? & ? & ? & ? & ?). split; [done|]. exists o, r. repeat (split; [done|]). by apply IH.
    + right. right. destruct Hp as (r & rec & -> & ? & ? & ?). exists r, rec. repeat (split; [done|]). by apply IH.
  - by apply IH.
  - destruct Hp as [? ?]. split; [done|by apply IH].
Qed.

Lemma follows_assoc {A B C : Type} F (ret : bytes -> C) h s (p : Prog A) (g : A -> Prog B) (f : B -> Prog C) :
  follows F ret h s (p ≫= fun a => g a ≫= f) -> follows F ret h s ((p ≫= g) ≫= f).
Proof.
  revert h s. induction p as [a|D action k IH|[] k IH|[] k IH]; intros h s Hp; cbn in *; try done.
  - intros l m w Hw Hatt. specialize (Hp l m w Hw Hatt). destruct (action w) as [b w']. destruct Hp as [(? & ? & ?)|[Hp|Hp]].
    + left. split; [done|]. split; [done|by apply IH].
    + right. left. destruct Hp as (-> & o & r & ? & ? & ? & ? & ? & ?). split; [done|]. exists o, r. repeat (split; [done|]). by apply IH.
    + right. right. destruct Hp as (r & rec & -> & ? & ? & ?). exists r, rec. repeat (split; [done|]). by apply IH.
  - by apply IH.
  - destruct Hp as [? ?]. split; [done|by apply IH].
Qed.

Lemma idles_bind {A B} (p : Prog A) (f : A -> Prog B) : idles p -> (forall a, idles (f a)) -> idles (p ≫= f).
Proof.
  intros Hp Hf. induction p as [a|C action k IH|md k IH|md k IH]; cbn in *; [apply Hf| |done..].
  intros l m w Hw. specialize (Hp l m w Hw). destruct (action w) as [b w']. destruct Hp as (? & ? & Hp).
  split; [done|]. split; [done|by apply IH].
Qed.

(** * The log *)

Lemma log_open_at l w : log_open config l w <-> log_at l w /\ attached w.
Proof.
  unfold log_open, log_at, attached, linked, file_at. split.
  - intros (? & ? & ? & ? & a & fd & Ha & Hc & Hfd & Hd & Hl). split; [|by exists a, fd].
    repeat (split; [done|]). split; [by rewrite Hd; cbn; f_equal|]. by exists a, fd.
  - intros [(? & ? & ? & ? & Hl & a & fd & Ha & Hc & Hfd) (a' & fd' & Ha' & Hfd' & Hd)]. simplify_eq.
    repeat (split; [done|]). exists a, fd. repeat (split; [done|]). rewrite Hd in Hl. by injection Hl.
Qed.

Lemma state_open l m w :
  log_open config l w -> stores lim (w_storage w) m -> length (shards_ (w_storage w)) = size -> state l m w /\ attached w.
Proof. intros [Hl Ha]%log_open_at Hs Hn. by split. Qed.

Lemma attached_frame w w' : same_files w w' -> attached w -> attached w'.
Proof. intros (Hfs & _ & Ha & _). unfold attached. by rewrite Hfs, Ha. Qed.

(** Steps that leave the files alone. *)
Lemma state_step l m m' w w' :
  state l m w -> same_files w w' -> stores lim (w_storage w') m' -> same_shape (w_storage w) (w_storage w') ->
  state l m' w'.
Proof.
  intros ((Hio & Hc & Hrest) & _ & Hn) (Hfs & Hio' & Ha & Hc') Hs (_ & _ & Hsh). split; [|split; [done|congruence]].
  unfold log_at. rewrite Hfs, Hio', Ha, Hc'. by repeat (split; [done|]).
Qed.

Lemma state_frame l m w w' : state l m w -> same_files w w' -> w_storage w' = w_storage w -> state l m w'.
Proof. intros Hw Hf He. eapply state_step; [done..| |]; rewrite He; [apply Hw|done]. Qed.

Lemma state_enabled l m w : state l m w -> aof_on w = true.
Proof.
  intros [(_ & _ & _ & _ & _ & a & fd & Ha & Hc & Hfd) _]. unfold aof_on. rewrite Ha. unfold enabled.
  rewrite Hc, Hfd, (proj1 Hconfig). done.
Qed.

(** The clock is read. *)
Lemma follows_now {A : Type} F (ret : bytes -> A) h s f :
  (forall now, follows F ret h s (f now)) -> follows F ret h s (now_ clock ≫= f).
Proof. intros Hf l m w Hw _. left. split; [done|]. split; [by eapply state_frame|apply Hf]. Qed.

Lemma follows_count {A : Type} F (ret : bytes -> A) h s g f : follows F ret h s (f tt) -> follows F ret h s (count g ≫= f).
Proof. intros Hf l m w Hw _. left. split; [done|]. split; [by eapply state_frame|apply Hf]. Qed.

(** * The step in which a command takes effect *)

(** [op] answers [a] and turns the map [m] into [m'], whatever the clock
    shows. *)
Definition answers {A} (op : Z -> StorageEngine -> A * StorageEngine) (m : kv) (a : A) (m' : kv) : Prop :=
  forall now e, stores lim e m -> exists e', op now e = (a, e') /\ stores lim e' m' /\ same_shape e e'.

Lemma follows_locked {A B : Type} F (ret : bytes -> B) h (op : Z -> StorageEngine -> A * StorageEngine) f :
  (forall m, exists a m' r l, answers op m a m' /\ F m = Some (MkOutcome (Some r) m' l) /\ (h = false -> l = []) /\
     follows F ret h (After r l) (f a)) ->
  follows F ret h Before (locked clock op ≫= f).
Proof.
  intros Hop. apply follows_now. intros now l m w Hw _. destruct (Hop m) as (a & m' & r & l' & Ha & HF & Hl & Hf).
  destruct (Ha now _ (proj1 (proj2 Hw))) as (e' & He & Hs' & Hsh). cbn. rewrite He. right. left. split; [done|]. eexists _, r.
  split; [exact HF|]. split; [done|]. split; [done|]. split; [done|]. split; [by eapply state_step|exact Hf].
Qed.

(** * The step in which its record is logged *)

Lemma follows_persist {A : Type} F (ret : bytes -> A) r rec f :
  follows F ret true (After r []) (f status_ok) -> follows F ret true (After r [rec]) (Threads.persist ctx rec ≫= f).
Proof.
  intros Hf. unfold Threads.persist. rewrite Hctx. intros l m w Hw _. hnf. left. split; [done|]. split; [done|].
  rewrite (state_enabled l m w Hw). clear l m w Hw. intros l m w Hw Hatt. cbn.
  pose proof (log_open_journal config ctx (proj1 Hconfig) Hctx) as HJ.
  assert (Hlog : log_open config l w) by (apply log_open_at; split; [apply Hw|by apply Hatt]).
  destruct (journal_persist l rec w Hlog) as (w' & Hp & [Hl' Ha']%log_open_at & Hst & _).
  pose proof (runs_persist ctx rec w) as Hrun. unfold Threads.persist in Hrun. rewrite Hctx, Hp in Hrun. cbn in Hrun.
  rewrite (state_enabled l m w Hw) in Hrun. cbn in Hrun.
  destruct (match w_aof w with Some a => _ | None => _ end) as [st w1]. injection Hrun as -> ->.
  right. right. exists r, rec. split; [done|]. split; [|by split]. split; [done|]. rewrite Hst. apply Hw.
Qed.

Lemma follows_persist_or_ok F r rec : follows F done_ true (After r [rec]) (Threads.persist_or_ok ctx rec (done_ r)).
Proof. unfold Threads.persist_or_ok. apply follows_persist. cbn [negb ok_status status_ok]. by apply follows_count. Qed.

Lemma follows_persist_if F r rec : follows F done_ true (After r [rec]) (Threads.persist_if ctx true rec (done_ r)).
Proof. by apply follows_persist. Qed.

(** The guard is taken, since the log is on, and dropped at the end. *)
Lemma follows_guarded F p : follows F done_ true Before p -> follows F done_ false Before (guarded ctx p).
Proof.
  intros Hp. unfold guarded, mutation_guard. rewrite Hctx. intros l m w Hw _. left. split; [done|]. split; [done|].
  rewrite (state_enabled l m w Hw). cbn. apply (follows_bind F done_ done_ true Before p); [done|by cbn|].
  intros h r Hr. cbn. split; [done|]. by exists r.
Qed.

(** * Storage operations *)

Lemma get_answers k m : answers (fun now => Storage.get now k) m (m !! k) m.
Proof.
  intros now e Hs. by apply (stores_step lim RValue (fun now => Storage.get now k) (OGet k) _ m m now e (fun _ _ => eq_refl) I I Hs
    (fun now => get_plain lim now k m)).
Qed.

Lemma set_answers k v c m :
  answers (fun now => Storage.set now k v None c) m (set_answer lim k v c m).1 (set_answer lim k v c m).2.
Proof.
  intros now e Hs. by apply (stores_step lim RWrite (fun now => Storage.set now k v None c) (OSet k v None c) _ m _ now e
    (fun _ _ => eq_refl) I I Hs (fun now => set_plain lim now k v c m)).
Qed.

Lemma del_answers k m : answers (fun now => Storage.del_one now k) m (if has m k then 1 else 0) (delete k m).
Proof.
  intros now e Hs. by apply (stores_step lim RInt (fun now => Storage.del_one now k) (ODel k) _ m _ now e
    (fun _ _ => eq_refl) I I Hs (fun now => del_plain lim now k m)).
Qed.

Lemma incr_answers k d m :
  is_i64 d -> answers (fun now => Storage.incr_by now k d) m (incr_answer lim k d m).1 (incr_answer lim k d m).2.
Proof.
  intros Hd now e Hs. by apply (stores_step lim RWrite (fun now => Storage.incr_by now k d) (OIncrBy k d) _ m _ now e
    (fun _ _ => eq_refl) Hd I Hs (fun now => incr_plain lim now k d m)).
Qed.

Lemma append_answers k v m :
  answers (fun now => Storage.append now k v) m (append_answer lim k v m).1 (append_answer lim k v m).2.
Proof.
  intros now e Hs. by apply (stores_step lim RWrite (fun now => Storage.append now k v) (OAppend k v) _ m _ now e
    (fun _ _ => eq_refl) I I Hs (fun now => append_plain lim now k v m)).
Qed.

Lemma strlen_answers k m : answers (fun now => Storage.strlen now k) m (bsize (default [] (m !! k))) m.
Proof.
  intros now e Hs. by apply (stores_step lim RInt (fun now => Storage.strlen now k) (OStrlen k) _ m _ now e
    (fun _ _ => eq_refl) I I Hs (fun now => strlen_plain lim now k m)).
Qed.

Lemma ttl_answers k m :
  answers (fun now => Storage.ttl now k) m (MkTtl (if has m k then NoExpiry else Missing) 0) m.
Proof.
  intros now e Hs. by apply (stores_step lim RTtl (fun now => Storage.ttl now k) (OTtl k) _ m _ now e
    (fun _ _ => eq_refl) I I Hs (fun now => ttl_plain lim now k m)).
Qed.

Lemma persist_answers k m : answers (fun now => Storage.persist now k) m false m.
Proof.
  intros now e Hs. by apply (stores_step lim RBool (fun now => Storage.persist now k) (OPersist k) _ m _ now e
    (fun _ _ => eq_refl) I I Hs (fun now => persist_plain lim now k m)).
Qed.

(** * Handlers *)

(** On the commands that [s] covers, the program follows the specification. *)
Definition conducts (p : Program) (f : list bytes -> kv -> option Outcome) (s : list bytes -> Subject) : Prop :=
  forall names args, s args <> None -> follows (f args) done_ false Before (p names ctx args).

(** A command that is answered at once. *)
Lemma follows_at_once F h r : constant F -> (forall m, exists x l, F m = Some (MkOutcome (Some r) x l)) ->
  follows F done_ h Before (mret (done_ r)).
Proof.
  intros [r' Hr] HF. exists r. split; [done|]. intros m. destruct (HF m) as (x & l & Hm). rewrite Hr in *. by simplify_eq.
Qed.

Ltac at_once := solve [apply follows_at_once; [by eexists|intros; by eexists _, _]].

(** The storage operation of a handler answers as [Ha] says. *)
Ltac take_answer Ha := eexists _, _, _, _; split; [exact Ha|]; split; [reflexivity|]; split; [done|].

Lemma ping_conducts : conducts (prog Threads.ping) Kv.ping no_data.
Proof. intros names [|n [|a [|b args]]] _; at_once. Qed.

Lemma echo_conducts : conducts (prog Threads.echo) Kv.echo no_data.
Proof. intros names [|n [|a [|b args]]] _; at_once. Qed.

Lemma get_conducts : conducts (prog (Threads.get_cmd clock)) Kv.get one_key.
Proof.
  intros names [|n [|k [|b args]]] _; try at_once. apply follows_locked. intros m.
  eexists _, _, _, _. split; [apply get_answers|]. split; [reflexivity|]. done.
Qed.

Lemma strlen_conducts : conducts (prog (Threads.strlen_cmd clock)) Kv.strlen one_key.
Proof.
  intros names [|n [|k [|b args]]] _; try at_once. apply follows_locked. intros m.
  eexists _, _, _, _. split; [apply strlen_answers|]. split; [reflexivity|]. done.
Qed.

Lemma ttl_conducts ms : conducts (prog (Threads.ttl_impl clock ms)) Kv.ttl one_key.
Proof.
  intros names [|n [|k [|b args]]] _; try at_once. apply follows_locked. intros m.
  eexists _, _, _, _. split; [apply ttl_answers|]. split; [reflexivity|]. by destruct (has m k).
Qed.

Lemma persist_conducts : conducts (prog (Threads.persist_cmd clock)) Kv.persist one_key.
Proof.
  intros names [|n [|k [|b args]]] _; try at_once. apply follows_guarded, follows_locked. intros m.
  eexists _, _, _, _. split; [apply persist_answers|]. split; [reflexivity|]. done.
Qed.

Lemma exists_conducts : conducts (prog (Threads.exists_cmd clock)) Kv.exists_ only_key.
Proof.
  intros names [|n [|k [|b args]]] Hs; try at_once; [|done]. apply follows_assoc, follows_locked. intros m.
  eexists _, _, _, _. split; [apply get_answers|]. split; [reflexivity|]. done.
Qed.

Lemma mget_conducts : conducts (prog (Threads.mget_cmd clock)) Kv.mget only_key.
Proof.
  intros names [|n [|k [|b args]]] Hs; try at_once; [|done]. apply follows_assoc, follows_locked. intros m.
  eexists _, _, _, _. split; [apply get_answers|]. split; [reflexivity|]. done.
Qed.

Lemma del_conducts : conducts (prog (Threads.del_cmd clock)) Kv.del only_key.
Proof.
  intros names [|n [|k [|b args]]] Hs; try at_once; [|done]. apply follows_guarded, follows_assoc, follows_locked. intros m.
  pose proof (del_answers k m) as Ha. unfold Kv.del. cbn [remove_keys]. destruct (has m k); take_answer Ha; [|done].
  apply follows_persist_if.
Qed.

(** A write that succeeded is logged, one that was refused is not. *)
Lemma write_reply_follows F args r res :
  match w_code res with
  | WOk => r = integer (w_integer res)
  | code => r = response (err (storage_write_error code))
  end ->
  follows F done_ true (After r (if bool_decide (w_code res = WOk) then [args] else [])) (Threads.write_reply ctx args res).
Proof.
  intros Hr. unfold Threads.write_reply. case_bool_decide as Hc.
  - rewrite Hc in Hr. subst r. apply follows_persist_or_ok.
  - destruct (w_code res); [done|by subst r..].
Qed.

Lemma incr_conducts d : is_i64 d -> conducts (prog (Threads.incr_decr clock d)) (Kv.incr lim d) one_key.
Proof.
  intros Hd names [|n [|k [|b args]]] _; try at_once. apply follows_guarded, follows_locked. intros m.
  pose proof (incr_answers k d m Hd) as Ha. unfold Kv.incr. unfold incr_answer, write_answer in Ha.
  destruct (negb _); [by take_answer Ha|]. destruct (counter m k) as [z|]; [|by take_answer Ha].
  case_bool_decide; [|by take_answer Ha]. destruct (too_large lim k _) as [c|] eqn:Ht; take_answer Ha.
  - by destruct (too_large_code _ _ _ _ Ht) as [-> | ->].
  - apply (write_reply_follows _ _ _ (MkWrite WOk (z + d))). done.
Qed.

Lemma append_conducts : conducts (prog (Threads.append_cmd clock)) (Kv.append lim) append_subject.
Proof.
  intros names [|n [|k [|v [|b args]]]] _; try at_once. apply follows_guarded, follows_locked. intros m.
  pose proof (append_answers k v m) as Ha. unfold Kv.append. unfold append_answer, write_answer in Ha.
  destruct (too_large lim k _) as [c|] eqn:Ht; take_answer Ha.
  - by destruct (too_large_code _ _ _ _ Ht) as [-> | ->].
  - apply (write_reply_follows _ _ _ (MkWrite WOk _)). done.
Qed.

Lemma mset_conducts : conducts (prog (Threads.mset_cmd clock)) (Kv.mset lim) mset_subject.
Proof.
  intros names args Hs. unfold prog, Threads.mset_cmd, mset_subject in *.
  destruct (_ || _) eqn:Hb; [apply follows_at_once; [|intros; unfold mset; rewrite Hb; by eexists _, _]; unfold mset; rewrite Hb; by eexists|].
  destruct args as [|n [|k [|v [|x args]]]]; [done..| |done]. cbn [tl Threads.mset_loop].
  apply follows_guarded, follows_assoc, follows_locked. intros m. pose proof (set_answers k v Always m) as Ha.
  unfold Kv.mset. rewrite Hb. cbn [tl store_pairs]. unfold set_answer in Ha. cbn [Spec.condition_holds] in Ha.
  destruct (too_large lim k v) as [c|] eqn:Ht; take_answer Ha.
  - by destruct (too_large_code _ _ _ _ Ht) as [-> | ->].
  - cbn [fst w_code]. rewrite bool_decide_eq_true_2 by done. apply follows_persist_or_ok.
Qed.

Lemma set_conducts : conducts (prog (Threads.set_cmd clock)) (Kv.set lim) set_subject.
Proof.
  intros names [|n [|k [|v opts]]] Hs; try at_once. unfold prog, Threads.set_cmd, Kv.set, set_subject in *.
  destruct (set_options opts Always None None) as [msg|[[c [ttl|]] [pxat|]]]; [at_once|done..|].
  apply follows_guarded. unfold set_guarded. apply follows_locked. intros m. pose proof (set_answers k v c m) as Ha.
  unfold set_answer in Ha. destruct (too_large lim k v) as [code|] eqn:Ht.
  - take_answer Ha. by destruct (too_large_code _ _ _ _ Ht) as [-> | ->].
  - destruct (Spec.condition_holds c (has m k)); take_answer Ha; [|done]. cbn [fst w_code]. apply follows_persist_or_ok.
Qed.

(** * Dispatch *)

Definition specs : list (string * ((list bytes -> kv -> option Outcome) * (list bytes -> Subject))) :=
  zip_with (fun f s => (f.1, (f.2, s.2))) (table lim) subject_table.

Lemma specs_assoc name :
  assoc name specs = (f ← assoc name (table lim); s ← assoc name subject_table; Some (f, s)).
Proof.
  unfold specs, table, subject_table. cbn [zip_with fst snd assoc].
  repeat (destruct (beq name _); [reflexivity|]). reflexivity.
Qed.

Lemma programs_conduct :
  Forall2 (fun x y => x.1 = y.1 /\ conducts x.2 y.2.1 y.2.2) (programs clock steady pid) specs.
Proof.
  unfold programs, specs, table, subject_table. cbn [zip_with fst snd].
  repeat (apply List.Forall2_cons; [split; [reflexivity|cbn [fst snd]]|]); [..|apply List.Forall2_nil].
  all: first [apply ping_conducts | apply echo_conducts | apply get_conducts | apply set_conducts | apply del_conducts
    | apply exists_conducts | apply mget_conducts | apply mset_conducts | by apply incr_conducts
    | apply append_conducts | apply strlen_conducts | apply ttl_conducts | apply persist_conducts | by intros ???].
Qed.

Lemma execute_follows c :
  subject c <> None -> follows (exec lim c) done_ false Before (Threads.execute clock steady pid ctx c).
Proof.
  intros Hs. destruct c as [|name args]; [at_once|]. unfold Threads.execute, exec, subject in *.
  pose proof (assoc_related (fun p fs => conducts p fs.1 fs.2) _ _ (to_upper_ascii name) programs_conduct) as Hr.
  rewrite specs_assoc in Hr.
  assert (Hf : find_program (to_upper_ascii name) (programs clock steady pid) = assoc (to_upper_ascii name) (programs clock steady pid)).
  { generalize (programs clock steady pid). induction l as [|[n p] l IH]; [done|]. cbn. by rewrite IH. }
  rewrite Hf. pose proof (assoc_related confined _ _ (to_upper_ascii name) (table_confined lim)) as Ht.
  destruct (assoc _ (programs _ _ _)) as [p|], (assoc _ (table lim)) as [f|], (assoc _ subject_table) as [s|]; try done.
  - by apply Hr.
  - at_once.
Qed.

(** * Jobs *)

Lemma request_follows c :
  subject c <> None -> follows (exec lim c) (Some ∘ done_) false Before (job_prog clock steady pid ctx (Request c)).
Proof.
  intros Hs. cbn [job_prog]; unfold request, expire_round, sync_round. apply follows_count. apply (follows_bind _ done_); [by apply execute_follows|done|].
  intros h r Hr. by exists r.
Qed.

Hypothesis Hsample : 0 <= sample_per_shard (expiration config).

Lemma expire_shards_idles now is_ n : idles (expire_shards (sample_per_shard (expiration config)) now is_ n).
Proof.
  revert n. induction is_ as [|i is_ IH]; intros n; [done|]. intros l m w Hw. cbn.
  pose proof (stores_expire_shard lim _ m _ now i n (proj1 (proj2 Hw)) Hsample) as He.
  destruct (active_expire_shard _ _ _ _ _) as [n' e']. destruct He as (_ & Hs' & Hsh). split; [done|].
  split; [by eapply state_step|apply IH].
Qed.

Lemma state_log l m w : state l m w -> exists a, w_aof w = Some a /\ s_io (w_sys w) = [].
Proof. intros [(Hio & _ & _ & _ & _ & a & fd & Ha & _) _]. by exists a. Qed.

Lemma idles_ask {A B} (g : World -> A) (f : A -> Prog B) :
  (forall l m w, state l m w -> idles (f (g w))) -> idles (act (asks g) ≫= f).
Proof. intros Hf l m w Hw. split; [done|]. split; [done|]. by eapply Hf. Qed.

Lemma idles_now {B} (f : Z -> Prog B) : (forall now, idles (f now)) -> idles (now_ clock ≫= f).
Proof. intros Hf l m w Hw. split; [done|]. split; [by eapply state_frame|apply Hf]. Qed.

Lemma active_expire_idles : idles (Threads.active_expire clock (sample_per_shard (expiration config))).
Proof.
  apply idles_now. intros now. apply idles_ask. intros _ _ w _. apply idles_bind; [apply expire_shards_idles|]. intros n.
  apply idles_bind; [|done]. destruct (n =? 0); [done|]. intros l m w2 Hw. split; [done|]. split; [|done].
  pose proof Hw as (_ & Hs & _). eapply state_step; [exact Hw|done| |done].
  apply (stores_find lim (w_storage w2)); [done|apply add_expired_wf; by destruct Hs as (_ & _ & Hwf & _)|done..].
Qed.

(** The background threads' rounds. *)
Lemma background_idles j : (forall c, j <> Request c) -> idles (job_prog clock steady pid ctx j).
Proof.
  intros Hj. destruct j as [c| |]; [by destruct (Hj c)| |]; cbn [job_prog]; unfold request, expire_round, sync_round.
  - apply idles_ask. intros l m w [(_ & Hc & _) _]. rewrite Hc.
    destruct (negb _); [done|]. apply idles_bind; [apply active_expire_idles|done].
  - intros l m w Hw. destruct (state_log l m w Hw) as (a & Ha & Hio). cbn. rewrite Ha. unfold Aof.sync.
    rewrite st_bind_eq. destruct (fd_ a); cbn.
    + unfold sync_fd. rewrite !st_bind_eq. unfold syscall. rewrite !st_bind_eq. unfold next_io. rewrite Hio. cbn.
      assert (Hf : forall w', w' = put_aof a (put_sys (w_sys w) w) -> same_files w w') by (intros ? ->; by repeat split).
      split; [by apply Hf|]. split; [|done]. eapply state_frame; [exact Hw|by apply Hf|done].
    + assert (Hf : forall w', w' = put_aof a (put_sys (w_sys w) w) -> same_files w w') by (intros ? ->; by repeat split).
      split; [by apply Hf|]. split; [|done]. eapply state_frame; [exact Hw|by apply Hf|done].
Qed.
End Follow.
