(* ===== verification/Rewriting.v ===== *)
(** A rewrite of the log among other threads: at the grain of [Threads], the
    program of [BGREWRITEAOF] replaces the log in one of its actions, by records
    that give the database, while it owns the lock; in all others the log
    file stays as it is. *)
From S2P Require Import Prelude Util Config Resp RespFacts Storage StorageFacts StorageSpec StorageSweep StorageRefine.
From S2P Require Import Fs FsFacts Aof Snapshot Metrics Commands Recovery CommandFacts KvSpec KvFacts KvRefine.
From S2P Require Import WriterFacts RecoveryProps PersistFacts Durability Threads ThreadFacts Undated KvLocal Follow.

Import Kv.

Definition is_rewrite (c : list bytes) : bool :=
  match c with [] => false | name :: _ => beq (to_upper_ascii name) (lit "BGREWRITEAOF") end.

(** The limits allow for the records of a rewrite, and the file by which it
    replaces the log is not the manifest. *)
Definition rewritable (pid : Z) (config : Config) : Prop :=
  protocol_ok (protocol config) /\
  ss_manifest_path (store_of config) <> rewrite_tmp_path pid (aof_path (persistence config)).

Section Rewriting.
Context `{Platform}.
Variables (clock : nat -> Z) (steady : nat -> Z) (pid : Z) (config : Config).
Variable ctx : CommandContext.
Hypothesis Hconfig : durable_config config.
Variable size : nat.

Abbreviation lim := (protocol config).
Abbreviation options := (parser_options_from_config (protocol config)).
Abbreviation state := (state config size).
Abbreviation linked := (linked config).
Abbreviation attached := (attached config).
Abbreviation idles := (idles config size).
Abbreviation path := (aof_path (persistence config)).
Abbreviation tmp := (rewrite_tmp_path pid path).

(** A record that the parser accepts, if its bytes fit the buffer. *)
Definition readable (c : list bytes) : Prop :=
  bsize (encode_command c) <= max_request_bytes lim -> command_fits options c.

(** The program [p] of a thread that owns the lock exclusively, in a world with
    the log [l] and the map [m] whose files satisfy [J]: other threads may
    use the database in between, but change neither it nor the files. *)
Fixpoint rewrites {A : Type} (l : list (list bytes)) (m : kv) (J : Fs -> option Aof -> Prop) (p : Prog A) : Prop :=
  match p with
  | Ret _ | Acquire _ _ | Release Shared _ => False
  | Release Exclusive k => (forall w, state l m w -> J (s_fs (w_sys w)) (w_aof w) -> attached w) /\ idles k
  | Do action k =>
      forall w, state l m w -> J (s_fs (w_sys w)) (w_aof w) ->
        let '(b, w') := action w in
        exists l' J', state l' m w' /\ J' (s_fs (w_sys w')) (w_aof w') /\
          (l' = l \/ (replays lim l' ∅ = Some m /\ Forall readable l')) /\ rewrites l' m J' (k b)
  end.

(** A program that leaves database and files alone, up to a rewrite. *)
Fixpoint waits {A : Type} (p : Prog A) : Prop :=
  match p with
  | Ret _ => True
  | Release _ _ | Acquire Shared _ => False
  | Acquire Exclusive k => forall l m, rewrites l m linked k
  | Do action k =>
      forall l m w, state l m w -> let '(b, w') := action w in same_files w w' /\ state l m w' /\ waits (k b)
  end.

Lemma idles_waits {A : Type} (p : Prog A) : idles p -> waits p.
Proof.
  induction p as [a|B action k IH|[] k IH|[] k IH]; try done. intros Hp l m w Hw. specialize (Hp l m w Hw).
  destruct (action w) as [b w']. destruct Hp as (? & ? & ?). split; [done|]. split; [done|]. by apply IH.
Qed.

(** * The snapshot *)

Definition route (k : bytes) : nat := Z.to_nat (hash k mod Z.of_nat size).

(** [E] lists the entries of [m] in the shards [is_], each once. *)
Record collects (m : kv) (is_ : list nat) (E : list SnapshotEntry) : Prop := {
  co_once : NoDup (sn_key <$> E);
  co_undated : Forall (fun s => sn_expire_at_unix_ms s = None) E;
  co_all : forall k v, (exists s, s ∈ E /\ sn_key s = k /\ sn_value s = v) <-> m !! k = Some v /\ route k ∈ is_
}.

Lemma stores_lookup e m k v :
  stores lim e m -> (exists x, find e (shard_for_key e k) k = Some x /\ e_value x = v) <-> m !! k = Some v.
Proof.
  intros (_ & Hu & Hwf & _ & Hm). specialize (Hm 0). apply (f_equal (fun d => d !! k)) in Hm.
  rewrite live_lookup, plain_lookup in Hm by done. destruct (find e _ k) as [x|] eqn:Hf; cbn in Hm.
  - unfold alive, expired in Hm. rewrite (Hu _ _ Hf) in Hm. destruct (m !! k) as [v'|]; [|done]. cbn in Hm.
    injection Hm as Hm. split; [intros (y & Hy & <-); by simplify_eq|]. intros [= <-]. by exists x.
  - destruct (m !! k); [done|]. split; [by intros (? & ? & _)|done].
Qed.

Lemma shard_listed e m i k v :
  stores lim e m -> length (shards_ e) = size ->
  (exists x, (k, x) ∈ map_order (sh_map (shard_at e i)) /\ e_value x = v) <-> m !! k = Some v /\ route k = i.
Proof.
  intros Hs Hn. pose proof Hs as (_ & _ & Hwf & _).
  assert (Hr : route k = shard_for_key e k) by (unfold route, shard_for_key, shard_count; by rewrite Hn).
  rewrite <- (stores_lookup e m k v Hs), Hr. setoid_rewrite map_order_perm. setoid_rewrite elem_of_map_to_list. split.
  - intros (x & Hx & Hv). fold (find e i k) in Hx. pose proof (wf_find_route _ _ _ _ Hwf Hx) as <-. split; [by exists x|done].
  - intros [(x & Hx & Hv) <-]. by exists x.
Qed.

(** Nothing has expired, so that a sweep only visits. *)
Lemma sweep_undated {A} (visit : A -> bytes -> Entry -> A) now i es acc e :
  Forall (fun kx => e_expiry kx.2 = None) es ->
  sweep_entries visit now i es acc e = (fold_left (fun a kx => visit a kx.1 kx.2) es acc, e).
Proof.
  intros Hes. revert acc. induction Hes as [|[k x] es Hx _ IH]; intros acc; [done|]. cbn in *. unfold expired.
  by rewrite Hx.
Qed.

Lemma shard_undated e m i :
  stores lim e m -> Forall (fun kx : bytes * Entry => e_expiry kx.2 = None) (map_order (sh_map (shard_at e i))).
Proof.
  intros (_ & Hu & Hwf & _). rewrite map_order_perm. apply list.Forall_forall. intros [k x] Hx%elem_of_map_to_list.
  fold (find e i k) in Hx. pose proof (wf_find_route _ _ _ _ Hwf Hx) as Hr. rewrite <- Hr in Hx. by apply (Hu k).
Qed.

Lemma fold_snapshot es acc :
  fold_left (fun (a : list SnapshotEntry) (kx : bytes * Entry) => a ++ [snapshot_entry kx.1 kx.2]) es acc
  = acc ++ ((fun kx => snapshot_entry kx.1 kx.2) <$> es).
Proof.
  revert acc. induction es as [|kx es IH]; intros acc; cbn; [by rewrite app_nil_r|]. by rewrite IH, <- app_assoc.
Qed.

Lemma collects_shard e m is_ i E :
  stores lim e m -> length (shards_ e) = size -> i ∉ is_ -> collects m is_ E ->
  collects m (is_ ++ [i]) (E ++ ((fun kx => snapshot_entry kx.1 kx.2) <$> map_order (sh_map (shard_at e i)))).
Proof.
  intros Hs Hn Hi [Hnd Hu Ha]. set (es := map_order _).
  assert (Hin : forall k v, (exists s, s ∈ ((fun kx : bytes * Entry => snapshot_entry kx.1 kx.2) <$> es) /\ sn_key s = k /\ sn_value s = v)
                            <-> m !! k = Some v /\ route k = i).
  { intros k v. rewrite <- (shard_listed e m i k v Hs Hn). split.
    - intros (s & ([k' x] & -> & Hx)%list_elem_of_fmap & <- & <-). by exists x.
    - intros (x & Hx & <-). exists (snapshot_entry k x). split; [|done]. apply list_elem_of_fmap. by exists (k, x). }
  split.
  - rewrite fmap_app. apply list.NoDup_app. split; [done|]. split.
    + intros k (s & -> & Hs1)%list_elem_of_fmap (s2 & Hk & Hs2)%list_elem_of_fmap.
      destruct (proj1 (Ha (sn_key s) (sn_value s))) as [_ Hr]; [by exists s|].
      destruct (proj1 (Hin (sn_key s2) (sn_value s2))) as [_ Hr2]; [by exists s2|]. rewrite Hk, Hr2 in Hr. done.
    + rewrite <- list_fmap_compose. change (sn_key ∘ (fun kx : bytes * Entry => snapshot_entry kx.1 kx.2)) with (@fst bytes Entry). unfold es.
      rewrite map_order_perm. apply NoDup_fst_map_to_list.
  - apply Forall_app. split; [done|]. apply Forall_fmap. pose proof (shard_undated e m i Hs) as Hes.
    eapply list.Forall_impl; [exact Hes|]. intros [k x] Hx. cbn in *. by rewrite Hx.
  - intros k v. setoid_rewrite elem_of_app. split.
    + intros (s & [Hs1|Hs1] & Hk & Hv); [destruct (proj1 (Ha k v)) as [? ?]; [by exists s|]; by auto|].
      destruct (proj1 (Hin k v)) as [? ->]; [by exists s|]. split; [done|]. right. by apply list_elem_of_singleton.
    + intros [Hm [Hr|Hr%list_elem_of_singleton]].
      * destruct (proj2 (Ha k v)) as (s & ? & ?); [done|]. exists s. by auto.
      * destruct (proj2 (Hin k v)) as (s & ? & ?); [done|]. exists s. by auto.
Qed.

(** The records of a snapshot give back what it lists. *)
Definition restore (E : list SnapshotEntry) (g : kv) : kv :=
  fold_left (fun g s => <[sn_key s := sn_value s]> g) E g.

Lemma restore_out E g k : k ∉ (sn_key <$> E) -> restore E g !! k = g !! k.
Proof.
  revert g. induction E as [|s E IH]; intros g Hk; [done|]. cbn in *. apply not_elem_of_cons in Hk as [Hne Hk].
  rewrite IH by done. by apply lookup_insert_ne.
Qed.

Lemma restore_in E g s : NoDup (sn_key <$> E) -> s ∈ E -> restore E g !! sn_key s = Some (sn_value s).
Proof.
  revert g. induction E as [|x E IH]; intros g Hnd Hs; [by apply elem_of_nil in Hs|]. cbn in *.
  apply list.NoDup_cons in Hnd as [Hx Hnd]. apply elem_of_cons in Hs as [->|Hs]; [|by apply IH].
  rewrite restore_out by done. apply lookup_insert_eq.
Qed.

Lemma replays_snapshot E g :
  Forall (fun s => sn_expire_at_unix_ms s = None /\ too_large lim (sn_key s) (sn_value s) = None) E ->
  replays lim (flat_map entry_commands E) g = Some (restore E g).
Proof.
  intros HE. revert g. induction HE as [|s E [Hx Ht] _ IH]; intros g; [done|]. cbn [flat_map]. rewrite replays_app.
  unfold entry_commands. rewrite Hx. cbn [replays]. rewrite (set_record lim _ _ g Ht). cbn [reply result mbind option_bind].
  apply IH.
Qed.

Lemma stores_sizes e m k v :
  stores lim e m -> m !! k = Some v -> bsize k <= max_key_size lim /\ bsize v <= max_value_size lim.
Proof.
  intros Hs (x & Hx & <-)%(stores_lookup e m k v Hs). pose proof Hs as (_ & _ & Hwf & Hl & _).
  pose proof (find_lt _ _ _ _ Hx) as Hi. destruct (wf_entries e Hwf _ _ k x (shard_at_lookup _ _ Hi) Hx) as (_ & Hk & Hv).
  unfold key_valid, value_valid in *. rewrite Hl in *. lia.
Qed.

Lemma route_in k : (0 < size)%nat -> route k ∈ seq 0 size.
Proof. intros Hn. apply elem_of_seq. unfold route. pose proof (Z.mod_pos_bound (hash k) (Z.of_nat size)). lia. Qed.

Hypothesis Hprotocol : protocol_ok lim.
Hypothesis Htmp : ss_manifest_path (store_of config) <> tmp.

(** The snapshot's records give the database, and can be read back. *)
Lemma collects_replays e m E :
  stores lim e m -> length (shards_ e) = size -> collects m (seq 0 size) E ->
  replays lim (flat_map entry_commands E) ∅ = Some m /\ Forall readable (flat_map entry_commands E).
Proof.
  intros Hs Hn [Hnd Hu Ha]. pose proof (wf_shards e (proj1 (proj2 (proj2 Hs)))) as Hpos. rewrite Hn in Hpos.
  assert (Hsz : Forall (fun s => bsize (sn_key s) <= max_key_size lim /\ bsize (sn_value s) <= max_value_size lim) E).
  { apply list.Forall_forall. intros s Hin. destruct (proj1 (Ha (sn_key s) (sn_value s))) as [Hm _]; [by exists s|].
    by eapply stores_sizes. }
  split.
  - rewrite replays_snapshot.
    + f_equal. apply map_eq. intros k. destruct (m !! k) as [v|] eqn:Hk.
      * destruct (proj2 (Ha k v)) as (s & Hin & <- & <-); [split; [done|by apply route_in]|]. by apply restore_in.
      * rewrite restore_out; [done|]. intros (s & -> & Hin)%list_elem_of_fmap.
        destruct (proj1 (Ha (sn_key s) (sn_value s))) as [Hm _]; [by exists s|]. congruence.
    + apply list.Forall_forall. intros s Hin. rewrite list.Forall_forall in Hu, Hsz. split; [by apply Hu|].
      destruct (Hsz s Hin). unfold too_large. by rewrite !(proj2 (Z.leb_le _ _)).
  - apply list.Forall_forall. intros c (s & Hin & Hc)%list_elem_of_In%in_flat_map Hb. apply list_elem_of_In in Hin.
    rewrite list.Forall_forall in Hu, Hsz. pose proof (Hu s Hin) as Hx. destruct (Hsz s Hin) as [Hk Hv].
    unfold entry_commands in Hc. rewrite Hx in Hc. destruct Hc as [<-|[]]. pose proof Hprotocol as (_ & _ & ? & ?).
    apply command_fits3; [done|unfold bsize; simpl; lia|lia|lia|done].
Qed.

(** * Actions of the program *)

Lemma open_quiet t p s :
  s_io s = [] -> open_file t p s = (inr (fs_open t p (s_fs s)).1, MkSys (fs_open t p (s_fs s)).2 [] (s_ticks s)).
Proof.
  intros Hs. unfold open_file, syscall, next_io, mbind, St_bind, mret, St_ret. rewrite Hs. cbn. rewrite Hs.
  by destruct (fs_open t p (s_fs s)).
Qed.

Lemma rename_quiet from to s :
  s_io s = [] -> rename from to s = (None, MkSys (fs_rename from to (s_fs s)) [] (s_ticks s)).
Proof.
  intros Hs. unfold rename, syscall, next_io, on_fs, mbind, St_bind, mret, St_ret. rewrite Hs. cbn. by rewrite Hs.
Qed.

(** A system call that succeeds and changes nothing. *)
Lemma rewrites_quiet {A B : Type} l m J (x : SysM A) a (f : A -> Prog B) :
  (forall s, s_io s = [] -> x s = (a, s)) -> rewrites l m J (f a) -> rewrites l m J (sys_call x ≫= f).
Proof.
  intros Hx Hf w Hw HJ. unfold lift_sys. rewrite Hx by apply Hw. exists l, J. split; [by eapply state_frame|].
  split; [done|]. split; [by left|done].
Qed.

Lemma rewrites_now {B : Type} l m J (f : Z -> Prog B) :
  (forall now, rewrites l m J (f now)) -> rewrites l m J (now_ clock ≫= f).
Proof.
  intros Hf w Hw HJ. exists l, J. split; [by eapply state_frame|]. split; [done|]. split; [by left|apply Hf].
Qed.

Lemma rewrites_sweep {B : Type} l m J now is_ done_is E (f : list SnapshotEntry -> Prog B) :
  NoDup (done_is ++ is_) -> collects m done_is E ->
  (forall E', collects m (done_is ++ is_) E' -> rewrites l m J (f E')) ->
  rewrites l m J (sweep (fun es k x => es ++ [snapshot_entry k x]) now is_ E ≫= f).
Proof.
  revert done_is E. induction is_ as [|i is_ IH]; intros done_is E Hnd HE Hf.
  { rewrite app_nil_r in Hf. by apply Hf. }
  intros w Hw HJ. pose proof Hw as (_ & Hs & Hn). cbn.
  rewrite (sweep_undated _ _ _ _ _ _ (shard_undated _ m i Hs)), fold_snapshot.
  exists l, J. split; [by eapply state_step|]. split; [done|]. split; [by left|].
  apply (IH (done_is ++ [i])).
  - by rewrite <- app_assoc.
  - apply (collects_shard _ m _ _ _ Hs Hn); [|done]. apply list.NoDup_app in Hnd as (_ & Hd & _). intros Hi.
    apply (Hd i Hi). by left.
  - intros E'. rewrite <- app_assoc. apply Hf.
Qed.

Lemma collects_nil m : collects m [] [].
Proof.
  split; [constructor|constructor|]. intros k v. split; [intros (s & Hs & _)|intros [_ Hs]]; by apply elem_of_nil in Hs.
Qed.

Lemma rewrites_assoc {A B C : Type} l m J (p : Prog A) (g : A -> Prog B) (f : B -> Prog C) :
  rewrites l m J (p ≫= fun a => g a ≫= f) -> rewrites l m J ((p ≫= g) ≫= f).
Proof.
  revert l J. induction p as [a|D action k IH|[] k IH|[] k IH]; intros l J Hp; cbn in *; try done.
  - intros w Hw HJ. specialize (Hp w Hw HJ). destruct (action w) as [b w']. destruct Hp as (l' & J' & ? & ? & ? & ?).
    exists l', J'. split; [done|]. split; [done|]. split; [done|]. by apply IH.
  - destruct Hp as [Hp Hk]. split; [done|]. clear -Hk. induction k as [a|D action k IH|md k IH|md k IH]; cbn in *; try done.
    intros l m w Hw. specialize (Hk l m w Hw). destruct (action w) as [b w']. destruct Hk as (? & ? & ?). split; [done|].
    split; [done|]. by apply IH.
Qed.

Lemma rewrites_snapshot {B : Type} l m J (f : list SnapshotEntry -> Prog B) :
  (forall E, replays lim (flat_map entry_commands E) ∅ = Some m -> Forall readable (flat_map entry_commands E) ->
     rewrites l m J (f E)) ->
  rewrites l m J (Threads.snapshot clock ≫= f).
Proof.
  intros Hf. unfold Threads.snapshot, sweep_all. apply rewrites_assoc, rewrites_now. intros now. apply rewrites_assoc.
  intros w Hw HJ. exists l, J. split; [done|]. split; [done|]. split; [by left|]. pose proof Hw as (_ & Hs & Hn).
  unfold shard_indices. rewrite Hn. apply (rewrites_sweep l m J now _ []).
  - apply NoDup_ListNoDup, List.seq_NoDup.
  - apply collects_nil.
  - intros E HE. destruct (collects_replays _ _ _ Hs Hn HE) as [Hr Hread]. by apply Hf.
Qed.

(** The temporary file with the records [cmds], while the log is linked. *)
Definition written (fd : nat) (cmds : list (list bytes)) (fs : Fs) (aof : option Aof) : Prop :=
  linked fs aof /\ fs_dir fs !! tmp = Some fd /\ content fs fd = log_bytes cmds.

Lemma tmp_neq : tmp <> path.
Proof. apply app_neq_self. by cbn. Qed.

(** A change of files that leaves log and manifest as they are. *)
Lemma state_files l m w s :
  state l m w -> s_io s = [] -> fs_wf (s_fs s) ->
  file_at (s_fs s) (ss_manifest_path (store_of config)) = None ->
  file_at (s_fs s) path = Some (log_bytes l) -> state l m (put_sys s w).
Proof.
  intros [(_ & Hc & _ & _ & _ & Ha) Hs] Hio Hwf Hman Hfile. split; [|done]. by repeat (split; [done|]).
Qed.

Lemma rewrites_open {B : Type} l m (f : bytes + nat -> Prog B) :
  (forall fd, rewrites l m (written fd []) (f (inr fd))) -> rewrites l m linked (sys_call (open_file true tmp) ≫= f).
Proof.
  intros Hf w Hw (a & fd0 & Ha & Hfd & Hdir). pose proof Hw as [(Hio & _ & Hwf & Hman & Hfile & _) _].
  unfold lift_sys. rewrite open_quiet by done.
  pose proof (fs_open_spec true tmp _ Hwf) as Ho. destruct (fs_open true tmp _) as [fd fs']. cbn in *.
  destruct Ho as (Hwf' & Hd & Hcont & Hq & Hj & Hne).
  assert (Hsame : forall q, q <> tmp -> file_at fs' q = file_at (s_fs (w_sys w)) q).
  { intros q Hqt. unfold file_at. rewrite Hq by done. destruct (fs_dir _ !! q) as [j|] eqn:Hjq; [|done]. cbn.
    by rewrite Hj by (by eapply Hne). }
  exists l, (written fd []). split; [|split; [|split; [by left|apply Hf]]].
  - apply state_files; [done|by cbn|done|by rewrite Hsame|]. rewrite Hsame; [done|]. intros Heq. by apply tmp_neq.
  - split; [|done]. exists a, fd0. split; [done|]. split; [done|]. rewrite Hq; [done|]. intros Heq. by apply tmp_neq.
Qed.

Lemma log_bytes_snoc cmds c : log_bytes (cmds ++ [c]) = log_bytes cmds ++ encode_command c.
Proof. rewrite log_bytes_app. f_equal. unfold log_bytes. cbn. by rewrite app_nil_r. Qed.

Lemma write_quiet fd b s :
  s_io s = [] -> b <> [] -> write_all fd b s = (status_ok, MkSys (fs_append fd b (s_fs s)) [] (s_ticks s)).
Proof. intros Hs Hb. unfold write_all. rewrite Hs. by destruct b. Qed.

Lemma rewrites_write {B : Type} l m fd cmds c (f : Status -> Prog B) :
  rewrites l m (written fd (cmds ++ [c])) (f status_ok) ->
  rewrites l m (written fd cmds) (sys_call (write_all fd (encode_command c)) ≫= f).
Proof.
  intros Hf w Hw ((a & fd0 & Ha & Hfd & Hdir) & Htd & Hcont). pose proof Hw as [(Hio & _ & Hwf & Hman & Hfile & _) _].
  unfold lift_sys. rewrite write_quiet; [|done|].
  2: { intros He. pose proof (encode_command_pos c) as Hp. rewrite He in Hp. cbn in Hp. lia. }
  pose proof (appended_fs_append fd (encode_command c) (s_fs (w_sys w))) as Hap.
  assert (Hne : forall q, q <> tmp -> fs_dir (s_fs (w_sys w)) !! q <> Some fd).
  { intros q Hq He. apply Hq. by apply (proj2 Hwf q tmp fd). }
  exists l, (written fd (cmds ++ [c])). split; [|split; [|split; [by left|done]]].
  - apply state_files; [done|done|by eapply appended_wf|..].
    + rewrite (appended_file_at _ _ _ _ _ Hap); [done|]. by apply Hne.
    + rewrite (appended_file_at _ _ _ _ _ Hap); [done|]. apply Hne. intros Heq. by apply tmp_neq.
  - destruct Hap as (D & _ & C & _). split; [|split; [done|]].
    + by exists a, fd0.
    + cbn [w_sys put_sys s_fs]. by rewrite C, Hcont, log_bytes_snoc.
Qed.

Lemma rewrites_commands {B : Type} l m fd cmds prefix (f : Status -> Prog B) :
  rewrites l m (written fd (prefix ++ cmds)) (f status_ok) ->
  rewrites l m (written fd prefix) (Threads.write_commands fd cmds ≫= f).
Proof.
  revert prefix. induction cmds as [|c cmds IH]; intros prefix Hf; [by rewrite app_nil_r in Hf|].
  cbn [Threads.write_commands]. apply rewrites_assoc, rewrites_write. cbn [negb ok_status status_ok]. apply IH.
  by rewrite <- app_assoc.
Qed.

(** The step in which the log is replaced. *)
Lemma rewrites_rename {B : Type} l m fd cmds (f : option bytes -> Prog B) :
  replays lim cmds ∅ = Some m -> Forall readable cmds -> rewrites cmds m (fun _ _ => True) (f None) ->
  rewrites l m (written fd cmds) (sys_call (rename tmp path) ≫= f).
Proof.
  intros Hr Hread Hf w Hw (_ & Htd & Hcont). pose proof Hw as [(Hio & Hc & Hwf & Hman & Hfile & Ha) Hs].
  unfold lift_sys. rewrite rename_quiet by done.
  pose proof (fs_rename_spec tmp path _ fd Hwf Htd tmp_neq) as Hn. cbv zeta in Hn. destruct Hn as (Hwf' & Hd' & Hf' & Hq').
  exists cmds, (fun _ _ => True). split; [|split; [done|split; [by right|done]]].
  split; [|done]. split; [done|]. split; [done|]. split; [done|]. split; [|split; [by rewrite <- Hcont|done]].
  apply fmap_None in Hman. unfold file_at. cbn [s_fs w_sys put_sys]. rewrite Hq'; [by rewrite Hman|apply Hconfig|done].
Qed.

(** * The rest of the program *)

Lemma rewrites_same {A B : Type} l m J (x : SysM A) a (f : A -> Prog B) :
  (forall w, state l m w -> x (w_sys w) = (a, w_sys w)) -> rewrites l m J (f a) -> rewrites l m J (sys_call x ≫= f).
Proof.
  intros Hx Hf w Hw HJ. unfold lift_sys. rewrite (Hx w Hw). exists l, J. split; [by eapply state_frame|].
  split; [done|]. split; [by left|done].
Qed.

Lemma ensure_quiet fail p s : s_io s = [] -> ensure_parent_dir fail p s = (status_ok, s).
Proof.
  intros Hs. unfold ensure_parent_dir. destruct (parent_path p); [done|].
  unfold syscall, next_io, mbind, St_bind, mret, St_ret. by rewrite Hs.
Qed.

Lemma sync_fd_quiet t s : s_io s = [] -> sync_fd t s = (status_ok, s).
Proof. intros Hs. unfold sync_fd, syscall, next_io, mbind, St_bind, mret, St_ret. by rewrite Hs. Qed.

Lemma close_fd_quiet t s : s_io s = [] -> close_fd t s = (status_ok, s).
Proof. intros Hs. unfold close_fd, syscall, next_io, mbind, St_bind, mret, St_ret. by rewrite Hs. Qed.

Lemma sync_dir_quiet p s : s_io s = [] -> sync_parent_dir_best_effort p s = (tt, s).
Proof.
  intros Hs. unfold sync_parent_dir_best_effort. destruct (parent_path p); [done|].
  unfold syscall, next_io, mbind, St_bind, mret, St_ret. rewrite Hs. cbn. rewrite Hs. cbn. by rewrite Hs.
Qed.

Lemma remove_absent p s : s_io s = [] -> fs_dir (s_fs s) !! p = None -> remove p s = (lit "Success", s).
Proof.
  intros Hs Hp. unfold remove, syscall, next_io, on_fs, mbind, St_bind, mret, St_ret. rewrite Hs. cbn.
  unfold fs_remove. rewrite delete_id by done. destruct s as [[] ? ?]. by cbn in *; subst.
Qed.

(** There is no manifest to remove. *)
Lemma rewrites_manifest {B : Type} l m J (f : bytes -> Prog B) :
  (forall b, rewrites l m J (f b)) ->
  rewrites l m J ((if path_is_safe (manifest_path (persistence config))
                   then sys_call (remove (manifest_path (persistence config))) else mret []) ≫= f).
Proof.
  intros Hf. destruct (path_is_safe _) eqn:Hsafe; [|apply Hf]. apply (rewrites_same _ _ _ _ (lit "Success")); [|apply Hf].
  intros w [(Hio & _ & _ & Hman & _) _]. apply remove_absent; [done|]. apply fmap_None in Hman. unfold store_of, new_store in Hman.
  destruct (manifest_path (persistence config)); [discriminate Hsafe|done].
Qed.

Lemma reopen_quiet a s i :
  s_io s = [] -> fs_dir (s_fs s) !! aof_path (aof_config a) = Some i ->
  exists n, reopen_locked a s = ((status_ok, set_fd a (Some i) n), s).
Proof.
  intros Hs Hi. eexists. unfold reopen_locked. rewrite st_bind_eq, open_quiet by done. unfold fs_open. rewrite Hi. cbn [fst snd].
  unfold syscall, next_io, look_fs, mbind, St_bind, mret, St_ret. destruct s as [fs io t]. cbn in *. subst io. by destruct (fd_ a).
Qed.

(** A critical section on the log's object that succeeds. *)
Lemma rewrites_log {B : Type} l m J J' (g : Aof -> SysM (Status * Aof)) (f : Status -> Prog B) :
  (forall w a, state l m w -> J (s_fs (w_sys w)) (w_aof w) -> w_aof w = Some a -> aof_config a = persistence config ->
     exists a', g a (w_sys w) = ((status_ok, a'), w_sys w) /\ aof_config a' = persistence config /\ is_Some (fd_ a') /\
       J' (s_fs (w_sys w)) (Some a')) ->
  rewrites l m J' (f status_ok) -> rewrites l m J (on_log status_ok g ≫= f).
Proof.
  intros Hg Hf w Hw HJ. pose proof Hw as [(Hio & Hc & Hwf & Hman & Hfile & a & fd & Ha & Hac & Hfd) Hs].
  destruct (Hg w a Hw HJ Ha Hac) as (a' & Heq & Hac' & [fd' Hfd'] & HJ'). cbn. rewrite Ha, Heq. exists l, J'.
  split; [|split; [done|split; [by left|done]]]. split; [|done]. do 5 (split; [done|]). by exists a', fd'.
Qed.

Lemma rewrites_reopen {B : Type} l m (f : Status -> Prog B) :
  rewrites l m linked (f status_ok) ->
  rewrites l m (fun _ _ => True) (on_log status_ok (fun a =>
    '(st, a) ← reopen_locked a;
    mret (st, if ok_status st then set_write a (last_write_ok_ a) [] else failed a st)) ≫= f).
Proof.
  apply rewrites_log. intros w a [(Hio & _ & _ & _ & Hfile & _) _] _ Ha Hac. unfold file_at in Hfile.
  destruct (fs_dir _ !! path) as [i|] eqn:Hi; [|done].
  destruct (reopen_quiet a (w_sys w) i Hio) as [n Hn]; [by rewrite Hac|].
  eexists. split; [rewrite st_bind_eq, Hn; reflexivity|]. split; [done|]. split; [by eexists|]. by eexists _, i.
Qed.

Lemma rewrites_finish {B : Type} l m (f : Status -> Prog B) :
  rewrites l m linked (f status_ok) ->
  rewrites l m linked (on_log status_ok (fun a => mret (status_ok, set_write a true (last_error_ a))) ≫= f).
Proof.
  apply rewrites_log. intros w a Hw (a' & fd & Ha' & Hfd & Hd) Ha Hac. rewrite Ha in Ha'. injection Ha' as <-.
  eexists. split; [done|]. split; [done|]. split; [by exists fd|]. by eexists _, fd.
Qed.

Lemma rewrites_install {B : Type} l m fd cmds (f : Status -> Prog B) :
  replays lim cmds ∅ = Some m -> Forall readable cmds -> rewrites cmds m linked (f status_ok) ->
  rewrites l m (written fd cmds) (Threads.install_rewrite (persistence config) tmp ≫= f).
Proof.
  intros Hr Hread Hf. unfold Threads.install_rewrite. apply rewrites_assoc, rewrites_rename; [done..|].
  apply rewrites_assoc, (rewrites_quiet _ _ _ _ tt); [intros s; apply sync_dir_quiet|].
  apply rewrites_assoc, rewrites_manifest. intros b. apply rewrites_assoc, rewrites_reopen. cbn [negb ok_status status_ok].
  by apply rewrites_finish.
Qed.

Lemma rewrites_locked {B : Type} l m (f : Status -> Prog B) :
  (forall l', rewrites l' m linked (f status_ok)) ->
  rewrites l m linked (rewrite_locked clock pid (persistence config) ≫= f).
Proof.
  intros Hf. unfold rewrite_locked. apply rewrites_assoc, (rewrites_quiet _ _ _ _ status_ok); [intros s; apply ensure_quiet|].
  cbn [negb ok_status status_ok]. apply rewrites_assoc, rewrites_open. intros fd. apply rewrites_assoc, rewrites_snapshot.
  intros E Hr Hread. apply rewrites_assoc, rewrites_commands. cbn [negb ok_status status_ok].
  apply rewrites_assoc, (rewrites_quiet _ _ _ _ status_ok); [intros s; apply sync_fd_quiet|].
  apply rewrites_assoc, (rewrites_quiet _ _ _ _ status_ok); [intros s; apply close_fd_quiet|].
  cbn [negb ok_status status_ok andb app]. by apply rewrites_install.
Qed.

Lemma rewrites_bind {A B : Type} l m J (p : Prog A) (f : A -> Prog B) :
  rewrites l m J p -> (forall a, idles (f a)) -> rewrites l m J (p ≫= f).
Proof.
  intros Hp Hf. revert l J Hp. induction p as [a|D action k IH|[] k IH|[] k IH]; intros l J Hp; cbn in *; try done.
  - intros w Hw HJ. specialize (Hp w Hw HJ). destruct (action w) as [b w']. destruct Hp as (l' & J' & ? & ? & ? & ?).
    exists l', J'. split; [done|]. split; [done|]. split; [done|]. by apply IH.
  - destruct Hp as [Hp Hk]. split; [done|]. by apply idles_bind.
Qed.

Lemma waits_bind {A B : Type} (p : Prog A) (f : A -> Prog B) :
  waits p -> (forall a, idles (f a)) -> waits (p ≫= f).
Proof.
  intros Hp Hf. induction p as [a|D action k IH|[] k IH|[] k IH]; cbn in *; try done.
  - by apply idles_waits.
  - intros l m w Hw. specialize (Hp l m w Hw). destruct (action w) as [b w']. destruct Hp as (? & ? & ?). split; [done|].
    split; [done|]. by apply IH.
  - intros l m. by apply rewrites_bind.
Qed.

Lemma rewrite_waits : waits (Threads.rewrite clock pid (persistence config)).
Proof.
  unfold Threads.rewrite. destruct Hconfig as (Hon & Hsafe & _). rewrite Hon, Hsafe. cbn [negb]. intros l m.
  apply rewrites_locked. intros l'. split; [|done]. intros w _ Hl. exact Hl.
Qed.

Lemma idles_count {B : Type} g (p : Prog B) : idles p -> idles (count g ≫= fun _ => p).
Proof. intros Hp l m w Hw. split; [done|]. split; [by eapply state_frame|done]. Qed.

Lemma bgrewriteaof_waits args : waits (Threads.bgrewriteaof clock pid ctx args).
Proof.
  destruct args as [|n [|x args]]; [done| |done]. intros l m w Hw. split; [done|]. split; [done|].
  pose proof Hw as [(_ & _ & _ & _ & _ & a & fd & Ha & Hac & Hfd) _]. pose proof (state_enabled config Hconfig size l m w Hw) as Hon.
  unfold aof_on in Hon. cbn. rewrite Ha in *. cbn. rewrite Hon, Hac. apply waits_bind; [apply rewrite_waits|].
  intros st. destruct (negb (ok_status st)); by apply idles_count.
Qed.

Lemma rewrite_request_waits c : is_rewrite c = true -> waits (job_prog clock steady pid ctx (Request c)).
Proof.
  intros Hc. destruct c as [|name args]; [done|]. unfold is_rewrite, beq in Hc. apply bool_decide_eq_true in Hc.
  intros l m w Hw. split; [done|]. split; [by eapply state_frame|]. apply (waits_bind (Threads.execute clock steady pid ctx (name :: args))); [|done].
  unfold Threads.execute. rewrite Hc. apply bgrewriteaof_waits.
Qed.
End Rewriting.
