(* ===== verification/Linear.v ===== *)
(** Concurrency seen from outside: however the threads of [Threads] interleave,
    commands on single keys appear to be executed one at a time, each at one
    moment between its start and its end; and when threads write different
    keys, the log keeps up with the database, through rewrites too. *)
From S2P Require Import Prelude Util Config Resp RespFacts Storage StorageFacts StorageSpec StorageSweep StorageRefine.
From S2P Require Import Fs FsFacts Aof Snapshot Metrics Commands Recovery PersistFacts WriterFacts CommandFacts RecoveryFacts RecoveryProps.
From S2P Require Import KvSpec KvFacts KvRefine Durability Threads ThreadFacts ThreadProps Undated KvLocal Follow Rewriting.

Import Kv.

(** * Histories *)

(** Which thread executed which command with which reply, in order. *)
Abbreviation History := (list (nat * (list bytes * bytes))).

(** Executing the commands of a history one after the other gives the replies
    it says, and this map. *)
Fixpoint explains (lim : ProtocolConfig) (hist : History) (m : kv) : option kv :=
  match hist with
  | [] => Some m
  | (_, (c, r)) :: hist =>
      o ← exec lim c m;
      if bool_decide (reply o = Some r) then explains lim hist (result o) else None
  end.

Definition of_thread (i : nat) (hist : History) : list (list bytes * bytes) :=
  snd <$> filter (fun h => h.1 = i) hist.

(** The key-value command of a job: every request but a rewrite of the log. *)
Definition kv_command (j : Job) : option (list bytes) :=
  match j with Request c => if is_rewrite c then None else Some c | _ => None end.

(** The key-value commands a thread has answered, with the replies. *)
Definition answer (x : Job * option CommandResult) : list (list bytes * bytes) :=
  match kv_command x.1, x.2 with Some c, Some r => [(c, response r)] | _, _ => [] end.

Definition replied (t : Task) : list (list bytes * bytes) := flat_map answer (t_done t).

(** The history accounts for a thread: all it has answered, and at most the
    command it is at. *)
Definition accounted (hist : History) (i : nat) (t : Task) : Prop :=
  of_thread i hist = replied t \/
  exists c p r, t_current t = Some (Request c, p) /\ of_thread i hist = replied t ++ [(c, r)].

Lemma explains_app lim h1 h2 m : explains lim (h1 ++ h2) m = explains lim h1 m ≫= explains lim h2.
Proof.
  revert m. induction h1 as [|[i [c r]] h1 IH]; intros m; [done|]. cbn [explains app].
  destruct (exec lim c m) as [o|]; [|done]. cbn [mbind option_bind]. by case_bool_decide.
Qed.

Lemma of_thread_app i h1 h2 : of_thread i (h1 ++ h2) = of_thread i h1 ++ of_thread i h2.
Proof. unfold of_thread. by rewrite list.filter_app, fmap_app. Qed.

Lemma of_thread_one i j x : of_thread i [(j, x)] = if decide (j = i) then [x] else [].
Proof. unfold of_thread. rewrite filter_cons. cbn [fst]. by case_decide. Qed.

Lemma kv_command_request j c : kv_command j = Some c -> j = Request c.
Proof. destruct j as [c'| |]; cbn; [|done..]. destruct (is_rewrite c'); [done|]. by intros [= ->]. Qed.

Section Linear.
Context `{Platform}.
Variables (clock : nat -> Z) (steady : nat -> Z) (pid : Z) (config : Config).
Variable ctx : CommandContext.
Hypothesis Hconfig : durable_config config.
Hypothesis Hctx : ctx_replay ctx = false.
Hypothesis Hsample : 0 <= sample_per_shard (expiration config).
Variable size : nat.

Abbreviation lim := (protocol config).

(** The limits allow for the records of a rewrite, and the file that it
    replaces the log by is not the manifest. *)
Hypothesis Hprotocol : protocol_ok lim.
Hypothesis Htmp : ss_manifest_path (store_of config) <> rewrite_tmp_path pid (aof_path (persistence config)).

Abbreviation state := (state config size).
Abbreviation attached := (attached config).
Abbreviation follows := (follows config size).
Abbreviation waits := (waits config size).
Abbreviation rewrites := (rewrites config size).
Abbreviation readable := (readable config).
Abbreviation task_step := (task_step clock steady pid ctx).
Abbreviation step_at := (step_at clock steady pid ctx).
Abbreviation run_schedule := (run_schedule clock steady pid ctx).

(** * The invariant *)

(** Requests on at most one key, rewrites of the log, and the background
    threads' rounds. *)
Definition job_ok (j : Job) : Prop := match kv_command j with Some c => subject c <> None | None => True end.

Definition shares (h : option Mode) : bool := match h with Some Shared => true | _ => false end.

(** A thread's program, at stage [s] of its job. *)
Definition task_at (t : Task) (s : Stage) : Prop :=
  Forall job_ok (t_todo t) /\
  match t_current t with
  | None => s = Before
  | Some (j, p) =>
      match kv_command j with
      | Some c => subject c <> None /\ follows (exec lim c) (Some ∘ done_) (shares (t_held t)) s p /\
          t_held t <> Some Exclusive /\ (pending s <> [] -> t_held t = Some Shared) /\
          Forall (fun rec => subject rec = subject c) (pending s)
      | None => s = Before /\ t_held t <> Some Shared /\ (t_held t = None -> waits p)
      end
  end.

(** A thread that owns the lock exclusively is rewriting the log. *)
Definition rewriting (l : list (list bytes)) (m : kv) (w : World) (t : Task) : Prop :=
  t_held t = Some Exclusive ->
  exists j p J, t_current t = Some (j, p) /\ J (s_fs (w_sys w)) (w_aof w) /\ rewrites l m J p.

(** The command that has taken effect but is not answered yet. *)
Definition effective (t : Task) (s : Stage) : list (list bytes * bytes) :=
  match t_current t, s with
  | Some (j, _), After r _ => match kv_command j with Some c => [(c, r)] | None => [] end
  | _, _ => []
  end.

(** What one step of thread [i] means: nothing; its command takes effect; its
    record is logged; or it replaces the log. *)
Inductive Move := Nothing | Effect (c : list bytes) (o : Outcome) | Log (rec : list bytes) | Replace.

Definition moves (mv : Move) (t : Task) (s s' : Stage) (l l' : list (list bytes)) (m m' : kv) : Prop :=
  match mv with
  | Nothing => pending s' = pending s /\ l' = l /\ m' = m
  | Effect c o => (exists p, t_current t = Some (Request c, p)) /\ subject c <> None /\ exec lim c m = Some o /\
      pending s = [] /\ pending s' = logged o /\ l' = l /\ m' = result o
  | Log rec => pending s = [rec] /\ pending s' = [] /\ l' = l ++ [rec] /\ m' = m
  | Replace => t_held t = Some Exclusive /\ pending s' = [] /\ replays lim l' ∅ = Some m /\ Forall readable l' /\ m' = m
  end.

Lemma logged_subject c m o :
  subject c <> None -> exec lim c m = Some o -> Forall (fun rec => subject rec = subject c) (logged o).
Proof.
  intros Hs He. destruct (subject c) as [[k|]|] eqn:Hk; [| |done].
  - destruct (subject_replays lim c k m o Hk He) as [[-> _]|(rec & r & Hl & _)]; [done|]. rewrite Hl.
    apply List.Forall_cons; [|done]. by eapply record_subject.
  - pose proof (exec_confined lim c) as Hc. rewrite Hk in Hc. destruct Hc as [r Hr]. rewrite Hr in He. by injection He as <-.
Qed.

(** A command without a record leaves the database alone. *)
Lemma unlogged_result c m o : subject c <> None -> exec lim c m = Some o -> logged o = [] -> result o = m.
Proof.
  intros Hs He Hl. destruct (subject c) as [[k|]|] eqn:Hk; [| |done].
  - destruct (subject_replays lim c k m o Hk He) as [[_ ->]|(rec & r & Hl' & _)]; [done|congruence].
  - pose proof (exec_confined lim c) as Hc. rewrite Hk in Hc. destruct Hc as [r Hr]. rewrite Hr in He. by injection He as <-.
Qed.

(** One step of thread [i], from stage [s] to [s'], seen from outside. *)
Record seen (i : nat) (t t' : Task) (s s' : Stage) (l l' : list (list bytes)) (m m' : kv) (w w' : World)
    (mv : Move) (hist : History) : Prop := MkSeen {
  sn_moves : moves mv t s s' l l' m m';
  sn_task : task_at t' s';
  sn_state : state l' m' w';
  sn_explains : explains lim hist m = Some m';
  sn_others : forall j, j <> i -> of_thread j hist = [];
  sn_replied : replied t ++ effective t s ++ of_thread i hist = replied t' ++ effective t' s';
  (** Without the lock it changes neither files nor the database. *)
  sn_calm : t_held t = None -> same_files w w' /\ l' = l /\ m' = m;
  sn_rewriting : rewriting l' m' w' t';
  (** When it does not end up with the exclusive lock, the log is in place. *)
  sn_attached : (t_held t <> Some Exclusive -> attached w) -> t_held t' <> Some Exclusive -> attached w'
}.

(** A step that shows only in the lock. *)
Lemma seen_still i t t' s l m w :
  task_at t' s -> state l m w -> replied t ++ effective t s = replied t' ++ effective t' s -> rewriting l m w t' ->
  (t_held t = Some Exclusive -> t_held t' <> Some Exclusive -> attached w) ->
  seen i t t' s s l l m m w w Nothing [].
Proof.
  intros Ht Hw He Hr Ha. split; try done.
  - by rewrite app_nil_r.
  - intros Hb Hne. destruct (t_held t) as [[]|]; [by apply Hb|by apply Ha|by apply Hb].
Qed.

Lemma explains_one i c r m o :
  exec lim c m = Some o -> reply o = Some r -> explains lim [(i, (c, r))] m = Some (result o).
Proof. intros He Hr. cbn. rewrite He. cbn. by rewrite bool_decide_eq_true_2. Qed.

Lemma of_thread_same i x : of_thread i [(i, x)] = [x].
Proof. by rewrite of_thread_one, decide_True. Qed.

Lemma of_thread_other i j x : j <> i -> of_thread j [(i, x)] = [].
Proof. intros Hne. by rewrite of_thread_one, decide_False. Qed.

(** A thread at a key-value command. *)
Lemma command_seen i lk w todo j c p h dn lk' w' t' s l m :
  let t := MkTask todo (Some (j, p)) h dn in
  kv_command j = Some c -> task_step lk w t = Some (lk', w', t') -> task_ok t -> task_at t s -> state l m w ->
  (h = Some Shared -> attached w) ->
  exists s' l' m' mv hist, seen i t t' s s' l l' m m' w w' mv hist.
Proof.
  intros t Hj Hs Hok Hat Hw Hatt. unfold t in *. clear t. destruct Hat as [Htodo Hat]. unfold task_ok in Hok.
  cbn [t_current t_todo t_held] in *. rewrite Hj in Hat. destruct Hat as (Hc & Hf & Hne & Hpend & Hsub).
  assert (Hkeep : forall s2 p2 h2, Forall (fun rec => subject rec = subject c) (pending s2) ->
    follows (exec lim c) (Some ∘ done_) (shares h2) s2 p2 -> h2 <> Some Exclusive -> (pending s2 <> [] -> h2 = Some Shared) ->
    task_at (MkTask todo (Some (j, p2)) h2 dn) s2).
  { intros s2 p2 h2 ? ? ? ?. split; [done|]. cbn. by rewrite Hj. }
  destruct p as [a|B action k|md k|md k]; cbn [Threads.task_step t_current t_todo t_held t_done Follow.follows brackets] in Hs, Hf, Hok.
  - subst h. injection Hs as <- <- <-. exists Before, l, m, Nothing. destruct s as [|r lg].
    + destruct Hf as (r & -> & Hr). exists [(i, (c, r))]. split; try done.
      * by apply (explains_one i c r m (MkOutcome (Some r) m [])).
      * intros j' Hj'. by apply of_thread_other.
      * rewrite of_thread_same. unfold replied, effective. cbn. rewrite flat_map_app. cbn. unfold answer. cbn. by rewrite Hj, !app_nil_r.
    + destruct Hf as [-> ->]. exists []. split; try done.
      * unfold replied, effective. cbn. rewrite flat_map_app. cbn. unfold answer. cbn. by rewrite Hj, !app_nil_r.
  - destruct (action w) as [b w1] eqn:Ha. injection Hs as <- <- <-.
    assert (Hsh : shares h = true -> attached w). { intros Hsh. apply Hatt. by destruct h as [[]|]. }
    specialize (Hf l m w Hw Hsh). rewrite Ha in Hf.
    destruct Hf as [(Hsf & Hw1 & Hf)|[(-> & o & r & He & Hr & Hlog & Hsf & Hw1 & Hf)|(r & rec & -> & Hw1 & Hatt1 & Hf)]].
    + exists s, l, m, Nothing, []. split; try done.
      * by apply Hkeep.
      * rewrite app_nil_r. unfold replied, effective. cbn. by destruct s.
      * by intros ?%Hne.
      * intros Hb _. eapply attached_frame; [exact Hsf|]. by apply Hb.
    + exists (After r (logged o)), l, (result o), (Effect c o), [(i, (c, r))]. split; try done.
      * split; [exists (Do action k); cbn; by rewrite (kv_command_request _ _ Hj)|]. done.
      * apply Hkeep; [by eapply logged_subject|done|done|]. intros Hp. cbn in Hp. destruct h as [[]|]; [done|done|]. by destruct Hp, Hlog.
      * by apply explains_one.
      * intros j' Hj'. by apply of_thread_other.
      * rewrite of_thread_same. unfold replied, effective. cbn. by rewrite Hj.
      * cbn. intros ->. split; [done|]. split; [done|]. apply (unlogged_result c m o); [done|done|by apply Hlog].
      * by intros ?%Hne.
      * intros Hb _. eapply attached_frame; [exact Hsf|]. by apply Hb.
    + assert (h = Some Shared) as -> by (by apply Hpend). exists (After r []), (l ++ [rec]), m, (Log rec), []. split; try done.
      * by apply Hkeep.
      * unfold replied, effective. cbn. by rewrite Hj, app_nil_r.
  - destruct Hok as [-> Hok]. destruct md; [|done]. destruct (try_lock Shared lk); [|done]. injection Hs as <- <- <-.
    exists s, l, m, Nothing, []. apply seen_still; try done.
    apply Hkeep; [done..|]. intros Hp. by specialize (Hpend Hp).
  - destruct Hok as [-> Hok]. destruct md; [|done]. destruct Hf as [Hp Hf]. injection Hs as <- <- <-.
    exists s, l, m, Nothing, []. apply seen_still; try done.
    apply Hkeep; [done..|]. by rewrite Hp.
Qed.

(** A thread at another job. *)
Lemma other_seen i lk w todo j p h dn lk' w' t' s l m :
  let t := MkTask todo (Some (j, p)) h dn in
  kv_command j = None -> task_step lk w t = Some (lk', w', t') -> task_ok t -> task_at t s -> state l m w ->
  rewriting l m w t -> (h = None -> t_held t' = Some Exclusive -> attached w) ->
  exists s' l' m' mv hist, seen i t t' s s' l l' m m' w w' mv hist.
Proof.
  intros t Hj Hs Hok Hat Hw Hrw Hatt. unfold t in *. clear t. destruct Hat as [Htodo Hat]. unfold task_ok in Hok.
  unfold rewriting in Hrw. cbn [t_current t_todo t_held] in *. rewrite Hj in Hat. destruct Hat as (-> & Hne & Hwait). exists Before.
  assert (Hkeep : forall p2 h2, h2 <> Some Shared -> (h2 = None -> waits p2) -> task_at (MkTask todo (Some (j, p2)) h2 dn) Before).
  { intros p2 h2 ? ?. split; [done|]. cbn. by rewrite Hj. }
  destruct p as [a|B action k|md k|md k]; cbn [Threads.task_step t_current t_todo t_held t_done brackets] in Hs, Hok.
  - subst h. injection Hs as <- <- <-. exists l, m, Nothing, []. apply seen_still; try done.
    unfold replied, effective. cbn. rewrite flat_map_app. cbn. unfold answer. cbn. by rewrite Hj, !app_nil_r.
  - destruct (action w) as [b w1] eqn:Ha. injection Hs as <- <- <-. destruct h as [[]|]; [done| |].
    + destruct (Hrw eq_refl) as (j2 & p2 & J & Hcur & HJ & Hr). injection Hcur as <- <-. specialize (Hr w Hw HJ). rewrite Ha in Hr.
      destruct Hr as (l' & J' & Hw1 & HJ' & Hl & Hr).
      assert (Hx : rewriting l' m w1 (MkTask todo (Some (j, k b)) (Some Exclusive) dn)) by (intros _; by exists j, (k b), J').
      destruct Hl as [->|[Hrep Hread]]; [exists l, m, Nothing, []|exists l', m, Replace, []]; split; try done; by apply Hkeep.
    + specialize (Hwait eq_refl l m w Hw). rewrite Ha in Hwait. destruct Hwait as (Hsf & Hw1 & Hwait).
      exists l, m, Nothing, []. split; try done.
      * by apply Hkeep.
      * intros Hb _. eapply attached_frame; [exact Hsf|]. by apply Hb.
  - destruct Hok as [-> Hok]. specialize (Hwait eq_refl). destruct md; [done|].
    destruct (try_lock Exclusive lk); [|done]. injection Hs as <- <- <-. exists l, m, Nothing, []. apply seen_still; try done.
    + by apply Hkeep.
    + intros _. exists j, k, (linked config). split; [done|]. split; [by apply Hatt|]. apply Hwait.
  - destruct Hok as [-> Hok]. destruct md; [done|]. injection Hs as <- <- <-.
    destruct (Hrw eq_refl) as (j2 & p2 & J & Hcur & HJ & Hr). injection Hcur as <- <-. destruct Hr as [Hr Hi].
    exists l, m, Nothing, []. apply seen_still; try done.
    + apply Hkeep; [done|]. intros _. by apply idles_waits.
    + intros _ _. by apply Hr.
Qed.

Lemma task_seen i lk w t lk' w' t' s l m :
  task_step lk w t = Some (lk', w', t') -> task_ok t -> task_at t s -> state l m w -> rewriting l m w t ->
  (t_held t = Some Shared -> attached w) -> (t_held t = None -> t_held t' = Some Exclusive -> attached w) ->
  exists s' l' m' mv hist, seen i t t' s s' l l' m m' w w' mv hist.
Proof.
  intros Hs Hok Ht Hw Hr Ha Ha'. destruct t as [todo [[j p]|] h dn].
  - destruct (kv_command j) as [c|] eqn:Hj; [by eapply command_seen|by eapply other_seen].
  - destruct Ht as [Htodo ->]. cbn in Hs, Htodo, Hok. subst h. destruct todo as [|j todo]; [done|]. injection Hs as <- <- <-.
    inversion Htodo as [|? ? Hj Hrest]; subst. exists Before, l, m, Nothing, []. apply seen_still; try done.
    split; [done|]. cbn [t_current t_held shares pending]. unfold job_ok in Hj. destruct (kv_command j) as [c|] eqn:Hc.
    + apply kv_command_request in Hc as ->. split; [done|]. split; [by apply request_follows|done].
    + split; [done|]. split; [done|]. intros _. destruct j as [c| |]; [|apply idles_waits; by apply background_idles..].
        apply rewrite_request_waits; [done..|]. cbn in Hc. by destruct (is_rewrite c).
Qed.

Record linear (m0 : kv) (hist : History) (ss : list Stage) (l : list (list bytes)) (m : kv) (mc : Machine) : Prop := {
  ln_state : state l m (mc_world mc);
  ln_hist : explains lim hist m0 = Some m;
  ln_locking : locking mc;
  ln_tasks : Forall2 task_at (mc_tasks mc) ss;
  ln_rewriting : forall i t, mc_tasks mc !! i = Some t -> rewriting l m (mc_world mc) t;
  ln_attached : (forall i t, mc_tasks mc !! i = Some t -> t_held t <> Some Exclusive) -> attached (mc_world mc);
  ln_own : forall i t s, mc_tasks mc !! i = Some t -> ss !! i = Some s ->
    of_thread i hist = replied t ++ effective t s
}.

Lemma linear_step m0 hist ss l m mc i mc' :
  linear m0 hist ss l m mc -> step_at i mc = Some mc' ->
  exists t s s' mv l' m' hist', mc_tasks mc !! i = Some t /\ ss !! i = Some s /\ moves mv t s s' l l' m m' /\
    linear m0 (hist ++ hist') (<[i := s']> ss) l' m' mc'.
Proof.
  intros [Hw Hh Hlk Ht Hrw Hatt Ho] Hstep. pose proof (step_locking _ _ _ _ _ _ _ Hlk Hstep) as Hlk'.
  apply step_at_inv in Hstep as (t & lk & w & t' & Hi & Hs & ->).
  destruct (Forall2_lookup_l _ _ _ _ _ Ht Hi) as (s & Hsi & Hat).
  pose proof (Forall_lookup_1 _ _ _ _ (lk_tasks _ Hlk) Hi) as Hok.
  assert (Hlt : (i < length (mc_tasks mc))%nat) by (by eapply lookup_lt_Some).
  assert (Hlts : (i < length ss)%nat) by (by eapply lookup_lt_Some).
  destruct (task_seen i _ _ _ _ _ t' s l m Hs Hok Hat Hw (Hrw _ _ Hi)) as (s' & l' & m' & mv & hist' & Hseen).
  - intros Hsh. apply Hatt. intros j tj Hj Hx. destruct (decide (j = i)) as [->|Hne]; [simplify_eq; congruence|].
    pose proof (exclusive_alone _ _ _ _ _ Hlk Hj Hi Hne Hx). congruence.
  - intros Hnone Hx. apply Hatt. intros j tj Hj Hxj. destruct (decide (i = j)) as [<-|Hne]; [simplify_eq; congruence|].
    pose proof (exclusive_alone _ i j t' tj Hlk') as Hal. cbn [mc_tasks] in Hal.
    rewrite list_lookup_insert_eq, list_lookup_insert_ne in Hal by done. rewrite (Hal eq_refl Hj Hne Hx) in Hxj. done.
  - exists t, s, s', mv, l', m', hist'. destruct Hseen as [Hmv Hat' Hw' He Hother Hown Hcalm Hrw' Hatt'].
    split; [done|]. split; [done|]. split; [done|]. split; cbn [mc_world mc_tasks].
    + done.
    + rewrite explains_app, Hh. exact He.
    + done.
    + by apply Forall2_insert.
    + intros j tj Hj. destruct (decide (i = j)) as [<-|Hne].
      * rewrite list_lookup_insert_eq in Hj by done. by injection Hj as <-.
      * rewrite list_lookup_insert_ne in Hj by done. intros Hx.
        pose proof (exclusive_alone _ _ _ _ _ Hlk Hj Hi (not_eq_sym Hne) Hx) as Hnone.
        destruct (Hcalm Hnone) as ((Hfs & _ & Ha & _) & -> & ->). rewrite Hfs, Ha. by apply (Hrw j tj).
    + intros Hnone. apply Hatt'.
      * intros Hx. apply Hatt. intros j tj Hj. destruct (decide (i = j)) as [<-|Hne]; [by simplify_eq|].
        apply (Hnone j). by rewrite list_lookup_insert_ne.
      * apply (Hnone i). by apply list_lookup_insert_eq.
    + intros j tj sj Hj Hsj. rewrite of_thread_app. destruct (decide (i = j)) as [<-|Hne].
      * rewrite list_lookup_insert_eq in Hj by done. rewrite list_lookup_insert_eq in Hsj by done. simplify_eq.
        rewrite (Ho _ _ _ Hi Hsi), <- app_assoc. exact Hown.
      * rewrite list_lookup_insert_ne in Hj by done. rewrite list_lookup_insert_ne in Hsj by done.
        rewrite (Ho _ _ _ Hj Hsj), Hother by done. by rewrite app_nil_r.
Qed.

Lemma linear_run m0 sched hist ss l m mc mc' :
  linear m0 hist ss l m mc -> run_schedule sched mc = Some mc' ->
  exists hist' ss' l' m', linear m0 (hist ++ hist') ss' l' m' mc'.
Proof.
  revert hist ss l m mc. induction sched as [|i sched IH]; intros hist ss l m mc Hl Hr.
  { injection Hr as <-. exists [], ss, l, m. by rewrite app_nil_r. }
  cbn in Hr. destruct (step_at i mc) as [mc1|] eqn:Hs; [|done].
  destruct (linear_step _ _ _ _ _ _ _ _ Hl Hs) as (t & s & s' & mv & l1 & m1 & h1 & _ & _ & _ & Hl1).
  destruct (IH _ _ _ _ _ Hl1 Hr) as (h2 & ss2 & l2 & m2 & Hl2). exists (h1 ++ h2), ss2, l2, m2. by rewrite app_assoc.
Qed.

Lemma start_task w jobs i t : mc_tasks (start w jobs) !! i = Some t -> exists js, t = new_task js.
Proof.
  cbn [start mc_tasks]. rewrite list_lookup_fmap. destruct (jobs !! i) as [js|]; [|done]. intros [= <-]. by exists js.
Qed.

Lemma linear_start l m w jobs :
  state l m w -> attached w -> Forall (Forall job_ok) jobs ->
  linear m [] (replicate (length jobs) Before) l m (start w jobs).
Proof.
  intros Hw Ha Hj. split.
  - done.
  - done.
  - apply start_locking.
  - clear Hw. cbn [start mc_tasks]. induction Hj as [|js jobs Hjs _ IH]; [constructor|]. cbn. constructor; [|exact IH]. by split.
  - intros i t (js & ->)%start_task. done.
  - done.
  - intros i t s (js & ->)%start_task Hs. by apply lookup_replicate_1 in Hs as [-> _].
Qed.

Lemma linear_accounted m0 hist ss l m mc i t :
  linear m0 hist ss l m mc -> mc_tasks mc !! i = Some t -> accounted hist i t.
Proof.
  intros Hl Hi. destruct (Forall2_lookup_l _ _ _ _ _ (ln_tasks _ _ _ _ _ _ Hl) Hi) as (s & Hs & _).
  unfold accounted. rewrite (ln_own _ _ _ _ _ _ Hl _ _ _ Hi Hs). unfold effective.
  destruct (t_current t) as [[j p]|], s as [|r lg]; try (left; by rewrite app_nil_r).
  destruct (kv_command j) as [c|] eqn:Hj; [|left; by rewrite app_nil_r]. right. exists c, p, r. by rewrite (kv_command_request _ _ Hj).
Qed.

(** * The log keeps up *)

Abbreviation fits := (command_fits (parser_options_from_config (protocol config))).

(** The commands that can change the database. *)
Definition is_write (c : list bytes) : bool :=
  match c with
  | [] => false
  | name :: _ =>
      existsb (fun n => beq (to_upper_ascii name) (lit n)) ["SET"; "DEL"; "MSET"; "INCR"; "DECR"; "APPEND"]%string
  end.

Lemma reader_logs c m o :
  is_write c = false -> subject c <> None -> exec lim c m = Some o -> logged o = [].
Proof.
  intros Hw Hs He. destruct c as [|name args]; [by injection He as <-|]. unfold is_write in Hw. unfold exec, subject in *.
  pose proof (assoc_related confined _ _ (to_upper_ascii name) (table_confined lim)) as Hr.
  destruct (assoc _ (table lim)) as [f|] eqn:Hf; [|by injection He as <-].
  apply assoc_elem in Hf as (n & Hin & Hn). rewrite Hn in Hw, Hs. clear Hn Hr. unfold table in Hin.
  repeat (apply elem_of_cons in Hin as [Hin|Hin]; [injection Hin as -> ->|]); [..|by apply elem_of_nil in Hin].
  all: try discriminate Hw. all: try (exfalso; by apply Hs). all: by spec_cases He.
Qed.

Lemma replays_one rec g r x :
  exec lim rec g = Some (MkOutcome (Some r) x [rec]) -> is_error_reply r = false -> replays lim [rec] g = Some x.
Proof. intros He Hr. cbn. rewrite He. cbn. by rewrite Hr. Qed.

Lemma replays_local rec k x g g' :
  subject rec = Some (Some k) -> g !! k = g' !! k -> replays lim [rec] g = Some (put k x g) ->
  replays lim [rec] g' = Some (put k x g').
Proof.
  intros Hs Hk Hr. pose proof (exec_confined lim rec) as Hc. rewrite Hs in Hc.
  destruct (Hc g g' Hk) as (r & x' & lg & He & He'). cbn in *. rewrite He in Hr. rewrite He'. cbn in *.
  destruct (is_error_reply r); [done|]. injection Hr as Hr. apply (f_equal (fun m => m !! k)) in Hr.
  rewrite !put_lookup in Hr. by subst.
Qed.

(** The threads own the keys they write. *)
Variable owner : bytes -> nat.

Definition owned (i : nat) (js : list Job) : Prop :=
  forall c k, Request c ∈ js -> is_write c = true -> subject c = Some (Some k) -> owner k = i.

Definition all_fit (js : list Job) : Prop := forall c, Request c ∈ js -> fits c.

(** A record still to be logged by thread [i], about a key of its own: once
    logged, it brings the replayed map [g] up to date at that key. *)
Definition due (i : nat) (rec : list bytes) (g m : kv) : Prop :=
  exists k, subject rec = Some (Some k) /\ owner k = i /\ fits rec /\ replays lim [rec] g = Some (put k (m !! k) g).

Record keeps_up (ss : list Stage) (l : list (list bytes)) (m g : kv) : Prop := {
  ku_replays : replays lim l ∅ = Some g;
  ku_readable : Forall readable l;
  ku_same : forall k,
    (forall i s rec, ss !! i = Some s -> pending s = [rec] -> subject rec <> Some (Some k)) -> g !! k = m !! k;
  ku_due : forall i s, ss !! i = Some s -> pending s = [] \/ exists rec, pending s = [rec] /\ due i rec g m
}.

Lemma insert_stage (ss : list Stage) i s s' j sj :
  ss !! i = Some s -> <[i := s']> ss !! j = Some sj -> (j = i /\ sj = s') \/ (j <> i /\ ss !! j = Some sj).
Proof.
  intros Hi Hj. destruct (decide (i = j)) as [<-|Hne].
  - left. rewrite list_lookup_insert_eq in Hj by (by eapply lookup_lt_Some). by simplify_eq.
  - right. rewrite list_lookup_insert_ne in Hj by done. done.
Qed.

Lemma keeps_nothing ss l m g i s s' :
  keeps_up ss l m g -> ss !! i = Some s -> pending s' = pending s -> keeps_up (<[i := s']> ss) l m g.
Proof.
  intros [Hr Hf Hsame Hdue] Hi Hp. split; [done|done| |].
  - intros k Hk. apply Hsame. intros j sj rec Hj Hrec. destruct (decide (i = j)) as [<-|Hne].
    + simplify_eq. apply (Hk i s' rec); [|congruence]. apply list_lookup_insert_eq. by eapply lookup_lt_Some.
    + apply (Hk j sj rec); [|done]. by rewrite list_lookup_insert_ne.
  - intros j sj Hj. destruct (insert_stage _ _ _ _ _ _ Hi Hj) as [[-> ->]|[_ Hj']]; [|by apply Hdue].
    rewrite Hp. by apply Hdue.
Qed.

Lemma keeps_write ss l m g i s s' k x rec :
  keeps_up ss l m g -> ss !! i = Some s -> pending s = [] -> pending s' = [rec] ->
  subject rec = Some (Some k) -> owner k = i -> fits rec ->
  (g !! k = m !! k -> replays lim [rec] g = Some (put k x g)) ->
  keeps_up (<[i := s']> ss) l (put k x m) g.
Proof.
  intros [Hr Hf Hsame Hdue] Hi Hp Hp' Hsub Hown Hfit Hrep.
  assert (Hfree : forall j sj rec', ss !! j = Some sj -> pending sj = [rec'] -> subject rec' <> Some (Some k)).
  { intros j sj rec' Hj Hrec Hk. destruct (Hdue j sj Hj) as [He|(rec2 & He & k2 & Hk2 & Ho2 & _)]; [congruence|].
    rewrite Hrec in He. injection He as <-. rewrite Hk2 in Hk. injection Hk as ->. rewrite Hown in Ho2. subst j.
    rewrite Hi in Hj. simplify_eq. congruence. }
  split; [done|done| |].
  - intros k' Hk'. destruct (decide (k = k')) as [<-|Hne].
    + exfalso. apply (Hk' i s' rec); [|done..]. apply list_lookup_insert_eq. by eapply lookup_lt_Some.
    + rewrite put_lookup_ne by done. apply Hsame. intros j sj rec' Hj Hrec'. destruct (decide (i = j)) as [<-|Hij].
      * simplify_eq. congruence.
      * apply (Hk' j sj rec'); [|done]. by rewrite list_lookup_insert_ne.
  - intros j sj Hj. destruct (insert_stage _ _ _ _ _ _ Hi Hj) as [[-> ->]|[Hne Hj']].
    + right. exists rec. split; [done|]. exists k. repeat (split; [done|]). rewrite put_lookup. apply Hrep, Hsame, Hfree.
    + destruct (Hdue j sj Hj') as [He|(rec2 & He & k2 & Hk2 & Ho2 & Hf2 & Hr2)]; [by left|]. right. exists rec2.
      split; [done|]. exists k2. repeat (split; [done|]). rewrite put_lookup_ne; [done|]. congruence.
Qed.

Lemma keeps_log ss l m g i s s' rec :
  keeps_up ss l m g -> ss !! i = Some s -> pending s = [rec] -> pending s' = [] ->
  exists g', keeps_up (<[i := s']> ss) (l ++ [rec]) m g'.
Proof.
  intros [Hr Hf Hsame Hdue] Hi Hp Hp'.
  destruct (Hdue i s Hi) as [He|(rec2 & He & k & Hk & Ho & Hfit & Hrep)]; [congruence|].
  rewrite Hp in He. injection He as <-. exists (put k (m !! k) g). split.
  - rewrite replays_app, Hr. exact Hrep.
  - apply Forall_app. split; [done|]. apply List.Forall_cons; [by intros _|done].
  - intros k' Hk'. destruct (decide (k = k')) as [<-|Hne]; [apply put_lookup|]. rewrite put_lookup_ne by done.
    apply Hsame. intros j sj rec' Hj Hrec'. destruct (decide (i = j)) as [<-|Hij].
    + simplify_eq. congruence.
    + apply (Hk' j sj rec'); [|done]. by rewrite list_lookup_insert_ne.
  - intros j sj Hj. destruct (insert_stage _ _ _ _ _ _ Hi Hj) as [[-> ->]|[Hne Hj']]; [by left|].
    destruct (Hdue j sj Hj') as [He|(rec2 & He & k2 & Hk2 & Ho2 & Hf2 & Hr2)]; [by left|]. right. exists rec2.
    split; [done|]. exists k2. repeat (split; [done|]). apply (replays_local rec2 k2 _ g); [done| |done].
    rewrite put_lookup_ne; [done|]. congruence.
Qed.

(** After a rewrite the log gives the database. *)
Lemma keeps_replace ss l l' m g i s' :
  keeps_up ss l m g -> (forall j sj, ss !! j = Some sj -> pending sj = []) -> pending s' = [] ->
  replays lim l' ∅ = Some m -> Forall readable l' -> keeps_up (<[i := s']> ss) l' m m.
Proof.
  intros Hk Hnone Hs' Hr Hread. split; [done|done|done|]. intros j sj Hj. left.
  destruct (decide (i = j)) as [<-|Hne]; [|rewrite list_lookup_insert_ne in Hj by done; by eapply Hnone].
  apply list_lookup_insert_Some in Hj as [(_ & <- & _)|[Hne _]]; [done|by destruct Hne].
Qed.

(** While a thread owns the lock exclusively, no record is due. *)
Lemma exclusive_settled m0 hist ss l m mc i t :
  linear m0 hist ss l m mc -> mc_tasks mc !! i = Some t -> t_held t = Some Exclusive ->
  forall j sj, ss !! j = Some sj -> pending sj = [].
Proof.
  intros Hl Hi Hx j sj Hj. destruct (Forall2_lookup_r _ _ _ _ _ (ln_tasks _ _ _ _ _ _ Hl) Hj) as (tj & Htj & _ & Hat).
  destruct (t_current tj) as [[job p]|]; [|by subst sj]. destruct (kv_command job); [|destruct Hat as [-> _]; done].
  destruct Hat as (_ & _ & Hne & Hp & _). destruct (decide (i = j)) as [<-|Hij]; [by simplify_eq|].
  pose proof (exclusive_alone _ _ _ _ _ (ln_locking _ _ _ _ _ _ Hl) Hi Htj Hij Hx) as Hn.
  destruct (pending sj) as [|rec ps]; [done|]. rewrite Hp in Hn by done. done.
Qed.

Lemma keeps_step ss l m g i t s s' mv l' m' :
  keeps_up ss l m g -> ss !! i = Some s -> moves mv t s s' l l' m m' ->
  (t_held t = Some Exclusive -> forall j sj, ss !! j = Some sj -> pending sj = []) ->
  owned i (task_jobs t) -> all_fit (task_jobs t) -> exists g', keeps_up (<[i := s']> ss) l' m' g'.
Proof.
  intros Hk Hi Hm Hx Ho Hfit. destruct mv as [|c o|rec|]; cbn in Hm.
  - destruct Hm as (Hp & -> & ->). exists g. by eapply keeps_nothing.
  - destruct Hm as ([p Hcur] & Hsub & He & Hp & Hp' & -> & ->).
    assert (Hin : Request c ∈ task_jobs t). { unfold task_jobs. rewrite Hcur. set_solver. }
    pose proof (exec_confined lim c) as Hc. destruct (subject c) as [[k|]|] eqn:Hs; [| |done].
    + destruct (subject_replays lim c k m o Hs He) as [[Hl Hm']|(rec & r & Hl & Herr & He')].
      { exists g. rewrite Hm'. eapply keeps_nothing; [done..|]. congruence. }
      assert (Hw : is_write c = true).
      { apply not_false_iff_true. intros Hw. apply (reader_logs c m o) in Hw; [congruence|by rewrite Hs|done]. }
      pose proof (record_subject lim c k m o rec Hs He Hl) as Hrs.
      pose proof (exec_confined lim rec) as Hcr. rewrite Hrs in Hcr.
      assert (Hres : result o = put k (result o !! k) m).
      { destruct (Hcr m m eq_refl) as (r0 & x0 & l0 & H0 & _). rewrite He' in H0. injection H0 as _ H0 _.
        rewrite H0. by rewrite put_lookup. }
      exists g. rewrite Hres. eapply (keeps_write _ _ _ _ _ _ _ k _ rec); [done..|congruence|done|by eapply Ho| |].
      { pose proof (record_fits _ lim c m o He (Hfit c Hin)) as Hrf. rewrite Hl in Hrf. by inversion Hrf. }
      intros Heq. destruct (Hcr m g (eq_sym Heq)) as (r0 & x0 & l0 & H0 & H1). rewrite He' in H0. injection H0 as <- H0 <-.
      rewrite H0, put_lookup. by eapply replays_one.
    + destruct Hc as [r Hr]. rewrite Hr in He. injection He as <-. cbn in *. exists g. eapply keeps_nothing; [done..|]. congruence.
  - destruct Hm as (Hp & Hp' & -> & ->). by eapply keeps_log.
  - destruct Hm as (Hheld & Hp' & Hr & Hread & ->). exists m. eapply keeps_replace; [done|by apply Hx|done..].
Qed.

Lemma keeps_run m0 jobs sched hist ss l m g mc mc' :
  linear m0 hist ss l m mc -> keeps_up ss l m g -> task_jobs <$> mc_tasks mc = jobs ->
  (forall i js, jobs !! i = Some js -> owned i js /\ all_fit js) -> run_schedule sched mc = Some mc' ->
  exists hist' ss' l' m' g', linear m0 hist' ss' l' m' mc' /\ keeps_up ss' l' m' g'.
Proof.
  intros Hl Hk Hj Ho. revert hist ss l m g mc Hl Hk Hj. induction sched as [|i sched IH]; intros hist ss l m g mc Hl Hk Hj Hr.
  { injection Hr as <-. by exists hist, ss, l, m, g. }
  cbn in Hr. destruct (step_at i mc) as [mc1|] eqn:Hs; [|done].
  destruct (linear_step _ _ _ _ _ _ _ _ Hl Hs) as (t & s & s' & mv & l1 & m1 & h1 & Hi & Hsi & Hmv & Hl1).
  destruct (Ho i (task_jobs t)) as [Ho1 Ho2]; [by rewrite <- Hj, list_lookup_fmap, Hi|].
  destruct (keeps_step _ _ _ _ _ _ _ _ _ _ _ Hk Hsi Hmv (exclusive_settled _ _ _ _ _ _ _ _ Hl Hi) Ho1 Ho2) as [g1 Hk1].
  eapply IH; [exact Hl1|exact Hk1| |exact Hr].
  rewrite <- Hj. apply (run_jobs clock steady pid ctx [i]). cbn. by rewrite Hs.
Qed.

Lemma keeps_start n l m : replays lim l ∅ = Some m -> Forall fits l -> keeps_up (replicate n Before) l m m.
Proof.
  intros Hr Hf. split; [done|by eapply list.Forall_impl; [exact Hf|intros c Hc _]|done|]. intros i s Hs. apply lookup_replicate_1 in Hs as [-> _]. by left.
Qed.

(** Keys whose value in the log is behind have a command in flight. *)
Lemma keeps_behind m0 hist ss l m g mc k :
  linear m0 hist ss l m mc -> keeps_up ss l m g ->
  g !! k = m !! k \/
  exists t c p, mc_tasks mc !! owner k = Some t /\ t_current t = Some (Request c, p) /\ subject c = Some (Some k).
Proof.
  intros Hl Hk.
  assert (Hclear : (forall s rec, ss !! owner k = Some s -> pending s = [rec] -> subject rec <> Some (Some k)) ->
                   g !! k = m !! k).
  { intros Hno. apply (ku_same _ _ _ _ Hk). intros i s rec Hi Hp Hsub.
    destruct (ku_due _ _ _ _ Hk _ _ Hi) as [?|(rec' & Hrec & k' & Hk' & Ho & _)]; [congruence|].
    rewrite Hp in Hrec. injection Hrec as <-. rewrite Hk' in Hsub. injection Hsub as ->. subst i. by apply (Hno s rec). }
  destruct (ss !! owner k) as [s|] eqn:Hs; [|left; apply Hclear; by intros].
  destruct (ku_due _ _ _ _ Hk _ _ Hs) as [Hp|(rec & Hp & k' & Hk' & _)].
  { left. apply Hclear. intros ? ? [= <-]. congruence. }
  destruct (decide (k' = k)) as [->|Hne]; [right|left; apply Hclear; intros ? ? [= <-]; congruence].
  destruct (Forall2_lookup_r _ _ _ _ _ (ln_tasks _ _ _ _ _ _ Hl) Hs) as (t & Ht & _ & Hat).
  destruct (t_current t) as [[j p]|] eqn:Hc; [|by subst s].
  destruct (kv_command j) as [c|] eqn:Hj; [|destruct Hat as [-> _]; done]. apply kv_command_request in Hj as ->.
  destruct Hat as (_ & _ & _ & _ & Hsub). rewrite Hp in Hsub. inversion Hsub as [|? ? Hsc]; subst.
  exists t, c, p. split; [done|]. split; [done|]. congruence.
Qed.
End Linear.

(** C3. Linearizability: any number of threads run requests on at most one key
    ([subject]: malformed and unknown ones included; no deadlines, and not
    [DBSIZE], [FLUSHDB], [INFO], [CONFIG], [SAVE] or [SHUTDOWN]), rewrites of
    the log and the background rounds, their actions interleaved in any way, on
    a database without deadlines and without a memory limit whose log can be
    written.  Then at every moment of every run the database is what some order
    of the commands gives, one after the other by the specification, and every
    reply given is the one that order gives.  The order only grows as the run
    goes on: it contains every answered command, and of the unanswered ones at
    most the one a thread is at, so a command that ended before another began
    comes first. *)
Theorem linearizable `{Platform} clock steady pid config ctx jobs l m w sched1 sched2 mc1 mc2 :
  durable_config config -> rewritable pid config -> ctx_replay ctx = false ->
  0 <= sample_per_shard (expiration config) ->
  log_open config l w -> stores (protocol config) (w_storage w) m -> Forall (Forall job_ok) jobs ->
  run_schedule clock steady pid ctx sched1 (start w jobs) = Some mc1 ->
  run_schedule clock steady pid ctx sched2 mc1 = Some mc2 ->
  exists hist1 hist2 m1 m2,
    explains (protocol config) hist1 m = Some m1 /\ stores (protocol config) (w_storage (mc_world mc1)) m1 /\
    explains (protocol config) hist2 m1 = Some m2 /\ stores (protocol config) (w_storage (mc_world mc2)) m2 /\
    (forall i t, mc_tasks mc1 !! i = Some t -> accounted hist1 i t) /\
    (forall i t, mc_tasks mc2 !! i = Some t -> accounted (hist1 ++ hist2) i t).
Proof.
  intros Hconf [Hprot Htmp] Hctx Hsample Hlog Hst Hjobs Hr1 Hr2.
  destruct (state_open config Hconf (length (shards_ (w_storage w))) l m w Hlog Hst eq_refl) as [Hw Ha].
  pose proof (linear_start config _ l m w jobs Hw Ha Hjobs) as H0.
  destruct (linear_run clock steady pid config ctx Hconf Hctx Hsample _ Hprot Htmp m sched1 _ _ _ _ _ _ H0 Hr1)
    as (hist1 & ss1 & l1 & m1 & H1).
  destruct (linear_run clock steady pid config ctx Hconf Hctx Hsample _ Hprot Htmp m sched2 _ _ _ _ _ _ H1 Hr2)
    as (hist2 & ss2 & l2 & m2 & H2).
  exists hist1, hist2, m1, m2. pose proof (ln_hist _ _ _ _ _ _ _ _ H1) as Hh1. pose proof (ln_hist _ _ _ _ _ _ _ _ H2) as Hh2.
  cbn [app] in *. rewrite explains_app, Hh1 in Hh2. split; [done|]. split; [apply (ln_state _ _ _ _ _ _ _ _ H1)|]. split; [done|].
  split; [apply (ln_state _ _ _ _ _ _ _ _ H2)|]. split; intros i t Ht; by eapply linear_accounted.
Qed.

(** Records that can be read back fit when the whole log does. *)
Lemma readable_fits config l n :
  Forall (readable config) l -> bsize (log_bytes l) + n <= max_request_bytes (protocol config) -> 0 <= n ->
  Forall (command_fits (parser_options_from_config (protocol config))) l.
Proof.
  intros Hl Hb Hn. rewrite list.Forall_forall in *. intros c Hc. apply (Hl c Hc). pose proof (log_bytes_le c l Hc). lia.
Qed.

(** C4. Durability under concurrency: any number of threads run requests as above,
    different threads writing different keys, on a database without deadlines
    and without a memory limit.  A server that is killed at any moment of any
    interleaving, even in the middle of appending a record or of rewriting the
    log, is followed by one that shows the same value for every key but those on
    which a command was in flight: nothing answered is lost.  The database at
    that moment is what the answered commands and those in flight give in some
    order.  The log, with a record cut by the crash, fits [max_request_bytes],
    the clock does not go back, and no system call or allocation fails. *)
Theorem concurrent_durable `{Platform} clock steady pid config ctx owner jobs l m w sched mc tail :
  (forall i, clock i <= clock (S i)) -> durable_config config -> rewritable pid config -> ctx_replay ctx = false ->
  0 <= sample_per_shard (expiration config) -> serving clock config l m w -> undated (w_storage w) ->
  Forall (Forall job_ok) jobs ->
  (forall i js, jobs !! i = Some js -> owned owner i js /\ all_fit config js) ->
  run_schedule clock steady pid ctx sched (start w jobs) = Some mc ->
  torn (parser_options_from_config (protocol config)) tail ->
  bsize (default [] (file_at (s_fs (w_sys (mc_world mc))) (aof_path (persistence config))) ++ tail)
    <= max_request_bytes (protocol config) ->
  exists hist m' g,
    explains (protocol config) hist m = Some m' /\ (forall i t, mc_tasks mc !! i = Some t -> accounted hist i t) /\
    stores (protocol config) (w_storage (mc_world mc)) m' /\
    (let '(out, w') := restart clock steady pid config (crash_write config tail (w_sys (mc_world mc))) in
     out = Started /\ forall t, clock (ticks w') <= t -> live (w_storage w') t = plain g) /\
    forall k, g !! k = m' !! k \/
      exists t c p, mc_tasks mc !! owner k = Some t /\ t_current t = Some (Request c, p) /\ subject c = Some (Some k).
Proof.
  intros Hclk Hconf [Hprot Htmp] Hctx Hsample (Hh & Hlog & Hrep & Hfit) Hu Hjobs Hown Hr Ht Hb.
  destruct (state_open config Hconf (length (shards_ (w_storage w))) l m w Hlog (holds_stores _ clock w m Hh Hu) eq_refl) as [Hw Ha].
  pose proof (linear_start config _ l m w jobs Hw Ha Hjobs) as H0.
  destruct (keeps_run clock steady pid config ctx Hconf Hctx Hsample _ Hprot Htmp owner m jobs sched _ _ _ _ _ _ mc H0
    (keeps_start config owner (length jobs) l m Hrep Hfit)) as (hist & ss & l' & m' & g & Hl & Hk); [|exact Hown|exact Hr|].
  { cbn. rewrite <- list_fmap_compose. clear. induction jobs as [|js jobs IH]; [done|]. cbn. by f_equal. }
  exists hist, m', g. split; [apply (ln_hist _ _ _ _ _ _ _ _ Hl)|]. split; [intros i t Hi; by eapply linear_accounted|].
  destruct (ln_state _ _ _ _ _ _ _ _ Hl) as ((Hio & _ & Hwf & Hman & Hfile & _) & Hst & _).
  split; [done|]. split; [|intros k; by eapply keeps_behind]. rewrite Hfile in Hb. cbn [default] in Hb.
  apply (crash_restart clock steady pid config Hclk Hconf l'); [|done|done].
  split; [done|]. split; [done|]. split; [done|]. split; [by rewrite Hfile, app_nil_r|]. split; [by left|].
  split; [apply (ku_replays _ _ _ _ _ _ Hk)|]. rewrite bsize_app in Hb.
  apply (readable_fits config l' (bsize tail)); [apply (ku_readable _ _ _ _ _ _ Hk)|done|apply bsize_nonneg].
Qed.

(** * Witnesses *)

(** A server started on an empty disk, with two clients that write different
    keys, one that reads both and one that rewrites the log, at the moment when
    the log has just been replaced. *)
Definition busy_world : World := (restart demo_clock (fun _ => 0) 7 kv_config (MkSys empty_fs [] 0)).2.

Definition busy_jobs : list (list Job) :=
  [[Request [lit "SET"; lit "a"; lit "1"]; Request [lit "INCR"; lit "a"]];
   [Request [lit "APPEND"; lit "b"; lit "x"]; Request [lit "DEL"; lit "b"]];
   [Request [lit "GET"; lit "a"]; ExpireRound; Request [lit "STRLEN"; lit "b"]; SyncRound];
   [Request [lit "BGREWRITEAOF"]]].

Definition busy_owner (k : bytes) : nat := if beq k (lit "a") then 0%nat else 1%nat.

Definition busy_ctx : CommandContext := MkContext None false false.

Definition busy_schedule : list nat :=
  (concat (replicate 3 [0; 1; 2; 3]) ++ concat (replicate 7 [0; 1; 2]) ++ concat (replicate 4 [3; 0; 1; 2]) ++
   concat (replicate 7 [3; 2]) ++ [3; 3])%nat.

Abbreviation busy_run := (run_schedule demo_clock (fun _ => 0) 7 busy_ctx busy_schedule (start busy_world busy_jobs)).

Lemma busy_serving : serving demo_clock kv_config [] ∅ busy_world.
Proof.
  assert (Hclk : forall i, demo_clock i <= demo_clock (S i)) by (intros i; unfold demo_clock; lia).
  destruct (restart_serving demo_clock (fun _ => 0) 7 kv_config Hclk kv_config_durable [] [] ∅ (MkSys empty_fs [] 0))
    as (w & Hs & _ & Hserve).
  - by apply empty_recoverable; [|apply empty_fs_wf|..].
  - vm_compute. discriminate.
  - unfold busy_world. rewrite Hs. by apply Hserve.
Qed.

Lemma busy_undated : undated (w_storage busy_world).
Proof.
  assert (Hn : w_storage busy_world = new_engine (storage kv_config) (protocol kv_config)) by (vm_compute; reflexivity).
  intros k x. rewrite Hn, new_engine_find. done.
Qed.

Lemma busy_jobs_ok : Forall (Forall job_ok) busy_jobs.
Proof. repeat (constructor; [repeat (constructor; [try done; discriminate|]); constructor|]). constructor. Qed.

Lemma busy_rewritable : rewritable 7 kv_config.
Proof. split; [|vm_compute; discriminate]. split; [apply kv_config_durable|]. by vm_compute. Qed.

Lemma busy_runs : (fun _ => tt) <$> busy_run = Some tt.
Proof. vm_compute. reflexivity. Qed.

Lemma linearizable_witness :
  match busy_run with
  | Some mc => exists hist m', explains (protocol kv_config) hist ∅ = Some m' /\
      stores (protocol kv_config) (w_storage (mc_world mc)) m' /\
      forall i t, mc_tasks mc !! i = Some t -> accounted hist i t
  | None => False
  end.
Proof.
  destruct busy_run as [mc|] eqn:Hr; [|pose proof busy_runs as Hn; by rewrite Hr in Hn].
  pose proof busy_serving as (Hh & Hlog & _).
  pose proof (holds_stores (protocol kv_config) demo_clock busy_world ∅ Hh busy_undated) as Hst.
  assert (Hsample : 0 <= sample_per_shard (expiration kv_config)) by discriminate.
  assert (Hctx : ctx_replay busy_ctx = false) by reflexivity.
  destruct (linearizable demo_clock (fun _ => 0) 7 kv_config busy_ctx busy_jobs [] ∅ busy_world busy_schedule [] mc mc
    kv_config_durable busy_rewritable Hctx Hsample Hlog Hst busy_jobs_ok Hr eq_refl) as (h1 & h2 & m1 & m2 & He & Hs & _ & _ & Ha & _).
  exists h1, m1. split; [exact He|]. split; [exact Hs|exact Ha].
Defined.

Lemma concurrent_durable_witness :
  match busy_run with
  | Some mc => exists g,
      (let '(out, w') := restart demo_clock (fun _ => 0) 7 kv_config (crash_write kv_config [] (w_sys (mc_world mc))) in
       out = Started /\ forall t, demo_clock (ticks w') <= t -> live (w_storage w') t = plain g)
  | None => False
  end.
Proof.
  destruct busy_run as [mc|] eqn:Hr; [|pose proof busy_runs as Hn; by rewrite Hr in Hn].
  assert (Hb : (fun mc => bsize (default [] (file_at (s_fs (w_sys (mc_world mc))) (aof_path (persistence kv_config))) ++ []))
               <$> busy_run = Some 54) by (vm_compute; reflexivity).
  rewrite Hr in Hb. apply (inj Some) in Hb. cbv beta in Hb.
  destruct (concurrent_durable demo_clock (fun _ => 0) 7 kv_config busy_ctx busy_owner busy_jobs [] ∅ busy_world
    busy_schedule mc []) as (hist & m' & g & _ & _ & _ & Hstart & _).
  - intros i. unfold demo_clock. lia.
  - exact kv_config_durable.
  - exact busy_rewritable.
  - reflexivity.
  - discriminate.
  - exact busy_serving.
  - exact busy_undated.
  - exact busy_jobs_ok.
  - clear Hr Hb. intros i js Hjs. split.
    + intros c k Hin Hw Hk. destruct i as [|[|[|[|i]]]]; cbn in Hjs; simplify_eq.
      all: repeat (apply elem_of_cons in Hin as [Hin|Hin]; [try discriminate Hin; injection Hin as ->|]);
        try (by apply elem_of_nil in Hin).
      all: try discriminate Hw. all: vm_compute in Hk; injection Hk as <-; reflexivity.
    + intros c Hin. destruct i as [|[|[|[|i]]]]; cbn in Hjs; simplify_eq.
      all: repeat (apply elem_of_cons in Hin as [Hin|Hin]; [try discriminate Hin; injection Hin as ->|]);
        try (by apply elem_of_nil in Hin).
      all: apply (fun o c Hf => List.Forall_inv (fits_check_ok o [c] Hf)); vm_compute; reflexivity.
  - exact Hr.
  - by left.
  - rewrite Hb. vm_compute. discriminate.
  - by exists g.
Defined.
