(* ===== verification/Findings.v ===== *)
(** Behaviours of the code that its comments, its documentation or its own
    intent do not suggest, each on a concrete run. *)
From stdpp Require Import gmultiset.
From S2P Require Import Threads.
From S2P Require Import Prelude Util Config Resp RespFacts Storage Fs FsFacts Aof Snapshot ConfigLoader Metrics Commands.
From S2P Require Import Recovery RecoveryProps KvRefine Durability Net NetFacts NetInv NetProps Server.

Definition steady0 (_ : nat) : Z := 0.

(** A server on an empty disk, and what it answers. *)
Definition fresh_server (clock : nat -> Z) (config : Config) : World :=
  (restart clock steady0 7 config (MkSys empty_fs [] 0)).2.

Definition answers (clock : nat -> Z) (cmds : list (list bytes)) (w : World) : list bytes :=
  response <$> (run_commands clock steady0 7 (w_config w) cmds w).1.

Definition after (clock : nat -> Z) (cmds : list (list bytes)) (w : World) : World :=
  (run_commands clock steady0 7 (w_config w) cmds w).2.

Definition log_content (w : World) : bytes :=
  default [] (file_at (s_fs (w_sys w)) (aof_path (persistence (w_config w)))).

(** The next server on the same disk. *)
Definition next_server (clock : nat -> Z) (w : World) : StartOutcome * World :=
  restart clock steady0 7 (w_config w) (w_sys w).

Definition words (l : list string) : list bytes := lit <$> l.

(** The clock shows 1970-01-12 and stands still. *)
Definition still (_ : nat) : Z := 1000000 * 1000000000.

(** [SET] with an expiry that is not a number succeeds, without an expiry. *)
Example set_bad_expiry :
  answers still [words ["SET"; "k"; "v"; "EX"; "soon"]; words ["TTL"; "k"]]%string (fresh_server still kv_config)
  = [simple (lit "OK"); integer (-1)].
Proof. vm_compute. reflexivity. Qed.

(** [PEXPIRE] with a large negative time deletes the key, but the deadline in
    the log wraps around to the future, and a restart brings the key back. *)
Example pexpire_resurrects :
  let w := after still [words ["SET"; "k"; "v"]; words ["PEXPIRE"; "k"; "-9223372036854775807"]]%string
             (fresh_server still kv_config) in
  answers still [words ["GET"; "k"]]%string w = [null_bulk] /\
  let '(out, w') := next_server still w in
  out = Started /\ answers still [words ["GET"; "k"]]%string w' = [bulk (lit "v")].
Proof. vm_compute. repeat split. Qed.

(** A log larger than [max_request_bytes] cannot be replayed: the server that
    wrote it does not start again. *)
Definition small_requests : Config :=
  MkConfig default_server (MkStorageConfig 3 0) default_persistence default_expiration (lit "info") true false
    (MkProtocolConfig 60 1024 1024 1024 1000000).

Example log_outgrows_limit :
  let w := after still [words ["SET"; "a"; "1"]; words ["SET"; "b"; "2"]; words ["SET"; "c"; "3"]]%string
             (fresh_server still small_requests) in
  bsize (log_content w) = 81 /\ (next_server still w).1 = Exited 3.
Proof. vm_compute. repeat split. Qed.

(** A torn tail is ignored at the next start but stays in the file: the records
    appended after it make the log unreadable. *)
Example torn_tail_corrupts :
  let w := after still [words ["SET"; "a"; "1"]]%string (fresh_server still kv_config) in
  let torn := crash_write kv_config (lit "*3" ++ crlf ++ lit "$3") (w_sys w) in
  let '(out1, w1) := restart still steady0 7 kv_config torn in
  let '(out2, _) := next_server still (after still [words ["SET"; "b"; "2"]]%string w1) in
  out1 = Started /\ out2 = Exited 3.
Proof. vm_compute. repeat split. Qed.

(** [INCR] makes a key with a deadline permanent, but its record is replayed
    against the deadline of the record before: after the deadline the restarted
    server counts from zero. *)
Definition jump (i : nat) : Z := if (i <? 8)%nat then still 0 else still 0 + 3600 * 1000000000.

Example incr_loses_value :
  let w := after jump [words ["SET"; "k"; "5"; "PX"; "60000"]; words ["INCR"; "k"]]%string
             (fresh_server jump kv_config) in
  let w1 := put_sys (MkSys (s_fs (w_sys w)) (s_io (w_sys w)) 8) w in
  answers jump [words ["GET"; "k"]]%string w1 = [bulk (lit "6")] /\
  let '(out, w2) := next_server jump w1 in
  out = Started /\ answers jump [words ["GET"; "k"]]%string w2 = [bulk (lit "1")].
Proof. vm_compute. repeat split. Qed.

(** The error for an unknown command repeats its name verbatim, line ends
    included: a client that frames replies by lines sees a reply that was never
    sent. *)
Example unknown_command_splits :
  answers still [[lit "x" ++ crlf ++ lit "+OK" ++ crlf]] (fresh_server still kv_config)
  = [lit "-ERR unknown command 'x" ++ crlf ++ lit "+OK" ++ crlf ++ lit "'" ++ crlf].
Proof. vm_compute. reflexivity. Qed.

(** Inline commands are not bound by [max_array_elements]. *)
Example inline_unbounded :
  (next_command (MkParser (parser_options_from_config (MkProtocolConfig 1000 2 1024 1024 1000))
     (lit "PING a b c" ++ crlf))).1
  = COk (words ["PING"; "a"; "b"; "c"])%string (lit "PING a b c" ++ crlf).
Proof. vm_compute. reflexivity. Qed.

(** Without a memory limit the memory estimate that [INFO] reports stays 0. *)
Example memory_estimate_zero :
  used_memory_ (w_storage (after still [words ["SET"; "k"; "some value"]]%string (fresh_server still kv_config))) = 0.
Proof. vm_compute. reflexivity. Qed.

(** When a later pair is too large, [MSET] fails after the earlier pairs were
    stored; they are not logged and vanish at the next start. *)
Definition small_values : Config :=
  MkConfig default_server (MkStorageConfig 3 0) default_persistence default_expiration (lit "info") true false
    (MkProtocolConfig 10000 1024 1024 3 1000000).

Example mset_partial_lost :
  let w := after still [words ["MSET"; "a"; "1"; "b"; "long"]]%string (fresh_server still small_values) in
  answers still [words ["GET"; "a"]]%string w = [bulk (lit "1")] /\
  let '(out, w') := next_server still w in
  out = Started /\ answers still [words ["GET"; "a"]]%string w' = [null_bulk].
Proof. vm_compute. repeat split. Qed.

(** After a protocol error the connection is only marked: the next bytes are
    still read and executed. *)
Example reads_after_error :
  let c := new_connection [] default_protocol in
  let '((_, c1), w1) := read_from still steady0 7 None [RData (lit "*x" ++ crlf)] c (fresh_server still kv_config) in
  let '((_, c2), w2) := read_from still steady0 7 None [RData (lit "*x" ++ crlf)] c1 w1 in
  c_close_after_write c1 = true /\ bsize (c_write_buffer c2) = 2 * bsize (c_write_buffer c1).
Proof. vm_compute. repeat split. Qed.

(** [SAVE] installs the snapshot before the manifest.  When the process dies in
    between, the old manifest vouches for the new snapshot, and the records
    between the two checkpoints are applied to it a second time. *)
Example save_crash_repeats :
  let w := after still [words ["SET"; "n"; "1"]; words ["SAVE"]; words ["INCR"; "n"]]%string
             (fresh_server still kv_config) in
  let '((st, _), sys) := save_snapshot_file still (store_of kv_config) (w_storage w) (w_sys w) in
  let '(out, w') := restart still steady0 7 kv_config sys in
  answers still [words ["GET"; "n"]]%string w = [bulk (lit "2")] /\ st = status_ok /\ out = Started /\
  answers still [words ["GET"; "n"]]%string w' = [bulk (lit "3")].
Proof. vm_compute. repeat split. Qed.

(** A rewrite must remove the manifest, whose offset speaks of the old log.  It
    removes the configured path, which is empty when [SAVE] uses the default
    one: a restart then loads the old snapshot and skips the front of the new
    log.  The deleted key is back and a new one is gone. *)
Definition default_manifest : Config :=
  MkConfig default_server (MkStorageConfig 3 0)
    (MkPersistenceConfig true (lit "./data/veloxdb.aof") (lit "everysec") (lit "./data/veloxdb.snapshot") [])
    default_expiration (lit "info") true false default_protocol.

Definition before_rewrite : list (list bytes) :=
  [words ["SET"; "k"; "v"]; words ["SAVE"]; words ["DEL"; "k"]; words ["SET"; "j"; "v"]; words ["SET"; "l"; "w"]]%string.

Definition three_keys : list bytes := words ["MGET"; "k"; "j"; "l"]%string.

Example manifest_stays :
  let w := after still (before_rewrite ++ [words ["BGREWRITEAOF"%string]]) (fresh_server still default_manifest) in
  let '(out, w') := next_server still w in
  answers still [three_keys] w = [array_of_bulk [None; Some (lit "v"); Some (lit "w")]] /\ out = Started /\
  answers still [three_keys] w' = [array_of_bulk [Some (lit "v"); Some (lit "v"); None]].
Proof. vm_compute. repeat split. Qed.

(** The same happens with a configured path when the removal fails, which is
    ignored: the rewrite still reports success. *)
Example manifest_removal_ignored :
  let w := after still before_rewrite (fresh_server still kv_config) in
  let sys := MkSys (s_fs (w_sys w)) (replicate 10 IoOk ++ [IoError (lit "Permission denied")]) (s_ticks (w_sys w)) in
  let '((r, _, _), sys') := rewrite still 7 (default demo_aof (w_aof w)) (w_storage w) sys in
  let '(out, w') := restart still steady0 7 kv_config sys' in
  s_io sys' = [] /\ r = status_ok /\ out = Started /\
  answers still [three_keys] w' = [array_of_bulk [Some (lit "v"); Some (lit "v"); None]].
Proof. vm_compute. repeat split. Qed.

(** When installing a rewritten log fails but the temporary file can be removed,
    the reported reason is that of the removal. *)
Example rewrite_error_message :
  (install_rewrite demo_aof (lit "tmp") (MkSys demo_fs [IoError (lit "Permission denied"); IoOk] 0)).1.1
  = MkStatus IOError (lit "failed to install rewritten AOF: Success").
Proof. vm_compute. reflexivity. Qed.

(** After a write that failed half way, the size the object reports, and the
    next checkpoint records, is not that of the file. *)
Example size_after_failure :
  let '((st, a), s) := Aof.append demo_aof [lit "PING"]
                         (MkSys demo_fs [IoShort 5; IoError (lit "No space left on device")] 0) in
  ok_status st = false /\ current_size_ a = 3 /\
  bsize (default [] (file_at (s_fs s) (aof_path (aof_config demo_aof)))) = 8.
Proof. vm_compute. repeat split. Qed.

(** Clients are counted when a worker installs them, not when they are
    accepted: a burst exceeds [max_clients]. *)
Definition one_client : Config :=
  MkConfig (MkServerConfig (lit "127.0.0.1") 6379 1 1) (MkStorageConfig 3 0) default_persistence default_expiration
    (lit "info") true false default_protocol.

Example max_clients_burst :
  let st := MkNet [new_worker] new_acceptor (boot steady0 one_client (MkSys empty_fs [] 0)) in
  (fun st => clients (n_world st)) <$>
    net_run still steady0 7 None
      [EAccept [Accepted 7 (lit "a"); Accepted 8 (lit "b"); Accepted 9 (lit "c")]; EEpoll 0 [Wakeup []]] st
  = Some 3.
Proof. vm_compute. reflexivity. Qed.

(** The flag [--max-output-buffer-bytes] is accepted, but the help does not
    mention it. *)
Fixpoint contains (needle hay : bytes) : bool :=
  beq (take (length needle) hay) needle || match hay with [] => false | _ :: hay => contains needle hay end.

Example help_omits_flag :
  find_alias (lit "max-output-buffer-bytes") aliases = Some (lit "protocol.max_output_buffer_bytes") /\
  contains (lit "--max-output-buffer-bytes") help_text = false /\ contains (lit "--max-value-size") help_text = true.
Proof. vm_compute. repeat split. Qed.

(** The descriptors of connections that were accepted but not yet installed are
    never closed: a client that connects just before the signal is in the
    worker's queue when the server ends. *)
Example pending_not_closed :
  let turns := [MkTurn [] false (WaitReady [[Accepted 7 (lit "a")]]); MkTurn [] true WaitIntr] in
  let '(r, h) := run_server still steady0 7 None turns
                   (MkHost (boot steady0 kv_config (MkSys empty_fs [] 0)) ∅ 3 no_sockets) in
  r = Ended status_ok /\ h_open h = ∅ /\ h_clients h = MkSockets {[+ 7 +]} ∅ {[+ 7 +]}.
Proof. vm_compute. repeat split. Qed.

(** The guard that a write holds is shared between workers, so the order of two
    writes in the database and in the log can differ: two clients set a key,
    the second between the first one's write and its record, and after a
    restart the other one has won. *)
Definition racing_jobs : list (list Job) :=
  [[Request (words ["SET"; "k"; "1"]%string)]; [Request (words ["SET"; "k"; "2"]%string)]].

Example log_order_differs :
  match run_schedule still steady0 7 (MkContext None false false) (replicate 6 0%nat ++ replicate 11 1%nat ++ replicate 5 0%nat)
          (Threads.start (fresh_server still kv_config) racing_jobs) with
  | Some mc =>
      let '(out, w') := next_server still (mc_world mc) in
      map (fun t => snd <$> t_done t) (mc_tasks mc) = replicate 2 [Some (done_ (simple (lit "OK")))] /\
      answers still [words ["GET"; "k"]]%string (mc_world mc) = [bulk (lit "2")] /\ out = Started /\
      answers still [words ["GET"; "k"]]%string w' = [bulk (lit "1")]
  | None => False
  end.
Proof. vm_compute. repeat split. Qed.

(** When a rewritten log is in place but cannot be reopened, the object keeps
    the descriptor of the unlinked old file: the next append succeeds, and the
    log does not have it. *)
Definition rewritten_fs : Fs :=
  MkFs {[lit "./data/veloxdb.aof" := 0%nat; lit "tmp" := 1%nat]} {[0%nat := lit "old"; 1%nat := lit "new"]} 2.

Example reopen_failure_loses :
  let '((st, a), s) := install_rewrite demo_aof (lit "tmp")
                         (MkSys rewritten_fs (replicate 5 IoOk ++ [IoError (lit "Too many open files")]) 0) in
  let '((st2, _), s2) := Aof.append a [lit "FLUSHDB"] s in
  ok_status st = false /\ ok_status st2 = true /\
  file_at (s_fs s2) (aof_path (aof_config demo_aof)) = Some (lit "new").
Proof. vm_compute. repeat split. Qed.
